(** * Due Dates: the deadline store of the browser extension

    A shallow embedding of the background service worker (background.js)
    and of the date normaliser (lib/date-parser.js and its inlined copies
    in the two content scripts), with the properties of the reconciliation
    engine, the notification scheduler, the badge counter, the retention
    sweep and the date normaliser.

    Conventions.
    - An instant is the millisecond time value of a JavaScript [Date],
      an integer.  A stored record keeps its due date as the ISO string
      that [toISOString] printed; the service worker only ever reads it
      back through [new Date(item.dueDate)], so a record carries the time
      value itself.
    - [now] is the reading of the system clock that the JavaScript takes
      with [new Date()]; it is an argument here.
    - The durable store is read once and written once per handler; a
      handler is a function from the stored document to the next one. *)

From Stdlib Require Import ZArith List String Ascii Bool Lia DecimalString.
From Stdlib Require Import Permutation Sorted.
From Stdlib Require DecimalPos.
Import ListNotations.

Local Open Scope Z_scope.

(** ** JavaScript strings and regular expressions

    A string is a sequence of code units below 256 (Latin-1); the
    functions below are the [String.prototype] methods and the pattern
    matcher that the date normaliser calls. *)

Module JsString.

Local Open Scope string_scope.

Definition code (c : ascii) : N := N_of_ascii c.

Definition isDigit (c : ascii) : bool :=
  (48 <=? code c)%N && (code c <=? 57)%N.

Definition isUpper (c : ascii) : bool :=
  (65 <=? code c)%N && (code c <=? 90)%N.

Definition isLower (c : ascii) : bool :=
  (97 <=? code c)%N && (code c <=? 122)%N.

(** [\w]: a letter, a digit or the underscore. *)
Definition isWord (c : ascii) : bool :=
  isDigit c || isUpper c || isLower c || (code c =? 95)%N.

(** [\s]: tab, line feed, vertical tab, form feed, carriage return,
    space and the no-break space. *)
Definition isSpace (c : ascii) : bool :=
  ((9 <=? code c)%N && (code c <=? 13)%N)
  || (code c =? 32)%N || (code c =? 160)%N.

(** The lower-case mapping: A-Z, and the Latin-1 capitals U+00C0 to
    U+00DE other than the multiplication sign. *)
Definition lowerChar (c : ascii) : ascii :=
  if isUpper c
     || ((192 <=? code c)%N && (code c <=? 222)%N
         && negb (code c =? 215)%N)
  then ascii_of_N (code c + 32)
  else c.

Fixpoint toLowerCase (s : string) : string :=
  match s with
  | EmptyString => EmptyString
  | String c s' => String (lowerChar c) (toLowerCase s')
  end.

(** [s.includes(needle)]. *)
Fixpoint includes (needle s : string) : bool :=
  prefix needle s
  || match s with
     | EmptyString => false
     | String _ s' => includes needle s'
     end.

Fixpoint trimStart (s : string) : string :=
  match s with
  | EmptyString => EmptyString
  | String c s' => if isSpace c then trimStart s' else s
  end.

Fixpoint trimEnd (s : string) : string :=
  match s with
  | EmptyString => EmptyString
  | String c s' =>
      match trimEnd s' with
      | EmptyString => if isSpace c then EmptyString else String c EmptyString
      | t => String c t
      end
  end.

Definition trim (s : string) : string := trimEnd (trimStart s).

(** [parseInt] on a string that starts with decimal digits: the value
    of the digits.  Every call passes the capture of a [\d] group. *)
Fixpoint parseDigits (acc : Z) (s : string) : Z :=
  match s with
  | EmptyString => acc
  | String c s' =>
      if isDigit c
      then parseDigits (10 * acc + Z.of_N (code c - 48)) s'
      else acc
  end.

Definition parseInt (s : string) : Z := parseDigits 0 s.

Fixpoint drop (n : nat) (s : string) : string :=
  match n, s with
  | S n', String _ s' => drop n' s'
  | _, _ => s
  end.

Fixpoint take (n : nat) (s : string) : string :=
  match n, s with
  | S n', String c s' => String c (take n' s')
  | _, _ => EmptyString
  end.

(** *** Patterns *)

(** The patterns of the normaliser: classes of characters, greedy
    quantifiers over a class, sequence, alternation, numbered capturing
    groups, the greedy optional non-capturing group and the word
    boundary. *)
Inductive Regex :=
| Eps
| Cls (p : ascii -> bool)
| Rep (p : ascii -> bool) (lo : nat) (hi : option nat)
| Seq (a b : Regex)
| Alt (a b : Regex)
| Grp (n : nat) (a : Regex)
| Opt (a : Regex)
| Bnd.

(** [p{lo,hi}] and [p{lo,}]. *)
Definition between (p : ascii -> bool) (lo hi : nat) : Regex := Rep p lo (Some hi).
Definition atLeast (p : ascii -> bool) (lo : nat) : Regex := Rep p lo None.

(** A literal character, and the same under the [i] flag. *)
Definition chr (c : ascii) : Regex := Cls (Ascii.eqb c).
Definition chrI (c : ascii) : Regex := Cls (fun x => Ascii.eqb (lowerChar x) c).

Fixpoint lit (s : string) : Regex :=
  match s with
  | EmptyString => Eps
  | String c EmptyString => chr c
  | String c s' => Seq (chr c) (lit s')
  end.

Fixpoint litI (s : string) : Regex :=
  match s with
  | EmptyString => Eps
  | String c EmptyString => chrI c
  | String c s' => Seq (chrI c) (litI s')
  end.

Definition Captures := list (option string).

Fixpoint setCapture (n : nat) (v : string) (caps : Captures) : Captures :=
  match n, caps with
  | O, _ :: rest => Some v :: rest
  | S n', c :: rest => c :: setCapture n' v rest
  | _, [] => []
  end.

(** The number of leading characters of [s] in the class, at most
    [limit] of them. *)
Fixpoint span (p : ascii -> bool) (limit : option nat) (s : string) : nat :=
  match s with
  | EmptyString => O
  | String c s' =>
      if p c then
        match limit with
        | Some O => O
        | Some (S l) => S (span p (Some l) s')
        | None => S (span p None s')
        end
      else O
  end.

(** The character before the position reached after [j] characters of
    [s], [prev] being the character before [s]. *)
Fixpoint prevAfter (prev : option ascii) (j : nat) (s : string) : option ascii :=
  match j, s with
  | S j', String c s' => prevAfter (Some c) j' s'
  | _, _ => prev
  end.

Definition wordBefore (prev : option ascii) : bool :=
  match prev with
  | Some c => isWord c
  | None => false
  end.

Definition wordAhead (s : string) : bool :=
  match s with
  | String c _ => isWord c
  | EmptyString => false
  end.

Section Matcher.

Variable R : Type.

(** A greedy quantifier gives back one character at a time, down to
    [lo], until the rest of the pattern matches. *)
Fixpoint backoff (j lo : nat) (prev : option ascii) (s : string)
    (k : option ascii -> string -> option R) : option R :=
  match k (prevAfter prev j s) (drop j s) with
  | Some x => Some x
  | None =>
      match j with
      | O => None
      | S j' => if (j' <? lo)%nat then None else backoff j' lo prev s k
      end
  end.

(** The backtracking matcher: [matchAt r prev s caps k] matches [r] at
    the head of [s], [prev] being the character before [s], and hands
    the position reached and the captures to the continuation [k], the
    rest of the pattern. *)
Fixpoint matchAt (r : Regex) (prev : option ascii) (s : string) (caps : Captures)
    (k : option ascii -> string -> Captures -> option R) : option R :=
  match r with
  | Eps => k prev s caps
  | Cls p =>
      match s with
      | String c s' => if p c then k (Some c) s' caps else None
      | EmptyString => None
      end
  | Rep p lo hi =>
      let n := span p hi s in
      if (n <? lo)%nat then None
      else backoff n lo prev s (fun prev' s' => k prev' s' caps)
  | Seq a b =>
      matchAt a prev s caps (fun prev' s' caps' => matchAt b prev' s' caps' k)
  | Alt a b =>
      match matchAt a prev s caps k with
      | Some x => Some x
      | None => matchAt b prev s caps k
      end
  | Grp n a =>
      matchAt a prev s caps
        (fun prev' s' caps' =>
           k prev' s'
             (setCapture n (take (String.length s - String.length s') s) caps'))
  | Opt a =>
      match matchAt a prev s caps k with
      | Some x => Some x
      | None => k prev s caps
      end
  | Bnd =>
      if xorb (wordBefore prev) (wordAhead s) then k prev s caps else None
  end.

End Matcher.

(** What [exec] reports: the text before the match, the text matched,
    the text after it and the captures (group 1 is first). *)
Record Match := mkMatch {
  before : string;
  matched : string;
  after : string;
  groups : Captures
}.

Definition matchHere (r : Regex) (ngroups : nat) (prev : option ascii)
    (s : string) : option (string * Captures) :=
  matchAt (string * Captures) r prev s (repeat None ngroups)
          (fun _ s' caps => Some (s', caps)).

(** The leftmost match: [pre] is the text already passed and [prev] its
    last character. *)
Fixpoint search (r : Regex) (ngroups : nat) (pre : string) (prev : option ascii)
    (s : string) : option Match :=
  match matchHere r ngroups prev s with
  | Some (s', caps) =>
      Some {| before := pre;
              matched := take (String.length s - String.length s') s;
              after := s';
              groups := caps |}
  | None =>
      match s with
      | EmptyString => None
      | String c s' =>
          search r ngroups (pre ++ String c EmptyString) (Some c) s'
      end
  end.

(** [s.match(r)] for a pattern without the [g] flag. *)
Definition exec (r : Regex) (ngroups : nat) (s : string) : option Match :=
  search r ngroups EmptyString None s.

(** [match[n]]: the text of group [n], from 1; [None] is [undefined]. *)
Definition group (n : nat) (m : Match) : option string :=
  match n with
  | O => Some (matched m)
  | S n' => nth n' (groups m) None
  end.

(** [s.replace(r, by)] for a pattern without the [g] flag. *)
Definition replaceFirst (r : Regex) (ngroups : nat) (by_ : string) (s : string)
    : string :=
  match exec r ngroups s with
  | Some m => before m ++ by_ ++ after m
  | None => s
  end.

(** [s.replace(r, by)] for a pattern with the [g] flag: the matches are
    taken from left to right, each search starting where the previous
    match ended (one character further after an empty match).  [skip]
    counts the characters of the current match still to pass. *)
Fixpoint replaceFrom (r : Regex) (ngroups : nat) (by_ : string) (skip : nat)
    (prev : option ascii) (s : string) : string :=
  match skip with
  | S skip' =>
      match s with
      | EmptyString => EmptyString
      | String c s' => replaceFrom r ngroups by_ skip' (Some c) s'
      end
  | O =>
      match s with
      | EmptyString =>
          match matchHere r ngroups prev EmptyString with
          | Some _ => by_
          | None => EmptyString
          end
      | String c s' =>
          match matchHere r ngroups prev s with
          | Some (rest, _) =>
              match (String.length s - String.length rest)%nat with
              | O => by_ ++ String c (replaceFrom r ngroups by_ O (Some c) s')
              | S n => by_ ++ replaceFrom r ngroups by_ n (Some c) s'
              end
          | None => String c (replaceFrom r ngroups by_ O (Some c) s')
          end
      end
  end.

Definition replaceAll (r : Regex) (ngroups : nat) (by_ : string) (s : string)
    : string :=
  replaceFrom r ngroups by_ O None s.

End JsString.

(** ** JavaScript dates (ECMAScript, Date objects)

    A time value is a number of milliseconds since 1970-01-01T00:00:00Z.
    The abstract operations below are those of the language
    specification, with its names. *)

Module JsDate.

Definition msPerSecond : Z := 1000.
Definition msPerMinute : Z := 60000.
Definition msPerHour : Z := 3600000.
Definition msPerDay : Z := 86400000.

Definition Day (t : Z) : Z := t / msPerDay.
Definition TimeWithinDay (t : Z) : Z := t mod msPerDay.

Definition DaysInYear (y : Z) : Z :=
  if negb (y mod 4 =? 0) then 365
  else if negb (y mod 100 =? 0) then 366
  else if negb (y mod 400 =? 0) then 365
  else 366.

Definition DayFromYear (y : Z) : Z :=
  365 * (y - 1970) + (y - 1969) / 4 - (y - 1901) / 100 + (y - 1601) / 400.

Definition TimeFromYear (y : Z) : Z := msPerDay * DayFromYear y.

(** [YearFromTime t] is the largest [y] with [TimeFromYear y <= t]
    (lemma [YearFromTime_spec]).  It is computed from the day number by
    eras of 400 years (146097 days), centuries (36524 days), groups of
    four years (1461 days) and years, counted from 1601-01-01. *)
Definition YearFromDay (d : Z) : Z :=
  let z := d - DayFromYear 1601 in
  let e := z / 146097 in
  let r := z mod 146097 in
  let c := Z.min (r / 36524) 3 in
  let r1 := r - c * 36524 in
  let q := r1 / 1461 in
  let r2 := r1 - q * 1461 in
  let a := Z.min (r2 / 365) 3 in
  1601 + 400 * e + 100 * c + 4 * q + a.

Definition YearFromTime (t : Z) : Z := YearFromDay (Day t).

Definition InLeapYear (t : Z) : Z :=
  if DaysInYear (YearFromTime t) =? 366 then 1 else 0.

Definition DayWithinYear (t : Z) : Z :=
  Day t - DayFromYear (YearFromTime t).

(** The number of days of the year before month [m] (0 is January). *)
Definition daysBeforeMonth (m leap : Z) : Z :=
  match m with
  | 0 => 0
  | 1 => 31
  | 2 => 59 + leap
  | 3 => 90 + leap
  | 4 => 120 + leap
  | 5 => 151 + leap
  | 6 => 181 + leap
  | 7 => 212 + leap
  | 8 => 243 + leap
  | 9 => 273 + leap
  | 10 => 304 + leap
  | _ => 334 + leap
  end.

(** The number of days that month [month] has in every year. *)
Definition commonDays (month : Z) : Z :=
  match month with
  | 1 => 28
  | 3 | 5 | 8 | 10 => 30
  | _ => 31
  end.

Definition MonthFromTime (t : Z) : Z :=
  let d := DayWithinYear t in
  let leap := InLeapYear t in
  if d <? 31 then 0
  else if d <? 59 + leap then 1
  else if d <? 90 + leap then 2
  else if d <? 120 + leap then 3
  else if d <? 151 + leap then 4
  else if d <? 181 + leap then 5
  else if d <? 212 + leap then 6
  else if d <? 243 + leap then 7
  else if d <? 273 + leap then 8
  else if d <? 304 + leap then 9
  else if d <? 334 + leap then 10
  else 11.

Definition DateFromTime (t : Z) : Z :=
  DayWithinYear t - daysBeforeMonth (MonthFromTime t) (InLeapYear t) + 1.

Definition HourFromTime (t : Z) : Z := (t / msPerHour) mod 24.
Definition MinFromTime (t : Z) : Z := (t / msPerMinute) mod 60.
Definition SecFromTime (t : Z) : Z := (t / msPerSecond) mod 60.
Definition msFromTime (t : Z) : Z := t mod msPerSecond.

Definition MakeTime (hour min sec ms : Z) : Z :=
  hour * msPerHour + min * msPerMinute + sec * msPerSecond + ms.

(** [MakeDay]: the day number of the first of the month [month] of
    [year], months beyond December carrying into the year, plus
    [date - 1]. *)
Definition MakeDay (year month date : Z) : Z :=
  let ym := year + month / 12 in
  let mn := month mod 12 in
  let leap := if DaysInYear ym =? 366 then 1 else 0 in
  DayFromYear ym + daysBeforeMonth mn leap + date - 1.

Definition MakeDate (day time : Z) : Z := day * msPerDay + time.

(** A [Date] holds a time value or NaN ([None], an invalid date). *)
Definition Date := option Z.

Definition maxTime : Z := 8640000000000000.

Definition TimeClip (t : Z) : Date :=
  if Z.abs t <=? maxTime then Some t else None.

Section LocalTimeZone.

(** The offset of local time, in milliseconds: [LocalTZA t true] at the
    UTC time value [t], [LocalTZA t false] at the local time value [t].
    It is the host's. *)
Variable LocalTZA : Z -> bool -> Z.

Definition LocalTime (t : Z) : Z := t + LocalTZA t true.
Definition UTC (t : Z) : Z := t - LocalTZA t false.

(** [new Date(year, month, date, hours, minutes, seconds)] with integer
    arguments: a year from 0 to 99 stands for 1900 + year. *)
Definition newDate (year month date hours minutes seconds : Z) : Date :=
  let yr := if (0 <=? year) && (year <=? 99) then 1900 + year else year in
  TimeClip (UTC (MakeDate (MakeDay yr month date)
                          (MakeTime hours minutes seconds 0))).

Definition getFullYear (t : Z) : Z := YearFromTime (LocalTime t).
Definition getMonth (t : Z) : Z := MonthFromTime (LocalTime t).
Definition getDate (t : Z) : Z := DateFromTime (LocalTime t).

(** [date.setFullYear(year)] on a valid date. *)
Definition setFullYear (year : Z) (tv : Z) : Date :=
  let t := LocalTime tv in
  TimeClip (UTC (MakeDate (MakeDay year (MonthFromTime t) (DateFromTime t))
                          (TimeWithinDay t))).

(** [date.setHours(hour, min, sec, ms)] on a valid date. *)
Definition setHours (hour min sec ms : Z) (tv : Z) : Date :=
  let t := LocalTime tv in
  TimeClip (UTC (MakeDate (Day t) (MakeTime hour min sec ms))).

End LocalTimeZone.

(** *** toISOString *)

Local Open Scope string_scope.

Definition digits (n : Z) : string :=
  NilZero.string_of_uint (N.to_uint (Z.to_N n)).

Fixpoint zeros (n : nat) : string :=
  match n with
  | O => ""
  | S n' => String "0" (zeros n')
  end.

(** The decimal digits of [n >= 0], padded with zeros to [width]. *)
Definition pad (width : nat) (n : Z) : string :=
  let d := digits n in
  zeros (width - String.length d)%nat ++ d.

Definition isoYear (y : Z) : string :=
  if ((0 <=? y) && (y <=? 9999))%Z then pad 4 y
  else if (y <? 0)%Z then "-" ++ pad 6 (- y)
  else "+" ++ pad 6 y.

(** The text of [toISOString] for a time value. *)
Definition isoString (t : Z) : string :=
  isoYear (YearFromTime t) ++ "-" ++ pad 2 (MonthFromTime t + 1)%Z
    ++ "-" ++ pad 2 (DateFromTime t)
    ++ "T" ++ pad 2 (HourFromTime t) ++ ":" ++ pad 2 (MinFromTime t)
    ++ ":" ++ pad 2 (SecFromTime t) ++ "." ++ pad 3 (msFromTime t) ++ "Z".

End JsDate.

(** ** The date normaliser *)

(** The values a caller can pass for [dateStr]. *)
Inductive JsValue :=
| JsUndefined
| JsNull
| JsBoolean (b : bool)
| JsNumber (n : Z)
| JsNaN
| JsString (s : string)
| JsObject.

Definition toBoolean (v : JsValue) : bool :=
  match v with
  | JsUndefined | JsNull | JsNaN => false
  | JsBoolean b => b
  | JsNumber n => negb (n =? 0)
  | JsString s => negb (String.eqb s EmptyString)
  | JsObject => true
  end.

Definition isString (v : JsValue) : bool :=
  match v with
  | JsString _ => true
  | _ => false
  end.

(** The outcome of running a piece of JavaScript: a value, or an
    exception on its way up. *)
Inductive Error := RangeError.

Inductive Completion (A : Type) :=
| Normal (a : A)
| Throw (e : Error).

Arguments Normal {A} a.
Arguments Throw {A} e.

Definition bind {A B : Type} (c : Completion A) (f : A -> Completion B)
    : Completion B :=
  match c with
  | Normal a => f a
  | Throw e => Throw e
  end.

(** [try { body } catch (e) { handler }]. *)
Definition tryCatch {A : Type} (body : Completion A) (handler : Error -> Completion A)
    : Completion A :=
  match body with
  | Normal a => Normal a
  | Throw e => handler e
  end.

Notation "x <- c ;; k" := (bind c (fun x => k))
  (at level 61, c at next level, right associativity).

Module Normaliser.
Import JsString JsDate.

Local Open Scope string_scope.

(** [date.toISOString()]: a [RangeError] on an invalid date. *)
Definition toISOString (date : Date) : Completion string :=
  match date with
  | Some tv => Normal (isoString tv)
  | None => Throw RangeError
  end.

(** The patterns, in the order of their appearance in the source. *)

(** [/due\s*/g] *)
Definition dueRe : Regex := Seq (lit "due") (atLeast isSpace 0).
(** [/until\s*/g] *)
Definition untilRe : Regex := Seq (lit "until") (atLeast isSpace 0).
(** [/@/g] *)
Definition atRe : Regex := chr "@".
(** [/\s+/g] *)
Definition spacesRe : Regex := atLeast isSpace 1.

(** [/(\d{1,2}):(\d{2})\s*(am|pm)/i] *)
Definition timeRe : Regex :=
  Seq (Grp 0 (between isDigit 1 2))
  (Seq (chr ":")
  (Seq (Grp 1 (between isDigit 2 2))
  (Seq (atLeast isSpace 0)
       (Grp 2 (Alt (litI "am") (litI "pm")))))).

(** [/\d{1,2}:\d{2}\s*(am|pm)/i] *)
Definition timeTextRe : Regex :=
  Seq (between isDigit 1 2)
  (Seq (chr ":")
  (Seq (between isDigit 2 2)
  (Seq (atLeast isSpace 0)
       (Grp 0 (Alt (litI "am") (litI "pm")))))).

(** [/\b(cst|est|pst|mst|cdt|edt|pdt|mdt)\b/gi] *)
Definition zoneRe : Regex :=
  Seq Bnd
  (Seq (Grp 0 (Alt (litI "cst") (Alt (litI "est") (Alt (litI "pst")
               (Alt (litI "mst") (Alt (litI "cdt") (Alt (litI "edt")
               (Alt (litI "pdt") (litI "mdt")))))))))
       Bnd).

(** [/(\w+),\s*(\w+)\s+(\d{1,2})/i] *)
Definition weekdayMonthDayRe : Regex :=
  Seq (Grp 0 (atLeast isWord 1))
  (Seq (chr ",")
  (Seq (atLeast isSpace 0)
  (Seq (Grp 1 (atLeast isWord 1))
  (Seq (atLeast isSpace 1)
       (Grp 2 (between isDigit 1 2)))))).

(** [/(\w+)\s+(\d{1,2})/i] *)
Definition monthDayRe : Regex :=
  Seq (Grp 0 (atLeast isWord 1))
  (Seq (atLeast isSpace 1)
       (Grp 1 (between isDigit 1 2))).

(** [/(\d{1,2})\/(\d{1,2})(?:\/(\d{2,4}))?/] *)
Definition slashRe : Regex :=
  Seq (Grp 0 (between isDigit 1 2))
  (Seq (chr "/")
  (Seq (Grp 1 (between isDigit 1 2))
       (Opt (Seq (chr "/") (Grp 2 (between isDigit 2 4)))))).

(** [/(\d{1,2})\/(\d{1,2})\/(\d{2,4})/] *)
Definition slashYearRe : Regex :=
  Seq (Grp 0 (between isDigit 1 2))
  (Seq (chr "/")
  (Seq (Grp 1 (between isDigit 1 2))
  (Seq (chr "/")
       (Grp 2 (between isDigit 2 4))))).

(** [/(\d{4})-(\d{1,2})-(\d{1,2})/] *)
Definition isoRe : Regex :=
  Seq (Grp 0 (between isDigit 4 4))
  (Seq (chr "-")
  (Seq (Grp 1 (between isDigit 1 2))
  (Seq (chr "-")
       (Grp 2 (between isDigit 1 2))))).

(** What [monthNames[name]] evaluates to: a month number, a property
    inherited from [Object.prototype] (of the names a lower-case word can
    spell, [constructor] and [__proto__]), or [undefined]. *)
Inductive Lookup :=
| Own (month : Z)
| Inherited
| Undefined.

Definition monthTable : list (string * Z) :=
  [ ("jan", 0); ("january", 0); ("feb", 1); ("february", 1); ("mar", 2);
    ("march", 2); ("apr", 3); ("april", 3); ("may", 4); ("jun", 5);
    ("june", 5); ("jul", 6); ("july", 6); ("aug", 7); ("august", 7);
    ("sep", 8); ("september", 8); ("oct", 9); ("october", 9); ("nov", 10);
    ("november", 10); ("dec", 11); ("december", 11) ]%Z.

Fixpoint assoc (name : string) (table : list (string * Z)) : option Z :=
  match table with
  | [] => None
  | (k, v) :: rest => if String.eqb k name then Some v else assoc name rest
  end.

Definition monthNames (name : string) : Lookup :=
  match assoc name monthTable with
  | Some month => Own month
  | None =>
      if String.eqb name "constructor" || String.eqb name "__proto__"
      then Inherited
      else Undefined
  end.

(** The first statement of the three copies: lower case, "due" and
    "until" removed, "@" to a space, white space collapsed, trimmed. *)
Definition cleanString (dateStr : string) : string :=
  trim
    (replaceAll spacesRe 0 " "
       (replaceAll atRe 0 " "
          (replaceAll untilRe 0 ""
             (replaceAll dueRe 0 "" (toLowerCase dateStr))))).

(** The capture of group [n], which took part in the match. *)
Definition capture (n : nat) (m : Match) : string :=
  match group n m with
  | Some s => s
  | None => ""
  end.

(** The clock time: [hours] and [minutes] after the 12-hour
    adjustment. *)
Definition clockHours (timeMatch : Match) : Z :=
  let hours := parseInt (capture 1 timeMatch) in
  let isPM := String.eqb (toLowerCase (capture 3 timeMatch)) "pm" in
  let hours := if isPM && negb (hours =? 12)%Z then (hours + 12)%Z else hours in
  if negb isPM && (hours =? 12)%Z then 0%Z else hours.

Definition clockMinutes (timeMatch : Match) : Z :=
  parseInt (capture 2 timeMatch).

(** The host: the local time zone, and what [Date.parse] makes of a
    text ([None] for NaN). *)
Record Host := mkHost {
  LocalTZA : Z -> bool -> Z;
  dateParse : string -> option Z
}.

Section Shared.

Variable host : Host.

(** [new Date(text)]. *)
Definition newDateFromString (text : string) : Date :=
  match dateParse host text with
  | Some t => TimeClip t
  | None => None
  end.

(** [if (date < now) date.setFullYear(year + 1)]. *)
Definition rollForward (now year : Z) (date : Date) : Date :=
  match date with
  | Some tv => if (tv <? now)%Z then setFullYear (LocalTZA host) (year + 1) tv else date
  | None => None
  end.

(** "today" and "tomorrow". *)
Definition endOfDay (now : Z) (offset : Z) : Date :=
  newDate (LocalTZA host) (getFullYear (LocalTZA host) now) (getMonth (LocalTZA host) now)
          (getDate (LocalTZA host) now + offset) 23 59 59.

(** A month name and a day of the month, in the year of [now] or the
    next; [None] when the name is no month ([date] stays undefined, or
    is an invalid date for an inherited property). *)
Definition monthNameDate (now hours minutes : Z) (monthName day : string)
    : Date :=
  match monthNames (toLowerCase monthName) with
  | Own month =>
      let year := getFullYear (LocalTZA host) now in
      rollForward now year
        (newDate (LocalTZA host) year month (parseInt day) hours minutes 0)
  | Inherited => None
  | Undefined => None
  end.

(** [year < 100 ? year + (year < 50 ? 2000 : 1900) : year]. *)
Definition expandYear (year : Z) : Z :=
  if (year <? 100)%Z
  then (year + (if (year <? 50)%Z then 2000 else 1900))%Z
  else year.

(** The last resort: [new Date(cleanStr)], at 23:59:59.999 when no
    clock time was found.  An exception is caught and the function goes
    on to return [null]. *)
Definition nativeDate (timeMatch : option Match) (cleanStr : string)
    : Completion (option string) :=
  tryCatch
    (match newDateFromString cleanStr with
     | Some tv =>
         let date :=
           match timeMatch with
           | None => setHours (LocalTZA host) 23 59 59 999 tv
           | Some _ => Some tv
           end in
         iso <- toISOString date ;; Normal (Some iso)
     | None => Normal None
     end)
    (fun _ => Normal None).

(** [if (date && !isNaN(date.getTime())) return date.toISOString()]:
    [Some iso] is the value returned, [None] lets the caller go on. *)
Definition returnIfValid (date : Date) : Completion (option string) :=
  match date with
  | Some tv => iso <- toISOString (Some tv) ;; Normal (Some iso)
  | None => Normal None
  end.

(** Running the steps in order until one returns. *)
Fixpoint firstOf (steps : list (Completion (option string)))
    : Completion (option string) :=
  match steps with
  | [] => Normal None
  | step :: rest =>
      r <- step ;;
      match r with
      | Some iso => Normal (Some iso)
      | None => firstOf rest
      end
  end.

End Shared.

(** The assumptions on the host: the offset of local time is at most a
    day either way, and the clock reads a time from 1970 on that is well
    inside the range of time values. *)
Definition zoneBounded (host : Host) : Prop :=
  forall (t : Z) (b : bool), (- msPerDay <= LocalTZA host t b <= msPerDay)%Z.

Definition clockInRange (now : Z) : Prop := (0 <= now <= 8000000000000000)%Z.

(** A call that returns, and returns [null] or the ISO text of a time
    value in range. *)
Definition returnsTimestampOrNull (c : Completion (option string)) : Prop :=
  exists r : option string,
    c = Normal r
    /\ (r = None
        \/ exists tv : Z, (Z.abs tv <= maxTime)%Z /\ r = Some (isoString tv)).

(** The instant at which the local clock reads 23:59:59 on the local
    calendar day of [now], [offset] days later. *)
Definition localEndOfDay (host : Host) (now offset : Z) : Z :=
  UTC (LocalTZA host)
      (MakeDate (Day (LocalTime (LocalTZA host) now) + offset)
                (MakeTime 23 59 59 0)).

(** At the instant [tv] the local clock of the host reads the date and
    the time given, to the millisecond. *)
Definition readsLocally (host : Host) (tv year month day hours minutes : Z)
    : Prop :=
  let t := LocalTime (LocalTZA host) tv in
  YearFromTime t = year /\ MonthFromTime t = month /\ DateFromTime t = day
  /\ HourFromTime t = hours /\ MinFromTime t = minutes
  /\ SecFromTime t = 0%Z /\ msFromTime t = 0%Z.

(** [inferredInstant host now month day hours minutes tv]: [tv] is the
    instant at which the local clock reads [hours]:[minutes] on day [day]
    of month [month] (0 is January) of the local year of [now], when that
    instant is not before [now]; when it is, [tv] is that instant with its
    year set one forward. *)
Definition inferredInstant (host : Host) (now month day hours minutes tv : Z)
    : Prop :=
  let year := getFullYear (LocalTZA host) now in
  exists t0 : Z,
    newDate (LocalTZA host) year month day hours minutes 0 = Some t0
    /\ (now <= t0 -> tv = t0)%Z
    /\ ((t0 < now)%Z -> setFullYear (LocalTZA host) (year + 1) t0 = Some tv).

(** A host on universal time whose [Date.parse] accepts nothing, and one
    six hours behind it. *)
Definition utc : Host :=
  {| LocalTZA := fun _ _ => 0%Z; dateParse := fun _ => None |}.

Definition centralStandard : Host :=
  {| LocalTZA := fun _ _ => (-21600000)%Z; dateParse := fun _ => None |}.

(** 2025-01-01T00:00:00Z and 2025-06-01T00:00:00Z. *)
Definition newYear2025 : Z := 1735689600000.
Definition june2025 : Z := 1748736000000.

End Normaliser.

(** *** lib/date-parser.js *)

Module DateParser.
Import JsString JsDate Normaliser.

Local Open Scope string_scope.

Section Host.

Variable host : Host.

Inductive Format := WeekdayMonthDay | MonthDay | Slash | Iso.

Definition dateFormats : list Format := [WeekdayMonthDay; MonthDay; Slash; Iso].

Definition pattern (format : Format) : Regex :=
  match format with
  | WeekdayMonthDay => weekdayMonthDayRe
  | MonthDay => monthDayRe
  | Slash => slashRe
  | Iso => isoRe
  end.

Definition groupCount (format : Format) : nat :=
  match format with
  | MonthDay => 2
  | _ => 3
  end.

(** [format.source.includes('\\w+')] *)
Definition hasWord (format : Format) : bool :=
  match format with
  | WeekdayMonthDay | MonthDay => true
  | _ => false
  end.

(** [format.source.includes('(\\d{4})')] *)
Definition hasFourDigits (format : Format) : bool :=
  match format with
  | Iso => true
  | _ => false
  end.

Definition truthyGroup (n : nat) (m : Match) : bool :=
  match group n m with
  | Some s => negb (String.eqb s "")
  | None => false
  end.

(** The body of the loop for one format that matched: the date it
    builds. *)
Definition formatDate (now hours minutes : Z) (format : Format) (m : Match)
    : Date :=
  if hasWord format then
    if truthyGroup 2 m && truthyGroup 3 m then
      monthNameDate host now hours minutes (capture 2 m) (capture 3 m)
    else if truthyGroup 1 m && truthyGroup 2 m then
      monthNameDate host now hours minutes (capture 1 m) (capture 2 m)
    else None
  else if hasFourDigits format then
    let year := parseInt (capture 1 m) in
    let month := (parseInt (capture 2 m) - 1)%Z in
    let day := parseInt (capture 3 m) in
    newDate (LocalTZA host) year month day hours minutes 0
  else
    let month := (parseInt (capture 1 m) - 1)%Z in
    let day := parseInt (capture 2 m) in
    let year :=
      expandYear (if truthyGroup 3 m then parseInt (capture 3 m)
                  else getFullYear (LocalTZA host) now) in
    let date := newDate (LocalTZA host) year month day hours minutes 0 in
    if negb (truthyGroup 3 m) then rollForward host now year date else date.

(** One turn of the loop over [dateFormats], inside its [try]. *)
Definition tryFormat (now hours minutes : Z) (cleanStr : string)
    (format : Format) : Completion (option string) :=
  match exec (pattern format) (groupCount format) cleanStr with
  | Some m =>
      tryCatch (returnIfValid (formatDate now hours minutes format m))
               (fun _ => Normal None)
  | None => Normal None
  end.

Definition parseDateString (now : Z) (dateStr : JsValue)
    : Completion (option string) :=
  if negb (toBoolean dateStr) || negb (isString dateStr) then Normal None
  else
    match dateStr with
    | JsString text =>
        let cleanStr := cleanString text in
        if includes "today" cleanStr then
          iso <- toISOString (endOfDay host now 0) ;; Normal (Some iso)
        else if includes "tomorrow" cleanStr then
          iso <- toISOString (endOfDay host now 1) ;; Normal (Some iso)
        else
          let timeMatch := exec timeRe 3 cleanStr in
          let hours :=
            match timeMatch with Some m => clockHours m | None => 23%Z end in
          let minutes :=
            match timeMatch with Some m => clockMinutes m | None => 59%Z end in
          let cleanStr :=
            match timeMatch with
            | Some _ => trim (replaceFirst timeTextRe 1 "" cleanStr)
            | None => cleanStr
            end in
          firstOf
            (List.map (tryFormat now hours minutes cleanStr) dateFormats
             ++ [nativeDate host timeMatch cleanStr])%list
    | _ => Normal None
    end.

End Host.

End DateParser.

(** *** content-scripts/scrape-prairielearn.js *)

Module PrairieLearn.
Import JsString JsDate Normaliser.

Local Open Scope string_scope.

Section Host.

Variable host : Host.

(** "Sunday, Dec 25" *)
Definition weekdayMonthDay (now hours minutes : Z) (cleanStr : string)
    : Completion (option string) :=
  match exec weekdayMonthDayRe 3 cleanStr with
  | Some m =>
      returnIfValid
        (monthNameDate host now hours minutes (capture 2 m) (capture 3 m))
  | None => Normal None
  end.

(** "Dec 25" *)
Definition monthDay (now hours minutes : Z) (cleanStr : string)
    : Completion (option string) :=
  match exec monthDayRe 2 cleanStr with
  | Some m =>
      returnIfValid
        (monthNameDate host now hours minutes (capture 1 m) (capture 2 m))
  | None => Normal None
  end.

(** MM/DD/YYYY *)
Definition slashYear (hours minutes : Z) (cleanStr : string)
    : Completion (option string) :=
  match exec slashYearRe 3 cleanStr with
  | Some m =>
      let month := (parseInt (capture 1 m) - 1)%Z in
      let day := parseInt (capture 2 m) in
      let year := expandYear (parseInt (capture 3 m)) in
      returnIfValid (newDate (LocalTZA host) year month day hours minutes 0)
  | None => Normal None
  end.

Definition parseDateString (now : Z) (dateStr : JsValue)
    : Completion (option string) :=
  if negb (toBoolean dateStr) || negb (isString dateStr) then Normal None
  else
    match dateStr with
    | JsString text =>
        let cleanStr := cleanString text in
        if includes "today" cleanStr then
          iso <- toISOString (endOfDay host now 0) ;; Normal (Some iso)
        else if includes "tomorrow" cleanStr then
          iso <- toISOString (endOfDay host now 1) ;; Normal (Some iso)
        else
          let timeMatch := exec timeRe 3 cleanStr in
          let hours :=
            match timeMatch with Some m => clockHours m | None => 23%Z end in
          let minutes :=
            match timeMatch with Some m => clockMinutes m | None => 59%Z end in
          let cleanStr :=
            match timeMatch with
            | Some _ => trim (replaceFirst timeTextRe 1 "" cleanStr)
            | None => cleanStr
            end in
          let cleanStr := trim (replaceAll zoneRe 1 "" cleanStr) in
          firstOf
            [ weekdayMonthDay now hours minutes cleanStr;
              monthDay now hours minutes cleanStr;
              slashYear hours minutes cleanStr;
              nativeDate host timeMatch cleanStr ]
    | _ => Normal None
    end.

End Host.

End PrairieLearn.

(** *** content-scripts/scrape-gradescope.js *)

Module Gradescope.
Import JsString JsDate Normaliser.

Local Open Scope string_scope.

Section Host.

Variable host : Host.

Definition parseDateString (now : Z) (dateStr : JsValue)
    : Completion (option string) :=
  if negb (toBoolean dateStr) || negb (isString dateStr) then Normal None
  else
    match dateStr with
    | JsString text =>
        let cleanStr := cleanString text in
        if includes "today" cleanStr then
          iso <- toISOString (endOfDay host now 0) ;; Normal (Some iso)
        else if includes "tomorrow" cleanStr then
          iso <- toISOString (endOfDay host now 1) ;; Normal (Some iso)
        else
          let timeMatch := exec timeRe 3 cleanStr in
          let hours :=
            match timeMatch with Some m => clockHours m | None => 23%Z end in
          let minutes :=
            match timeMatch with Some m => clockMinutes m | None => 59%Z end in
          let cleanStr :=
            match timeMatch with
            | Some _ => trim (replaceFirst timeTextRe 1 "" cleanStr)
            | None => cleanStr
            end in
          firstOf
            [ PrairieLearn.monthDay host now hours minutes cleanStr;
              PrairieLearn.slashYear host hours minutes cleanStr;
              nativeDate host timeMatch cleanStr ]
    | _ => Normal None
    end.

End Host.

End Gradescope.

(** ** Vocabulary of the properties of the normaliser *)

Module Fragments.
Import JsString JsDate Normaliser.

Local Open Scope Z_scope.

(** A date that, when valid, holds a time value in range. *)
Definition inRange (date : Date) : Prop :=
  forall tv : Z, date = Some tv -> Z.abs tv <= maxTime.

Local Open Scope string_scope.

(** No match of the pattern starts inside the word, and a match that
    starts before the word ends before it. *)
Definition noMatchInside (r : Regex) (n : nat) (w : string) : Prop :=
  forall (v : string) (c : ascii) (u : string) (prev : option ascii) (b : string),
    w = v ++ String c u -> matchHere r n prev (String c u ++ b) = None.

Definition stopsBefore (r : Regex) (n : nat) (w : string) : Prop :=
  forall (c : ascii) (a b : string) (prev : option ascii) (rest : string)
         (caps : Captures),
    matchHere r n prev (String c a ++ w ++ b) = Some (rest, caps) ->
    (String.length (String c a ++ w ++ b) - String.length rest
     <= String.length (String c a))%nat.

(** A word without white space. *)
Fixpoint noSpace (w : string) : bool :=
  match w with
  | EmptyString => true
  | String c w' => negb (isSpace c) && noSpace w'
  end.

(** The hours, the minutes and the text left for the date formats,
    from the result of the clock-time pattern. *)
Definition hoursOf (timeMatch : option Match) : Z :=
  match timeMatch with Some m => clockHours m | None => 23%Z end.

Definition minutesOf (timeMatch : option Match) : Z :=
  match timeMatch with Some m => clockMinutes m | None => 59%Z end.

Definition dateText (timeMatch : option Match) (cleanStr : string) : string :=
  match timeMatch with
  | Some _ => trim (replaceFirst timeTextRe 1 "" cleanStr)
  | None => cleanStr
  end.

(** The pattern found nothing. *)
Definition isNone {A : Type} (o : option A) : bool :=
  match o with
  | None => true
  | Some _ => false
  end.

(** [monthDayShape text month day]: the cleaned text carries no relative
    day and no clock time, the weekday pattern finds nothing in it, and
    the month-day pattern finds the name of month [month] and the day
    [day]. *)
Definition monthDayShape (text : string) (month day : Z) : bool :=
  let c := cleanString text in
  negb (String.eqb text "")
  && negb (includes "today" c) && negb (includes "tomorrow" c)
  && isNone (exec timeRe 3 c)
  && isNone (exec weekdayMonthDayRe 3 c)
  && match exec monthDayRe 2 c with
     | Some m =>
         negb (DateParser.truthyGroup 2 m && DateParser.truthyGroup 3 m)
         && (DateParser.truthyGroup 1 m && DateParser.truthyGroup 2 m)
         && match monthNames (toLowerCase (capture 1 m)) with
            | Own mo => (mo =? month)%Z
            | _ => false
            end
         && (parseInt (capture 2 m) =? day)%Z
     | None => false
     end.

(** [slashShape text month day]: as above, and the first pattern to find
    anything is the slash pattern, which finds month [month + 1] and day
    [day] and no year. *)
Definition slashShape (text : string) (month day : Z) : bool :=
  let c := cleanString text in
  negb (String.eqb text "")
  && negb (includes "today" c) && negb (includes "tomorrow" c)
  && isNone (exec timeRe 3 c)
  && isNone (exec weekdayMonthDayRe 3 c)
  && isNone (exec monthDayRe 2 c)
  && match exec slashRe 3 c with
     | Some m =>
         negb (DateParser.truthyGroup 3 m)
         && (parseInt (capture 1 m) - 1 =? month)%Z
         && (parseInt (capture 2 m) =? day)%Z
     | None => false
     end.

(** The fragments "<month name> <day>" and "<month>/<day>", the numbers
    written plainly or with two digits. *)
Definition days : list Z := List.map Z.of_nat (seq 1 31).
Definition months : list Z := List.map Z.of_nat (seq 1 12).

Definition numerals (n : Z) : list string := [digits n; pad 2 n].

Definition monthDayFragments : list (string * Z * Z) :=
  flat_map (fun nm : string * Z =>
    flat_map (fun d : Z =>
      List.map (fun dtext => (fst nm ++ " " ++ dtext, snd nm, d)) (numerals d))
      days)
    monthTable.

Definition slashFragments : list (string * Z * Z) :=
  flat_map (fun mo : Z =>
    flat_map (fun d : Z =>
      flat_map (fun mtext =>
        List.map (fun dtext => (mtext ++ "/" ++ dtext, (mo - 1)%Z, d))
                 (numerals d))
        (numerals mo))
      days)
    months.

(** Every character of the text is in the class; none is. *)
Fixpoint allChars (p : ascii -> bool) (s : string) : bool :=
  match s with
  | EmptyString => true
  | String c s' => p c && allChars p s'
  end.

Definition without (p : ascii -> bool) (s : string) : bool :=
  allChars (fun c => negb (p c)) s.

(** [s'] is what is left of [s] after some of its characters. *)
Definition isSuffix (s' s : string) : Prop := exists pre, s = pre ++ s'.

(** The 256 characters. *)
Definition allAscii : list ascii := List.map ascii_of_nat (seq 0 256).

(** [implies q p]: every character of the class [q] is in [p]. *)
Definition implies (q p : ascii -> bool) : bool :=
  forallb (fun c => implb (q c) (p c)) allAscii.

(** [mustContain p r]: every match of [r] takes a character of the
    class [p]. *)
Fixpoint mustContain (p : ascii -> bool) (r : Regex) : bool :=
  match r with
  | Cls q => implies q p
  | Rep q lo _ => negb (Nat.eqb lo 0) && implies q p
  | Seq a b => mustContain p a || mustContain p b
  | Alt a b => mustContain p a && mustContain p b
  | Grp _ a => mustContain p a
  | Eps | Opt _ | Bnd => false
  end.


(** The characters of a numeric date: a digit, a slash or a dash. *)
Definition numeric (c : ascii) : bool :=
  isDigit c || Ascii.eqb c "/" || Ascii.eqb c "-".

(** The text starts with a character of the class. *)
Definition headIs (p : ascii -> bool) (s : string) : bool :=
  match s with
  | String c _ => p c
  | EmptyString => false
  end.

(** The text ends with a character of the class. *)
Fixpoint lastIs (p : ascii -> bool) (s : string) : bool :=
  match s with
  | EmptyString => false
  | String c s' =>
      match s' with
      | EmptyString => p c
      | String _ _ => lastIs p s'
      end
  end.

Definition notDigit (c : ascii) : bool := negb (isDigit c).
Definition notSpace (c : ascii) : bool := negb (isSpace c).

(** A clock time as a cleaned text writes it: one or two digits, a
    colon, two digits, white space or none, and "am" or "pm". *)
Record Clock := mkClock {
  hourText : string;
  minuteText : string;
  gapText : string;
  meridiem : string
}.

Definition clockText (k : Clock) : string :=
  hourText k ++ ":" ++ minuteText k ++ gapText k ++ meridiem k.

Definition isClock (k : Clock) : bool :=
  allChars isDigit (hourText k)
  && (1 <=? String.length (hourText k))%nat
  && (String.length (hourText k) <=? 2)%nat
  && allChars isDigit (minuteText k)
  && (String.length (minuteText k) =? 2)%nat
  && allChars isSpace (gapText k)
  && (String.eqb (meridiem k) "am" || String.eqb (meridiem k) "pm").

(** The hour of the day of a clock time: 12 am is 0 and 12 pm is 12. *)
Definition hourOfDay (k : Clock) : Z :=
  let h := parseInt (hourText k) in
  if String.eqb (meridiem k) "pm"
  then (if (h =? 12)%Z then 12 else h + 12)%Z
  else (if (h =? 12)%Z then 0 else h)%Z.

Definition minuteOfHour (k : Clock) : Z := parseInt (minuteText k).

(** What follows the date in a cleaned text: the text [between], and
    then, if a clock time is written, the clock time and the text after
    it. *)
Definition tailText (between : string) (clock : option (Clock * string))
    : string :=
  match clock with
  | Some (k, rest) => between ++ clockText k ++ rest
  | None => between
  end.

(** The time of day written: 23:59 when no clock time is. *)
Definition hoursAt (clock : option (Clock * string)) : Z :=
  match clock with Some (k, _) => hourOfDay k | None => 23%Z end.

Definition minutesAt (clock : option (Clock * string)) : Z :=
  match clock with Some (k, _) => minuteOfHour k | None => 59%Z end.

(** The text between the date and the clock time does not go on with a
    digit and holds no colon, and a character that is no digit sets the
    clock time apart from it. *)
Definition tailFits (between : string) (clock : option (Clock * string))
    : bool :=
  negb (headIs isDigit between) && without (Ascii.eqb ":") between
  && match clock with
     | Some (k, _) => isClock k && lastIs notDigit between
     | None => true
     end.

(** What is left after the date once the clock time is taken out and the
    text is trimmed. *)
Definition tailLeft (between : string) (clock : option (Clock * string))
    : string :=
  match clock with
  | Some (_, rest) => trimEnd (between ++ rest)
  | None => between
  end.

End Fragments.

(** ** The service worker (background.js) *)

Module Background.

Local Open Scope string_scope.
Local Open Scope Z_scope.

(** *** Data model *)

(** A deadline record.  [done] and [notificationSent] are absent on a
    freshly scraped record ([None] is JavaScript's [undefined]); [pastDue]
    is set by the PrairieLearn scraper only. *)
Record Item := mkItem {
  id : string;
  title : string;
  dueDate : Z;
  course : string;
  link : string;
  source : string;
  pastDue : option bool;
  done : option bool;
  notificationSent : option bool
}.

Record Settings := mkSettings {
  notificationsEnabled : bool;
  notificationHours : Z
}.

Record Storage := mkStorage {
  items : list Item;
  settings : Settings
}.

Definition DEFAULT_SETTINGS : Settings :=
  {| notificationsEnabled := true; notificationHours := 24 |}.

Definition DEFAULT_STORAGE : Storage :=
  {| items := []; settings := DEFAULT_SETTINGS |}.

(** Truthiness of an optional boolean field: [undefined] and [false] are
    falsy. *)
Definition truthy (o : option bool) : bool :=
  match o with
  | Some true => true
  | _ => false
  end.

(** [{ ...it, done: v }] and [{ ...it, notificationSent: v }]. *)
Definition set_done (v : option bool) (it : Item) : Item :=
  {| id := id it; title := title it; dueDate := dueDate it;
     course := course it; link := link it; source := source it;
     pastDue := pastDue it; done := v;
     notificationSent := notificationSent it |}.

Definition set_notificationSent (v : option bool) (it : Item) : Item :=
  {| id := id it; title := title it; dueDate := dueDate it;
     course := course it; link := link it; source := source it;
     pastDue := pastDue it; done := done it;
     notificationSent := v |}.

Definition set_items (l : list Item) (data : Storage) : Storage :=
  {| items := l; settings := settings data |}.

(** *** The JavaScript [Map] keyed by record id

    A [Map] iterates in insertion order, and [set] on a key that is
    present replaces the value where it stands. *)
Definition ItemMap := list (string * Item).

Fixpoint map_get (k : string) (m : ItemMap) : option Item :=
  match m with
  | [] => None
  | (k', v) :: m' => if String.eqb k' k then Some v else map_get k m'
  end.

Fixpoint map_set (k : string) (v : Item) (m : ItemMap) : ItemMap :=
  match m with
  | [] => [(k, v)]
  | (k', v') :: m' =>
      if String.eqb k' k then (k, v) :: m' else (k', v') :: map_set k v m'
  end.

Definition map_values (m : ItemMap) : list Item := List.map snd m.

(** *** Sorting by due date

    [mergedItems.sort((a, b) => new Date(a.dueDate) - new Date(b.dueDate))].
    [Array.prototype.sort] is stable, and a stable sort by a key has one
    result; insertion from the right is that sort. *)
Fixpoint insertByDueDate (x : Item) (l : list Item) : list Item :=
  match l with
  | [] => [x]
  | y :: l' =>
      if dueDate x <=? dueDate y then x :: y :: l'
      else y :: insertByDueDate x l'
  end.

Definition sortByDueDate (l : list Item) : list Item :=
  fold_right insertByDueDate [] l.

(** *** handleScrapeResult *)

(** The body of [newItems.forEach]: the flags of the record found under
    the same id are copied onto the incoming record when they are truthy,
    then the incoming record is stored under its id. *)
Definition preserveFlags (existingItem : option Item) (newItem : Item) : Item :=
  let newItem1 :=
    match existingItem with
    | Some e =>
        if truthy (notificationSent e)
        then set_notificationSent (notificationSent e) newItem
        else newItem
    | None => newItem
    end in
  match existingItem with
  | Some e =>
      if truthy (done e) then set_done (done e) newItem1 else newItem1
  | None => newItem1
  end.

Definition addExisting (itemMap : ItemMap) (item : Item) : ItemMap :=
  map_set (id item) item itemMap.

Definition addNew (itemMap : ItemMap) (newItem : Item) : ItemMap :=
  map_set (id newItem) (preserveFlags (map_get (id newItem) itemMap) newItem)
          itemMap.

Definition mergeItems (existing newItems : list Item) : ItemMap :=
  fold_left addNew newItems (fold_left addExisting existing []).

(** [reconcile existing incoming] is the item list that
    [handleScrapeResult] writes back. *)
Definition reconcile (existing newItems : list Item) : list Item :=
  sortByDueDate (map_values (mergeItems existing newItems)).

Definition handleScrapeResult (newItems : list Item) (data : Storage) : Storage :=
  set_items (reconcile (items data) newItems) data.

(** *** The message handlers *)

(** TOGGLE_ITEM_DONE: [message.done] arrives as [!!message.done], a
    boolean. *)
Definition toggleItemDone (msgId : string) (msgDone : bool) (data : Storage) : Storage :=
  set_items
    (List.map (fun it => if String.eqb (id it) msgId
                         then set_done (Some msgDone) it else it)
              (items data))
    data.

(** UPDATE_SETTINGS: a shallow merge of the fields present in the
    message. *)
Record SettingsPatch := mkPatch {
  patchEnabled : option bool;
  patchHours : option Z
}.

Definition updateSettings (newSettings : SettingsPatch) (data : Storage) : Storage :=
  {| items := items data;
     settings :=
       {| notificationsEnabled :=
            match patchEnabled newSettings with
            | Some b => b
            | None => notificationsEnabled (settings data)
            end;
          notificationHours :=
            match patchHours newSettings with
            | Some h => h
            | None => notificationHours (settings data)
            end |} |}.

Definition clearAllData (data : Storage) : Storage := DEFAULT_STORAGE.

(** *** updateBadge *)

Definition msPerHour : Z := 60 * 60 * 1000.
Definition msPerDay : Z := 24 * 60 * 60 * 1000.

Definition dueWithin24h (now : Z) (item : Item) : bool :=
  (now <=? dueDate item) && (dueDate item <=? now + msPerDay).

Definition upcomingItems (now : Z) (data : Storage) : list Item :=
  filter (dueWithin24h now) (items data).

Definition badgeCount (now : Z) (data : Storage) : nat :=
  List.length (upcomingItems now data).

(** [count > 0 ? count.toString() : ''], the text set on the badge. *)
Definition badgeText (now : Z) (data : Storage) : string :=
  match badgeCount now data with
  | O => ""
  | count => DecimalString.NilZero.string_of_uint (Nat.to_uint count)
  end.

(** *** cleanupOldItems *)

Definition thirtyDays : Z := 30 * 24 * 60 * 60 * 1000.

Definition notOlderThan30Days (now : Z) (item : Item) : bool :=
  now - thirtyDays <=? dueDate item.

Definition cleanupOldItems (now : Z) (data : Storage) : Storage :=
  let filteredItems := filter (notOlderThan30Days now) (items data) in
  if Nat.eqb (List.length filteredItems) (List.length (items data))
  then data
  else set_items filteredItems data.

(** *** checkAndSendNotifications *)

(** What [browser.notifications.create(item.id, {...})] is called with. *)
Record Notification := mkNotification {
  notificationId : string;
  notificationTitle : string;
  notificationMessage : string
}.

(** [Math.round(t / d)] for an integer [t] and a positive integer [d]:
    the nearest integer, a half rounding up. *)
Definition roundDiv (t d : Z) : Z := (2 * t + d) / (2 * d).

Definition decimal (n : Z) : string :=
  DecimalString.NilZero.string_of_int (Z.to_int n).

Definition timeMessage (now : Z) (item : Item) : string :=
  let timeUntilDue := dueDate item - now in
  let hoursUntilDue := roundDiv timeUntilDue msPerHour in
  let daysUntilDue := roundDiv timeUntilDue msPerDay in
  if 1 <=? daysUntilDue then
    "Due in " ++ decimal daysUntilDue ++ " day"
      ++ (if daysUntilDue =? 1 then "" else "s")
  else if 1 <=? hoursUntilDue then
    "Due in " ++ decimal hoursUntilDue ++ " hour"
      ++ (if hoursUntilDue =? 1 then "" else "s")
  else "Due soon!".

Definition newline : string := String (ascii_of_nat 10) EmptyString.

Definition composeNotification (now : Z) (item : Item) : Notification :=
  {| notificationId := id item;
     notificationTitle := "Deadline Approaching";
     notificationMessage :=
       title item ++ newline ++ course item ++ newline ++ timeMessage now item |}.

Definition dueForNotification (now cutoffTime : Z) (item : Item) : bool :=
  (now <=? dueDate item) && (dueDate item <=? cutoffTime)
  && negb (truthy (notificationSent item)).

(** [updatedItems[itemIndex] = { ...updatedItems[itemIndex],
    notificationSent: true }] at the first index that carries the id, if
    there is one. *)
Fixpoint markNotified (itemId : string) (updatedItems : list Item) : list Item :=
  match updatedItems with
  | [] => []
  | it :: rest =>
      if String.eqb (id it) itemId
      then set_notificationSent (Some true) it :: rest
      else it :: markNotified itemId rest
  end.

(** One turn of the [for] loop.  [create n = false] stands for a call of
    [browser.notifications.create] that throws: the [catch] of the loop
    body logs it, and the rest of the [try] block, the marking, is skipped.
    The second component records every call with its outcome. *)
Definition notifyItem (create : Notification -> bool) (now : Z)
    (st : list Item * list (Notification * bool)) (item : Item)
    : list Item * list (Notification * bool) :=
  let n := composeNotification now item in
  if create n
  then (markNotified (id item) (fst st), (snd st ++ [(n, true)])%list)
  else (fst st, (snd st ++ [(n, false)])%list).

(** The records that a tick selects.  [cutoffTime] is the time value of
    [new Date(now.getTime() + notificationWindow)], a date in the range of
    time values (at most 8.64e15 in absolute value); beyond that range the
    JavaScript compares with an invalid date and selects nothing. *)
Definition itemsToNotify (now : Z) (data : Storage) : list Item :=
  let notificationWindow := notificationHours (settings data) * msPerHour in
  let cutoffTime := now + notificationWindow in
  filter (dueForNotification now cutoffTime) (items data).

Definition checkAndSendNotifications (create : Notification -> bool) (now : Z)
    (data : Storage) : Storage * list (Notification * bool) :=
  if negb (notificationsEnabled (settings data)) then (data, [])
  else
    let toNotify := itemsToNotify now data in
    let st := fold_left (notifyItem create now) toNotify (items data, []) in
    (match toNotify with
     | [] => data
     | _ :: _ => set_items (fst st) data
     end, snd st).

(** *** The events the service worker reacts to *)

Inductive Event :=
| ScrapeResult (newItems : list Item)
| ToggleItemDone (msgId : string) (msgDone : bool)
| UpdateSettings (newSettings : SettingsPatch)
| ClearData
| NotificationAlarm (now : Z) (create : Notification -> bool)
| CleanupAlarm (now : Z).

(** One event handled to completion: the next stored document and the
    calls made to the notification capability. *)
Definition handle (ev : Event) (data : Storage)
    : Storage * list (Notification * bool) :=
  match ev with
  | ScrapeResult newItems => (handleScrapeResult newItems data, [])
  | ToggleItemDone msgId msgDone => (toggleItemDone msgId msgDone data, [])
  | UpdateSettings newSettings => (updateSettings newSettings data, [])
  | ClearData => (clearAllData data, [])
  | NotificationAlarm now create => checkAndSendNotifications create now data
  | CleanupAlarm now => (cleanupOldItems now data, [])
  end.

(** Events are handled one at a time, in arrival order. *)
Fixpoint run (evs : list Event) (data : Storage)
    : Storage * list (Notification * bool) :=
  match evs with
  | [] => (data, [])
  | ev :: evs' =>
      let r := handle ev data in
      let r' := run evs' (fst r) in
      (fst r', (snd r ++ snd r')%list)
  end.

(** The records stored under an id, and the collections in which an id
    names at most one record. *)
Definition hasId (i : string) (it : Item) : bool := String.eqb (id it) i.

Definition withId (i : string) (l : list Item) : list Item :=
  filter (hasId i) l.

Definition wellFormed (l : list Item) : Prop := NoDup (List.map id l).

(** The badge count as the design document words it: the records due in
    the half-open interval from [now] to [now + 24h]. *)
Definition dueWithin24hHalfOpen (now : Z) (item : Item) : bool :=
  (now <=? dueDate item) && (dueDate item <? now + msPerDay).

Definition badgeCountHalfOpen (now : Z) (data : Storage) : nat :=
  List.length (filter (dueWithin24hHalfOpen now) (items data)).

Definition dueAt (t : Z) (item : Item) : bool := dueDate item =? t.

(** The record with id [i] is stored and carries the notified flag. *)
Definition notified (i : string) (l : list Item) : Prop :=
  exists r : Item, In r l /\ id r = i /\ notificationSent r = Some true.

(** The events that do not destroy the record with id [i]: any event but
    clear-all and a retention sweep that drops a record with that id. *)
Definition keepsRecord (i : string) (ev : Event) (data : Storage) : bool :=
  match ev with
  | ClearData => false
  | CleanupAlarm now =>
      forallb (fun r => negb (hasId i r) || notOlderThan30Days now r)
              (items data)
  | _ => true
  end.

Fixpoint keepsRecordAlong (i : string) (evs : list Event) (data : Storage) : bool :=
  match evs with
  | [] => true
  | ev :: evs' =>
      keepsRecord i ev data && keepsRecordAlong i evs' (fst (handle ev data))
  end.

(** The ids that [browser.notifications.create] was called with. *)
Definition notifiedIds (calls : list (Notification * bool)) : list string :=
  List.map (fun c => notificationId (fst c)) calls.

(** What one tick does to a record: the flag is set when the record was
    selected and its notification was created. *)
Definition afterTick (create : Notification -> bool) (now : Z) (data : Storage)
    (it : Item) : Item :=
  if dueForNotification now
       (now + notificationHours (settings data) * msPerHour) it
     && create (composeNotification now it)
  then set_notificationSent (Some true) it
  else it.

(** *** Vocabulary of the properties and the records of the examples *)

(** Every entry is filed under the id of its record. *)
Definition keyed (m : ItemMap) : Prop :=
  Forall (fun kv => id (snd kv) = fst kv) m.

(** What the two passes of the merge leave under the id [i], record by
    record: the first pass keeps the last stored record with the id, the
    second stores each incoming record with the id, the flags of the
    record before it carried over. *)
Definition lastWithId (i : string) (acc : option Item) (x : Item) : option Item :=
  if hasId i x then Some x else acc.

Definition mergedWithId (i : string) (acc : option Item) (x : Item) : option Item :=
  if hasId i x then Some (preserveFlags acc x) else acc.

(** Ascending due dates. *)
Definition byDueDate (a b : Item) : Prop := dueDate a <= dueDate b.

(** The scenario of the design's test list: a record that was done and
    notified is scraped again with a new title. *)
Definition storedHW1 : Item :=
  {| id := "a"; title := "HW1 (old)"; dueDate := 172800000; course := "CS 101";
     link := "https://example.org/a"; source := "Gradescope"; pastDue := None;
     done := Some true; notificationSent := Some true |}.

Definition scrapedHW1 : Item :=
  {| id := "a"; title := "HW1"; dueDate := 172800000; course := "CS 101";
     link := "https://example.org/a"; source := "Gradescope"; pastDue := None;
     done := Some false; notificationSent := None |}.

(** The map entry of a record. *)
Definition entry (x : Item) : string * Item := (id x, x).

(** A second record, never notified. *)
Definition otherHW : Item :=
  {| id := "b"; title := "Quiz 2"; dueDate := 86400000; course := "CS 101";
     link := "https://example.org/b"; source := "PrairieLearn";
     pastDue := Some false; done := None; notificationSent := None |}.

(** A record due at the instant [offset]. *)
Definition dueIn (offset : Z) : Item :=
  {| id := "x"; title := "HW"; dueDate := offset; course := "CS 101";
     link := "https://example.org/x"; source := "Gradescope"; pastDue := None;
     done := None; notificationSent := None |}.

(** The records after one turn of the notification loop, and after the
    turns for the records of [P], over a collection with distinct ids. *)
Definition markStep (create : Notification -> bool) (now : Z)
    (u : list Item) (it : Item) : list Item :=
  if create (composeNotification now it) then markNotified (id it) u else u.

Definition markedBy (create : Notification -> bool) (now : Z) (P : list Item)
    (x : Item) : Item :=
  if existsb (fun it => hasId (id it) x && create (composeNotification now it)) P
  then set_notificationSent (Some true) x
  else x.

(** Two records due in one and two hours. *)
Definition hw (i : string) (due : Z) : Item :=
  {| id := i; title := ("HW " ++ i)%string; dueDate := due; course := "CS 101";
     link := ("https://example.org/" ++ i)%string; source := "Gradescope";
     pastDue := None; done := None; notificationSent := None |}.

Definition twoDue : Storage :=
  {| items := [hw "a" 3600000; hw "b" 7200000]; settings := DEFAULT_SETTINGS |}.

(** The capability refuses the notification of record "a". *)
Definition failsForA (n : Notification) : bool :=
  negb (String.eqb (notificationId n) "a").

(** A store whose record "a" is notified. *)
Definition notifiedStore : Storage :=
  {| items := [storedHW1; otherHW]; settings := DEFAULT_SETTINGS |}.

(** A tick while the record is inside the window, a re-scrape of the
    record, a widening of the window to three days, a sweep, and two more
    ticks. *)
Definition laterEvents : list Event :=
  [ NotificationAlarm 100000000 (fun _ => true);
    ScrapeResult [scrapedHW1];
    UpdateSettings {| patchEnabled := None; patchHours := Some 72 |};
    CleanupAlarm 100000000;
    NotificationAlarm 0 (fun _ => true);
    NotificationAlarm 172800000 (fun _ => true) ].

End Background.

(** ** The rest of the service worker (background.js) *)

Module Worker.
Import Background.

Local Open Scope string_scope.
Local Open Scope Z_scope.


(** *** notifications.onClicked *)

(** The calls a handler makes to the browser. *)
Inductive Call :=
| TabsCreate (url : string)
| TabsRemove (tabId : Z)
| NotificationsClear (notificationId : string).

(** [data.items.find(i => i.id === notificationId)] *)
Definition findItem (notificationId : string) (data : Storage) : option Item :=
  find (fun i => String.eqb (id i) notificationId) (items data).

(** The click on a notification: the link of the record, if the record
    is found and has one, is opened in a new tab, then the notification is
    cleared.  [tabsCreate url = false] stands for a call of
    [browser.tabs.create] that throws: the [catch] logs it, and the
    clearing is skipped. *)
Definition onNotificationClicked (tabsCreate : string -> bool)
    (notificationId : string) (data : Storage) : list Call :=
  match findItem notificationId data with
  | Some item =>
      if negb (String.eqb (link item) "") then
        if tabsCreate (link item)
        then [TabsCreate (link item); NotificationsClear notificationId]
        else [TabsCreate (link item)]
      else [NotificationsClear notificationId]
  | None => [NotificationsClear notificationId]
  end.

(** *** The tabs opened for scraping *)

(** [tabsToCloseAfterScrape], a [Set] of tab ids: insertion order, no
    duplicates. *)
Definition TabSet := list Z.

Definition setHas (tabId : Z) (s : TabSet) : bool := existsb (Z.eqb tabId) s.

Definition setAdd (tabId : Z) (s : TabSet) : TabSet :=
  if setHas tabId s then s else (s ++ [tabId])%list.

Definition setDelete (tabId : Z) (s : TabSet) : TabSet :=
  filter (fun t => negb (Z.eqb t tabId)) s.

(** A SCRAPE_RESULT message: [items] may be missing, and [scrapeComplete]
    is read for its truthiness. *)
Record ScrapeMessage := mkScrapeMessage {
  messageItems : option (list Item);
  scrapeComplete : bool
}.

(** The state of the service worker: the stored document and the tabs
    to close. *)
Record WorkerState := mkWorkerState {
  stored : Storage;
  tabsToCloseAfterScrape : TabSet
}.

(** The SCRAPE_RESULT branch of the message listener: the batch
    ([message.items || []]) is reconciled, then the tab of the sender is
    closed if the scrape is complete and the tab is one of those opened
    for scraping.  [senderTab] is [sender.tab.id], [None] when the message
    has no sender or the sender no tab. *)
Definition onScrapeResult (message : ScrapeMessage) (senderTab : option Z)
    (st : WorkerState) : WorkerState * list Call :=
  let newItems :=
    match messageItems message with
    | Some l => l
    | None => []
    end in
  let data := handleScrapeResult newItems (stored st) in
  match senderTab with
  | Some tabId =>
      if scrapeComplete message && setHas tabId (tabsToCloseAfterScrape st)
      then ({| stored := data;
               tabsToCloseAfterScrape :=
                 setDelete tabId (tabsToCloseAfterScrape st) |},
            [TabsRemove tabId])
      else ({| stored := data;
               tabsToCloseAfterScrape := tabsToCloseAfterScrape st |}, [])
  | None =>
      ({| stored := data;
          tabsToCloseAfterScrape := tabsToCloseAfterScrape st |}, [])
  end.

(** What happens to the set of tabs: a course tab is opened for scraping
    and added, or a scrape result arrives. *)
Inductive TabEvent :=
| CourseTabOpened (tabId : Z)
| ScrapeResultReceived (message : ScrapeMessage) (senderTab : option Z).

Definition tabStep (ev : TabEvent) (st : WorkerState) : WorkerState * list Call :=
  match ev with
  | CourseTabOpened tabId =>
      ({| stored := stored st;
          tabsToCloseAfterScrape := setAdd tabId (tabsToCloseAfterScrape st) |},
       [])
  | ScrapeResultReceived message senderTab => onScrapeResult message senderTab st
  end.

Fixpoint tabRun (evs : list TabEvent) (st : WorkerState) : WorkerState * list Call :=
  match evs with
  | [] => (st, [])
  | ev :: evs' =>
      let r := tabStep ev st in
      let r' := tabRun evs' (fst r) in
      (fst r', (snd r ++ snd r')%list)
  end.

(** *** waitForTabComplete *)

(** How a promise stands. *)
Inductive Settlement (A : Type) :=
| Pending
| Resolved (value : A)
| Rejected.

Arguments Pending {A}.
Arguments Resolved {A} value.
Arguments Rejected {A}.

(** [resolve(v)] and [reject(e)]: a promise is settled once. *)
Definition resolve {A : Type} (v : A) (p : Settlement A) : Settlement A :=
  match p with
  | Pending => Resolved v
  | _ => p
  end.

Definition reject {A : Type} (p : Settlement A) : Settlement A :=
  match p with
  | Pending => Rejected
  | _ => p
  end.

(** The closure of one call: the [settled] variable, the two listeners
    registered or not, the timer armed or not, and the promise. *)
Record TabWait := mkTabWait {
  settled : bool;
  onUpdatedListening : bool;
  onRemovedListening : bool;
  timerArmed : bool;
  promise : Settlement unit
}.

(** What the browser can deliver to the closure: a tab was updated
    ([status] is [changeInfo.status], if any), a tab was removed, the timer
    ran out. *)
Inductive WaitEvent :=
| TabUpdated (upId : Z) (status : option string)
| TabRemoved (removedTabId : Z)
| TimerFired.

Definition waitForTabComplete : TabWait :=
  {| settled := false; onUpdatedListening := true; onRemovedListening := true;
     timerArmed := true; promise := Pending |}.

Definition isComplete (status : option string) : bool :=
  match status with
  | Some s => String.eqb s "complete"
  | None => false
  end.

(** One event delivered.  A listener that was removed is not called, and
    a timer that was cleared or has fired does not fire. *)
Definition tabWaitStep (tabId : Z) (ev : WaitEvent) (w : TabWait) : TabWait :=
  match ev with
  | TabUpdated upId status =>
      if onUpdatedListening w then
        if negb (upId =? tabId) then w
        else if isComplete status then
          {| settled := true; onUpdatedListening := false;
             onRemovedListening := false; timerArmed := false;
             promise := resolve tt (promise w) |}
        else w
      else w
  | TabRemoved removedTabId =>
      if onRemovedListening w then
        if (removedTabId =? tabId) && negb (settled w) then
          {| settled := true; onUpdatedListening := false;
             onRemovedListening := false; timerArmed := false;
             promise := reject (promise w) |}
        else w
      else w
  | TimerFired =>
      if timerArmed w then
        if negb (settled w) then
          {| settled := true; onUpdatedListening := false;
             onRemovedListening := false; timerArmed := false;
             promise := resolve tt (promise w) |}
        else
          {| settled := settled w; onUpdatedListening := onUpdatedListening w;
             onRemovedListening := onRemovedListening w; timerArmed := false;
             promise := promise w |}
      else w
  end.

Definition tabWaitRun (tabId : Z) (evs : list WaitEvent) : TabWait :=
  fold_left (fun w ev => tabWaitStep tabId ev w) evs waitForTabComplete.

(** *** tabs.onUpdated *)

(** The Gradescope scraper is injected into a tab that has completed
    loading an address of a Gradescope course.  [status] is
    [changeInfo.status] and [url] is [tab.url], if any. *)
Definition autoInjects (status : option string) (url : option string) : bool :=
  isComplete status
  && match url with
     | Some u => negb (String.eqb u "") && JsString.includes "gradescope.com/courses/" u
     | None => false
     end.

(** *** waitForScrapeResultFromTab *)

(** A message on [runtime.onMessage]: its type, and the tab of its
    sender, if any. *)
Record RuntimeMessage := mkRuntimeMessage {
  messageType : string;
  messageSenderTab : option Z;
  messageScrapedCount : Z
}.

Record ResultWait := mkResultWait {
  resultSettled : bool;
  onMessageListening : bool;
  resultTimerArmed : bool;
  resultPromise : Settlement RuntimeMessage
}.

Inductive ResultEvent :=
| MessageReceived (message : RuntimeMessage)
| ResultTimerFired.

Definition waitForScrapeResultFromTab : ResultWait :=
  {| resultSettled := false; onMessageListening := true;
     resultTimerArmed := true; resultPromise := Pending |}.

Definition resultWaitStep (tabId : Z) (ev : ResultEvent) (w : ResultWait)
    : ResultWait :=
  match ev with
  | MessageReceived message =>
      if onMessageListening w then
        match messageSenderTab message with
        | None => w
        | Some senderTab =>
            if negb (senderTab =? tabId) then w
            else if String.eqb (messageType message) "SCRAPE_RESULT" then
              {| resultSettled := true; onMessageListening := false;
                 resultTimerArmed := false;
                 resultPromise := resolve message (resultPromise w) |}
            else w
        end
      else w
  | ResultTimerFired =>
      if resultTimerArmed w then
        if negb (resultSettled w) then
          {| resultSettled := true; onMessageListening := false;
             resultTimerArmed := false;
             resultPromise := reject (resultPromise w) |}
        else
          {| resultSettled := resultSettled w;
             onMessageListening := onMessageListening w;
             resultTimerArmed := false; resultPromise := resultPromise w |}
      else w
  end.

Definition resultWaitRun (tabId : Z) (evs : list ResultEvent) : ResultWait :=
  fold_left (fun w ev => resultWaitStep tabId ev w) evs waitForScrapeResultFromTab.

(** *** safeExecuteScript *)

(** How one attempt ends: the script was injected, the browser reported
    that the tab is gone ("No tab with id"), or anything else was
    thrown. *)
Inductive Attempt := Injected | NoSuchTab | Failed.

Inductive ScriptResult :=
| Returned (value : bool)
| Threw.

(** The loop [while (attempt <= maxRetries)]: [tries k] is how the
    attempt number [k] ends; the second component is the pauses taken, in
    milliseconds.  [fuel] bounds the turns; [maxRetries + 1] turns are all
    the loop can take. *)
Fixpoint safeExecuteLoop (tries : nat -> Attempt) (maxRetries fuel attempt : nat)
    : ScriptResult * list Z :=
  match fuel with
  | O => (Returned false, [])
  | S fuel' =>
      if (attempt <=? maxRetries)%nat then
        match tries attempt with
        | Injected => (Returned true, [])
        | NoSuchTab => (Threw, [])
        | Failed =>
            let attempt' := S attempt in
            if (maxRetries <? attempt')%nat then (Threw, [])
            else
              let r := safeExecuteLoop tries maxRetries fuel' attempt' in
              (fst r, 300 * Z.of_nat attempt' :: snd r)
        end
      else (Returned false, [])
  end.

Definition safeExecuteScript (tries : nat -> Attempt) (maxRetries : nat)
    : ScriptResult * list Z :=
  safeExecuteLoop tries maxRetries (S (S maxRetries)) 0.

(** *** Opening the course tabs in batches *)

Definition concurrency : nat := 3.
Definition batchDelayMs : Z := 250.

(** What the loop over the links does, in order: a batch of tabs is
    launched and awaited, or the loop pauses. *)
Inductive Step :=
| Launch (batch : list string)
| Pause (ms : Z).

(** [links.slice(i, i + concurrency)] *)
Definition slice (i j : nat) (links : list string) : list string :=
  firstn (j - i) (skipn i links).

(** [for (let i = 0; i < links.length; i += concurrency)].  [fuel] bounds
    the turns; the loop takes at most [links.length]. *)
Fixpoint batchLoop (fuel i : nat) (links : list string) : list Step :=
  match fuel with
  | O => []
  | S fuel' =>
      if (i <? List.length links)%nat then
        (Launch (slice i (i + concurrency) links)
         :: (if (i + concurrency <? List.length links)%nat
             then [Pause batchDelayMs] else []))
        ++ batchLoop fuel' (i + concurrency) links
      else []
  end.

Definition openInBatches (links : list string) : list Step :=
  batchLoop (List.length links) 0 links.

(** [Array.from(new Set(links))]: the first occurrence of every link, in
    order. *)
Fixpoint uniqueFrom (seen : list string) (links : list string) : list string :=
  match links with
  | [] => []
  | h :: rest =>
      if existsb (String.eqb h) seen then uniqueFrom seen rest
      else h :: uniqueFrom (h :: seen) rest
  end.

Definition unique (links : list string) : list string := uniqueFrom [] links.

(** The course links of the PrairieLearn flow: the links that the page
    script returned, normalised ([normalise] is the rewriting of a course
    link to its assessments page), without duplicates, twenty at most. *)
Definition prairieLearnLinks (normalise : string -> string)
    (results : list string) : list string :=
  firstn 20 (unique (List.map normalise results)).

(** *** Vocabulary of the properties of the reconciliation *)

(** Whether the record found under the id, if any, carries a flag. *)
Definition flagged (field : Item -> option bool) (o : option Item) : bool :=
  match o with
  | Some e => truthy (field e)
  | None => false
  end.

(** The incoming record with the flags that were found set. *)
Definition applyFlags (sent isDone : bool) (n : Item) : Item :=
  let n1 := if sent then set_notificationSent (Some true) n else n in
  if isDone then set_done (Some true) n1 else n1.

(** *** Vocabulary of the properties of the tabs *)

(** The batches launched. *)
Definition launched (steps : list Step) : list (list string) :=
  flat_map (fun s => match s with Launch b => [b] | Pause _ => [] end) steps.

Definition pauses (steps : list Step) : nat :=
  List.length (filter (fun s => match s with Pause _ => true | Launch _ => false end)
                      steps).

(** The list with [sep] between every two of its elements that follow
    each other, and nowhere else. *)
Fixpoint separatedBy {A : Type} (sep : A) (l : list A) : list A :=
  match l with
  | [] => []
  | x :: rest =>
      match rest with
      | [] => [x]
      | _ :: _ => x :: sep :: separatedBy sep rest
      end
  end.

(** The tabs that the calls remove. *)
Definition removedTabs (calls : list Call) : list Z :=
  flat_map (fun c => match c with TabsRemove t => [t] | _ => [] end) calls.

(** The tabs that the events open for scraping. *)
Definition openedTabs (evs : list TabEvent) : list Z :=
  flat_map (fun ev => match ev with CourseTabOpened t => [t] | _ => [] end) evs.

(** The event that settles a wait for a tab, if the events hold one: the
    first of the completion of the tab, its removal and the timer. *)
Definition decides (tabId : Z) (ev : WaitEvent) : option (Settlement unit) :=
  match ev with
  | TabUpdated upId status =>
      if (upId =? tabId) && isComplete status then Some (Resolved tt) else None
  | TabRemoved removedTabId =>
      if removedTabId =? tabId then Some Rejected else None
  | TimerFired => Some (Resolved tt)
  end.

Fixpoint firstDecision {E A : Type} (decide : E -> option (Settlement A))
    (evs : list E) : Settlement A :=
  match evs with
  | [] => Pending
  | ev :: evs' =>
      match decide ev with
      | Some s => s
      | None => firstDecision decide evs'
      end
  end.

Definition decidesResult (tabId : Z) (ev : ResultEvent)
    : option (Settlement RuntimeMessage) :=
  match ev with
  | MessageReceived message =>
      match messageSenderTab message with
      | Some senderTab =>
          if (senderTab =? tabId) && String.eqb (messageType message) "SCRAPE_RESULT"
          then Some (Resolved message) else None
      | None => None
      end
  | ResultTimerFired => Some Rejected
  end.

(** A service worker that has stored nothing and opened no tab, and a
    session: a course tab is opened, its scraper reports twice, the first
    time before it is done, and a late copy of its report arrives. *)
Definition freshWorker : WorkerState :=
  {| stored := DEFAULT_STORAGE; tabsToCloseAfterScrape := [] |}.

Definition scrapeSession : list TabEvent :=
  [ CourseTabOpened 7;
    ScrapeResultReceived {| messageItems := None; scrapeComplete := false |} (Some 7);
    ScrapeResultReceived {| messageItems := Some [otherHW]; scrapeComplete := true |}
                         (Some 7);
    ScrapeResultReceived {| messageItems := Some [otherHW]; scrapeComplete := true |}
                         (Some 7) ].

End Worker.

(** ** The popup (popup.js) *)

Module Popup.
Import JsString Background.

Local Open Scope string_scope.
Local Open Scope Z_scope.


(** [currentFilter]: 'upcoming' or 'done'. *)
Inductive Filter := FilterUpcoming | FilterDone.

(** The three arrays that [renderList] fills. *)
Record Partition := mkPartition {
  overdueItems : list Item;
  upcomingItems : list Item;
  doneItems : list Item
}.

(** The body of [allItems.forEach]: the record is pushed onto one of the
    three arrays. *)
Definition classify (now : Z) (p : Partition) (item : Item) : Partition :=
  if truthy (done item) then
    {| overdueItems := overdueItems p; upcomingItems := upcomingItems p;
       doneItems := (doneItems p ++ [item])%list |}
  else if dueDate item <? now then
    {| overdueItems := (overdueItems p ++ [item])%list;
       upcomingItems := upcomingItems p; doneItems := doneItems p |}
  else
    {| overdueItems := overdueItems p;
       upcomingItems := (upcomingItems p ++ [item])%list;
       doneItems := doneItems p |}.

Definition partitionItems (now : Z) (allItems : list Item) : Partition :=
  fold_left (classify now) allItems
            {| overdueItems := []; upcomingItems := []; doneItems := [] |}.

(** The records that [renderList] lists, in the order of the list. *)
Definition filteredItems (now : Z) (currentFilter : Filter) (allItems : list Item)
    : list Item :=
  let p := partitionItems now allItems in
  sortByDueDate
    (match currentFilter with
     | FilterDone => doneItems p
     | FilterUpcoming => (overdueItems p ++ upcomingItems p)%list
     end).

Definition count (n : nat) : string :=
  DecimalString.NilZero.string_of_uint (Nat.to_uint n).

(** [itemCount.textContent] *)
Definition itemCountText (now : Z) (currentFilter : Filter) (allItems : list Item)
    : string :=
  let totalCount := List.length allItems in
  let filteredCount := List.length (filteredItems now currentFilter allItems) in
  count filteredCount
  ++ (match currentFilter with
      | FilterDone => " done of "
      | FilterUpcoming => " upcoming of "
      end)
  ++ count totalCount ++ " item" ++ (if Nat.eqb totalCount 1 then "" else "s").

(** [Math.ceil(t / d)] for an integer [t] and a positive integer [d]. *)
Definition ceilDiv (t d : Z) : Z := - ((- t) / d).

(** The class of the time chip of a record, in [createListItem]. *)
Definition timeClass (now : Z) (item : Item) : string :=
  let timeUntilDue := dueDate item - now in
  let daysUntilDue := ceilDiv timeUntilDue msPerDay in
  if timeUntilDue <? 0 then "urgent"
  else if daysUntilDue =? 0 then "urgent"
  else if daysUntilDue =? 1 then "warning"
  else if daysUntilDue <=? 3 then "warning"
  else "normal".

(** The text of the time chip: the word "Overdue", or the due date as
    the locale formats it. *)
Inductive TimeText := Overdue | DueDateFormatted.

Definition timeText (now : Z) (item : Item) : TimeText :=
  let timeUntilDue := dueDate item - now in
  if truthy (done item) then DueDateFormatted
  else if timeUntilDue <? 0 then Overdue
  else DueDateFormatted.

(** [a-zA-Z0-9] *)
Definition isAlphanumeric (c : ascii) : bool :=
  isLower c || isUpper c || isDigit c.

(** [/[^a-zA-Z0-9]/g] *)
Definition nonAlphanumericRe : Regex := Cls (fun c => negb (isAlphanumeric c)).

(** The class name made of the source of a record. *)
Definition sourceClass (item : Item) : string :=
  toLowerCase (replaceAll nonAlphanumericRe 0 "" (source item)).

(** What the refresh button does, by the address of the active tab. *)
Inductive RefreshAction :=
| InjectScript (scriptFile : string)
| ScrapeAllSites.

Definition refreshAction (url : string) : RefreshAction :=
  if includes "gradescope.com" url
  then InjectScript "../content-scripts/scrape-gradescope.js"
  else if includes "prairielearn.com" url
  then InjectScript "../content-scripts/scrape-prairielearn.js"
  else ScrapeAllSites.

(** The records of the overdue and of the upcoming array. *)
Definition isOverdue (now : Z) (item : Item) : bool :=
  negb (truthy (done item)) && (dueDate item <? now).

Definition isUpcoming (now : Z) (item : Item) : bool :=
  negb (truthy (done item)) && negb (dueDate item <? now).

(** The message that a change of the checkbox of a listed record sends,
    the checkbox showing [!!item.done] before the change, and the message
    that the Undo of the snackbar sends after it. *)
Definition checkboxChange (item : Item) : Event :=
  ToggleItemDone (id item) (negb (truthy (done item))).

Definition undo (item : Item) : Event :=
  ToggleItemDone (id item) (truthy (done item)).

End Popup.

(** ** The options page (options.js) *)

Module Options.
Import JsString Background.

Local Open Scope string_scope.
Local Open Scope Z_scope.


(** The two fields of the form: [notificationsEnabled.checked] and
    [notificationHours.value]. *)
Record Form := mkForm {
  checked : bool;
  value : string
}.

(** [n.toString()] for an integer. *)
Definition toString (n : Z) : string := decimal n.

(** [loadSettings]: the form as populated from the stored settings. *)
Definition loadSettings (data : Storage) : Form :=
  {| checked := notificationsEnabled (settings data);
     value := toString (notificationHours (settings data)) |}.

(** The value of a digit in the radix, if the character is one. *)
Definition digitOf (radix : Z) (c : ascii) : option Z :=
  let v :=
    if isDigit c then Some (Z.of_N (code c) - 48)
    else if (97 <=? code c)%N && (code c <=? 102)%N then Some (Z.of_N (code c) - 87)
    else if (65 <=? code c)%N && (code c <=? 70)%N then Some (Z.of_N (code c) - 55)
    else None in
  match v with
  | Some d => if d <? radix then Some d else None
  | None => None
  end.

(** The digits at the head of the text; [acc] is [None] as long as no
    digit was read. *)
Fixpoint parseRadix (radix : Z) (acc : option Z) (s : string) : option Z :=
  match s with
  | EmptyString => acc
  | String c s' =>
      match digitOf radix c with
      | Some d =>
          parseRadix radix
            (Some (radix * (match acc with Some a => a | None => 0 end) + d)) s'
      | None => acc
      end
  end.

(** [parseInt(text)] without a radix: leading white space is skipped, a
    sign is read, "0x" or "0X" announces hexadecimal digits, and the
    digits are read up to the first character that is none; [None] is
    NaN. *)
Definition parseInt (text : string) : option Z :=
  let s := trimStart text in
  let sign := match s with String "-" _ => -1 | _ => 1 end in
  let s := match s with
           | String "-" s' => s'
           | String "+" s' => s'
           | _ => s
           end in
  let n := match s with
           | String "0" (String "x" s') => parseRadix 16 None s'
           | String "0" (String "X" s') => parseRadix 16 None s'
           | _ => parseRadix 10 None s
           end in
  match n with
  | Some v => Some (sign * v)
  | None => None
  end.

(** [saveSettings]: the settings of the UPDATE_SETTINGS message, both
    fields read from the form.  [None] when the hours are NaN, which is no
    stored document of this development. *)
Definition saveSettings (form : Form) : option SettingsPatch :=
  match parseInt (value form) with
  | Some hours => Some {| patchEnabled := Some (checked form);
                          patchHours := Some hours |}
  | None => None
  end.

(** [handleReset]: the form and the settings of the message. *)
Definition defaultForm : Form := {| checked := true; value := toString 24 |}.

Definition handleReset : Form * SettingsPatch :=
  (defaultForm, {| patchEnabled := Some true; patchHours := Some 24 |}).

End Options.

(** ** The records that the scrapers build *)

Module Scrapers.
Import JsString Background.

Local Open Scope string_scope.
Local Open Scope Z_scope.


(** [a-zA-Z0-9-] *)
Definition isIdChar (c : ascii) : bool :=
  isLower c || isUpper c || isDigit c || Ascii.eqb c "-".

(** [/[^a-zA-Z0-9-]/g] *)
Definition nonIdRe : Regex := Cls (fun c => negb (isIdChar c)).

(** [`prairielearn-${link}`.replace(/[^a-zA-Z0-9-]/g, '-')] and the same
    for Gradescope. *)
Definition prairieLearnId (link : string) : string :=
  replaceAll nonIdRe 0 "-" ("prairielearn-" ++ link).

Definition gradescopeId (href : string) : string :=
  replaceAll nonIdRe 0 "-" ("gradescope-" ++ href).

(** The record of an assessment, [dueDate] being the instant that
    [parseDateString] returned and [now] the clock. *)
Definition prairieLearnItem (now : Z) (title : string) (dueDate : Z)
    (courseName link : string) : Item :=
  {| id := prairieLearnId link; title := title; dueDate := dueDate;
     course := courseName; link := link; source := "PrairieLearn";
     pastDue := Some (dueDate <? now); done := None; notificationSent := None |}.

(** The record of an assignment. *)
Definition gradescopeItem (title : string) (dueDate : Z)
    (courseName href : string) : Item :=
  {| id := gradescopeId href; title := title; dueDate := dueDate;
     course := courseName; link := href; source := "Gradescope";
     pastDue := None; done := None; notificationSent := None |}.

(** The text with every character of the class replaced by [by_]: what
    a global replacement of a one-character class comes to. *)
Fixpoint replaceEach (p : ascii -> bool) (by_ : string) (s : string) : string :=
  match s with
  | EmptyString => EmptyString
  | String c s' =>
      if p c then by_ ++ replaceEach p by_ s'
      else String c (replaceEach p by_ s')
  end.

End Scrapers.

(** ** Vocabulary of the properties of the inlined copies and of the cleaning *)

Module CopyFragments.
Import JsString JsDate Normaliser Fragments.

Local Open Scope string_scope.


(** The zone abbreviations that the PrairieLearn copy removes. *)
Definition zones : list string :=
  ["cst"; "est"; "pst"; "mst"; "cdt"; "edt"; "pdt"; "mdt"].

(** Nothing, or a space and a zone abbreviation. *)
Definition zoneSuffixes : list string :=
  "" :: List.map (fun z => " " ++ z) zones.

(** The fragments "<month name> <day>" followed by nothing or by a zone
    abbreviation. *)
Definition zonedFragments : list (string * Z * Z) :=
  flat_map (fun nm : string * Z =>
    flat_map (fun d : Z =>
      List.map (fun z => (fst nm ++ " " ++ digits d ++ z, snd nm, d))
               zoneSuffixes)
      days)
    monthTable.

(** What the month-day step of the inlined copies finds in a text: the
    name of month [month] and the day [day]. *)
Definition findsMonthDay (cleanStr : string) (month day : Z) : bool :=
  match exec monthDayRe 2 cleanStr with
  | Some m =>
      match monthNames (toLowerCase (capture 1 m)) with
      | Own mo => (mo =? month)%Z
      | _ => false
      end
      && (parseInt (capture 2 m) =? day)%Z
  | None => false
  end.

(** [prairieLearnShape text month day]: the cleaned text carries no
    relative day and no clock time, and once the zone abbreviations are
    removed the weekday pattern finds nothing in it and the month-day
    pattern finds month [month] and day [day]. *)
Definition prairieLearnShape (text : string) (month day : Z) : bool :=
  let c := cleanString text in
  negb (String.eqb text "")
  && negb (includes "today" c) && negb (includes "tomorrow" c)
  && isNone (exec timeRe 3 c)
  && isNone (exec weekdayMonthDayRe 3 (trim (replaceAll zoneRe 1 "" c)))
  && findsMonthDay (trim (replaceAll zoneRe 1 "" c)) month day.

(** [gradescopeShape text month day]: the same for the Gradescope copy,
    which removes no zone and has no weekday pattern. *)
Definition gradescopeShape (text : string) (month day : Z) : bool :=
  let c := cleanString text in
  negb (String.eqb text "")
  && negb (includes "today" c) && negb (includes "tomorrow" c)
  && isNone (exec timeRe 3 c)
  && findsMonthDay c month day.

(** [hostShape text]: the cleaned text is the text, carries no relative
    day and no clock time, loses nothing when the zone abbreviations are
    removed, and none of the patterns of the inlined copies finds anything
    in it. *)
Definition hostShape (text : string) : bool :=
  let c := cleanString text in
  negb (String.eqb text "")
  && String.eqb c text
  && negb (includes "today" c) && negb (includes "tomorrow" c)
  && isNone (exec timeRe 3 c)
  && String.eqb (trim (replaceAll zoneRe 1 "" c)) c
  && isNone (exec weekdayMonthDayRe 3 c)
  && isNone (exec monthDayRe 2 c)
  && isNone (exec slashYearRe 3 c).

(** *** The cleaned text *)

(** The text with every run of white space turned into one space;
    [inRun] tells that the character before was white space. *)
Fixpoint collapseFrom (inRun : bool) (s : string) : string :=
  match s with
  | EmptyString => EmptyString
  | String c s' =>
      if isSpace c then
        if inRun then collapseFrom true s'
        else String " " (collapseFrom true s')
      else String c (collapseFrom false s')
  end.

(** Every white space of the text is a space that follows no white
    space; [afterSpace] tells that the character before was white space (or
    that the text must not start with white space). *)
Fixpoint looseFrom (afterSpace : bool) (s : string) : bool :=
  match s with
  | EmptyString => true
  | String c s' =>
      if isSpace c
      then negb afterSpace && Ascii.eqb c " " && looseFrom true s'
      else looseFrom false s'
  end.

(** Words separated by single spaces: every white space of the text is
    a space between two characters that are none. *)
Fixpoint spacedFrom (afterSpace : bool) (s : string) : bool :=
  match s with
  | EmptyString => true
  | String c s' =>
      if isSpace c
      then negb afterSpace && Ascii.eqb c " "
           && negb (String.eqb s' "") && spacedFrom true s'
      else spacedFrom false s'
  end.

Definition singleSpaced (s : string) : bool := spacedFrom true s.

(** A character that [toLowerCase] leaves as it is. *)
Definition isLowered (c : ascii) : bool := Ascii.eqb (lowerChar c) c.

End CopyFragments.

(** * Properties of the service worker *)

Module BackgroundFacts.
Import Background.

Local Open Scope Z_scope.

(** ** Records *)

Lemma set_done_same (it : Item) : set_done (done it) it = it.
Proof. destruct it; reflexivity. Qed.

Lemma set_notificationSent_same (it : Item) :
  set_notificationSent (notificationSent it) it = it.
Proof. destruct it; reflexivity. Qed.

Lemma truthy_true (o : option bool) : truthy o = true <-> o = Some true.
Proof.
  destruct o as [[|]|]; simpl; split; intro H; try reflexivity; discriminate.
Qed.

Lemma hasId_true (i : string) (it : Item) : hasId i it = true <-> id it = i.
Proof. unfold hasId. apply String.eqb_eq. Qed.

Lemma hasId_false (i : string) (it : Item) : hasId i it = false <-> id it <> i.
Proof. unfold hasId. apply String.eqb_neq. Qed.

Lemma hasId_refl (it : Item) : hasId (id it) it = true.
Proof. apply hasId_true. reflexivity. Qed.

(** ** The id-keyed map *)

Lemma map_get_set (k k' : string) (v : Item) (m : ItemMap) :
  map_get k (map_set k' v m) = if String.eqb k' k then Some v else map_get k m.
Proof.
  induction m as [|[k0 v0] m IH]; simpl.
  - destruct (String.eqb k' k); reflexivity.
  - destruct (String.eqb k0 k') eqn:E0; simpl.
    + apply String.eqb_eq in E0. subst k0.
      destruct (String.eqb k' k); reflexivity.
    + rewrite IH. destruct (String.eqb k0 k) eqn:E1; [|reflexivity].
      apply String.eqb_eq in E1. subst k0. rewrite String.eqb_sym, E0.
      reflexivity.
Qed.

Lemma map_set_keys_in (k : string) (v : Item) (m : ItemMap) (x : string) :
  In x (List.map fst (map_set k v m)) <-> x = k \/ In x (List.map fst m).
Proof.
  induction m as [|[k0 v0] m IH]; simpl.
  - intuition.
  - destruct (String.eqb k0 k) eqn:E; simpl.
    + apply String.eqb_eq in E. subst k0. intuition.
    + rewrite IH. intuition.
Qed.

Lemma map_set_keys_NoDup (k : string) (v : Item) (m : ItemMap) :
  NoDup (List.map fst m) -> NoDup (List.map fst (map_set k v m)).
Proof.
  induction m as [|[k0 v0] m IH]; simpl; intro H.
  - constructor; [intros []|constructor].
  - inversion H as [|? ? Hn Hd]; subst.
    destruct (String.eqb k0 k) eqn:E; simpl.
    + apply String.eqb_eq in E. subst k0. constructor; assumption.
    + constructor; [|apply IH; assumption].
      rewrite map_set_keys_in. intros [->|Hin]; [|contradiction].
      rewrite String.eqb_refl in E. discriminate.
Qed.

Lemma map_set_keyed (v : Item) (m : ItemMap) :
  keyed m -> keyed (map_set (id v) v m).
Proof.
  unfold keyed. induction m as [|[k0 v0] m IH]; simpl; intro H.
  - constructor; [reflexivity|constructor].
  - inversion H; subst.
    destruct (String.eqb k0 (id v)); constructor; simpl; auto.
Qed.

Lemma map_get_None_notin (k : string) (m : ItemMap) :
  map_get k m = None -> ~ In k (List.map fst m).
Proof.
  induction m as [|[k0 v0] m IH]; simpl; intros H; [tauto|].
  destruct (String.eqb k0 k) eqn:E; [discriminate|].
  apply String.eqb_neq in E. intros [?|?]; [contradiction|]. apply IH; assumption.
Qed.

Lemma map_get_Some_in (k : string) (m : ItemMap) (v : Item) :
  map_get k m = Some v -> In k (List.map fst m).
Proof.
  induction m as [|[k0 v0] m IH]; simpl; intros H; [discriminate|].
  destruct (String.eqb k0 k) eqn:E.
  - left. apply String.eqb_eq. exact E.
  - right. apply IH. exact H.
Qed.

(** In a map with distinct keys, the values under an id are the entry
    that [get] returns. *)
Lemma withId_values (i : string) (m : ItemMap) :
  NoDup (List.map fst m) -> keyed m ->
  withId i (map_values m) =
    match map_get i m with Some v => [v] | None => [] end.
Proof.
  unfold withId, map_values, keyed.
  induction m as [|[k0 v0] m IH]; simpl; intros Hnd Hk; [reflexivity|].
  inversion Hnd as [|? ? Hn Hd]; subst. inversion Hk as [|? ? Hv Hk']; subst.
  simpl in Hv. unfold hasId at 1. rewrite Hv.
  destruct (String.eqb k0 i) eqn:E.
  - apply String.eqb_eq in E. f_equal.
    specialize (IH Hd Hk').
    destruct (map_get i m) eqn:G.
    + exfalso. apply Hn. rewrite E. eapply map_get_Some_in. exact G.
    + exact IH.
  - apply IH; assumption.
Qed.

(** ** The two passes of the merge *)

Lemma map_get_addExisting (i : string) (l : list Item) (m : ItemMap) :
  map_get i (fold_left addExisting l m) = fold_left (lastWithId i) l (map_get i m).
Proof.
  revert m. induction l as [|x l IH]; intro m; simpl; [reflexivity|].
  rewrite IH. f_equal. unfold addExisting, lastWithId, hasId.
  apply map_get_set.
Qed.

Lemma map_get_addNew (i : string) (l : list Item) (m : ItemMap) :
  map_get i (fold_left addNew l m) = fold_left (mergedWithId i) l (map_get i m).
Proof.
  revert m. induction l as [|x l IH]; intro m; simpl; [reflexivity|].
  rewrite IH. f_equal. unfold addNew, mergedWithId, hasId.
  rewrite map_get_set. destruct (String.eqb (id x) i) eqn:E; [|reflexivity].
  apply String.eqb_eq in E. subst i. reflexivity.
Qed.

Lemma preserveFlags_id (o : option Item) (x : Item) : id (preserveFlags o x) = id x.
Proof.
  unfold preserveFlags. destruct o as [e|]; [|reflexivity].
  destruct (truthy (notificationSent e)), (truthy (done e)); reflexivity.
Qed.

Lemma mergeItems_invariant (existing newItems : list Item) :
  NoDup (List.map fst (mergeItems existing newItems))
  /\ keyed (mergeItems existing newItems).
Proof.
  unfold mergeItems.
  assert (H0 : NoDup (List.map fst (@nil (string * Item))) /\ keyed [])
    by (split; constructor).
  revert H0. generalize (@nil (string * Item)) as m0.
  intros m0 H0.
  assert (H1 : NoDup (List.map fst (fold_left addExisting existing m0))
               /\ keyed (fold_left addExisting existing m0)).
  { revert m0 H0. induction existing as [|x l IH]; intros m0 [Hn Hk]; simpl.
    - split; assumption.
    - apply IH. unfold addExisting. split.
      + apply map_set_keys_NoDup; assumption.
      + apply map_set_keyed; assumption. }
  revert H1. generalize (fold_left addExisting existing m0) as m1.
  induction newItems as [|x l IH]; intros m1 [Hn Hk]; simpl.
  - split; assumption.
  - apply IH. unfold addNew. split.
    + apply map_set_keys_NoDup; assumption.
    + rewrite <- (preserveFlags_id (map_get (id x) m1) x) at 1.
      apply map_set_keyed; assumption.
Qed.

(** ** The sort *)

Lemma insertByDueDate_perm (x : Item) (l : list Item) :
  Permutation (x :: l) (insertByDueDate x l).
Proof.
  induction l as [|y l IH]; simpl; [apply Permutation_refl|].
  destruct (dueDate x <=? dueDate y); [apply Permutation_refl|].
  eapply perm_trans; [apply perm_swap|]. apply perm_skip. exact IH.
Qed.

Lemma sortByDueDate_perm (l : list Item) : Permutation l (sortByDueDate l).
Proof.
  induction l as [|x l IH]; simpl; [constructor|].
  eapply perm_trans; [apply perm_skip; exact IH|apply insertByDueDate_perm].
Qed.

Lemma insertByDueDate_sorted (x : Item) (l : list Item) :
  Sorted byDueDate l -> Sorted byDueDate (insertByDueDate x l).
Proof.
  induction l as [|y l IH]; simpl; intro H.
  - repeat constructor.
  - destruct (dueDate x <=? dueDate y) eqn:E.
    + constructor; [assumption|]. constructor. unfold byDueDate. lia.
    + inversion H as [|? ? Hs Hh]; subst. constructor; [apply IH; assumption|].
      destruct l as [|z l]; simpl.
      * constructor. unfold byDueDate. lia.
      * destruct (dueDate x <=? dueDate z) eqn:E'.
        -- constructor. unfold byDueDate. lia.
        -- inversion Hh; subst. constructor. assumption.
Qed.

Lemma sortByDueDate_sorted (l : list Item) : Sorted byDueDate (sortByDueDate l).
Proof.
  induction l as [|x l IH]; simpl; [constructor|].
  apply insertByDueDate_sorted. exact IH.
Qed.

Lemma withId_sortByDueDate_singleton (i : string) (l : list Item) (v : Item) :
  withId i l = [v] -> withId i (sortByDueDate l) = [v].
Proof.
  intro H. unfold withId in *.
  assert (P : Permutation (filter (hasId i) l) (filter (hasId i) (sortByDueDate l))).
  { clear H. generalize (sortByDueDate_perm l). generalize (sortByDueDate l).
    intros l' P. induction P; simpl.
    - constructor.
    - destruct (hasId i x); [apply perm_skip|]; assumption.
    - destruct (hasId i x), (hasId i y);
        try apply perm_swap; apply Permutation_refl.
    - eapply perm_trans; eassumption. }
  rewrite H in P. apply Permutation_length_1_inv in P. exact P.
Qed.

Lemma fold_lastWithId_filter (i : string) (l : list Item) (acc : option Item) :
  fold_left (lastWithId i) l acc = fold_left (lastWithId i) (withId i l) acc.
Proof.
  revert acc. induction l as [|x l IH]; intro acc; simpl; [reflexivity|].
  unfold lastWithId at 2. destruct (hasId i x) eqn:E; simpl.
  - unfold lastWithId at 3. rewrite E. apply IH.
  - apply IH.
Qed.

Lemma fold_mergedWithId_filter (i : string) (l : list Item) (acc : option Item) :
  fold_left (mergedWithId i) l acc = fold_left (mergedWithId i) (withId i l) acc.
Proof.
  revert acc. induction l as [|x l IH]; intro acc; simpl; [reflexivity|].
  unfold mergedWithId at 2. destruct (hasId i x) eqn:E; simpl.
  - unfold mergedWithId at 3. rewrite E. apply IH.
  - apply IH.
Qed.

(** The record that the merge leaves under the id of an incoming record,
    when the batch holds one record with that id. *)
Lemma map_get_mergeItems (existing incoming : list Item) (n : Item) :
  withId (id n) incoming = [n] ->
  map_get (id n) (mergeItems existing incoming) =
    Some (preserveFlags (fold_left (lastWithId (id n)) existing None) n).
Proof.
  intro H. unfold mergeItems.
  rewrite map_get_addNew, map_get_addExisting, fold_mergedWithId_filter, H.
  simpl. unfold mergedWithId. rewrite hasId_refl. reflexivity.
Qed.

Lemma withId_reconcile (existing incoming : list Item) (n : Item) :
  withId (id n) incoming = [n] ->
  withId (id n) (reconcile existing incoming) =
    [preserveFlags (fold_left (lastWithId (id n)) existing None) n].
Proof.
  intro H. unfold reconcile. apply withId_sortByDueDate_singleton.
  destruct (mergeItems_invariant existing incoming) as [Hn Hk].
  rewrite (withId_values _ _ Hn Hk), (map_get_mergeItems _ _ _ H).
  reflexivity.
Qed.

(** A record of the store that no incoming record names stays as it is. *)
Lemma withId_reconcile_untouched (existing incoming : list Item) (i : string) :
  withId i incoming = [] ->
  withId i (reconcile existing incoming) =
    match fold_left (lastWithId i) existing None with
    | Some e => [e]
    | None => []
    end.
Proof.
  intro H.
  destruct (mergeItems_invariant existing incoming) as [Hn Hk].
  assert (G : map_get i (mergeItems existing incoming)
              = fold_left (lastWithId i) existing None).
  { unfold mergeItems.
    rewrite map_get_addNew, map_get_addExisting, fold_mergedWithId_filter, H.
    reflexivity. }
  pose proof (withId_values i _ Hn Hk) as V. rewrite G in V.
  destruct (fold_left (lastWithId i) existing None) as [e|].
  - unfold reconcile. apply withId_sortByDueDate_singleton. exact V.
  - unfold reconcile, withId in *.
    destruct (filter (hasId i) (sortByDueDate _)) as [|y l] eqn:F; [reflexivity|].
    exfalso.
    assert (Hy : In y (filter (hasId i) (map_values (mergeItems existing incoming)))).
    { apply filter_In.
      assert (Hy : In y (y :: l)) by (left; reflexivity).
      rewrite <- F in Hy. apply filter_In in Hy. destruct Hy as [Hy1 Hy2].
      split; [|exact Hy2].
      eapply Permutation_in; [apply Permutation_sym, sortByDueDate_perm|exact Hy1]. }
    rewrite V in Hy. destruct Hy.
Qed.

Lemma preserveFlags_fields (o : option Item) (n : Item) :
  let m := preserveFlags o n in
  id m = id n /\ title m = title n /\ dueDate m = dueDate n
  /\ course m = course n /\ link m = link n /\ source m = source n
  /\ pastDue m = pastDue n.
Proof.
  unfold preserveFlags. destruct o as [e|]; [|repeat split].
  destruct (truthy (notificationSent e)), (truthy (done e)); repeat split.
Qed.

Lemma preserveFlags_done (e n : Item) :
  done (preserveFlags (Some e) n) =
    if truthy (done e) then Some true else done n.
Proof.
  unfold preserveFlags.
  destruct (truthy (done e)) eqn:D; simpl.
  - apply truthy_true. exact D.
  - destruct (truthy (notificationSent e)); reflexivity.
Qed.

Lemma preserveFlags_notificationSent (e n : Item) :
  notificationSent (preserveFlags (Some e) n) =
    if truthy (notificationSent e) then Some true else notificationSent n.
Proof.
  unfold preserveFlags.
  destruct (truthy (notificationSent e)) eqn:D; simpl.
  - apply truthy_true in D. destruct (truthy (done e)); simpl; exact D.
  - destruct (truthy (done e)); reflexivity.
Qed.

Lemma truthy_false_iff (o : option bool) : truthy o = false <-> o <> Some true.
Proof.
  destruct o as [[|]|]; simpl; split; intro H; try reflexivity;
    try discriminate; try congruence.
Qed.

(** Whatever the batch, a flag that is set on the record stored under
    an id is set on the record the merge leaves under it. *)
Lemma fold_merged_sticky (i : string) (l : list Item) (a : Item) :
  id a = i ->
  exists a', fold_left (mergedWithId i) l (Some a) = Some a'
             /\ id a' = i
             /\ (done a = Some true -> done a' = Some true)
             /\ (notificationSent a = Some true ->
                 notificationSent a' = Some true).
Proof.
  revert a. induction l as [|x l IH]; intros a Hi; simpl.
  - exists a. repeat split; auto.
  - unfold mergedWithId at 2. destruct (hasId i x) eqn:F; [|apply IH; exact Hi].
    destruct (IH (preserveFlags (Some a) x)) as [a' [E [Hi' [Hd Hn]]]].
    { rewrite preserveFlags_id. apply hasId_true. exact F. }
    exists a'. split; [exact E|]. split; [exact Hi'|]. split.
    + intro D. apply Hd. rewrite preserveFlags_done.
      apply truthy_true in D. rewrite D. reflexivity.
    + intro D. apply Hn. rewrite preserveFlags_notificationSent.
      apply truthy_true in D. rewrite D. reflexivity.
Qed.

Lemma withId_member (i : string) (l : list Item) (e : Item) :
  withId i l = [e] -> id e = i.
Proof.
  intro H.
  assert (Hin : In e (withId i l)) by (rewrite H; left; reflexivity).
  apply filter_In in Hin. apply hasId_true. apply Hin.
Qed.

Lemma reconcile_sticky (existing incoming : list Item) (e : Item) :
  withId (id e) existing = [e] ->
  exists m : Item,
    withId (id e) (reconcile existing incoming) = [m]
    /\ (done e = Some true -> done m = Some true)
    /\ (notificationSent e = Some true -> notificationSent m = Some true).
Proof.
  intro He.
  destruct (mergeItems_invariant existing incoming) as [Hn Hk].
  destruct (fold_merged_sticky (id e) incoming e eq_refl)
    as [m [E [_ [Hd Hs]]]].
  exists m. split; [|split; assumption].
  unfold reconcile. apply withId_sortByDueDate_singleton.
  rewrite (withId_values _ _ Hn Hk). unfold mergeItems.
  rewrite map_get_addNew, map_get_addExisting, fold_lastWithId_filter, He.
  simpl. unfold lastWithId. rewrite hasId_refl, E. reflexivity.
Qed.


Example reconcile_end_to_end :
  reconcile [storedHW1] [scrapedHW1] =
    [ {| id := "a"; title := "HW1"; dueDate := 172800000; course := "CS 101";
         link := "https://example.org/a"; source := "Gradescope";
         pastDue := None; done := Some true; notificationSent := Some true |} ].
Proof. reflexivity. Qed.


(** ** Reconciling a collection against itself *)

Lemma map_set_fresh (k : string) (v : Item) (m : ItemMap) :
  ~ In k (List.map fst m) -> map_set k v m = (m ++ [(k, v)])%list.
Proof.
  induction m as [|[k0 v0] m IH]; simpl; intro H; [reflexivity|].
  destruct (String.eqb k0 k) eqn:E.
  - apply String.eqb_eq in E. tauto.
  - rewrite IH; [reflexivity|tauto].
Qed.

Lemma map_set_same (k : string) (v : Item) (m : ItemMap) :
  map_get k m = Some v -> map_set k v m = m.
Proof.
  induction m as [|[k0 v0] m IH]; simpl; intro H; [discriminate|].
  destruct (String.eqb k0 k) eqn:E.
  - apply String.eqb_eq in E. congruence.
  - rewrite IH; [reflexivity|exact H].
Qed.

Lemma addExisting_wellFormed (l : list Item) (m : ItemMap) :
  NoDup (List.map fst m ++ List.map id l) ->
  fold_left addExisting l m = (m ++ List.map entry l)%list.
Proof.
  revert m. induction l as [|x l IH]; intros m H; simpl.
  - rewrite app_nil_r. reflexivity.
  - unfold addExisting at 2. rewrite map_set_fresh.
    + rewrite IH.
      * rewrite <- app_assoc. reflexivity.
      * rewrite map_app, <- app_assoc. exact H.
    + simpl in H. apply NoDup_remove_2 in H. intro Hin. apply H.
      apply in_or_app. left. exact Hin.
Qed.

Lemma map_get_entries (l : list Item) (x : Item) :
  wellFormed l -> In x l -> map_get (id x) (List.map entry l) = Some x.
Proof.
  unfold wellFormed. induction l as [|y l IH]; simpl; intros Hnd Hin; [tauto|].
  inversion Hnd as [|? ? Hn Hd]; subst.
  destruct Hin as [->|Hin].
  - rewrite String.eqb_refl. reflexivity.
  - destruct (String.eqb (id y) (id x)) eqn:E.
    + exfalso. apply String.eqb_eq in E. apply Hn. rewrite E.
      apply in_map. exact Hin.
    + apply IH; assumption.
Qed.

Lemma preserveFlags_self (x : Item) : preserveFlags (Some x) x = x.
Proof.
  unfold preserveFlags.
  destruct (truthy (notificationSent x)); rewrite ?set_notificationSent_same;
    destruct (truthy (done x)); rewrite ?set_done_same; reflexivity.
Qed.

Lemma addNew_same (l : list Item) (m : ItemMap) :
  (forall x, In x l -> map_get (id x) m = Some x) ->
  fold_left addNew l m = m.
Proof.
  induction l as [|x l IH]; simpl; intro H; [reflexivity|].
  assert (Hx : addNew m x = m).
  { unfold addNew. rewrite (H x (or_introl eq_refl)), preserveFlags_self.
    apply map_set_same. apply H. left. reflexivity. }
  rewrite Hx. apply IH. intros y Hy. apply H. right. exact Hy.
Qed.

Lemma map_values_entries (l : list Item) : map_values (List.map entry l) = l.
Proof.
  unfold map_values. rewrite map_map. simpl. apply map_id.
Qed.

Lemma mergeItems_self (X : list Item) :
  wellFormed X -> map_values (mergeItems X X) = X.
Proof.
  intro H. unfold mergeItems.
  rewrite (addExisting_wellFormed X []); [|exact H]. simpl.
  rewrite addNew_same; [apply map_values_entries|].
  intros x Hx. apply map_get_entries; assumption.
Qed.

Lemma sortByDueDate_sorted_id (l : list Item) :
  Sorted byDueDate l -> sortByDueDate l = l.
Proof.
  induction l as [|x l IH]; simpl; intro H; [reflexivity|].
  inversion H as [|? ? Hs Hh]; subst. rewrite (IH Hs).
  destruct l as [|y l]; [reflexivity|]. simpl.
  inversion Hh as [|? ? Hxy]; subst. unfold byDueDate in Hxy.
  destruct (dueDate x <=? dueDate y) eqn:E; [reflexivity|lia].
Qed.

(** C2.  Reconciliation is idempotent.  For a collection [X] in which
    every id names one record, reconciling [X] against the batch [X]
    gives [X] sorted by ascending due date: the same records with every
    field unchanged, in due-date order, and [X] itself when [X] was in
    that order already. *)
Theorem reconcile_idempotent :
  forall X : list Item,
    wellFormed X ->
    reconcile X X = sortByDueDate X
    /\ Permutation X (reconcile X X)
    /\ Sorted byDueDate (reconcile X X)
    /\ (Sorted byDueDate X -> reconcile X X = X).
Proof.
  intros X H.
  assert (E : reconcile X X = sortByDueDate X).
  { unfold reconcile. rewrite mergeItems_self; [reflexivity|exact H]. }
  rewrite E. repeat split.
  - apply sortByDueDate_perm.
  - apply sortByDueDate_sorted.
  - apply sortByDueDate_sorted_id.
Qed.

Lemma wellFormed_example : wellFormed [storedHW1; otherHW].
Proof.
  unfold wellFormed. simpl. constructor.
  - intros [H|[]]. discriminate H.
  - constructor; [intros []|constructor].
Defined.

Lemma reconcile_idempotent_witness :
  wellFormed [storedHW1; otherHW]
  /\ reconcile [storedHW1; otherHW] [storedHW1; otherHW] = [otherHW; storedHW1].
Proof.
  split; [exact wellFormed_example|].
  exact (proj1 (reconcile_idempotent [storedHW1; otherHW] wellFormed_example)).
Defined.

(** ** The badge counter *)

(** A record due exactly 24 hours from now is counted by the badge. *)
Lemma badgeCount_counts_24h_sharp :
  ~ (forall (now : Z) (data : Storage),
       badgeCount now data = badgeCountHalfOpen now data).
Proof.
  intro H.
  specialize (H 0 {| items := [dueIn 86400000]; settings := DEFAULT_SETTINGS |}).
  vm_compute in H. discriminate H.
Qed.

Lemma filter_split_count (f g h : Item -> bool) (l : list Item) :
  (forall x, f x = g x || h x) -> (forall x, g x && h x = false) ->
  List.length (filter f l)
  = (List.length (filter g l) + List.length (filter h l))%nat.
Proof.
  intros Hf Hd. induction l as [|x l IH]; simpl; [reflexivity|].
  rewrite Hf. specialize (Hd x).
  destruct (g x), (h x); simpl in *; try discriminate; rewrite IH; lia.
Qed.

(** C5 (amended).  The badge counts the records due in the closed
    interval from [now] to [now + 24h]: a record is counted exactly when
    [now <= dueDate <= now + 24h].  The count is the number of records due
    in the half-open interval plus the number due at [now + 24h] sharp.  A
    record due in 24h and one second is not counted, a record due in
    23h 59m 59s is counted, and a record due before [now] is not
    counted. *)
Theorem badgeCount_closed_interval :
  forall (now : Z) (data : Storage),
    (forall item : Item,
        In item (upcomingItems now data) <->
        In item (items data)
        /\ now <= dueDate item <= now + 24 * 60 * 60 * 1000)
    /\ badgeCount now data
       = (badgeCountHalfOpen now data
          + List.length (filter (dueAt (now + msPerDay)) (items data)))%nat
    /\ (forall item : Item,
          dueDate item = now + 24 * 60 * 60 * 1000 + 1000 ->
          badgeCount now (set_items (item :: items data) data)
          = badgeCount now data)
    /\ (forall item : Item,
          dueDate item = now + (23 * 60 * 60 + 59 * 60 + 59) * 1000 ->
          badgeCount now (set_items (item :: items data) data)
          = S (badgeCount now data))
    /\ (forall item : Item,
          dueDate item < now ->
          badgeCount now (set_items (item :: items data) data)
          = badgeCount now data).
Proof.
  intros now data. split; [|split; [|split; [|split]]].
  - intro item. unfold upcomingItems. rewrite filter_In.
    unfold dueWithin24h, msPerDay. rewrite andb_true_iff, !Z.leb_le. tauto.
  - unfold badgeCount, badgeCountHalfOpen, upcomingItems.
    apply filter_split_count; intro x;
      unfold dueWithin24h, dueWithin24hHalfOpen, dueAt, msPerDay;
      destruct (now <=? dueDate x) eqn:A;
      destruct (dueDate x <=? now + 24 * 60 * 60 * 1000) eqn:B;
      destruct (dueDate x <? now + 24 * 60 * 60 * 1000) eqn:C;
      destruct (dueDate x =? now + 24 * 60 * 60 * 1000) eqn:D;
      simpl; try reflexivity; lia.
  - intros item H. unfold badgeCount, upcomingItems. simpl.
    unfold dueWithin24h at 1, msPerDay.
    destruct (dueDate item <=? now + 24 * 60 * 60 * 1000) eqn:B; [lia|].
    rewrite andb_false_r. reflexivity.
  - intros item H. unfold badgeCount, upcomingItems. simpl.
    unfold dueWithin24h at 1, msPerDay.
    destruct (now <=? dueDate item) eqn:A; [|lia].
    destruct (dueDate item <=? now + 24 * 60 * 60 * 1000) eqn:B; [|lia].
    reflexivity.
  - intros item H. unfold badgeCount, upcomingItems. simpl.
    unfold dueWithin24h at 1.
    destruct (now <=? dueDate item) eqn:A; [lia|]. reflexivity.
Qed.

(** Over an empty collection at the instant 0: a record due in
    23h 59m 59s is counted and a record due in 24h 0m 1s is not. *)
Lemma badgeCount_closed_interval_witness :
  badgeCount 0 {| items := [dueIn 86399000]; settings := DEFAULT_SETTINGS |} = 1%nat
  /\ badgeCount 0 {| items := [dueIn 86401000]; settings := DEFAULT_SETTINGS |} = 0%nat.
Proof.
  pose (empty := {| items := []; settings := DEFAULT_SETTINGS |}).
  destruct (badgeCount_closed_interval 0 empty) as (_ & _ & Late & Soon & _).
  split.
  - exact (Soon (dueIn 86399000) eq_refl).
  - exact (Late (dueIn 86401000) eq_refl).
Defined.

(** ** The retention sweep *)

Lemma filter_length_eq (f : Item -> bool) (l : list Item) :
  List.length (filter f l) = List.length l -> filter f l = l.
Proof.
  induction l as [|x l IH]; simpl; intro H; [reflexivity|].
  destruct (f x); simpl in H.
  - f_equal. apply IH. lia.
  - pose proof (filter_length_le f l). lia.
Qed.

Lemma cleanupOldItems_items (now : Z) (data : Storage) :
  items (cleanupOldItems now data) = filter (notOlderThan30Days now) (items data).
Proof.
  unfold cleanupOldItems.
  destruct (Nat.eqb _ _) eqn:E; [|reflexivity].
  apply Nat.eqb_eq in E. symmetry. apply filter_length_eq. exact E.
Qed.

(** C8.  The retention sweep removes exactly the records due before
    [now - 30 days], whatever their done and notificationSent flags: the
    records left are the records of the collection with
    [now - 30 days <= dueDate], each one as it was and in the same order,
    and the settings are untouched.  A record due 31 days ago is removed
    and a record due 29 days ago is retained. *)
Theorem cleanupOldItems_retention :
  forall (now : Z) (data : Storage),
    items (cleanupOldItems now data)
    = filter (fun item => now - 30 * 24 * 60 * 60 * 1000 <=? dueDate item)
             (items data)
    /\ settings (cleanupOldItems now data) = settings data
    /\ (forall item : Item,
          In item (items (cleanupOldItems now data)) <->
          In item (items data)
          /\ ~ dueDate item < now - 30 * 24 * 60 * 60 * 1000)
    /\ (forall item : Item,
          dueDate item = now - 31 * (24 * 60 * 60 * 1000) ->
          ~ In item (items (cleanupOldItems now data)))
    /\ (forall item : Item,
          dueDate item = now - 29 * (24 * 60 * 60 * 1000) ->
          In item (items data) ->
          In item (items (cleanupOldItems now data))).
Proof.
  intros now data.
  assert (M : forall item : Item,
             In item (items (cleanupOldItems now data)) <->
             In item (items data)
             /\ ~ dueDate item < now - 30 * 24 * 60 * 60 * 1000).
  { intro item. rewrite cleanupOldItems_items, filter_In.
    unfold notOlderThan30Days, thirtyDays. rewrite Z.leb_le. intuition lia. }
  split; [apply cleanupOldItems_items|].
  split; [unfold cleanupOldItems; destruct (Nat.eqb _ _); reflexivity|].
  split; [exact M|]. split.
  - intros item H Hin. apply M in Hin. lia.
  - intros item H Hin. apply M. split; [exact Hin|lia].
Qed.

(** At the instant of day 40, of a record due on day 9 and a record due
    on day 11 the sweep keeps the second. *)
Lemma cleanupOldItems_retention_witness :
  ~ In (dueIn (9 * 86400000))
       (items (cleanupOldItems (40 * 86400000)
                 {| items := [dueIn (9 * 86400000); dueIn (11 * 86400000)];
                    settings := DEFAULT_SETTINGS |}))
  /\ In (dueIn (11 * 86400000))
        (items (cleanupOldItems (40 * 86400000)
                  {| items := [dueIn (9 * 86400000); dueIn (11 * 86400000)];
                     settings := DEFAULT_SETTINGS |})).
Proof.
  destruct (cleanupOldItems_retention (40 * 86400000)
              {| items := [dueIn (9 * 86400000); dueIn (11 * 86400000)];
                 settings := DEFAULT_SETTINGS |}) as (_ & _ & _ & Old & Recent).
  split.
  - exact (Old (dueIn (9 * 86400000)) eq_refl).
  - exact (Recent (dueIn (11 * 86400000)) eq_refl (or_intror (or_introl eq_refl))).
Defined.

(** ** Toggling the done flag *)

(** C9.  Toggle-done is a point update.  The collection keeps its
    length and order and the settings are untouched; position by
    position, a record whose id is not the given one is unchanged, and a
    record with the given id has its done field set to the given value
    and every other field unchanged. *)
Theorem toggleItemDone_point_update :
  forall (msgId : string) (msgDone : bool) (data : Storage),
    settings (toggleItemDone msgId msgDone data) = settings data
    /\ Forall2
         (fun old new : Item =>
            id new = id old /\ title new = title old
            /\ dueDate new = dueDate old /\ course new = course old
            /\ link new = link old /\ source new = source old
            /\ pastDue new = pastDue old
            /\ notificationSent new = notificationSent old
            /\ (id old = msgId -> done new = Some msgDone)
            /\ (id old <> msgId -> new = old))
         (items data) (items (toggleItemDone msgId msgDone data)).
Proof.
  intros msgId msgDone data. split; [reflexivity|].
  unfold toggleItemDone. simpl.
  induction (items data) as [|x l IH]; simpl; constructor; [|exact IH].
  destruct (String.eqb (id x) msgId) eqn:E.
  - apply String.eqb_eq in E. simpl. repeat split; try reflexivity.
    intro N. contradiction.
  - apply String.eqb_neq in E. repeat split; try reflexivity.
    intro N. contradiction.
Qed.

(** ** The notification scheduler *)

Lemma markNotified_ids (i : string) (l : list Item) :
  List.map id (markNotified i l) = List.map id l.
Proof.
  induction l as [|x l IH]; simpl; [reflexivity|].
  destruct (String.eqb (id x) i); simpl; [reflexivity|]. rewrite IH. reflexivity.
Qed.

Lemma map_unchanged (f : Item -> Item) (l : list Item) :
  (forall x, In x l -> f x = x) -> List.map f l = l.
Proof.
  induction l as [|x l IH]; simpl; intro H; [reflexivity|].
  rewrite H by (left; reflexivity). rewrite IH; [reflexivity|].
  intros y Hy. apply H. right. exact Hy.
Qed.

(** With distinct ids, marking the first record with an id marks the
    record with that id. *)
Lemma markNotified_wellFormed (i : string) (l : list Item) :
  wellFormed l ->
  markNotified i l =
    List.map (fun x => if hasId i x then set_notificationSent (Some true) x else x) l.
Proof.
  unfold wellFormed. induction l as [|x l IH]; simpl; intro H; [reflexivity|].
  inversion H as [|? ? Hn Hd]; subst. unfold hasId at 1.
  destruct (String.eqb (id x) i) eqn:E.
  - f_equal. symmetry. apply map_unchanged. intros y Hy.
    destruct (hasId i y) eqn:F; [|reflexivity].
    exfalso. apply Hn. apply String.eqb_eq in E. apply hasId_true in F.
    rewrite E, <- F. apply in_map. exact Hy.
  - f_equal. apply IH. exact Hd.
Qed.

Lemma notifyItem_fold (create : Notification -> bool) (now : Z)
    (P : list Item) (u : list Item) (log : list (Notification * bool)) :
  fold_left (notifyItem create now) P (u, log)
  = (fold_left (markStep create now) P u,
     (log ++ List.map (fun it => (composeNotification now it,
                                  create (composeNotification now it))) P)%list).
Proof.
  revert u log. induction P as [|p P IH]; intros u log; simpl.
  - rewrite app_nil_r. reflexivity.
  - unfold notifyItem at 2, markStep at 2. simpl.
    destruct (create (composeNotification now p)); rewrite IH, <- app_assoc;
      reflexivity.
Qed.

Lemma markStep_fold (create : Notification -> bool) (now : Z)
    (P : list Item) (u : list Item) :
  wellFormed u ->
  fold_left (markStep create now) P u = List.map (markedBy create now P) u.
Proof.
  revert u. induction P as [|p P IH]; intros u H; simpl.
  - symmetry. apply map_unchanged. reflexivity.
  - rewrite IH.
    + unfold markStep. destruct (create (composeNotification now p)) eqn:C.
      * rewrite (markNotified_wellFormed _ _ H), map_map.
        apply map_ext. intro x. unfold markedBy. simpl.
        destruct (hasId (id p) x) eqn:F; simpl.
        -- rewrite C. simpl.
           destruct (existsb _ P); reflexivity.
        -- reflexivity.
      * apply map_ext. intro x. unfold markedBy. simpl. rewrite C.
        rewrite andb_false_r. reflexivity.
    + unfold wellFormed, markStep.
      destruct (create (composeNotification now p)); [|exact H].
      rewrite markNotified_ids. exact H.
Qed.

Lemma wellFormed_unique (l : list Item) (x y : Item) :
  wellFormed l -> In x l -> In y l -> id x = id y -> x = y.
Proof.
  unfold wellFormed. induction l as [|z l IH]; simpl; intros H Hx Hy E; [tauto|].
  inversion H as [|? ? Hn Hd]; subst.
  destruct Hx as [->|Hx], Hy as [->|Hy].
  - reflexivity.
  - exfalso. apply Hn. rewrite E. apply in_map. exact Hy.
  - exfalso. apply Hn. rewrite <- E. apply in_map. exact Hx.
  - apply IH; assumption.
Qed.

Lemma existsb_filter_unique (create : Notification -> bool) (now : Z)
    (sel : Item -> bool) (l : list Item) (x : Item) :
  wellFormed l -> In x l ->
  existsb (fun it => hasId (id it) x && create (composeNotification now it))
          (filter sel l)
  = sel x && create (composeNotification now x).
Proof.
  intros H Hx.
  destruct (sel x && create (composeNotification now x)) eqn:E.
  - apply andb_true_iff in E. destruct E as [E1 E2].
    apply existsb_exists. exists x. split.
    + apply filter_In. split; assumption.
    + rewrite hasId_refl, E2. reflexivity.
  - destruct (existsb _ _) eqn:X; [|reflexivity].
    apply existsb_exists in X. destruct X as [y [Hy Hc]].
    apply filter_In in Hy. destruct Hy as [Hy Hs].
    apply andb_true_iff in Hc. destruct Hc as [Hi Hc].
    apply hasId_true in Hi.
    assert (x = y) by (apply (wellFormed_unique l); assumption).
    subst y. rewrite Hs, Hc in E. discriminate.
Qed.

(** One tick: every selected record is handed to the notification
    capability, in order, and the records are updated by [afterTick]. *)
Lemma checkAndSendNotifications_spec (create : Notification -> bool) (now : Z)
    (data : Storage) :
  wellFormed (items data) ->
  notificationsEnabled (settings data) = true ->
  items (fst (checkAndSendNotifications create now data))
  = List.map (afterTick create now data) (items data)
  /\ settings (fst (checkAndSendNotifications create now data)) = settings data
  /\ snd (checkAndSendNotifications create now data)
     = List.map (fun it => (composeNotification now it,
                            create (composeNotification now it)))
                (itemsToNotify now data).
Proof.
  intros H En. unfold checkAndSendNotifications. rewrite En. simpl.
  rewrite notifyItem_fold. simpl.
  assert (M : fold_left (markStep create now) (itemsToNotify now data) (items data)
              = List.map (afterTick create now data) (items data)).
  { rewrite markStep_fold by exact H.
    apply map_ext_in. intros x Hx. unfold markedBy, afterTick, itemsToNotify.
    rewrite existsb_filter_unique by assumption. reflexivity. }
  split; [|split].
  - rewrite <- M. destruct (itemsToNotify now data); reflexivity.
  - destruct (itemsToNotify now data); reflexivity.
  - reflexivity.
Qed.

(** *** A delivery that fails *)

Example tick_with_failure :
  checkAndSendNotifications failsForA 0 twoDue
  = ({| items := [hw "a" 3600000;
                  set_notificationSent (Some true) (hw "b" 7200000)];
        settings := DEFAULT_SETTINGS |},
     [(composeNotification 0 (hw "a" 3600000), false);
      (composeNotification 0 (hw "b" 7200000), true)]).
Proof. reflexivity. Qed.

Example tick_message :
  notificationMessage (composeNotification 0 (hw "b" 7200000))
  = ("HW b" ++ newline ++ "CS 101" ++ newline ++ "Due in 2 hours")%string.
Proof. reflexivity. Qed.

(** The next tick calls the capability for "a" again. *)
Example tick_retries_failed :
  notifiedIds
    (snd (run [NotificationAlarm 0 failsForA;
               NotificationAlarm 1800000 (fun _ => true)] twoDue))
  = ["a"; "b"; "a"]%string.
Proof. reflexivity. Qed.

(** A record whose notification could not be created is not flagged. *)
Lemma failed_delivery_not_flagged :
  ~ (forall (create : Notification -> bool) (now : Z) (data : Storage)
            (item : Item),
        wellFormed (items data) ->
        notificationsEnabled (settings data) = true ->
        In item (itemsToNotify now data) ->
        create (composeNotification now item) = false ->
        notified (id item)
                 (items (fst (checkAndSendNotifications create now data)))).
Proof.
  intro H.
  specialize (H failsForA 0 twoDue (hw "a" 3600000)).
  destruct H as [r [Hin [Hid Hns]]].
  - unfold wellFormed. simpl. constructor.
    + intros [E|[]]. discriminate E.
    + constructor; [intros []|constructor].
  - reflexivity.
  - left. reflexivity.
  - reflexivity.
  - rewrite tick_with_failure in Hin. simpl in Hin.
    destruct Hin as [<-|[<-|[]]].
    + discriminate Hns.
    + discriminate Hid.
Qed.

(** C4 (amended).  On a tick with notifications enabled, over a
    collection with distinct ids: the notification capability is called
    once for every selected record, in order, whether or not earlier
    calls failed; a selected record whose call succeeded is stored with
    notificationSent set; a selected record whose call failed is stored
    as it was, its flag not set, and is selected again by a tick at the
    same time over the stored result. *)
Theorem delivery_failure_is_local :
  forall (create : Notification -> bool) (now : Z) (data : Storage),
    wellFormed (items data) ->
    notificationsEnabled (settings data) = true ->
    let result := checkAndSendNotifications create now data in
    List.map fst (snd result)
    = List.map (composeNotification now) (itemsToNotify now data)
    /\ (forall item : Item,
          In item (itemsToNotify now data) ->
          create (composeNotification now item) = true ->
          In (set_notificationSent (Some true) item) (items (fst result)))
    /\ (forall item : Item,
          In item (itemsToNotify now data) ->
          create (composeNotification now item) = false ->
          In item (items (fst result))
          /\ In item (itemsToNotify now (fst result))).
Proof.
  intros create now data H En result.
  destruct (checkAndSendNotifications_spec create now data H En)
    as [Hi [Hs Hl]].
  fold result in Hi, Hs, Hl.
  split; [|split].
  - rewrite Hl, map_map. reflexivity.
  - intros item Hin Hc. rewrite Hi.
    unfold itemsToNotify in Hin. apply filter_In in Hin. destruct Hin as [Hin Hsel].
    apply in_map_iff. exists item. split; [|exact Hin].
    unfold afterTick. rewrite Hsel, Hc. reflexivity.
  - intros item Hin Hc.
    unfold itemsToNotify in Hin. apply filter_In in Hin. destruct Hin as [Hin Hsel].
    assert (Hin' : In item (items (fst result))).
    { rewrite Hi. apply in_map_iff. exists item. split; [|exact Hin].
      unfold afterTick. rewrite Hsel, Hc. reflexivity. }
    split; [exact Hin'|].
    unfold itemsToNotify. apply filter_In. split; [exact Hin'|].
    rewrite Hs. exact Hsel.
Qed.

Lemma wellFormed_twoDue : wellFormed (items twoDue).
Proof.
  unfold wellFormed. simpl. constructor.
  - intros [E|[]]. discriminate E.
  - constructor; [intros []|constructor].
Defined.

Lemma delivery_failure_is_local_witness :
  wellFormed (items twoDue)
  /\ notificationsEnabled (settings twoDue) = true
  /\ List.map fst (snd (checkAndSendNotifications failsForA 0 twoDue))
     = List.map (composeNotification 0) (itemsToNotify 0 twoDue).
Proof.
  split; [exact wellFormed_twoDue|]. split; [reflexivity|].
  exact (proj1 (delivery_failure_is_local failsForA 0 twoDue
                  wellFormed_twoDue eq_refl)).
Defined.

(** ** Distinct ids are an invariant of the store *)

Lemma map_values_ids (m : ItemMap) :
  keyed m -> List.map id (map_values m) = List.map fst m.
Proof.
  unfold keyed, map_values. induction 1 as [|[k v] m Hv _ IH]; simpl.
  - reflexivity.
  - simpl in Hv. rewrite Hv, IH. reflexivity.
Qed.

Lemma wellFormed_reconcile (existing newItems : list Item) :
  wellFormed (reconcile existing newItems).
Proof.
  unfold wellFormed, reconcile.
  destruct (mergeItems_invariant existing newItems) as [Hn Hk].
  eapply Permutation_NoDup.
  - apply Permutation_map. apply sortByDueDate_perm.
  - rewrite map_values_ids by exact Hk. exact Hn.
Qed.

Lemma wellFormed_filter (f : Item -> bool) (l : list Item) :
  wellFormed l -> wellFormed (filter f l).
Proof.
  unfold wellFormed. induction l as [|x l IH]; simpl; intro H; [constructor|].
  inversion H as [|? ? Hn Hd]; subst.
  destruct (f x); simpl; [|apply IH; exact Hd].
  constructor; [|apply IH; exact Hd].
  intro Hin. apply Hn. apply in_map_iff in Hin. destruct Hin as [y [Hy Hin]].
  apply filter_In in Hin. rewrite <- Hy. apply in_map. apply Hin.
Qed.

Lemma toggle_ids (msgId : string) (msgDone : bool) (l : list Item) :
  List.map id (List.map (fun it => if String.eqb (id it) msgId
                                   then set_done (Some msgDone) it else it) l)
  = List.map id l.
Proof.
  rewrite map_map. apply map_ext. intro x.
  destruct (String.eqb (id x) msgId); reflexivity.
Qed.

Lemma afterTick_id (create : Notification -> bool) (now : Z) (data : Storage)
    (it : Item) : id (afterTick create now data it) = id it.
Proof. unfold afterTick. destruct (_ && _); reflexivity. Qed.

Lemma checkAndSendNotifications_disabled (create : Notification -> bool)
    (now : Z) (data : Storage) :
  notificationsEnabled (settings data) = false ->
  checkAndSendNotifications create now data = (data, []).
Proof. intro H. unfold checkAndSendNotifications. rewrite H. reflexivity. Qed.

Lemma handle_wellFormed (ev : Event) (data : Storage) :
  wellFormed (items data) -> wellFormed (items (fst (handle ev data))).
Proof.
  intro H. destruct ev as [newItems|msgId msgDone|p| |now create|now]; simpl.
  - apply wellFormed_reconcile.
  - unfold wellFormed. rewrite toggle_ids. exact H.
  - exact H.
  - constructor.
  - destruct (notificationsEnabled (settings data)) eqn:En.
    + destruct (checkAndSendNotifications_spec create now data H En) as [Hi _].
      rewrite Hi. unfold wellFormed. rewrite map_map.
      erewrite map_ext; [exact H|]. intro x. apply afterTick_id.
    + rewrite checkAndSendNotifications_disabled by exact En. exact H.
  - rewrite cleanupOldItems_items. apply wellFormed_filter. exact H.
Qed.

(** Every collection the service worker ever stores, starting from the
    default storage, has distinct ids. *)
Lemma run_wellFormed (evs : list Event) (data : Storage) :
  wellFormed (items data) -> wellFormed (items (fst (run evs data))).
Proof.
  revert data. induction evs as [|ev evs IH]; intros data H; simpl; [exact H|].
  apply IH. apply handle_wellFormed. exact H.
Qed.

Corollary reachable_wellFormed (evs : list Event) :
  wellFormed (items (fst (run evs DEFAULT_STORAGE))).
Proof. apply run_wellFormed. constructor. Qed.

(** ** No second notification *)

Lemma wellFormed_withId (l : list Item) (r : Item) :
  wellFormed l -> In r l -> withId (id r) l = [r].
Proof.
  unfold wellFormed, withId. induction l as [|x l IH]; simpl; intros H Hin; [tauto|].
  inversion H as [|? ? Hn Hd]; subst.
  destruct Hin as [->|Hin].
  - rewrite hasId_refl. f_equal.
    destruct (filter (hasId (id r)) l) as [|y t] eqn:F; [reflexivity|].
    exfalso. apply Hn.
    assert (Hy : In y (filter (hasId (id r)) l)) by (rewrite F; left; reflexivity).
    apply filter_In in Hy. destruct Hy as [Hy Hi]. apply hasId_true in Hi.
    rewrite <- Hi. apply in_map. exact Hy.
  - destruct (hasId (id r) x) eqn:F; [|apply IH; assumption].
    exfalso. apply Hn. apply hasId_true in F. rewrite F. apply in_map. exact Hin.
Qed.

Lemma fold_merged_notified (i : string) (l : list Item) (a : Item) :
  id a = i -> notificationSent a = Some true ->
  exists a', fold_left (mergedWithId i) l (Some a) = Some a'
             /\ id a' = i /\ notificationSent a' = Some true.
Proof.
  revert a. induction l as [|x l IH]; intros a Hi Hn; simpl.
  - exists a. repeat split; assumption.
  - unfold mergedWithId at 2. destruct (hasId i x) eqn:F.
    + apply IH.
      * rewrite preserveFlags_id. apply hasId_true. exact F.
      * rewrite preserveFlags_notificationSent, Hn. reflexivity.
    + apply IH; assumption.
Qed.

Lemma reconcile_keeps_notified (i : string) (existing newItems : list Item) :
  wellFormed existing -> notified i existing ->
  notified i (reconcile existing newItems).
Proof.
  intros H [r [Hin [Hid Hns]]].
  destruct (mergeItems_invariant existing newItems) as [Hn Hk].
  assert (G : exists a', map_get i (mergeItems existing newItems) = Some a'
                         /\ id a' = i /\ notificationSent a' = Some true).
  { unfold mergeItems. rewrite map_get_addNew, map_get_addExisting.
    rewrite fold_lastWithId_filter. subst i.
    rewrite (wellFormed_withId _ _ H Hin). simpl.
    unfold lastWithId. rewrite hasId_refl.
    apply fold_merged_notified; [reflexivity|exact Hns]. }
  destruct G as [a' [G [Hid' Hns']]].
  exists a'. split; [|split; assumption].
  unfold reconcile. eapply Permutation_in; [apply sortByDueDate_perm|].
  pose proof (withId_values i _ Hn Hk) as V. rewrite G in V.
  assert (Ha : In a' (withId i (map_values (mergeItems existing newItems))))
    by (rewrite V; left; reflexivity).
  apply filter_In in Ha. apply Ha.
Qed.

Lemma handle_keeps_notified (i : string) (ev : Event) (data : Storage) :
  wellFormed (items data) -> notified i (items data) ->
  keepsRecord i ev data = true ->
  notified i (items (fst (handle ev data)))
  /\ ~ In i (notifiedIds (snd (handle ev data))).
Proof.
  intros H N K.
  destruct ev as [newItems|msgId msgDone|p| |now create|now]; simpl in *.
  - split; [|tauto]. apply reconcile_keeps_notified; assumption.
  - split; [|tauto]. destruct N as [r [Hin [Hid Hns]]].
    exists (if String.eqb (id r) msgId then set_done (Some msgDone) r else r).
    split; [|destruct (String.eqb (id r) msgId); split; assumption].
    apply in_map_iff. exists r. split; [reflexivity|exact Hin].
  - split; [exact N|tauto].
  - discriminate K.
  - destruct (notificationsEnabled (settings data)) eqn:En.
    + destruct (checkAndSendNotifications_spec create now data H En)
        as [Hi [_ Hl]].
      rewrite Hi, Hl. destruct N as [r [Hin [Hid Hns]]]. split.
      * exists (afterTick create now data r). split; [|split].
        -- apply in_map. exact Hin.
        -- rewrite afterTick_id. exact Hid.
        -- unfold afterTick. destruct (_ && _); [reflexivity|exact Hns].
      * unfold notifiedIds. rewrite map_map. simpl. intro C.
        apply in_map_iff in C. destruct C as [x [Hx Hsel]].
        unfold itemsToNotify in Hsel. apply filter_In in Hsel.
        destruct Hsel as [Hxin Hsel].
        assert (x = r).
        { apply (wellFormed_unique (items data)); try assumption. congruence. }
        subst x. unfold dueForNotification in Hsel. rewrite Hns in Hsel.
        simpl in Hsel. rewrite andb_false_r in Hsel. discriminate.
    + rewrite checkAndSendNotifications_disabled by exact En.
      split; [exact N|simpl; tauto].
  - split; [|tauto]. destruct N as [r [Hin [Hid Hns]]].
    exists r. split; [|split; assumption].
    rewrite cleanupOldItems_items. apply filter_In. split; [exact Hin|].
    rewrite forallb_forall in K. specialize (K r Hin).
    rewrite <- Hid, hasId_refl in K. exact K.
Qed.

(** C3.  Notification no-repeat.  Start from a collection with distinct
    ids in which the record with id [i] has notificationSent set, and
    handle any sequence of events that does not destroy the record:
    scheduler ticks at any times, with any outcome of the deliveries and
    under any settings; reconciliations of any batches, with or without a
    record of id [i]; toggles; settings updates; retention sweeps that
    retain the record.  Then the record with id [i] still has
    notificationSent set, and no tick of the sequence called the
    notification capability for [i], whatever the due date and the
    due-soon window were at that tick. *)
Theorem notification_no_repeat :
  forall (i : string) (evs : list Event) (data : Storage),
    wellFormed (items data) ->
    notified i (items data) ->
    keepsRecordAlong i evs data = true ->
    notified i (items (fst (run evs data)))
    /\ ~ In i (notifiedIds (snd (run evs data))).
Proof.
  intros i evs. induction evs as [|ev evs IH]; intros data H N K; simpl.
  - split; [exact N|tauto].
  - simpl in K. apply andb_true_iff in K. destruct K as [K1 K2].
    destruct (handle_keeps_notified i ev data H N K1) as [N' L'].
    destruct (IH (fst (handle ev data)) (handle_wellFormed ev data H) N' K2)
      as [N'' L''].
    split; [exact N''|].
    unfold notifiedIds in *. rewrite map_app. intro C.
    apply in_app_or in C. tauto.
Qed.

Example laterEvents_calls :
  notifiedIds (snd (run laterEvents notifiedStore)) = ["b"]%string.
Proof. reflexivity. Qed.

Lemma notified_example : notified "a" (items notifiedStore).
Proof.
  exists storedHW1. split; [left; reflexivity|]. split; reflexivity.
Defined.

Lemma notification_no_repeat_witness :
  wellFormed (items notifiedStore)
  /\ notified "a" (items notifiedStore)
  /\ keepsRecordAlong "a" laterEvents notifiedStore = true
  /\ notified "a" (items (fst (run laterEvents notifiedStore)))
  /\ ~ In "a"%string (notifiedIds (snd (run laterEvents notifiedStore))).
Proof.
  split; [exact wellFormed_example|]. split; [exact notified_example|].
  split; [reflexivity|].
  exact (notification_no_repeat "a" laterEvents notifiedStore
           wellFormed_example notified_example eq_refl).
Defined.

End BackgroundFacts.

(** * Properties of the calendar arithmetic *)

Module JsDateFacts.
Import JsDate.

Local Open Scope Z_scope.

Lemma DayFromYear_succ (y : Z) :
  DayFromYear (y + 1) = DayFromYear y + DaysInYear y.
Proof.
  unfold DayFromYear, DaysInYear.
  destruct (Z.eqb_spec (y mod 4) 0) as [E4|E4];
    destruct (Z.eqb_spec (y mod 100) 0) as [E100|E100];
    destruct (Z.eqb_spec (y mod 400) 0) as [E400|E400]; cbn [negb];
    Z.to_euclidean_division_equations; lia.
Qed.

Lemma DaysInYear_range (y : Z) : 365 <= DaysInYear y <= 366.
Proof.
  unfold DaysInYear.
  destruct (y mod 4 =? 0), (y mod 100 =? 0), (y mod 400 =? 0); simpl; lia.
Qed.

Lemma DayFromYear_lt (y1 y2 : Z) :
  y1 < y2 -> DayFromYear y1 < DayFromYear y2.
Proof.
  intro H. unfold DayFromYear. Z.to_euclidean_division_equations. lia.
Qed.

Lemma DayFromYear_le (y1 y2 : Z) :
  y1 <= y2 -> DayFromYear y1 <= DayFromYear y2.
Proof.
  intro H. destruct (Z.eq_dec y1 y2) as [->|N]; [lia|].
  apply Z.lt_le_incl, DayFromYear_lt. lia.
Qed.

Lemma DayFromYear_1601 : DayFromYear 1601 = -134774.
Proof. reflexivity. Qed.

(** The year computed from a day number is the year the day falls in. *)
Lemma YearFromDay_spec (d : Z) :
  DayFromYear (YearFromDay d) <= d < DayFromYear (YearFromDay d + 1).
Proof.
  unfold YearFromDay. rewrite DayFromYear_1601.
  set (z := d - -134774).
  assert (Hz : d = z - 134774) by (unfold z; lia). clearbody z. subst d.
  set (e := z / 146097). set (r := z mod 146097).
  assert (Hr : 0 <= r < 146097) by (apply Z.mod_pos_bound; lia).
  assert (He : z = 146097 * e + r) by (apply Z.div_mod; lia).
  clearbody e r. subst z.
  set (c := Z.min (r / 36524) 3).
  assert (Hc : 0 <= c <= 3 /\ 36524 * c <= r /\ (c < 3 -> r < 36524 * (c + 1))).
  { unfold c. Z.to_euclidean_division_equations. lia. }
  clearbody c.
  set (r1 := r - c * 36524).
  assert (Hr1 : r1 = r - c * 36524) by reflexivity. clearbody r1.
  set (q := r1 / 1461).
  assert (Hq : 0 <= q <= 24 /\ 1461 * q <= r1 < 1461 * (q + 1)).
  { unfold q. Z.to_euclidean_division_equations. lia. }
  clearbody q.
  set (r2 := r1 - q * 1461).
  assert (Hr2 : r2 = r1 - q * 1461) by reflexivity. clearbody r2.
  set (a := Z.min (r2 / 365) 3).
  assert (Ha : 0 <= a <= 3 /\ 365 * a <= r2 /\ (a < 3 -> r2 < 365 * (a + 1))).
  { unfold a. Z.to_euclidean_division_equations. lia. }
  clearbody a.
  unfold DayFromYear.
  Z.to_euclidean_division_equations. lia.
Qed.

Lemma Day_bounds (t : Z) : msPerDay * Day t <= t < msPerDay * (Day t + 1).
Proof. unfold Day, msPerDay. Z.to_euclidean_division_equations. lia. Qed.

(** [YearFromTime t] is the largest year that starts at or before [t],
    as the language specification defines it. *)
Lemma YearFromTime_spec (t : Z) :
  TimeFromYear (YearFromTime t) <= t
  /\ forall y : Z, TimeFromYear y <= t -> y <= YearFromTime t.
Proof.
  unfold TimeFromYear, YearFromTime.
  pose proof (YearFromDay_spec (Day t)) as [H1 H2].
  pose proof (Day_bounds t) as [B1 B2]. split.
  - unfold msPerDay in *. nia.
  - intros y Hy. destruct (Z_le_gt_dec y (YearFromDay (Day t))) as [L|G]; [exact L|].
    exfalso.
    assert (DayFromYear (YearFromDay (Day t) + 1) <= DayFromYear y)
      by (apply DayFromYear_le; lia).
    unfold msPerDay in *. nia.
Qed.

Lemma DayWithinYear_range (t : Z) :
  0 <= DayWithinYear t < DaysInYear (YearFromTime t).
Proof.
  unfold DayWithinYear, YearFromTime.
  pose proof (YearFromDay_spec (Day t)) as [H1 H2].
  rewrite DayFromYear_succ in H2. lia.
Qed.

Lemma InLeapYear_DaysInYear (t : Z) :
  DaysInYear (YearFromTime t) = 365 + InLeapYear t.
Proof.
  unfold InLeapYear. pose proof (DaysInYear_range (YearFromTime t)).
  destruct (DaysInYear (YearFromTime t) =? 366) eqn:E; lia.
Qed.

Lemma MonthFromTime_range (t : Z) : 0 <= MonthFromTime t <= 11.
Proof.
  unfold MonthFromTime.
  repeat match goal with
         | |- context [if ?b then _ else _] => destruct b
         end; lia.
Qed.

Lemma InLeapYear_range (t : Z) : 0 <= InLeapYear t <= 1.
Proof. unfold InLeapYear. destruct (_ =? _); lia. Qed.

Lemma DateFromTime_range (t : Z) : 1 <= DateFromTime t <= 31.
Proof.
  unfold DateFromTime, MonthFromTime.
  pose proof (DayWithinYear_range t) as D.
  rewrite InLeapYear_DaysInYear in D.
  pose proof (InLeapYear_range t) as L.
  generalize dependent (DayWithinYear t). generalize dependent (InLeapYear t).
  intros l L d D.
  repeat match goal with
         | |- context [if ?b then _ else _] => destruct b eqn:?
         end; cbn [daysBeforeMonth]; lia.
Qed.

(** The calendar date of a time value names its day. *)
Lemma MakeDay_fields (t : Z) :
  MakeDay (YearFromTime t) (MonthFromTime t) (DateFromTime t) = Day t.
Proof.
  pose proof (MonthFromTime_range t) as M.
  unfold MakeDay.
  rewrite (Z.div_small (MonthFromTime t) 12) by lia.
  rewrite (Z.mod_small (MonthFromTime t) 12) by lia.
  rewrite Z.add_0_r. fold (InLeapYear t).
  unfold DateFromTime, DayWithinYear. lia.
Qed.

Lemma MakeDay_date_offset (year month date offset : Z) :
  MakeDay year month (date + offset) = MakeDay year month date + offset.
Proof. unfold MakeDay. lia. Qed.

Lemma daysBeforeMonth_range (m leap : Z) :
  0 <= leap <= 1 -> 0 <= daysBeforeMonth m leap <= 335.
Proof.
  intro H. unfold daysBeforeMonth.
  destruct m as [|p|p]; try lia.
  do 4 (try destruct p as [p|p|]); lia.
Qed.

(** ** The calendar date of a day number *)

Lemma YearFromDay_unique (y d : Z) :
  DayFromYear y <= d < DayFromYear (y + 1) -> YearFromDay d = y.
Proof.
  intro H. pose proof (YearFromDay_spec d) as S.
  destruct (Z.lt_trichotomy (YearFromDay d) y) as [L|[E|G]]; [|exact E|].
  - pose proof (DayFromYear_le (YearFromDay d + 1) y ltac:(lia)). lia.
  - pose proof (DayFromYear_le (y + 1) (YearFromDay d) ltac:(lia)). lia.
Qed.

Lemma YearFromTime_mono (s t : Z) : s <= t -> YearFromTime s <= YearFromTime t.
Proof.
  intro H. apply (proj2 (YearFromTime_spec t)).
  pose proof (proj1 (YearFromTime_spec s)). lia.
Qed.

Lemma MakeDate_day (D time : Z) :
  0 <= time < msPerDay ->
  Day (MakeDate D time) = D /\ TimeWithinDay (MakeDate D time) = time.
Proof.
  intro H. unfold Day, TimeWithinDay, MakeDate.
  split.
  - symmetry. apply (Z.div_unique _ _ D time); lia.
  - symmetry. apply (Z.mod_unique _ _ D time); lia.
Qed.

Lemma daysBeforeMonth_next (m leap : Z) :
  0 <= m <= 11 -> 0 <= leap <= 1 ->
  0 <= daysBeforeMonth m leap
  /\ daysBeforeMonth m leap + commonDays m <= 365 + leap
  /\ (m <= 10 ->
      daysBeforeMonth m leap + commonDays m <= daysBeforeMonth (m + 1) leap).
Proof.
  intros Hm Hl.
  assert (C : m = 0 \/ m = 1 \/ m = 2 \/ m = 3 \/ m = 4 \/ m = 5 \/ m = 6
              \/ m = 7 \/ m = 8 \/ m = 9 \/ m = 10 \/ m = 11) by lia.
  repeat (destruct C as [->|C];
          [match goal with
           | |- context [daysBeforeMonth (?a + 1) _] =>
               let v := eval compute in (a + 1) in change (a + 1) with v
           end; cbn [daysBeforeMonth commonDays]; lia|]).
  subst m. cbn [daysBeforeMonth commonDays]. lia.
Qed.

Lemma calendar_of_MakeDate (y m d time : Z) :
  0 <= m <= 11 -> 1 <= d <= commonDays m -> 0 <= time < msPerDay ->
  let x := MakeDate (MakeDay y m d) time in
  YearFromTime x = y /\ MonthFromTime x = m /\ DateFromTime x = d
  /\ TimeWithinDay x = time.
Proof.
  intros Hm Hd Ht x.
  destruct (MakeDate_day (MakeDay y m d) time Ht) as [D T]. fold x in D, T.
  set (leap := if DaysInYear y =? 366 then 1 else 0).
  assert (Hl : 0 <= leap <= 1) by (unfold leap; destruct (_ =? _); lia).
  assert (Dy : DaysInYear y = 365 + leap).
  { unfold leap. pose proof (DaysInYear_range y).
    destruct (DaysInYear y =? 366) eqn:E; lia. }
  assert (M : MakeDay y m d = DayFromYear y + daysBeforeMonth m leap + d - 1).
  { unfold MakeDay. rewrite (Z.div_small m 12), (Z.mod_small m 12), Z.add_0_r by lia.
    reflexivity. }
  destruct (daysBeforeMonth_next m leap Hm Hl) as [B0 [B1 B2]].
  assert (Y : YearFromTime x = y).
  { unfold YearFromTime. rewrite D. apply YearFromDay_unique.
    rewrite DayFromYear_succ, Dy, M. lia. }
  assert (W : DayWithinYear x = daysBeforeMonth m leap + d - 1).
  { unfold DayWithinYear. rewrite Y, D, M. lia. }
  assert (L : InLeapYear x = leap) by (unfold InLeapYear; rewrite Y; reflexivity).
  assert (Mo : MonthFromTime x = m).
  { unfold MonthFromTime. rewrite W, L.
    assert (C : m = 0 \/ m = 1 \/ m = 2 \/ m = 3 \/ m = 4 \/ m = 5 \/ m = 6
                \/ m = 7 \/ m = 8 \/ m = 9 \/ m = 10 \/ m = 11) by lia.
    repeat (destruct C as [->|C];
            [cbn [daysBeforeMonth commonDays] in *;
             repeat match goal with
                    | |- context [?a <? ?b] => destruct (Z.ltb_spec a b)
                    end; lia|]).
    subst m. cbn [daysBeforeMonth commonDays] in *.
    repeat match goal with
           | |- context [?a <? ?b] => destruct (Z.ltb_spec a b)
           end; lia. }
  split; [exact Y|]. split; [exact Mo|]. split; [|exact T].
  unfold DateFromTime. rewrite Mo, W, L. lia.
Qed.

Lemma clock_of_MakeTime (D h mi : Z) :
  0 <= h <= 23 -> 0 <= mi <= 59 ->
  let x := MakeDate D (MakeTime h mi 0 0) in
  HourFromTime x = h /\ MinFromTime x = mi /\ SecFromTime x = 0
  /\ msFromTime x = 0.
Proof.
  intros Hh Hm x. unfold HourFromTime, MinFromTime, SecFromTime, msFromTime.
  assert (X : x = D * 86400000 + h * 3600000 + mi * 60000).
  { unfold x, MakeDate, MakeTime, msPerDay, msPerHour, msPerMinute,
      msPerSecond. lia. }
  unfold msPerHour, msPerMinute, msPerSecond. clearbody x. subst x.
  assert (Q1 : (D * 86400000 + h * 3600000 + mi * 60000) / 3600000 = D * 24 + h)
    by (symmetry; apply (Z.div_unique _ _ _ (mi * 60000)); lia).
  assert (Q2 : (D * 86400000 + h * 3600000 + mi * 60000) / 60000
               = D * 1440 + h * 60 + mi)
    by (symmetry; apply (Z.div_unique _ _ _ 0); lia).
  assert (Q3 : (D * 86400000 + h * 3600000 + mi * 60000) / 1000
               = (D * 1440 + h * 60 + mi) * 60)
    by (symmetry; apply (Z.div_unique _ _ _ 0); lia).
  rewrite Q1, Q2, Q3. repeat split; symmetry.
  - apply (Z.mod_unique _ _ D h); lia.
  - apply (Z.mod_unique _ _ (D * 24 + h) mi); lia.
  - apply (Z.mod_unique _ _ (D * 1440 + h * 60 + mi) 0); lia.
  - apply (Z.mod_unique _ _ ((D * 1440 + h * 60 + mi) * 60) 0); lia.
Qed.

Lemma time_of_fields (t : Z) :
  t = MakeDate (MakeDay (YearFromTime t) (MonthFromTime t) (DateFromTime t))
        (MakeTime (HourFromTime t) (MinFromTime t) (SecFromTime t) (msFromTime t)).
Proof.
  rewrite MakeDay_fields.
  unfold MakeDate, MakeTime, Day, HourFromTime, MinFromTime, SecFromTime,
    msFromTime, msPerDay, msPerHour, msPerMinute, msPerSecond.
  Z.to_euclidean_division_equations. lia.
Qed.

Lemma MakeDay_year_lt (y y' m d : Z) :
  0 <= m <= 11 -> y < y' -> MakeDay y m d + 364 <= MakeDay y' m d.
Proof.
  intros Hm H. unfold MakeDay.
  rewrite (Z.div_small m 12), (Z.mod_small m 12), !Z.add_0_r by lia.
  pose proof (DayFromYear_le (y + 1) y' ltac:(lia)) as L.
  rewrite DayFromYear_succ in L. pose proof (DaysInYear_range y).
  assert (A : forall l l', 0 <= l <= 1 -> 0 <= l' <= 1 ->
                daysBeforeMonth m l <= daysBeforeMonth m l' + 1).
  { intros l l' Hl Hl'.
    assert (C : m = 0 \/ m = 1 \/ m = 2 \/ m = 3 \/ m = 4 \/ m = 5 \/ m = 6
                \/ m = 7 \/ m = 8 \/ m = 9 \/ m = 10 \/ m = 11) by lia.
    repeat (destruct C as [->|C]; [cbn [daysBeforeMonth]; lia|]).
    subst m. cbn [daysBeforeMonth]. lia. }
  specialize (A (if DaysInYear y =? 366 then 1 else 0)
                (if DaysInYear y' =? 366 then 1 else 0)).
  destruct (DaysInYear y =? 366), (DaysInYear y' =? 366); lia.
Qed.

End JsDateFacts.

(** * Properties of the date normaliser *)

Module NormaliserFacts.
Import JsString JsDate Normaliser Fragments JsDateFacts.

Local Open Scope Z_scope.

(** ** Dates stay in range *)

Lemma TimeClip_inRange (t : Z) : inRange (TimeClip t).
Proof.
  unfold inRange, TimeClip. intros tv H.
  destruct (Z.abs t <=? maxTime) eqn:E; [|discriminate].
  injection H as <-. apply Z.leb_le. exact E.
Qed.

Lemma newDate_inRange (tz : Z -> bool -> Z) (y m d h mi s : Z) :
  inRange (newDate tz y m d h mi s).
Proof. apply TimeClip_inRange. Qed.

Lemma rollForward_inRange (host : Host) (now year : Z) (date : Date) :
  inRange date -> inRange (rollForward host now year date).
Proof.
  intro H. unfold rollForward. destruct date as [tv|]; [|exact H].
  destruct (tv <? now); [apply TimeClip_inRange|exact H].
Qed.

Lemma monthNameDate_inRange (host : Host) (now hours minutes : Z)
    (monthName day : string) :
  inRange (monthNameDate host now hours minutes monthName day).
Proof.
  unfold monthNameDate. destruct (monthNames _).
  - apply rollForward_inRange, newDate_inRange.
  - intros tv H. discriminate H.
  - intros tv H. discriminate H.
Qed.

Lemma newDateFromString_inRange (host : Host) (text : string) :
  inRange (newDateFromString host text).
Proof.
  unfold newDateFromString. destruct (dateParse host text).
  - apply TimeClip_inRange.
  - intros tv H. discriminate H.
Qed.

(** ** Steps that return *)

Lemma returnsNull : returnsTimestampOrNull (Normal None).
Proof. exists None. split; [reflexivity|left; reflexivity]. Qed.

Lemma returnIfValid_returns (date : Date) :
  inRange date -> returnsTimestampOrNull (returnIfValid date).
Proof.
  intro H. destruct date as [tv|]; simpl; [|apply returnsNull].
  exists (Some (isoString tv)). split; [reflexivity|].
  right. exists tv. split; [apply H; reflexivity|reflexivity].
Qed.

Lemma tryCatch_returns (body : Completion (option string)) :
  (forall r, body = Normal r ->
     r = None \/ exists tv, Z.abs tv <= maxTime /\ r = Some (isoString tv)) ->
  returnsTimestampOrNull (tryCatch body (fun _ => Normal None)).
Proof.
  intro H. destruct body as [r|e]; simpl; [|apply returnsNull].
  exists r. split; [reflexivity|]. apply H. reflexivity.
Qed.

(** The last resort returns even when [setHours] leaves the range of
    time values and [toISOString] throws: the exception is caught. *)
Lemma nativeDate_returns (host : Host) (timeMatch : option Match)
    (cleanStr : string) :
  returnsTimestampOrNull (nativeDate host timeMatch cleanStr).
Proof.
  unfold nativeDate. apply tryCatch_returns. intros r H.
  pose proof (newDateFromString_inRange host cleanStr) as V.
  destruct (newDateFromString host cleanStr) as [tv|].
  - set (date := match timeMatch with
                 | Some _ => Some tv
                 | None => setHours (LocalTZA host) 23 59 59 999 tv
                 end) in H.
    assert (D : inRange date).
    { unfold date. destruct timeMatch; [exact V|apply TimeClip_inRange]. }
    destruct date as [tv'|]; simpl in H.
    + injection H as <-. right. exists tv'. split; [apply D|]; reflexivity.
    + discriminate H.
  - injection H as <-. left. reflexivity.
Qed.

Lemma firstOf_returns (steps : list (Completion (option string))) :
  Forall returnsTimestampOrNull steps -> returnsTimestampOrNull (firstOf steps).
Proof.
  induction 1 as [|step rest Hs _ IH]; simpl; [apply returnsNull|].
  destruct Hs as [r [-> Hr]]. simpl.
  destruct r as [iso|]; [|exact IH].
  exists (Some iso). split; [reflexivity|exact Hr].
Qed.

(** ** The end of the local day *)

Lemma YearFromTime_after_1969 (t : Z) : - msPerDay <= t -> 1969 <= YearFromTime t.
Proof.
  intro H. apply (proj2 (YearFromTime_spec t)).
  unfold TimeFromYear. change (DayFromYear 1969) with (-365).
  unfold msPerDay in *. lia.
Qed.

Lemma newDate_plain_year (tz : Z -> bool -> Z) (y m d h mi s : Z) :
  100 <= y ->
  newDate tz y m d h mi s
  = TimeClip (UTC tz (MakeDate (MakeDay y m d) (MakeTime h mi s 0))).
Proof.
  intro H. unfold newDate.
  destruct (0 <=? y) eqn:A; destruct (y <=? 99) eqn:B; simpl; try reflexivity.
  lia.
Qed.

Lemma endOfDay_value (host : Host) (now offset : Z) :
  zoneBounded host -> clockInRange now -> 0 <= offset <= 1 ->
  endOfDay host now offset = Some (localEndOfDay host now offset)
  /\ Z.abs (localEndOfDay host now offset) <= maxTime.
Proof.
  intros Hz Hc Ho. unfold endOfDay, getFullYear, getMonth, getDate.
  set (lt := LocalTime (LocalTZA host) now).
  assert (Hlt : now - msPerDay <= lt <= now + msPerDay).
  { unfold lt, LocalTime. specialize (Hz now true). lia. }
  assert (Hy : 1969 <= YearFromTime lt).
  { apply YearFromTime_after_1969. unfold clockInRange in Hc. lia. }
  rewrite newDate_plain_year by lia.
  rewrite MakeDay_date_offset, MakeDay_fields.
  fold (localEndOfDay host now offset).
  assert (B : Z.abs (localEndOfDay host now offset) <= maxTime).
  { unfold localEndOfDay, UTC, MakeDate, MakeTime. fold lt.
    pose proof (Day_bounds lt) as [D1 D2].
    set (x := (Day lt + offset) * msPerDay
              + (23 * msPerHour + 59 * msPerMinute + 59 * msPerSecond + 0)).
    specialize (Hz x false).
    assert (now - 2 * msPerDay <= x <= now + 3 * msPerDay).
    { unfold x, msPerDay, msPerHour, msPerMinute, msPerSecond in *. lia. }
    unfold clockInRange in Hc. unfold maxTime, msPerDay in *. lia. }
  split; [|exact B].
  change (TimeClip (localEndOfDay host now offset)
          = Some (localEndOfDay host now offset)).
  unfold TimeClip. apply Z.leb_le in B. rewrite B. reflexivity.
Qed.

Lemma relativeDay_returns (host : Host) (now offset : Z) :
  zoneBounded host -> clockInRange now -> 0 <= offset <= 1 ->
  (iso <- toISOString (endOfDay host now offset) ;; Normal (Some iso))
  = Normal (Some (isoString (localEndOfDay host now offset))).
Proof.
  intros Hz Hc Ho. destruct (endOfDay_value host now offset Hz Hc Ho) as [E _].
  rewrite E. reflexivity.
Qed.

Lemma relativeDay_returnsTimestamp (host : Host) (now offset : Z) :
  zoneBounded host -> clockInRange now -> 0 <= offset <= 1 ->
  returnsTimestampOrNull
    (iso <- toISOString (endOfDay host now offset) ;; Normal (Some iso)).
Proof.
  intros Hz Hc Ho. rewrite relativeDay_returns by assumption.
  eexists. split; [reflexivity|]. right.
  exists (localEndOfDay host now offset). split; [|reflexivity].
  apply endOfDay_value; assumption.
Qed.

Lemma tryCatch_keeps_returns (body : Completion (option string)) :
  returnsTimestampOrNull body ->
  returnsTimestampOrNull (tryCatch body (fun _ => Normal None)).
Proof. intros [r [-> H]]. exists r. split; [reflexivity|exact H]. Qed.

(** ** The three copies return *)

Lemma formatDate_inRange (host : Host) (now hours minutes : Z)
    (format : DateParser.Format) (m : Match) :
  inRange (DateParser.formatDate host now hours minutes format m).
Proof.
  unfold DateParser.formatDate.
  destruct (DateParser.hasWord format).
  - destruct (_ && _); [apply monthNameDate_inRange|].
    destruct (_ && _); [apply monthNameDate_inRange|].
    intros tv H. discriminate H.
  - destruct (DateParser.hasFourDigits format); [apply newDate_inRange|].
    destruct (negb _); [apply rollForward_inRange|]; apply newDate_inRange.
Qed.

Lemma tryFormat_returns (host : Host) (now hours minutes : Z)
    (cleanStr : string) (format : DateParser.Format) :
  returnsTimestampOrNull
    (DateParser.tryFormat host now hours minutes cleanStr format).
Proof.
  unfold DateParser.tryFormat. destruct (exec _ _ _); [|apply returnsNull].
  apply tryCatch_keeps_returns, returnIfValid_returns, formatDate_inRange.
Qed.

Lemma lib_returns (host : Host) (now : Z) (dateStr : JsValue) :
  zoneBounded host -> clockInRange now ->
  returnsTimestampOrNull (DateParser.parseDateString host now dateStr).
Proof.
  intros Hz Hc. unfold DateParser.parseDateString.
  destruct (negb (toBoolean dateStr) || negb (isString dateStr));
    [apply returnsNull|].
  destruct dateStr; try apply returnsNull.
  destruct (includes "today" _);
    [apply relativeDay_returnsTimestamp; try assumption; lia|].
  destruct (includes "tomorrow" _);
    [apply relativeDay_returnsTimestamp; try assumption; lia|].
  apply firstOf_returns. apply Forall_app. split.
  - apply Forall_forall. intros c Hin. apply in_map_iff in Hin.
    destruct Hin as [format [<- _]]. apply tryFormat_returns.
  - constructor; [apply nativeDate_returns|constructor].
Qed.

Lemma weekdayMonthDay_returns (host : Host) (now hours minutes : Z)
    (cleanStr : string) :
  returnsTimestampOrNull
    (PrairieLearn.weekdayMonthDay host now hours minutes cleanStr).
Proof.
  unfold PrairieLearn.weekdayMonthDay. destruct (exec _ _ _); [|apply returnsNull].
  apply returnIfValid_returns, monthNameDate_inRange.
Qed.

Lemma monthDay_returns (host : Host) (now hours minutes : Z)
    (cleanStr : string) :
  returnsTimestampOrNull (PrairieLearn.monthDay host now hours minutes cleanStr).
Proof.
  unfold PrairieLearn.monthDay. destruct (exec _ _ _); [|apply returnsNull].
  apply returnIfValid_returns, monthNameDate_inRange.
Qed.

Lemma slashYear_returns (host : Host) (hours minutes : Z) (cleanStr : string) :
  returnsTimestampOrNull (PrairieLearn.slashYear host hours minutes cleanStr).
Proof.
  unfold PrairieLearn.slashYear. destruct (exec _ _ _); [|apply returnsNull].
  apply returnIfValid_returns, newDate_inRange.
Qed.

Lemma prairielearn_returns (host : Host) (now : Z) (dateStr : JsValue) :
  zoneBounded host -> clockInRange now ->
  returnsTimestampOrNull (PrairieLearn.parseDateString host now dateStr).
Proof.
  intros Hz Hc. unfold PrairieLearn.parseDateString.
  destruct (negb (toBoolean dateStr) || negb (isString dateStr));
    [apply returnsNull|].
  destruct dateStr; try apply returnsNull.
  destruct (includes "today" _);
    [apply relativeDay_returnsTimestamp; try assumption; lia|].
  destruct (includes "tomorrow" _);
    [apply relativeDay_returnsTimestamp; try assumption; lia|].
  apply firstOf_returns.
  repeat constructor.
  - apply weekdayMonthDay_returns.
  - apply monthDay_returns.
  - apply slashYear_returns.
  - apply nativeDate_returns.
Qed.

Lemma gradescope_returns (host : Host) (now : Z) (dateStr : JsValue) :
  zoneBounded host -> clockInRange now ->
  returnsTimestampOrNull (Gradescope.parseDateString host now dateStr).
Proof.
  intros Hz Hc. unfold Gradescope.parseDateString.
  destruct (negb (toBoolean dateStr) || negb (isString dateStr));
    [apply returnsNull|].
  destruct dateStr; try apply returnsNull.
  destruct (includes "today" _);
    [apply relativeDay_returnsTimestamp; try assumption; lia|].
  destruct (includes "tomorrow" _);
    [apply relativeDay_returnsTimestamp; try assumption; lia|].
  apply firstOf_returns.
  repeat constructor.
  - apply monthDay_returns.
  - apply slashYear_returns.
  - apply nativeDate_returns.
Qed.

(** C10.  The date normaliser is total.  On a host whose local offset
    is at most a day and whose clock reads a time from 1970 on, well
    inside the range of time values, each of the three copies of
    [parseDateString] (lib/date-parser.js and the copies inlined in the
    PrairieLearn and Gradescope content scripts) returns for every input
    value, without an exception leaving the function: it returns [null]
    when the value is not a string ([null], [undefined], a boolean, a
    number, an object) or is the empty string, and for a string it
    returns [null] or the ISO text of a time value in range. *)
Theorem parseDateString_total :
  forall (host : Host) (now : Z) (dateStr : JsValue),
    zoneBounded host -> clockInRange now ->
    (returnsTimestampOrNull (DateParser.parseDateString host now dateStr)
     /\ returnsTimestampOrNull (PrairieLearn.parseDateString host now dateStr)
     /\ returnsTimestampOrNull (Gradescope.parseDateString host now dateStr))
    /\ (isString dateStr = false \/ dateStr = JsString EmptyString ->
        DateParser.parseDateString host now dateStr = Normal None
        /\ PrairieLearn.parseDateString host now dateStr = Normal None
        /\ Gradescope.parseDateString host now dateStr = Normal None).
Proof.
  intros host now dateStr Hz Hc. split.
  - split; [|split].
    + apply lib_returns; assumption.
    + apply prairielearn_returns; assumption.
    + apply gradescope_returns; assumption.
  - intros [H| ->].
    + destruct dateStr as [| |[|]|n| |text|]; try discriminate H;
        unfold DateParser.parseDateString, PrairieLearn.parseDateString,
          Gradescope.parseDateString;
        cbn [toBoolean isString negb]; rewrite ?orb_true_r; repeat split.
    + repeat split.
Qed.

(** ** Words that survive the cleaning *)

Local Open Scope string_scope.

Lemma prefix_app (w b : string) : prefix w (w ++ b) = true.
Proof.
  induction w as [|c w IH]; simpl; [destruct b; reflexivity|].
  destruct (ascii_dec c c) as [_|N]; [exact IH|contradiction].
Qed.

Lemma prefix_split (w s : string) :
  prefix w s = true -> exists b, s = w ++ b.
Proof.
  revert s. induction w as [|c w IH]; intros s H.
  - exists s. reflexivity.
  - destruct s as [|c' s]; simpl in H; [discriminate|].
    destruct (ascii_dec c c') as [->|_]; [|discriminate].
    destruct (IH s H) as [b ->]. exists b. reflexivity.
Qed.

Lemma includes_prefix (w s : string) : prefix w s = true -> includes w s = true.
Proof. intro H. destruct s; cbn [includes]; rewrite H; reflexivity. Qed.

Lemma includes_app (w a b : string) : includes w (a ++ w ++ b) = true.
Proof.
  induction a as [|c a IH]; simpl.
  - apply includes_prefix, prefix_app.
  - rewrite IH. apply orb_true_r.
Qed.

Lemma includes_split (w s : string) :
  includes w s = true -> exists a b, s = a ++ w ++ b.
Proof.
  induction s as [|c s IH]; cbn [includes]; intro H.
  - rewrite orb_false_r in H. apply prefix_split in H. destruct H as [b H].
    exists "", b. exact H.
  - apply orb_true_iff in H. destruct H as [H|H].
    + apply prefix_split in H. destruct H as [b H]. exists "", b. exact H.
    + destruct (IH H) as [a [b ->]]. exists (String c a), b. reflexivity.
Qed.

Lemma toLowerCase_app (a b : string) :
  toLowerCase (a ++ b) = toLowerCase a ++ toLowerCase b.
Proof.
  induction a as [|c a IH]; simpl; [reflexivity|]. rewrite IH. reflexivity.
Qed.

Lemma toLowerCase_keeps (w s : string) :
  toLowerCase w = w -> includes w s = true ->
  includes w (toLowerCase s) = true.
Proof.
  intros Hw H. apply includes_split in H. destruct H as [a [b ->]].
  rewrite !toLowerCase_app, Hw. apply includes_app.
Qed.

Lemma app_assoc_string (a b c : string) : (a ++ b) ++ c = a ++ b ++ c.
Proof. induction a as [|x a IH]; simpl; [reflexivity|]. rewrite IH. reflexivity. Qed.

Lemma replaceFrom_word (r : Regex) (n : nat) (by_ w : string) :
  noMatchInside r n w ->
  forall (u v : string) (prev : option ascii) (b : string),
    w = v ++ u ->
    exists b', replaceFrom r n by_ O prev (u ++ b) = u ++ b'.
Proof.
  intros P1 u. induction u as [|c u IH]; intros v prev b Hw.
  - simpl. eexists. reflexivity.
  - change (String c u ++ b) with (String c (u ++ b)).
    cbn [replaceFrom].
    change (String c (u ++ b)) with (String c u ++ b).
    rewrite (P1 v c u prev b Hw).
    destruct (IH (v ++ String c "") (Some c) b) as [b' Hb'].
    { rewrite Hw, app_assoc_string. reflexivity. }
    rewrite Hb'. exists b'. reflexivity.
Qed.

Lemma replaceFrom_keeps (r : Regex) (n : nat) (by_ w : string) :
  noMatchInside r n w -> stopsBefore r n w ->
  forall (a : string) (skip : nat) (prev : option ascii) (b : string),
    (skip <= String.length a)%nat ->
    exists a' b', replaceFrom r n by_ skip prev (a ++ w ++ b) = a' ++ w ++ b'.
Proof.
  intros P1 P2 a. induction a as [|c a IH]; intros skip prev b Hs.
  - simpl in Hs. assert (skip = O) by lia. subst skip. simpl.
    destruct (replaceFrom_word r n by_ w P1 w "" prev b eq_refl) as [b' Hb'].
    exists "", b'. exact Hb'.
  - destruct skip as [|skip].
    + change (String c a ++ w ++ b) with (String c (a ++ w ++ b)).
      cbn [replaceFrom].
      change (String c (a ++ w ++ b)) with (String c a ++ w ++ b).
      destruct (matchHere r n prev (String c a ++ w ++ b)) as [[rest caps]|] eqn:M.
      * specialize (P2 c a b prev rest caps M).
        destruct (String.length (String c a ++ w ++ b) - String.length rest)%nat
          as [|k] eqn:L.
        -- destruct (IH O (Some c) b) as [a' [b' H]]; [lia|].
           rewrite H. exists (by_ ++ String c a'), b'.
           rewrite app_assoc_string. reflexivity.
        -- destruct (IH k (Some c) b) as [a' [b' H]]; [simpl in P2; lia|].
           rewrite H. exists (by_ ++ a'), b'.
           rewrite app_assoc_string. reflexivity.
      * destruct (IH O (Some c) b) as [a' [b' H]]; [lia|].
        rewrite H. exists (String c a'), b'. reflexivity.
    + simpl. destruct (IH skip (Some c) b) as [a' [b' H]]; [simpl in Hs; lia|].
      exists a', b'. exact H.
Qed.

Lemma replaceAll_keeps (r : Regex) (n : nat) (by_ w s : string) :
  noMatchInside r n w -> stopsBefore r n w ->
  includes w s = true -> includes w (replaceAll r n by_ s) = true.
Proof.
  intros P1 P2 H. apply includes_split in H. destruct H as [a [b ->]].
  destruct (replaceFrom_keeps r n by_ w P1 P2 a O None b) as [a' [b' E]]; [lia|].
  unfold replaceAll. rewrite E. apply includes_app.
Qed.

Lemma backoff_first (j lo : nat) (prev : option ascii) (s : string)
    (caps : Captures) :
  backoff (string * Captures) j lo prev s (fun _ s' => Some (s', caps))
  = Some (drop j s, caps).
Proof. destruct j; reflexivity. Qed.

Lemma span_le_prefix (p : ascii -> bool) (lim : option nat) (a : string)
    (c : ascii) (b : string) :
  p c = false -> (span p lim (a ++ String c b) <= String.length a)%nat.
Proof.
  intro H. revert lim. induction a as [|x a IH]; intro lim; simpl.
  - rewrite H. lia.
  - destruct (p x); [|lia].
    destruct lim as [[|l]|]; [lia| |]; apply le_n_S, IH.
Qed.

Lemma length_drop (j : nat) (s : string) :
  String.length (drop j s) = (String.length s - j)%nat.
Proof.
  revert s. induction j as [|j IH]; intro s; simpl; [lia|].
  destruct s as [|c s]; simpl; [reflexivity|]. apply IH.
Qed.

Lemma length_app (a b : string) :
  String.length (a ++ b) = (String.length a + String.length b)%nat.
Proof. induction a as [|c a IH]; simpl; [reflexivity|]. rewrite IH. reflexivity. Qed.

Ltac insideWord H :=
  repeat (match type of H with
          | _ = ?v ++ String _ _ =>
              destruct v as [|? v]; cbn [append] in H;
              [first [discriminate H | injection H as <- <-; reflexivity]
              |first [discriminate H | injection H as <- H]]
          end).

Lemma dueRe_inside_today : noMatchInside dueRe 0 "today".
Proof. intros v c u prev b H. insideWord H. Qed.

Lemma dueRe_inside_tomorrow : noMatchInside dueRe 0 "tomorrow".
Proof. intros v c u prev b H. insideWord H. Qed.

(** One step through a match on a text that starts with unknown
    characters and goes on with a known word. *)
Ltac stepMatch M :=
  cbn [append] in M;
  lazymatch type of M with
  | None = _ => discriminate M
  | (if Ascii.eqb ?x ?y then _ else _) = _ =>
      first
        [ is_var y; destruct (Ascii.eqb x y) eqn:?; [|discriminate M]
        | let v := eval vm_compute in (Ascii.eqb x y) in
          change (Ascii.eqb x y) with v in M; cbv iota in M ]
  | match ?a ++ _ with EmptyString => _ | String _ _ => _ end = _ =>
      destruct a as [|? a]
  | match String _ _ with EmptyString => _ | String _ _ => _ end = _ =>
      cbv iota in M
  end.

Ltac finishMatch M :=
  rewrite backoff_first in M; injection M as <- <-;
  cbn [String.length append];
  rewrite length_drop, ?length_app; cbn [String.length];
  match goal with
  | |- context [span ?p ?lim (?a ++ String ?c ?b)] =>
      pose proof (span_le_prefix p lim a c b eq_refl)
  end; lia.

Lemma dueRe_stops_today : stopsBefore dueRe 0 "today".
Proof.
  intros c a b prev rest caps M.
  unfold matchHere, dueRe in M.
  cbn -[Ascii.eqb span backoff append String.length drop] in M.
  repeat stepMatch M. finishMatch M.
Qed.

Lemma dueRe_stops_tomorrow : stopsBefore dueRe 0 "tomorrow".
Proof.
  intros c a b prev rest caps M.
  unfold matchHere, dueRe in M.
  cbn -[Ascii.eqb span backoff append String.length drop] in M.
  repeat stepMatch M. finishMatch M.
Qed.

Lemma untilRe_inside_today : noMatchInside untilRe 0 "today".
Proof. intros v c u prev b H. insideWord H. Qed.

Lemma untilRe_inside_tomorrow : noMatchInside untilRe 0 "tomorrow".
Proof. intros v c u prev b H. insideWord H. Qed.

Lemma untilRe_stops_today : stopsBefore untilRe 0 "today".
Proof.
  intros c a b prev rest caps M.
  unfold matchHere, untilRe in M.
  cbn -[Ascii.eqb span backoff append String.length drop] in M.
  repeat stepMatch M. finishMatch M.
Qed.

Lemma untilRe_stops_tomorrow : stopsBefore untilRe 0 "tomorrow".
Proof.
  intros c a b prev rest caps M.
  unfold matchHere, untilRe in M.
  cbn -[Ascii.eqb span backoff append String.length drop] in M.
  repeat stepMatch M. finishMatch M.
Qed.

Lemma atRe_inside_today : noMatchInside atRe 0 "today".
Proof. intros v c u prev b H. insideWord H. Qed.

Lemma atRe_inside_tomorrow : noMatchInside atRe 0 "tomorrow".
Proof. intros v c u prev b H. insideWord H. Qed.

Lemma atRe_stops (w : string) : stopsBefore atRe 0 w.
Proof.
  intros c a b prev rest caps M.
  unfold matchHere, atRe, chr in M. cbn [matchAt append] in M.
  destruct (Ascii.eqb "@" c); [|discriminate M].
  injection M as <- <-. cbn [String.length append]. lia.
Qed.

Lemma spacesRe_inside_today : noMatchInside spacesRe 0 "today".
Proof. intros v c u prev b H. insideWord H. Qed.

Lemma spacesRe_inside_tomorrow : noMatchInside spacesRe 0 "tomorrow".
Proof. intros v c u prev b H. insideWord H. Qed.

Lemma spacesRe_stops (x : ascii) (w : string) :
  isSpace x = false -> stopsBefore spacesRe 0 (String x w).
Proof.
  intros Hx c a b prev rest caps M.
  unfold matchHere, spacesRe, atLeast in M. cbn [matchAt] in M.
  destruct (_ <? _)%nat; [discriminate M|].
  rewrite backoff_first in M. injection M as <- <-.
  rewrite length_drop. cbn [append String.length span].
  pose proof (span_le_prefix isSpace None a x (w ++ b) Hx).
  destruct (isSpace c); lia.
Qed.

Lemma trimStart_keeps (x : ascii) (w s : string) :
  isSpace x = false -> includes (String x w) s = true ->
  includes (String x w) (trimStart s) = true.
Proof.
  intros Hx. induction s as [|c s IH]; intro H; [exact H|].
  cbn [trimStart]. destruct (isSpace c) eqn:E; [|exact H].
  apply IH. cbn [includes] in H. apply orb_true_iff in H.
  destruct H as [H|H]; [|exact H].
  cbn [prefix] in H. destruct (ascii_dec x c) as [->|_]; [|discriminate H].
  congruence.
Qed.

Lemma trimEnd_cons (c : ascii) (s : string) :
  isSpace c = false \/ trimEnd s <> "" ->
  trimEnd (String c s) = String c (trimEnd s).
Proof.
  intro H. cbn [trimEnd]. destruct (trimEnd s) eqn:E; [|reflexivity].
  destruct H as [H|H]; [rewrite H; reflexivity|contradiction].
Qed.

Lemma trimEnd_word (w b : string) :
  noSpace w = true -> trimEnd (w ++ b) = w ++ trimEnd b.
Proof.
  induction w as [|c w IH]; intro H; [reflexivity|].
  cbn [noSpace] in H. apply andb_true_iff in H. destruct H as [Hc Hw].
  cbn [append]. rewrite trimEnd_cons.
  - rewrite IH by exact Hw. reflexivity.
  - left. destruct (isSpace c); [discriminate Hc|reflexivity].
Qed.

Lemma trimEnd_keeps (x : ascii) (w s : string) :
  noSpace (String x w) = true -> includes (String x w) s = true ->
  includes (String x w) (trimEnd s) = true.
Proof.
  intros Hw H. apply includes_split in H. destruct H as [a [b ->]].
  set (ww := String x w) in *.
  assert (N : forall t, ww ++ t <> "") by (intro t; discriminate).
  clearbody ww.
  assert (E : trimEnd (a ++ ww ++ b) = a ++ ww ++ trimEnd b).
  { induction a as [|c a IH].
    - apply (trimEnd_word ww b Hw).
    - change (String c a ++ ww ++ b) with (String c (a ++ ww ++ b)).
      rewrite trimEnd_cons; [rewrite IH; reflexivity|].
      right. rewrite IH. destruct a; [apply N|discriminate]. }
  rewrite E. apply includes_app.
Qed.

Lemma trim_keeps (x : ascii) (w s : string) :
  noSpace (String x w) = true -> includes (String x w) s = true ->
  includes (String x w) (trim s) = true.
Proof.
  intros Hw H. unfold trim. apply trimEnd_keeps; [exact Hw|].
  apply trimStart_keeps; [|exact H].
  cbn [noSpace] in Hw. apply andb_true_iff in Hw.
  destruct (isSpace x); [destruct Hw; discriminate|reflexivity].
Qed.

(** A "today" or a "tomorrow" in the text handed to the normaliser is
    still there after the cleaning. *)
Lemma cleanString_keeps_today (text : string) :
  includes "today" text = true -> includes "today" (cleanString text) = true.
Proof.
  intro H. unfold cleanString.
  apply trim_keeps; [reflexivity|].
  apply replaceAll_keeps;
    [apply spacesRe_inside_today|apply spacesRe_stops; reflexivity|].
  apply replaceAll_keeps; [apply atRe_inside_today|apply atRe_stops|].
  apply replaceAll_keeps;
    [apply untilRe_inside_today|apply untilRe_stops_today|].
  apply replaceAll_keeps; [apply dueRe_inside_today|apply dueRe_stops_today|].
  apply toLowerCase_keeps; [reflexivity|exact H].
Qed.

Lemma cleanString_keeps_tomorrow (text : string) :
  includes "tomorrow" text = true ->
  includes "tomorrow" (cleanString text) = true.
Proof.
  intro H. unfold cleanString.
  apply trim_keeps; [reflexivity|].
  apply replaceAll_keeps;
    [apply spacesRe_inside_tomorrow|apply spacesRe_stops; reflexivity|].
  apply replaceAll_keeps; [apply atRe_inside_tomorrow|apply atRe_stops|].
  apply replaceAll_keeps;
    [apply untilRe_inside_tomorrow|apply untilRe_stops_tomorrow|].
  apply replaceAll_keeps;
    [apply dueRe_inside_tomorrow|apply dueRe_stops_tomorrow|].
  apply toLowerCase_keeps; [reflexivity|exact H].
Qed.

(** ** Hosts and clocks of the examples *)

Lemma utc_zoneBounded : zoneBounded utc.
Proof. intros t b. simpl. unfold msPerDay. lia. Defined.

Lemma centralStandard_zoneBounded : zoneBounded centralStandard.
Proof. intros t b. simpl. unfold msPerDay. lia. Defined.

Lemma newYear2025_inRange : clockInRange newYear2025.
Proof. unfold clockInRange, newYear2025. lia. Defined.

Lemma june2025_inRange : clockInRange june2025.
Proof. unfold clockInRange, june2025. lia. Defined.

Lemma parseDateString_total_witness :
  zoneBounded centralStandard /\ clockInRange june2025
  /\ returnsTimestampOrNull
       (PrairieLearn.parseDateString centralStandard june2025
          (JsString "Sunday, Dec 25 at 11:59 PM CST"))
  /\ DateParser.parseDateString centralStandard june2025 JsUndefined
     = Normal None.
Proof.
  split; [exact centralStandard_zoneBounded|].
  split; [exact june2025_inRange|].
  pose proof (parseDateString_total centralStandard june2025
                (JsString "Sunday, Dec 25 at 11:59 PM CST")
                centralStandard_zoneBounded june2025_inRange) as [[_ [P _]] _].
  pose proof (parseDateString_total centralStandard june2025 JsUndefined
                centralStandard_zoneBounded june2025_inRange) as [_ N].
  split; [exact P|].
  exact (proj1 (N (or_introl eq_refl))).
Defined.

(** The assumption on the clock is needed: on the last day of the range
    of time values, the end of the day is out of range and "today"
    throws. *)
Example today_on_the_last_day :
  DateParser.parseDateString utc maxTime (JsString "today") = Throw RangeError.
Proof. vm_compute. reflexivity. Qed.

Example prairielearn_example :
  PrairieLearn.parseDateString centralStandard june2025
    (JsString "Sunday, Dec 25 at 11:59 PM CST")
  = Normal (Some "2025-12-26T05:59:00.000Z"%string).
Proof. vm_compute. reflexivity. Qed.

(** ** Relative days *)

Lemma includes_nonempty (w : string) (c : ascii) (w' text : string) :
  w = String c w' -> includes w text = true -> String.eqb text "" = false.
Proof.
  intros -> H. destruct text; [|reflexivity].
  cbn in H. discriminate H.
Qed.

Lemma lib_today (host : Host) (now : Z) (text : string) :
  zoneBounded host -> clockInRange now ->
  includes "today" (cleanString text) = true -> String.eqb text "" = false ->
  DateParser.parseDateString host now (JsString text)
  = Normal (Some (isoString (localEndOfDay host now 0))).
Proof.
  intros Hz Hc H N. unfold DateParser.parseDateString.
  cbn [toBoolean isString negb orb]. rewrite N. cbn [negb orb].
  rewrite H. apply relativeDay_returns; try assumption. lia.
Qed.

Lemma lib_tomorrow (host : Host) (now : Z) (text : string) :
  zoneBounded host -> clockInRange now ->
  includes "today" (cleanString text) = false ->
  includes "tomorrow" (cleanString text) = true -> String.eqb text "" = false ->
  DateParser.parseDateString host now (JsString text)
  = Normal (Some (isoString (localEndOfDay host now 1))).
Proof.
  intros Hz Hc H0 H N. unfold DateParser.parseDateString.
  cbn [toBoolean isString negb orb]. rewrite N. cbn [negb orb].
  rewrite H0, H. apply relativeDay_returns; try assumption. lia.
Qed.

(** The clock time of a "today" fragment is not read. *)
Lemma today_ignores_clock_time :
  ~ (forall (host : Host) (now : Z) (text : string) (m : Match),
       includes "today" text = true ->
       exec timeRe 3 (cleanString text) = Some m ->
       DateParser.parseDateString host now (JsString text)
       = (iso <- toISOString
                   (newDate (LocalTZA host) (getFullYear (LocalTZA host) now)
                      (getMonth (LocalTZA host) now)
                      (getDate (LocalTZA host) now)
                      (clockHours m) (clockMinutes m) 0) ;;
          Normal (Some iso))).
Proof.
  intro H.
  destruct (exec timeRe 3 (cleanString "today 5:00 pm")) as [m|] eqn:E;
    [|vm_compute in E; discriminate E].
  specialize (H utc newYear2025 "today 5:00 pm"%string m eq_refl E).
  vm_compute in E. injection E as <-.
  vm_compute in H. discriminate H.
Qed.

Example today_at_five :
  DateParser.parseDateString utc newYear2025 (JsString "Due today at 5:00 PM")
  = Normal (Some "2025-01-01T23:59:59.000Z"%string).
Proof. vm_compute. reflexivity. Qed.

Example tomorrow_at_five :
  DateParser.parseDateString centralStandard june2025
    (JsString "due Tomorrow @ 5:00 PM")
  = Normal (Some "2025-06-02T05:59:59.000Z"%string).
Proof. vm_compute. reflexivity. Qed.

Lemma cleaned_nonempty (w : string) (c : ascii) (w' text : string) :
  w = String c w' -> includes w (cleanString text) = true ->
  String.eqb text "" = false.
Proof.
  intros -> H. destruct text; [|reflexivity].
  vm_compute in H. discriminate H.
Qed.

(** The check for "today" comes first: a fragment with both words is
    dated today. *)
Example tomorrow_not_today :
  DateParser.parseDateString utc newYear2025 (JsString "tomorrow (not today)")
  = Normal (Some "2025-01-01T23:59:59.000Z"%string).
Proof. vm_compute. reflexivity. Qed.

(** C6 (amended).  On a host whose local offset is at most a day and
    whose clock is in range, a fragment that contains "today" is
    normalised to 23:59:59 local time on the local calendar day of the
    clock, and a fragment that contains "tomorrow", and no "today" once
    cleaned, to 23:59:59 local time on the day after, whether or not the
    fragment carries a clock time: a clock time in the fragment is not
    read.  The check is made on the cleaned text, which is in lower case,
    and the check for "today" is made first: every fragment whose cleaned
    text contains "today" is dated today, also when it contains
    "tomorrow", and every fragment whose cleaned text contains "tomorrow"
    and no "today" is dated tomorrow. *)
Theorem relative_day_is_end_of_day :
  forall (host : Host) (now : Z) (text : string),
    zoneBounded host -> clockInRange now ->
    (includes "today" text = true ->
     DateParser.parseDateString host now (JsString text)
     = Normal (Some (isoString (localEndOfDay host now 0))))
    /\ (includes "tomorrow" text = true ->
        includes "today" (cleanString text) = false ->
        DateParser.parseDateString host now (JsString text)
        = Normal (Some (isoString (localEndOfDay host now 1))))
    /\ (includes "today" (cleanString text) = true ->
        DateParser.parseDateString host now (JsString text)
        = Normal (Some (isoString (localEndOfDay host now 0))))
    /\ (includes "today" (cleanString text) = false ->
        includes "tomorrow" (cleanString text) = true ->
        DateParser.parseDateString host now (JsString text)
        = Normal (Some (isoString (localEndOfDay host now 1)))).
Proof.
  intros host now text Hz Hc. split; [|split; [|split]].
  - intro H. apply lib_today; try assumption.
    + apply cleanString_keeps_today. exact H.
    + eapply includes_nonempty; [reflexivity|exact H].
  - intros H H0. apply lib_tomorrow; try assumption.
    + apply cleanString_keeps_tomorrow. exact H.
    + eapply includes_nonempty; [reflexivity|exact H].
  - intro H. apply lib_today; try assumption.
    eapply cleaned_nonempty; [reflexivity|exact H].
  - intros H0 H. apply lib_tomorrow; try assumption.
    eapply cleaned_nonempty; [reflexivity|exact H].
Qed.

Lemma relative_day_is_end_of_day_witness :
  zoneBounded centralStandard /\ clockInRange june2025
  /\ (includes "today" "Due today at 5:00 PM" = true
      /\ DateParser.parseDateString centralStandard june2025
           (JsString "Due today at 5:00 PM")
         = Normal (Some (isoString (localEndOfDay centralStandard june2025 0))))
  /\ (includes "tomorrow" "due tomorrow @ 5:00 pm" = true
      /\ includes "today" (cleanString "due tomorrow @ 5:00 pm") = false
      /\ DateParser.parseDateString centralStandard june2025
           (JsString "due tomorrow @ 5:00 pm")
         = Normal (Some (isoString (localEndOfDay centralStandard june2025 1))))
  /\ (includes "today" (cleanString "Due Tomorrow, not TODAY") = true
      /\ DateParser.parseDateString centralStandard june2025
           (JsString "Due Tomorrow, not TODAY")
         = Normal (Some (isoString (localEndOfDay centralStandard june2025 0)))).
Proof.
  split; [exact centralStandard_zoneBounded|].
  split; [exact june2025_inRange|].
  split; [|split].
  - split; [reflexivity|].
    exact (proj1 (relative_day_is_end_of_day centralStandard june2025
                    "Due today at 5:00 PM"
                    centralStandard_zoneBounded june2025_inRange) eq_refl).
  - split; [reflexivity|]. split; [vm_compute; reflexivity|].
    apply (proj1 (proj2 (relative_day_is_end_of_day centralStandard june2025
                           "due tomorrow @ 5:00 pm"
                           centralStandard_zoneBounded june2025_inRange)));
      [reflexivity|vm_compute; reflexivity].
  - split; [vm_compute; reflexivity|].
    apply (proj1 (proj2 (proj2 (relative_day_is_end_of_day centralStandard
                                  june2025 "Due Tomorrow, not TODAY"
                                  centralStandard_zoneBounded june2025_inRange)))).
    vm_compute. reflexivity.
Defined.

(** ** Dates near the clock are valid *)

Local Open Scope Z_scope.

Lemma TimeClip_some (t : Z) : Z.abs t <= maxTime -> TimeClip t = Some t.
Proof. intro H. unfold TimeClip. apply Z.leb_le in H. rewrite H. reflexivity. Qed.

Lemma MakeDay_near_year (y m d : Z) :
  0 <= m <= 11 -> 0 <= d <= 99 ->
  DayFromYear y - 1 <= MakeDay y m d <= DayFromYear y + 433.
Proof.
  intros Hm Hd. unfold MakeDay.
  rewrite (Z.div_small m 12), (Z.mod_small m 12), Z.add_0_r by lia.
  assert (L : 0 <= (if DaysInYear y =? 366 then 1 else 0) <= 1)
    by (destruct (_ =? _); lia).
  pose proof (daysBeforeMonth_range m _ L). lia.
Qed.

Lemma YearFromTime_days (t : Z) :
  DayFromYear (YearFromTime t) <= Day t
  /\ Day t < DayFromYear (YearFromTime t) + 366.
Proof.
  pose proof (DayWithinYear_range t) as D. unfold DayWithinYear in D.
  pose proof (DaysInYear_range (YearFromTime t)). lia.
Qed.

(** A date built in the year of the clock, or rolled into the next, is a
    valid date. *)
Lemma yearOfClock_date (host : Host) (now m d h mi : Z) :
  zoneBounded host -> clockInRange now ->
  0 <= m <= 11 -> 0 <= d <= 99 -> 0 <= h <= 111 -> 0 <= mi <= 99 ->
  exists tv : Z,
    rollForward host now (getFullYear (LocalTZA host) now)
      (newDate (LocalTZA host) (getFullYear (LocalTZA host) now) m d h mi 0)
    = Some tv.
Proof.
  intros Hz Hc Hm Hd Hh Hmi. unfold getFullYear.
  set (lt := LocalTime (LocalTZA host) now).
  assert (Hlt : now - msPerDay <= lt <= now + msPerDay).
  { unfold lt, LocalTime. specialize (Hz now true). lia. }
  assert (Hy : 1969 <= YearFromTime lt).
  { apply YearFromTime_after_1969. unfold clockInRange in Hc. lia. }
  set (Y := YearFromTime lt) in *.
  pose proof (YearFromTime_days lt) as [Y1 Y2]. fold Y in Y1, Y2.
  pose proof (Day_bounds lt) as [D1 D2].
  rewrite newDate_plain_year by lia.
  pose proof (MakeDay_near_year Y m d Hm Hd) as Md.
  set (x := MakeDate (MakeDay Y m d) (MakeTime h mi 0 0)).
  assert (Hx : now - 400 * msPerDay <= x <= now + 500 * msPerDay).
  { unfold x, MakeDate, MakeTime, msPerHour, msPerMinute, msPerSecond,
      msPerDay in *. lia. }
  pose proof (Hz x false) as Zx.
  assert (Hu : now - 401 * msPerDay <= UTC (LocalTZA host) x
               <= now + 501 * msPerDay) by (unfold UTC; lia).
  rewrite TimeClip_some
    by (unfold clockInRange, maxTime, msPerDay in *; lia).
  unfold rollForward.
  destruct (UTC (LocalTZA host) x <? now); [|eexists; reflexivity].
  unfold setFullYear.
  set (t := LocalTime (LocalTZA host) (UTC (LocalTZA host) x)).
  assert (Ht : now - 402 * msPerDay <= t <= now + 502 * msPerDay).
  { unfold t, LocalTime. pose proof (Hz (UTC (LocalTZA host) x) true). lia. }
  pose proof (MonthFromTime_range t) as Mt.
  pose proof (DateFromTime_range t) as Dt.
  assert (Md' : DayFromYear (Y + 1) - 1
                <= MakeDay (Y + 1) (MonthFromTime t) (DateFromTime t)
                <= DayFromYear (Y + 1) + 433)
    by (apply MakeDay_near_year; lia).
  rewrite DayFromYear_succ in Md'. pose proof (DaysInYear_range Y) as Dy.
  assert (Tw : 0 <= TimeWithinDay t < msPerDay)
    by (unfold TimeWithinDay; apply Z.mod_pos_bound; unfold msPerDay; lia).
  set (x' := MakeDate (MakeDay (Y + 1) (MonthFromTime t) (DateFromTime t))
                      (TimeWithinDay t)).
  assert (Hx' : now - 400 * msPerDay <= x' <= now + 900 * msPerDay).
  { unfold x', MakeDate, msPerDay in *. lia. }
  pose proof (Hz x' false) as Zx'.
  rewrite TimeClip_some; [eexists; reflexivity|].
  unfold UTC, clockInRange, maxTime, msPerDay in *. lia.
Qed.

(** ** The calendar shapes of lib/date-parser.js *)

Local Open Scope string_scope.

(** Past the relative days, the function is the loop over the formats
    followed by the last resort. *)
Lemma lib_formats (host : Host) (now : Z) (text : string) :
  String.eqb text "" = false ->
  includes "today" (cleanString text) = false ->
  includes "tomorrow" (cleanString text) = false ->
  DateParser.parseDateString host now (JsString text)
  = let timeMatch := exec timeRe 3 (cleanString text) in
    let cleanStr := dateText timeMatch (cleanString text) in
    firstOf
      (List.map (DateParser.tryFormat host now (hoursOf timeMatch)
                   (minutesOf timeMatch) cleanStr)
                DateParser.dateFormats
       ++ [nativeDate host timeMatch cleanStr])%list.
Proof.
  intros N H0 H1. unfold DateParser.parseDateString.
  cbn [toBoolean isString negb orb]. rewrite N. cbn [negb orb].
  rewrite H0, H1. reflexivity.
Qed.

Lemma isNone_true {A : Type} (o : option A) : isNone o = true -> o = None.
Proof. destruct o; [discriminate|reflexivity]. Qed.

Lemma monthDayShape_sound (host : Host) (now : Z) (text : string)
    (month day tv : Z) :
  monthDayShape text month day = true ->
  rollForward host now (getFullYear (LocalTZA host) now)
    (newDate (LocalTZA host) (getFullYear (LocalTZA host) now) month day 23 59 0)
  = Some tv ->
  DateParser.parseDateString host now (JsString text)
  = Normal (Some (isoString tv)).
Proof.
  unfold monthDayShape. intros S R.
  destruct (exec monthDayRe 2 (cleanString text)) as [m|] eqn:Em;
    [|rewrite !andb_false_r in S; discriminate S].
  apply andb_true_iff in S. destruct S as [S Sm].
  apply andb_true_iff in S. destruct S as [S Sw].
  apply andb_true_iff in S. destruct S as [S St].
  apply andb_true_iff in S. destruct S as [S S1].
  apply andb_true_iff in S. destruct S as [Sn S0].
  apply isNone_true in Sw, St.
  apply negb_true_iff in Sn, S0, S1.
  apply andb_true_iff in Sm. destruct Sm as [Sm Sd].
  apply andb_true_iff in Sm. destruct Sm as [Sm So].
  apply andb_true_iff in Sm. destruct Sm as [S23 S12].
  apply negb_true_iff in S23. apply Z.eqb_eq in Sd.
  destruct (monthNames (toLowerCase (capture 1 m))) as [mo| |] eqn:Lk;
    try discriminate So.
  apply Z.eqb_eq in So. subst mo.
  rewrite lib_formats by assumption.
  rewrite St. cbn [dateText hoursOf minutesOf].
  unfold DateParser.dateFormats. cbn [List.map app firstOf].
  unfold DateParser.tryFormat at 1.
  cbn [DateParser.pattern DateParser.groupCount]. rewrite Sw. cbn [bind].
  unfold DateParser.tryFormat at 1.
  cbn [DateParser.pattern DateParser.groupCount]. rewrite Em.
  unfold DateParser.formatDate. cbn [DateParser.hasWord].
  rewrite S23, S12. unfold monthNameDate. rewrite Lk, Sd, R.
  reflexivity.
Qed.

Lemma expandYear_plain (y : Z) : (100 <= y)%Z -> expandYear y = y.
Proof.
  intro H. unfold expandYear. destruct (y <? 100)%Z eqn:E; [lia|reflexivity].
Qed.

Lemma slashShape_sound (host : Host) (now : Z) (text : string)
    (month day tv : Z) :
  slashShape text month day = true ->
  (100 <= getFullYear (LocalTZA host) now)%Z ->
  rollForward host now (getFullYear (LocalTZA host) now)
    (newDate (LocalTZA host) (getFullYear (LocalTZA host) now) month day 23 59 0)
  = Some tv ->
  DateParser.parseDateString host now (JsString text)
  = Normal (Some (isoString tv)).
Proof.
  unfold slashShape. intros S Y R.
  destruct (exec slashRe 3 (cleanString text)) as [m|] eqn:Em;
    [|rewrite !andb_false_r in S; discriminate S].
  apply andb_true_iff in S. destruct S as [S Sm].
  apply andb_true_iff in S. destruct S as [S Smd].
  apply andb_true_iff in S. destruct S as [S Sw].
  apply andb_true_iff in S. destruct S as [S St].
  apply andb_true_iff in S. destruct S as [S S1].
  apply andb_true_iff in S. destruct S as [Sn S0].
  apply isNone_true in Sw, St, Smd.
  apply negb_true_iff in Sn, S0, S1.
  apply andb_true_iff in Sm. destruct Sm as [Sm Sd].
  apply andb_true_iff in Sm. destruct Sm as [S3 So].
  apply Z.eqb_eq in Sd, So.
  rewrite lib_formats by assumption.
  rewrite St. cbn [dateText hoursOf minutesOf].
  unfold DateParser.dateFormats. cbn [List.map app firstOf].
  unfold DateParser.tryFormat at 1.
  cbn [DateParser.pattern DateParser.groupCount]. rewrite Sw. cbn [bind].
  unfold DateParser.tryFormat at 1.
  cbn [DateParser.pattern DateParser.groupCount]. rewrite Smd. cbn [bind].
  unfold DateParser.tryFormat at 1.
  cbn [DateParser.pattern DateParser.groupCount]. rewrite Em.
  unfold DateParser.formatDate.
  cbn [DateParser.hasWord DateParser.hasFourDigits].
  rewrite S3. apply negb_true_iff in S3. rewrite S3.
  rewrite So, Sd, expandYear_plain by exact Y. rewrite R.
  reflexivity.
Qed.

(** Upper and lower case spell the same fragment. *)
Lemma toLowerCase_empty (text : string) :
  String.eqb (toLowerCase text) "" = String.eqb text "".
Proof. destruct text; reflexivity. Qed.

Lemma lib_lowercase (host : Host) (now : Z) (text1 text2 : string) :
  toLowerCase text1 = toLowerCase text2 ->
  DateParser.parseDateString host now (JsString text1)
  = DateParser.parseDateString host now (JsString text2).
Proof.
  intro H. unfold DateParser.parseDateString, cleanString.
  cbn [toBoolean isString]. rewrite H.
  rewrite <- (toLowerCase_empty text1), <- (toLowerCase_empty text2), H.
  reflexivity.
Qed.

Lemma monthDayFragments_shape :
  forallb (fun f => monthDayShape (fst (fst f)) (snd (fst f)) (snd f))
          monthDayFragments = true.
Proof. vm_compute. reflexivity. Qed.

Lemma slashFragments_shape :
  forallb (fun f => slashShape (fst (fst f)) (snd (fst f)) (snd f))
          slashFragments = true.
Proof. vm_compute. reflexivity. Qed.

Lemma monthTable_lowercase :
  forallb (fun nm : string * Z =>
             String.eqb (toLowerCase (fst nm)) (fst nm)
             && (0 <=? snd nm)%Z && (snd nm <=? 11)%Z)
          monthTable = true.
Proof. reflexivity. Qed.

Lemma in_days (d : Z) : (1 <= d <= 31)%Z -> In d days.
Proof.
  intro H. unfold days. apply in_map_iff. exists (Z.to_nat d).
  split; [lia|]. apply in_seq. lia.
Qed.

Lemma in_months (m : Z) : (1 <= m <= 12)%Z -> In m months.
Proof.
  intro H. unfold months. apply in_map_iff. exists (Z.to_nat m).
  split; [lia|]. apply in_seq. lia.
Qed.

Lemma monthDayFragment_shape (name dtext : string) (month d : Z) :
  In (name, month) monthTable -> (1 <= d <= 31)%Z -> In dtext (numerals d) ->
  monthDayShape (name ++ " " ++ dtext) month d = true.
Proof.
  intros Hn Hd Ht.
  pose proof monthDayFragments_shape as F. rewrite forallb_forall in F.
  apply (F (name ++ " " ++ dtext, month, d)).
  unfold monthDayFragments. apply in_flat_map. exists (name, month).
  split; [exact Hn|]. apply in_flat_map. exists d.
  split; [apply in_days; exact Hd|].
  apply in_map_iff. exists dtext. split; [reflexivity|exact Ht].
Qed.

Lemma slashFragment_shape (mtext dtext : string) (mo d : Z) :
  (1 <= mo <= 12)%Z -> (1 <= d <= 31)%Z ->
  In mtext (numerals mo) -> In dtext (numerals d) ->
  slashShape (mtext ++ "/" ++ dtext) (mo - 1) d = true.
Proof.
  intros Hm Hd Hmt Hdt.
  pose proof slashFragments_shape as F. rewrite forallb_forall in F.
  apply (F (mtext ++ "/" ++ dtext, (mo - 1)%Z, d)).
  unfold slashFragments. apply in_flat_map. exists mo.
  split; [apply in_months; exact Hm|]. apply in_flat_map. exists d.
  split; [apply in_days; exact Hd|]. apply in_flat_map. exists mtext.
  split; [exact Hmt|].
  apply in_map_iff. exists dtext. split; [reflexivity|exact Hdt].
Qed.

Lemma monthTable_entry (name : string) (month : Z) :
  In (name, month) monthTable ->
  toLowerCase name = name /\ (0 <= month <= 11)%Z.
Proof.
  intro H. pose proof monthTable_lowercase as F. rewrite forallb_forall in F.
  specialize (F (name, month) H). cbn [fst snd] in F.
  apply andb_true_iff in F. destruct F as [F F2].
  apply andb_true_iff in F. destruct F as [F0 F1].
  apply String.eqb_eq in F0. split; [exact F0|lia].
Qed.

Lemma yearOfClock_plain (host : Host) (now : Z) :
  zoneBounded host -> clockInRange now ->
  (100 <= getFullYear (LocalTZA host) now)%Z.
Proof.
  intros Hz Hc. unfold getFullYear.
  assert (1969 <= YearFromTime (LocalTime (LocalTZA host) now))%Z; [|lia].
  apply YearFromTime_after_1969. unfold LocalTime, clockInRange in *.
  specialize (Hz now true). lia.
Qed.

(** A month name, in any mix of cases, and a day: the date is built in
    the year of the clock and rolled into the next year when it is
    before the clock. *)
Lemma monthDay_rolls (host : Host) (now : Z) (spelling name dtext : string)
    (month d : Z) :
  zoneBounded host -> clockInRange now ->
  In (name, month) monthTable -> toLowerCase spelling = name ->
  (1 <= d <= 31)%Z -> In dtext (numerals d) ->
  exists tv : Z,
    rollForward host now (getFullYear (LocalTZA host) now)
      (newDate (LocalTZA host) (getFullYear (LocalTZA host) now) month d 23 59 0)
    = Some tv
    /\ DateParser.parseDateString host now (JsString (spelling ++ " " ++ dtext))
       = Normal (Some (isoString tv)).
Proof.
  intros Hz Hc Hn Hs Hd Ht.
  destruct (monthTable_entry name month Hn) as [Hl Hm].
  destruct (yearOfClock_date host now month d 23 59 Hz Hc) as [tv R]; try lia.
  exists tv. split; [exact R|].
  rewrite (lib_lowercase host now _ (name ++ " " ++ dtext)).
  - apply (monthDayShape_sound host now _ month d tv); [|exact R].
    apply monthDayFragment_shape; assumption.
  - rewrite !toLowerCase_app, Hs, Hl. reflexivity.
Qed.

(** MM/DD: the same. *)
Lemma slash_rolls (host : Host) (now : Z) (mtext dtext : string) (mo d : Z) :
  zoneBounded host -> clockInRange now ->
  (1 <= mo <= 12)%Z -> (1 <= d <= 31)%Z ->
  In mtext (numerals mo) -> In dtext (numerals d) ->
  exists tv : Z,
    rollForward host now (getFullYear (LocalTZA host) now)
      (newDate (LocalTZA host) (getFullYear (LocalTZA host) now)
         (mo - 1) d 23 59 0)
    = Some tv
    /\ DateParser.parseDateString host now (JsString (mtext ++ "/" ++ dtext))
       = Normal (Some (isoString tv)).
Proof.
  intros Hz Hc Hm Hd Hmt Hdt.
  destruct (yearOfClock_date host now (mo - 1) d 23 59 Hz Hc) as [tv R]; try lia.
  exists tv. split; [exact R|].
  apply (slashShape_sound host now _ (mo - 1) d tv); [| |exact R].
  - apply slashFragment_shape; assumption.
  - apply yearOfClock_plain; assumption.
Qed.

(** With a year in the slash shape or in the ISO shape, the date is the
    date written: the clock is not read. *)
Lemma slash_year_date (host : Host) (now hours minutes : Z) (m : Match) :
  DateParser.truthyGroup 3 m = true ->
  DateParser.formatDate host now hours minutes DateParser.Slash m
  = newDate (LocalTZA host) (expandYear (parseInt (capture 3 m)))
      (parseInt (capture 1 m) - 1) (parseInt (capture 2 m)) hours minutes 0.
Proof.
  intro H. unfold DateParser.formatDate.
  cbn [DateParser.hasWord DateParser.hasFourDigits]. rewrite H. reflexivity.
Qed.

Lemma iso_date (host : Host) (now hours minutes : Z) (m : Match) :
  DateParser.formatDate host now hours minutes DateParser.Iso m
  = newDate (LocalTZA host) (parseInt (capture 1 m))
      (parseInt (capture 2 m) - 1) (parseInt (capture 3 m)) hours minutes 0.
Proof. reflexivity. Qed.

Example jan_1_in_june :
  DateParser.parseDateString utc june2025 (JsString "Jan 1")
  = Normal (Some "2026-01-01T23:59:00.000Z").
Proof. vm_compute. reflexivity. Qed.

Example dec_25_in_january :
  DateParser.parseDateString utc newYear2025 (JsString "Dec 25")
  = Normal (Some "2025-12-25T23:59:00.000Z").
Proof. vm_compute. reflexivity. Qed.

Example slash_with_two_digit_year :
  DateParser.parseDateString utc june2025 (JsString "1/5/25")
  = Normal (Some "2025-01-05T23:59:00.000Z").
Proof. vm_compute. reflexivity. Qed.

Example iso_in_the_past :
  DateParser.parseDateString utc june2025 (JsString "2025-03-04")
  = Normal (Some "2025-03-04T23:59:00.000Z").
Proof. vm_compute. reflexivity. Qed.

Example garbage : 
  DateParser.parseDateString utc june2025 (JsString "garbage-not-a-date")
  = Normal None.
Proof. vm_compute. reflexivity. Qed.


Example jan_1_2025_in_june :
  DateParser.parseDateString utc june2025 (JsString "Jan 1, 2025")
  = Normal (Some "2026-01-01T23:59:00.000Z").
Proof. vm_compute. reflexivity. Qed.

(** ** Patterns that cannot match *)

Local Open Scope string_scope.

Lemma isSuffix_refl (s : string) : isSuffix s s.
Proof. exists "". reflexivity. Qed.

Lemma isSuffix_tail (c : ascii) (s : string) : isSuffix s (String c s).
Proof. exists (String c ""). reflexivity. Qed.

Lemma isSuffix_trans (s1 s2 s3 : string) :
  isSuffix s1 s2 -> isSuffix s2 s3 -> isSuffix s1 s3.
Proof.
  intros [p1 ->] [p2 ->]. exists (p2 ++ p1). symmetry. apply app_assoc_string.
Qed.

Lemma isSuffix_drop (j : nat) (s : string) : isSuffix (drop j s) s.
Proof.
  revert s. induction j as [|j IH]; intro s; [apply isSuffix_refl|].
  destruct s as [|c s]; [apply isSuffix_refl|]. simpl.
  eapply isSuffix_trans; [apply IH|apply isSuffix_tail].
Qed.

Lemma allChars_app (p : ascii -> bool) (a b : string) :
  allChars p (a ++ b) = allChars p a && allChars p b.
Proof.
  induction a as [|c a IH]; simpl; [reflexivity|].
  rewrite IH. apply andb_assoc.
Qed.

Lemma allChars_suffix (p : ascii -> bool) (s' s : string) :
  isSuffix s' s -> allChars p s = true -> allChars p s' = true.
Proof.
  intros [pre ->] H. rewrite allChars_app in H.
  apply andb_true_iff in H. apply H.
Qed.

Lemma backoff_none (R : Type) (j lo : nat) (prev : option ascii) (s : string)
    (k : option ascii -> string -> option R) :
  (forall prev' s', isSuffix s' s -> k prev' s' = None) ->
  backoff R j lo prev s k = None.
Proof.
  intro H. induction j as [|j IH]; simpl.
  - rewrite H by apply isSuffix_refl. reflexivity.
  - rewrite H by apply (isSuffix_drop (S j)).
    destruct (j <? lo)%nat; [reflexivity|exact IH].
Qed.

(** The matcher hands the continuation a suffix of the text only. *)
Lemma matchAt_none (R : Type) (r : Regex) :
  forall (prev : option ascii) (s : string) (caps : Captures)
         (k : option ascii -> string -> Captures -> option R),
    (forall prev' s' caps', isSuffix s' s -> k prev' s' caps' = None) ->
    matchAt R r prev s caps k = None.
Proof.
  induction r as [|p|p lo hi|a IHa b IHb|a IHa b IHb|n a IHa|a IHa|];
    intros prev s caps k H; cbn [matchAt].
  - apply H, isSuffix_refl.
  - destruct s as [|c s]; [reflexivity|].
    destruct (p c); [|reflexivity]. apply H, isSuffix_tail.
  - destruct (_ <? _)%nat; [reflexivity|].
    apply backoff_none. intros prev' s' Hs. apply H, Hs.
  - apply IHa. intros prev' s' caps' Hs. apply IHb.
    intros prev'' s'' caps'' Hs'. apply H.
    eapply isSuffix_trans; eassumption.
  - rewrite IHa by exact H. apply IHb, H.
  - apply IHa. intros prev' s' caps' Hs. apply H, Hs.
  - rewrite IHa by exact H. apply H, isSuffix_refl.
  - destruct (xorb _ _); [|reflexivity]. apply H, isSuffix_refl.
Qed.

Lemma in_allAscii (c : ascii) : In c allAscii.
Proof.
  unfold allAscii. apply in_map_iff. exists (nat_of_ascii c).
  split; [apply ascii_nat_embedding|].
  apply in_seq. pose proof (nat_ascii_bounded c). lia.
Qed.

Lemma implies_spec (q p : ascii -> bool) (c : ascii) :
  implies q p = true -> q c = true -> p c = true.
Proof.
  unfold implies. rewrite forallb_forall. intros H Hq.
  specialize (H c (in_allAscii c)). rewrite Hq in H. exact H.
Qed.

Lemma without_head (p q : ascii -> bool) (c : ascii) (s : string) :
  implies q p = true -> without p (String c s) = true -> q c = false.
Proof.
  intros I H. cbn in H. apply andb_true_iff in H. destruct H as [H _].
  destruct (q c) eqn:Q; [|reflexivity].
  rewrite (implies_spec q p c I Q) in H. discriminate H.
Qed.

Lemma span_zero (p q : ascii -> bool) (lim : option nat) (s : string) :
  implies q p = true -> without p s = true -> span q lim s = O.
Proof.
  intros I H. destruct s as [|c s]; [reflexivity|]. simpl.
  rewrite (without_head p q c s I H). reflexivity.
Qed.

Lemma mustContain_none (R : Type) (p : ascii -> bool) (r : Regex) :
  forall (prev : option ascii) (s : string) (caps : Captures)
         (k : option ascii -> string -> Captures -> option R),
    mustContain p r = true -> without p s = true ->
    matchAt R r prev s caps k = None.
Proof.
  induction r as [|q|q lo hi|a IHa b IHb|a IHa b IHb|n a IHa|a IHa|];
    intros prev s caps k M W; cbn [mustContain] in M; try discriminate M;
    cbn [matchAt].
  - destruct s as [|c s]; [reflexivity|].
    rewrite (without_head p q c s M W). reflexivity.
  - apply andb_true_iff in M. destruct M as [Mlo M].
    rewrite (span_zero p q hi s M W).
    destruct lo; [discriminate Mlo|reflexivity].
  - apply orb_true_iff in M. destruct M as [M|M].
    + apply IHa; assumption.
    + apply matchAt_none. intros prev' s' caps' Hs.
      apply IHb; [exact M|]. exact (allChars_suffix _ s' s Hs W).
  - apply andb_true_iff in M. destruct M as [Ma Mb].
    rewrite IHa by assumption. apply IHb; assumption.
  - apply IHa; assumption.
Qed.

Lemma search_none (p : ascii -> bool) (r : Regex) (n : nat) :
  mustContain p r = true ->
  forall (s pre : string) (prev : option ascii),
    without p s = true -> search r n pre prev s = None.
Proof.
  intros M s. induction s as [|c s IH]; intros pre prev W; cbn [search];
    unfold matchHere; rewrite (mustContain_none _ p r) by assumption.
  - reflexivity.
  - apply IH. cbn in W. apply andb_true_iff in W. apply W.
Qed.

Lemma exec_none (p : ascii -> bool) (r : Regex) (n : nat) (s : string) :
  mustContain p r = true -> without p s = true -> exec r n s = None.
Proof. intros M W. apply search_none with (p := p); assumption. Qed.

Lemma replaceAll_none (p : ascii -> bool) (r : Regex) (n : nat)
    (by_ s : string) :
  mustContain p r = true -> without p s = true -> replaceAll r n by_ s = s.
Proof.
  intros M. unfold replaceAll. generalize (@None ascii) as prev.
  induction s as [|c s IH]; intros prev W; cbn [replaceFrom];
    unfold matchHere; rewrite (mustContain_none _ p r) by assumption.
  - reflexivity.
  - rewrite IH; [reflexivity|]. cbn in W. apply andb_true_iff in W. apply W.
Qed.

(** ** Texts made of digits and separators *)

Lemma numeric_implies (p : ascii -> bool) (s : string) :
  implies numeric (fun c => negb (p c)) = true ->
  allChars numeric s = true -> without p s = true.
Proof.
  intros I. unfold without. induction s as [|c s IH]; intro H; [reflexivity|].
  cbn [allChars] in H |- *. apply andb_true_iff in H. destruct H as [Hc Hs].
  rewrite (implies_spec _ _ c I Hc). apply IH, Hs.
Qed.

Lemma toLowerCase_numeric (s : string) :
  allChars numeric s = true -> toLowerCase s = s.
Proof.
  induction s as [|c s IH]; intro H; [reflexivity|].
  cbn [allChars toLowerCase] in H |- *.
  apply andb_true_iff in H. destruct H as [Hc Hs].
  rewrite IH by exact Hs. f_equal.
  assert (I : implies numeric (fun c => Ascii.eqb (lowerChar c) c) = true)
    by (vm_compute; reflexivity).
  apply Ascii.eqb_eq. exact (implies_spec _ _ c I Hc).
Qed.

Lemma trimStart_without (s : string) : without isSpace s = true -> trimStart s = s.
Proof.
  destruct s as [|c s]; [reflexivity|]. intro H. unfold without in H.
  cbn [allChars trimStart] in H |- *.
  apply andb_true_iff in H. destruct H as [Hc _].
  destruct (isSpace c); [discriminate Hc|reflexivity].
Qed.

Lemma trimEnd_without (s : string) : without isSpace s = true -> trimEnd s = s.
Proof.
  induction s as [|c s IH]; intro H; [reflexivity|].
  unfold without in H. cbn [allChars] in H.
  apply andb_true_iff in H. destruct H as [Hc Hs].
  rewrite trimEnd_cons; [rewrite (IH Hs); reflexivity|].
  left. destruct (isSpace c); [discriminate Hc|reflexivity].
Qed.

Lemma includes_without (c : ascii) (w s : string) :
  without (Ascii.eqb c) s = true -> includes (String c w) s = false.
Proof.
  induction s as [|x s IH]; intro H; [reflexivity|].
  unfold without in H. cbn [allChars] in H.
  apply andb_true_iff in H. destruct H as [Hc Hs].
  cbn [includes prefix]. rewrite (IH Hs), orb_false_r.
  destruct (ascii_dec c x) as [->|_]; [|reflexivity].
  rewrite Ascii.eqb_refl in Hc. discriminate Hc.
Qed.

Ltac numericFact :=
  apply numeric_implies; [vm_compute; reflexivity|assumption].

(** A numeric text comes out of the cleaning as it went in, and has no
    relative day, clock time, weekday or month name in it. *)
Lemma cleanString_numeric (s : string) :
  allChars numeric s = true -> cleanString s = s.
Proof.
  intro H. unfold cleanString. rewrite (toLowerCase_numeric s H).
  rewrite (replaceAll_none (Ascii.eqb "d") dueRe) by
    (try reflexivity; numericFact).
  rewrite (replaceAll_none (Ascii.eqb "u") untilRe) by
    (try reflexivity; numericFact).
  rewrite (replaceAll_none (Ascii.eqb "@") atRe) by
    (try (vm_compute; reflexivity); numericFact).
  rewrite (replaceAll_none isSpace spacesRe) by
    (try (vm_compute; reflexivity); numericFact).
  unfold trim. rewrite trimStart_without, trimEnd_without; try reflexivity;
    numericFact.
Qed.

Lemma numeric_no_today (s : string) :
  allChars numeric s = true -> includes "today" s = false.
Proof. intro H. apply includes_without. numericFact. Qed.

Lemma numeric_no_tomorrow (s : string) :
  allChars numeric s = true -> includes "tomorrow" s = false.
Proof. intro H. apply includes_without. numericFact. Qed.

Lemma numeric_no_time (s : string) :
  allChars numeric s = true -> exec timeRe 3 s = None.
Proof.
  intro H. apply (exec_none (Ascii.eqb ":"));
    [vm_compute; reflexivity|numericFact].
Qed.

Lemma numeric_no_weekday (s : string) :
  allChars numeric s = true -> exec weekdayMonthDayRe 3 s = None.
Proof.
  intro H. apply (exec_none (Ascii.eqb ","));
    [vm_compute; reflexivity|numericFact].
Qed.

Lemma numeric_no_monthDay (s : string) :
  allChars numeric s = true -> exec monthDayRe 2 s = None.
Proof.
  intro H. apply (exec_none isSpace); [vm_compute; reflexivity|numericFact].
Qed.

Lemma dashes_no_slash (s : string) :
  without (Ascii.eqb "/") s = true -> exec slashRe 3 s = None.
Proof.
  intro H. apply (exec_none (Ascii.eqb "/")); [vm_compute; reflexivity|exact H].
Qed.

(** ** Runs of digits *)

Lemma span_run (p : ascii -> bool) (hi : nat) (ds rest : string) :
  allChars p ds = true -> (String.length ds <= hi)%nat ->
  headIs p rest = false ->
  span p (Some hi) (ds ++ rest) = String.length ds.
Proof.
  revert hi. induction ds as [|c ds IH]; intros hi H L Hr.
  - cbn [append String.length]. destruct rest as [|x rest]; [reflexivity|].
    cbn in Hr. cbn [span]. rewrite Hr. reflexivity.
  - cbn [allChars] in H. apply andb_true_iff in H. destruct H as [Hc Hd].
    cbn [append span String.length] in *. rewrite Hc.
    destruct hi as [|hi]; [lia|]. rewrite IH; [reflexivity|exact Hd|lia|exact Hr].
Qed.

Lemma backoff_hit (R : Type) (j lo : nat) (prev : option ascii) (s : string)
    (k : option ascii -> string -> option R) (x : R) :
  k (prevAfter prev j s) (drop j s) = Some x ->
  backoff R j lo prev s k = Some x.
Proof. intro H. destruct j; cbn [backoff]; rewrite H; reflexivity. Qed.

Lemma drop_app (a b : string) : drop (String.length a) (a ++ b) = b.
Proof. induction a as [|c a IH]; simpl; [destruct b; reflexivity|exact IH]. Qed.

Lemma take_app (a b : string) :
  take (String.length (a ++ b) - String.length b) (a ++ b) = a.
Proof.
  rewrite length_app.
  replace (String.length a + String.length b - String.length b)%nat
    with (String.length a) by lia.
  induction a as [|c a IH]; simpl; [destruct b; reflexivity|].
  rewrite IH. reflexivity.
Qed.

(** A capturing group over a bounded run of a class takes the whole
    run when the rest of the pattern accepts what follows. *)
Lemma matchAt_run (R : Type) (p : ascii -> bool) (n lo hi : nat)
    (ds rest : string) (prev : option ascii) (caps : Captures)
    (k : option ascii -> string -> Captures -> option R) (x : R) :
  allChars p ds = true ->
  (lo <= String.length ds <= hi)%nat ->
  headIs p rest = false ->
  k (prevAfter prev (String.length ds) (ds ++ rest)) rest (setCapture n ds caps)
  = Some x ->
  matchAt R (Grp n (between p lo hi)) prev (ds ++ rest) caps k = Some x.
Proof.
  intros H L Hr Hk. unfold between. cbn [matchAt].
  rewrite (span_run p hi ds rest H) by (try exact Hr; lia).
  destruct (String.length ds <? lo)%nat eqn:E;
    [apply Nat.ltb_lt in E; lia|].
  apply backoff_hit. rewrite drop_app, take_app. exact Hk.
Qed.

Lemma matchAt_seq (R : Type) (a b : Regex) (prev : option ascii) (s : string)
    (caps : Captures) (k : option ascii -> string -> Captures -> option R) :
  matchAt R (Seq a b) prev s caps k
  = matchAt R a prev s caps
      (fun prev' s' caps' => matchAt R b prev' s' caps' k).
Proof. reflexivity. Qed.

Lemma matchAt_chr (R : Type) (c : ascii) (prev : option ascii) (s : string)
    (caps : Captures) (k : option ascii -> string -> Captures -> option R) :
  matchAt R (chr c) prev (String c s) caps k = k (Some c) s caps.
Proof. unfold chr. cbn [matchAt]. rewrite Ascii.eqb_refl. reflexivity. Qed.

Lemma matchAt_opt (R : Type) (a : Regex) (prev : option ascii) (s : string)
    (caps : Captures) (k : option ascii -> string -> Captures -> option R)
    (x : R) :
  matchAt R a prev s caps k = Some x -> matchAt R (Opt a) prev s caps k = Some x.
Proof. intro H. cbn [matchAt]. rewrite H. reflexivity. Qed.

Lemma app_nil_r_string (s : string) : s ++ "" = s.
Proof. induction s as [|c s IH]; simpl; [reflexivity|]. rewrite IH. reflexivity. Qed.

Lemma headIs_digit_sep (c : ascii) (s : string) :
  isDigit c = false -> headIs isDigit (String c s) = false.
Proof. intro H. exact H. Qed.

Lemma matchHere_slash (m d y : string) :
  allChars isDigit m = true -> allChars isDigit d = true ->
  allChars isDigit y = true ->
  (1 <= String.length m <= 2)%nat -> (1 <= String.length d <= 2)%nat ->
  (2 <= String.length y <= 4)%nat ->
  matchHere slashRe 3 None (m ++ "/" ++ d ++ "/" ++ y)
  = Some ("", [Some m; Some d; Some y]).
Proof.
  intros Hm Hd Hy Lm Ld Ly. unfold matchHere, slashRe.
  rewrite matchAt_seq. apply matchAt_run; [exact Hm|exact Lm|reflexivity|].
  change ("/" ++ d ++ "/" ++ y) with (String "/" (d ++ "/" ++ y)).
  rewrite matchAt_seq, matchAt_chr.
  rewrite matchAt_seq. apply matchAt_run; [exact Hd|exact Ld|reflexivity|].
  apply matchAt_opt.
  change ("/" ++ y) with (String "/" y).
  rewrite matchAt_seq, matchAt_chr.
  rewrite <- (app_nil_r_string y) at 1.
  apply matchAt_run; [exact Hy|exact Ly|reflexivity|].
  reflexivity.
Qed.

Lemma matchHere_iso (y m d : string) :
  allChars isDigit y = true -> allChars isDigit m = true ->
  allChars isDigit d = true ->
  String.length y = 4%nat ->
  (1 <= String.length m <= 2)%nat -> (1 <= String.length d <= 2)%nat ->
  matchHere isoRe 3 None (y ++ "-" ++ m ++ "-" ++ d)
  = Some ("", [Some y; Some m; Some d]).
Proof.
  intros Hy Hm Hd Ly Lm Ld. unfold matchHere, isoRe.
  rewrite matchAt_seq. apply matchAt_run; [exact Hy|lia|reflexivity|].
  change ("-" ++ m ++ "-" ++ d) with (String "-" (m ++ "-" ++ d)).
  rewrite matchAt_seq, matchAt_chr.
  rewrite matchAt_seq. apply matchAt_run; [exact Hm|exact Lm|reflexivity|].
  change ("-" ++ d) with (String "-" d).
  rewrite matchAt_seq, matchAt_chr.
  rewrite <- (app_nil_r_string d) at 1.
  apply matchAt_run; [exact Hd|exact Ld|reflexivity|].
  reflexivity.
Qed.

Lemma exec_here (r : Regex) (n : nat) (s : string) (caps : Captures) :
  matchHere r n None s = Some ("", caps) ->
  exec r n s
  = Some {| before := ""; matched := s; after := ""; groups := caps |}.
Proof.
  intro H. unfold exec. destruct s as [|c s]; cbn [search]; rewrite H.
  - reflexivity.
  - cbn [String.length]. rewrite Nat.sub_0_r.
    f_equal. f_equal.
    change (take (String.length (String c s)) (String c s) = String c s).
    generalize (String c s) as t. clear.
    induction t as [|x t IH]; simpl; [reflexivity|]. rewrite IH. reflexivity.
Qed.

(** ** The numbers written *)

Local Open Scope Z_scope.

Lemma digit_value (c : ascii) :
  isDigit c = true -> 0 <= Z.of_N (code c - 48) <= 9.
Proof.
  unfold isDigit. intro H. apply andb_true_iff in H. destruct H as [H1 H2].
  apply N.leb_le in H1, H2. lia.
Qed.

Lemma parseDigits_range (s : string) (acc : Z) :
  allChars isDigit s = true -> 0 <= acc ->
  0 <= parseDigits acc s < (acc + 1) * 10 ^ Z.of_nat (String.length s).
Proof.
  revert acc. induction s as [|c s IH]; intros acc H A.
  - cbn [parseDigits String.length]. change (10 ^ Z.of_nat 0) with 1. lia.
  - cbn [allChars] in H. apply andb_true_iff in H. destruct H as [Hc Hs].
    cbn [parseDigits]. rewrite Hc.
    pose proof (digit_value c Hc) as D.
    specialize (IH (10 * acc + Z.of_N (code c - 48)) Hs ltac:(lia)).
    cbn [String.length]. rewrite Nat2Z.inj_succ, Z.pow_succ_r by lia.
    assert (P : 0 < 10 ^ Z.of_nat (String.length s))
      by (apply Z.pow_pos_nonneg; lia).
    nia.
Qed.

Lemma parseInt_range (s : string) (n : nat) :
  allChars isDigit s = true -> (String.length s <= n)%nat ->
  0 <= parseInt s < 10 ^ Z.of_nat n.
Proof.
  intros H L. unfold parseInt.
  pose proof (parseDigits_range s 0 H ltac:(lia)) as P.
  assert (10 ^ Z.of_nat (String.length s) <= 10 ^ Z.of_nat n)
    by (apply Z.pow_le_mono_r; lia).
  lia.
Qed.

Lemma expandYear_range (y : Z) :
  0 <= y <= 9999 -> 100 <= expandYear y <= 9999.
Proof.
  intro H. unfold expandYear.
  destruct (y <? 100) eqn:A; [|lia]. destruct (y <? 50) eqn:B; lia.
Qed.

(** A date written with a year up to 9999, a month and a day of at most
    two digits, is a valid date. *)
Lemma written_date (host : Host) (y m d h mi : Z) :
  zoneBounded host ->
  0 <= y <= 9999 -> -1 <= m <= 98 -> 0 <= d <= 99 ->
  0 <= h <= 111 -> 0 <= mi <= 99 ->
  exists tv : Z, newDate (LocalTZA host) y m d h mi 0 = Some tv.
Proof.
  intros Hz Hy Hm Hd Hh Hmi. unfold newDate.
  set (yr := if (0 <=? y) && (y <=? 99) then 1900 + y else y).
  assert (Hyr : 100 <= yr <= 9999).
  { unfold yr. destruct (0 <=? y) eqn:A; destruct (y <=? 99) eqn:B;
      cbn [andb]; lia. }
  clearbody yr.
  set (x := MakeDate (MakeDay yr m d) (MakeTime h mi 0 0)).
  assert (Hx : - 4000000 * msPerDay <= x <= 4000000 * msPerDay).
  { unfold x, MakeDate, MakeDay, MakeTime.
    assert (Q : -1 <= m / 12 <= 8) by (Z.to_euclidean_division_equations; lia).
    assert (Mn : 0 <= m mod 12 <= 11) by (pose proof (Z.mod_pos_bound m 12); lia).
    set (ym := yr + m / 12) in *.
    assert (Hym : 99 <= ym <= 10007) by (unfold ym; lia).
    assert (L : 0 <= (if DaysInYear ym =? 366 then 1 else 0) <= 1)
      by (destruct (_ =? _); lia).
    pose proof (daysBeforeMonth_range (m mod 12) _ L) as B.
    pose proof (DayFromYear_le 99 ym ltac:(lia)) as Lo.
    pose proof (DayFromYear_le ym 10007 ltac:(lia)) as Hi.
    change (DayFromYear 99) with (-683368) in Lo.
    change (DayFromYear 10007) with 2935454 in Hi.
    unfold msPerDay, msPerHour, msPerMinute, msPerSecond. lia. }
  pose proof (Hz x false) as Zx.
  rewrite TimeClip_some; [eexists; reflexivity|].
  unfold UTC, maxTime, msPerDay in *. lia.
Qed.

(** ** Fragments with a year *)

Local Open Scope string_scope.

Lemma allChars_weaken (q p : ascii -> bool) (s : string) :
  implies q p = true -> allChars q s = true -> allChars p s = true.
Proof.
  intros I. induction s as [|c s IH]; intro H; [reflexivity|].
  cbn [allChars] in H |- *. apply andb_true_iff in H. destruct H as [Hc Hs].
  rewrite (implies_spec _ _ c I Hc). apply IH, Hs.
Qed.

Lemma digits_numeric (s : string) :
  allChars isDigit s = true -> allChars numeric s = true.
Proof. apply allChars_weaken. vm_compute. reflexivity. Qed.

Lemma nonempty_text (s t : string) :
  (1 <= String.length s)%nat -> String.eqb (s ++ t) "" = false.
Proof. destruct s; simpl; [lia|reflexivity]. Qed.

(** On a numeric text the function is the slash format, then the ISO
    format, then the last resort, with the end of the day as the time. *)
Lemma lib_numeric (host : Host) (now : Z) (s : string) :
  allChars numeric s = true -> String.eqb s "" = false ->
  DateParser.parseDateString host now (JsString s)
  = firstOf [ DateParser.tryFormat host now 23 59 s DateParser.Slash;
              DateParser.tryFormat host now 23 59 s DateParser.Iso;
              nativeDate host None s ].
Proof.
  intros H N.
  rewrite lib_formats;
    rewrite ?(cleanString_numeric s H);
    [|exact N|apply numeric_no_today; exact H
     |apply numeric_no_tomorrow; exact H].
  cbv zeta. rewrite (numeric_no_time s H).
  cbn [dateText hoursOf minutesOf].
  unfold DateParser.dateFormats. cbn [List.map app firstOf].
  unfold DateParser.tryFormat at 1.
  cbn [DateParser.pattern DateParser.groupCount].
  rewrite (numeric_no_weekday s H). cbn [bind].
  unfold DateParser.tryFormat at 1.
  cbn [DateParser.pattern DateParser.groupCount].
  rewrite (numeric_no_monthDay s H). cbn [bind].
  reflexivity.
Qed.

Lemma truthy_capture (y : string) :
  (1 <= String.length y)%nat -> negb (String.eqb y "") = true.
Proof. destruct y; simpl; [lia|reflexivity]. Qed.

(** MM/DD/YY(YY): the date written, whatever the clock reads. *)
Lemma slashYear_written (host : Host) (now : Z) (m d y : string) :
  zoneBounded host ->
  allChars isDigit m = true -> allChars isDigit d = true ->
  allChars isDigit y = true ->
  (1 <= String.length m <= 2)%nat -> (1 <= String.length d <= 2)%nat ->
  (2 <= String.length y <= 4)%nat ->
  exists tv : Z,
    newDate (LocalTZA host) (expandYear (parseInt y)) (parseInt m - 1)
      (parseInt d) 23 59 0 = Some tv
    /\ DateParser.parseDateString host now
         (JsString (m ++ "/" ++ d ++ "/" ++ y))
       = Normal (Some (isoString tv)).
Proof.
  intros Hz Hm Hd Hy Lm Ld Ly.
  pose proof (parseInt_range m 2 Hm ltac:(lia)) as Rm.
  pose proof (parseInt_range d 2 Hd ltac:(lia)) as Rd.
  pose proof (parseInt_range y 4 Hy ltac:(lia)) as Ry.
  change (10 ^ Z.of_nat 2)%Z with 100%Z in *.
  change (10 ^ Z.of_nat 4)%Z with 10000%Z in *.
  pose proof (expandYear_range (parseInt y) ltac:(lia)) as Re.
  destruct (written_date host (expandYear (parseInt y)) (parseInt m - 1)
              (parseInt d) 23 59 Hz) as [tv E]; try lia.
  exists tv. split; [exact E|].
  rewrite lib_numeric.
  - cbn [firstOf]. unfold DateParser.tryFormat at 1.
    cbn [DateParser.pattern DateParser.groupCount].
    rewrite (exec_here _ _ _ _ (matchHere_slash m d y Hm Hd Hy Lm Ld Ly)).
    rewrite slash_year_date
      by (unfold DateParser.truthyGroup; cbn [group nth groups];
          apply truthy_capture; lia).
    unfold capture. cbn [group nth groups]. rewrite E. reflexivity.
  - rewrite !allChars_app, (digits_numeric m Hm), (digits_numeric d Hd),
      (digits_numeric y Hy). reflexivity.
  - apply nonempty_text. lia.
Qed.

(** YYYY-MM-DD: the date written, whatever the clock reads. *)
Lemma iso_written (host : Host) (now : Z) (y m d : string) :
  zoneBounded host ->
  allChars isDigit y = true -> allChars isDigit m = true ->
  allChars isDigit d = true ->
  String.length y = 4%nat ->
  (1 <= String.length m <= 2)%nat -> (1 <= String.length d <= 2)%nat ->
  exists tv : Z,
    newDate (LocalTZA host) (parseInt y) (parseInt m - 1) (parseInt d) 23 59 0
    = Some tv
    /\ DateParser.parseDateString host now
         (JsString (y ++ "-" ++ m ++ "-" ++ d))
       = Normal (Some (isoString tv)).
Proof.
  intros Hz Hy Hm Hd Ly Lm Ld.
  pose proof (parseInt_range m 2 Hm ltac:(lia)) as Rm.
  pose proof (parseInt_range d 2 Hd ltac:(lia)) as Rd.
  pose proof (parseInt_range y 4 Hy ltac:(lia)) as Ry.
  change (10 ^ Z.of_nat 2)%Z with 100%Z in *.
  change (10 ^ Z.of_nat 4)%Z with 10000%Z in *.
  destruct (written_date host (parseInt y) (parseInt m - 1) (parseInt d)
              23 59 Hz) as [tv E]; try lia.
  exists tv. split; [exact E|].
  assert (W : forall p, implies isDigit (fun c => negb (p c)) = true ->
                        negb (p "-"%char) = true ->
                        without p (y ++ "-" ++ m ++ "-" ++ d) = true).
  { intros p I D. unfold without. rewrite !allChars_app.
    rewrite (allChars_weaken isDigit (fun c => negb (p c)) y I Hy),
      (allChars_weaken isDigit (fun c => negb (p c)) m I Hm),
      (allChars_weaken isDigit (fun c => negb (p c)) d I Hd).
    cbn [allChars]. rewrite D. reflexivity. }
  rewrite lib_numeric.
  - cbn [firstOf]. unfold DateParser.tryFormat at 1.
    cbn [DateParser.pattern DateParser.groupCount].
    rewrite dashes_no_slash
      by (apply W; [vm_compute; reflexivity|reflexivity]).
    cbn [bind]. unfold DateParser.tryFormat at 1.
    cbn [DateParser.pattern DateParser.groupCount].
    rewrite (exec_here _ _ _ _ (matchHere_iso y m d Hy Hm Hd Ly Lm Ld)).
    rewrite iso_date.
    unfold capture. cbn [group nth groups]. rewrite E. reflexivity.
  - rewrite !allChars_app, (digits_numeric m Hm), (digits_numeric d Hd),
      (digits_numeric y Hy). reflexivity.
  - apply nonempty_text. lia.
Qed.

(** ** The date and what follows it *)

Local Open Scope string_scope.
Local Open Scope Z_scope.

Lemma lastIs_app (p : ascii -> bool) (a b : string) :
  (1 <= String.length b)%nat -> lastIs p (a ++ b) = lastIs p b.
Proof.
  intro N. induction a as [|c a IH]; [reflexivity|].
  cbn [append lastIs]. destruct (a ++ b) eqn:E; [|exact IH].
  destruct a; [cbn in E; subst b; simpl in N; lia|discriminate E].
Qed.

Lemma lastIs_nonempty (p : ascii -> bool) (s : string) :
  lastIs p s = true -> s <> "".
Proof. destruct s; [discriminate|discriminate]. Qed.

Lemma allChars_lastIs (q p : ascii -> bool) (s : string) :
  implies q p = true -> allChars q s = true -> (1 <= String.length s)%nat ->
  lastIs p s = true.
Proof.
  intros I. induction s as [|c s IH]; intros H L; [simpl in L; lia|].
  cbn [allChars] in H. apply andb_true_iff in H. destruct H as [Hc Hs].
  cbn [lastIs]. destruct s as [|x s].
  - exact (implies_spec q p c I Hc).
  - apply IH; [exact Hs|simpl; lia].
Qed.

Lemma headIs_app (p : ascii -> bool) (a b : string) :
  (1 <= String.length a)%nat -> headIs p (a ++ b) = headIs p a.
Proof. destruct a; simpl; [lia|reflexivity]. Qed.

Lemma headIs_class (q p : ascii -> bool) (s : string) :
  implies q (fun c => negb (p c)) = true -> allChars q s = true ->
  headIs p s = false.
Proof.
  intros I H. destruct s as [|c s]; [reflexivity|].
  cbn [allChars] in H. apply andb_true_iff in H. destruct H as [Hc _].
  pose proof (implies_spec _ _ c I Hc) as N. cbn in N |- *.
  destruct (p c); [discriminate N|reflexivity].
Qed.

Lemma trimStart_head (s : string) : headIs isSpace s = false -> trimStart s = s.
Proof.
  destruct s as [|c s]; [reflexivity|]. cbn [headIs trimStart].
  intro H. rewrite H. reflexivity.
Qed.

Lemma trimEnd_last (a b : string) :
  lastIs notSpace a = true -> trimEnd (a ++ b) = a ++ trimEnd b.
Proof.
  induction a as [|c a IH]; intro H; [discriminate H|].
  cbn [lastIs] in H. cbn [append]. destruct a as [|x a].
  - cbn [append]. apply trimEnd_cons. left.
    unfold notSpace in H. destruct (isSpace c); [discriminate H|reflexivity].
  - rewrite trimEnd_cons; [rewrite (IH H); reflexivity|].
    right. rewrite (IH H). discriminate.
Qed.

Lemma headIs_trimEnd (p : ascii -> bool) (s : string) :
  headIs p s = false -> headIs p (trimEnd s) = false.
Proof.
  destruct s as [|c s]; [reflexivity|]. cbn [headIs trimEnd]. intro H.
  destruct (trimEnd s); [destruct (isSpace c); [reflexivity|exact H]|exact H].
Qed.

(** ** The matcher on runs of a class *)

Lemma span_run_all (p : ascii -> bool) (ds rest : string) :
  allChars p ds = true -> headIs p rest = false ->
  span p None (ds ++ rest) = String.length ds.
Proof.
  induction ds as [|c ds IH]; intros H Hr.
  - cbn [append String.length]. destruct rest as [|x rest]; [reflexivity|].
    cbn in Hr. cbn [span]. rewrite Hr. reflexivity.
  - cbn [allChars] in H. apply andb_true_iff in H. destruct H as [Hc Hd].
    cbn [append span String.length]. rewrite Hc, IH by assumption. reflexivity.
Qed.

Lemma matchAt_rep (R : Type) (p : ascii -> bool) (lo : nat)
    (ds rest : string) (prev : option ascii) (caps : Captures)
    (k : option ascii -> string -> Captures -> option R) (x : R) :
  allChars p ds = true -> (lo <= String.length ds)%nat ->
  headIs p rest = false ->
  k (prevAfter prev (String.length ds) (ds ++ rest)) rest caps = Some x ->
  matchAt R (atLeast p lo) prev (ds ++ rest) caps k = Some x.
Proof.
  intros H L Hr Hk. unfold atLeast. cbn [matchAt].
  rewrite (span_run_all p ds rest H Hr).
  destruct (String.length ds <? lo)%nat eqn:E;
    [apply Nat.ltb_lt in E; lia|].
  apply backoff_hit. rewrite drop_app. exact Hk.
Qed.

Lemma matchAt_between (R : Type) (p : ascii -> bool) (lo hi : nat)
    (ds rest : string) (prev : option ascii) (caps : Captures)
    (k : option ascii -> string -> Captures -> option R) (x : R) :
  allChars p ds = true -> (lo <= String.length ds <= hi)%nat ->
  headIs p rest = false ->
  k (prevAfter prev (String.length ds) (ds ++ rest)) rest caps = Some x ->
  matchAt R (between p lo hi) prev (ds ++ rest) caps k = Some x.
Proof.
  intros H L Hr Hk. unfold between. cbn [matchAt].
  rewrite (span_run p hi ds rest H) by (try exact Hr; lia).
  destruct (String.length ds <? lo)%nat eqn:E;
    [apply Nat.ltb_lt in E; lia|].
  apply backoff_hit. rewrite drop_app. exact Hk.
Qed.

Lemma matchAt_word (R : Type) (p : ascii -> bool) (n lo : nat)
    (ds rest : string) (prev : option ascii) (caps : Captures)
    (k : option ascii -> string -> Captures -> option R) (x : R) :
  allChars p ds = true -> (lo <= String.length ds)%nat ->
  headIs p rest = false ->
  k (prevAfter prev (String.length ds) (ds ++ rest)) rest (setCapture n ds caps)
  = Some x ->
  matchAt R (Grp n (atLeast p lo)) prev (ds ++ rest) caps k = Some x.
Proof.
  intros H L Hr Hk. unfold atLeast. cbn [matchAt].
  rewrite (span_run_all p ds rest H Hr).
  destruct (String.length ds <? lo)%nat eqn:E;
    [apply Nat.ltb_lt in E; lia|].
  apply backoff_hit. rewrite drop_app, take_app. exact Hk.
Qed.

Lemma search_here (r : Regex) (n : nat) (pre : string) (prev : option ascii)
    (s rest : string) (caps : Captures) :
  matchHere r n prev s = Some (rest, caps) ->
  search r n pre prev s
  = Some {| before := pre;
            matched := take (String.length s - String.length rest) s;
            after := rest; groups := caps |}.
Proof. intro H. destruct s; cbn [search]; rewrite H; reflexivity. Qed.

Lemma search_skip (r : Regex) (n : nat) (s : string) :
  forall (P pre : string) (prev : option ascii),
    (forall (v : string) (c : ascii) (u : string) (prev' : option ascii),
        P = v ++ String c u -> matchHere r n prev' (String c u ++ s) = None) ->
    search r n pre prev (P ++ s)
    = search r n (pre ++ P) (prevAfter prev (String.length P) P) s.
Proof.
  induction P as [|c P IH]; intros pre prev H.
  - cbn [append String.length prevAfter]. rewrite app_nil_r_string.
    destruct s; reflexivity.
  - cbn [append search].
    change (String c (P ++ s)) with (String c P ++ s).
    rewrite (H "" c P prev eq_refl).
    rewrite IH.
    + rewrite app_assoc_string. reflexivity.
    + intros v x u prev' E. apply (H (String c v) x u prev').
      rewrite E. reflexivity.
Qed.

(** ** The clock time *)

Lemma colon_needed (R : Type) (X : Regex) (prev : option ascii) (t : string)
    (caps : Captures) (k : option ascii -> string -> Captures -> option R) :
  headIs (Ascii.eqb ":") t = false ->
  matchAt R (Seq (chr ":") X) prev t caps k = None.
Proof.
  intro H. unfold chr. cbn [matchAt]. destruct t as [|c t]; [reflexivity|].
  cbn [headIs] in H. rewrite H. reflexivity.
Qed.

Lemma colon_first (R : Type) (prev : option ascii) (t : string)
    (caps : Captures) (k : option ascii -> string -> Captures -> option R) :
  headIs (Ascii.eqb ":") t = false ->
  matchAt R (chr ":") prev t caps k = None.
Proof.
  intro H. unfold chr. cbn [matchAt]. destruct t as [|c t]; [reflexivity|].
  cbn [headIs] in H. rewrite H. reflexivity.
Qed.

Lemma without_head_false (p : ascii -> bool) (c : ascii) (s : string) :
  without p (String c s) = true -> p c = false.
Proof.
  unfold without. cbn [allChars]. intro H. apply andb_true_iff in H.
  destruct H as [H _]. destruct (p c); [discriminate H|reflexivity].
Qed.

Lemma without_tail (p : ascii -> bool) (c : ascii) (s : string) :
  without p (String c s) = true -> without p s = true.
Proof.
  unfold without. cbn [allChars]. intro H. apply andb_true_iff in H. apply H.
Qed.

Lemma digits_then_colon (R : Type) (P s : string) (prev : option ascii)
    (caps : Captures) (k : option ascii -> string -> Captures -> option R) :
  (forall prev' t caps', headIs (Ascii.eqb ":") t = false ->
                         k prev' t caps' = None) ->
  without (Ascii.eqb ":") P = true -> lastIs notDigit P = true ->
  matchAt R (between isDigit 1 2) prev (P ++ s) caps k = None.
Proof.
  intros Hk W L. unfold between. cbn [matchAt].
  destruct P as [|c1 P]; [discriminate L|].
  pose proof (without_head_false _ _ _ W) as C1.
  apply without_tail in W.
  cbn [append span]. destruct (isDigit c1) eqn:D1; [|reflexivity].
  destruct P as [|c2 P];
    [cbn [lastIs] in L; unfold notDigit in L; rewrite D1 in L; discriminate L|].
  pose proof (without_head_false _ _ _ W) as C2.
  apply without_tail in W.
  cbn [append span]. destruct (isDigit c2) eqn:D2.
  - destruct P as [|c3 P];
      [cbn [lastIs] in L; unfold notDigit in L; rewrite D2 in L; discriminate L|].
    pose proof (without_head_false _ _ _ W) as C3.
    cbn [append span].
    replace (if isDigit c3 then 0%nat else 0%nat) with 0%nat
      by (destruct (isDigit c3); reflexivity).
    cbn [Nat.ltb Nat.leb backoff prevAfter drop].
    rewrite (Hk _ (String c3 (P ++ s))) by exact C3.
    rewrite (Hk _ (String c2 (String c3 (P ++ s)))) by exact C2.
    reflexivity.
  - cbn [Nat.ltb Nat.leb backoff prevAfter drop].
    rewrite (Hk _ (String c2 (P ++ s))) by exact C2.
    reflexivity.
Qed.

Lemma timeRe_prefix (P s : string) (prev : option ascii) :
  without (Ascii.eqb ":") P = true -> lastIs notDigit P = true ->
  matchHere timeRe 3 prev (P ++ s) = None.
Proof.
  intros W L. unfold matchHere, timeRe. rewrite matchAt_seq. cbn [matchAt].
  apply digits_then_colon; [|exact W|exact L].
  intros prev' t caps' H. apply colon_first. exact H.
Qed.

Lemma timeTextRe_prefix (P s : string) (prev : option ascii) :
  without (Ascii.eqb ":") P = true -> lastIs notDigit P = true ->
  matchHere timeTextRe 1 prev (P ++ s) = None.
Proof.
  intros W L. unfold matchHere, timeTextRe. rewrite matchAt_seq.
  apply digits_then_colon; [|exact W|exact L].
  intros prev' t caps' H. apply colon_needed. exact H.
Qed.

Lemma prefix_inert (r : Regex) (n : nat) (P s : string) :
  (forall (Q : string) (prev : option ascii),
      without (Ascii.eqb ":") Q = true -> lastIs notDigit Q = true ->
      matchHere r n prev (Q ++ s) = None) ->
  without (Ascii.eqb ":") P = true -> lastIs notDigit P = true ->
  forall (v : string) (c : ascii) (u : string) (prev' : option ascii),
    P = v ++ String c u -> matchHere r n prev' (String c u ++ s) = None.
Proof.
  intros H W L v c u prev' E. apply H.
  - apply (allChars_suffix _ (String c u) P); [exists v; exact E|exact W].
  - rewrite <- L, E. symmetry. apply lastIs_app. simpl. lia.
Qed.

Lemma meridiem_match (R : Type) (n : nat) (ap rest : string)
    (prev : option ascii) (caps : Captures)
    (k : option ascii -> string -> Captures -> option R) :
  ap = "am" \/ ap = "pm" ->
  matchAt R (Grp n (Alt (litI "am") (litI "pm"))) prev (ap ++ rest) caps k
  = k (Some "m"%char) rest (setCapture n ap caps).
Proof.
  intros [->| ->].
  - cbn -[take String.length Nat.sub].
    change (String "a" (String "m" rest)) with ("am" ++ rest).
    rewrite take_app. destruct (k _ _ _); reflexivity.
  - cbn -[take String.length Nat.sub].
    change (String "p" (String "m" rest)) with ("pm" ++ rest).
    rewrite take_app. reflexivity.
Qed.

Lemma headIs_after_spaces (sp s : string) :
  allChars isSpace sp = true -> headIs isDigit s = false ->
  headIs isDigit (sp ++ s) = false.
Proof.
  intros H Hs. destruct sp as [|c sp]; [exact Hs|].
  cbn [allChars] in H. apply andb_true_iff in H. destruct H as [Hc _].
  cbn [append headIs].
  assert (I : implies isSpace (fun c => negb (isDigit c)) = true)
    by (vm_compute; reflexivity).
  pose proof (implies_spec _ _ c I Hc) as N. cbn beta in N.
  destruct (isDigit c); [discriminate N|reflexivity].
Qed.

Lemma isClock_spec (k : Clock) :
  isClock k = true ->
  allChars isDigit (hourText k) = true
  /\ (1 <= String.length (hourText k) <= 2)%nat
  /\ allChars isDigit (minuteText k) = true
  /\ String.length (minuteText k) = 2%nat
  /\ allChars isSpace (gapText k) = true
  /\ (meridiem k = "am" \/ meridiem k = "pm").
Proof.
  unfold isClock. intro H.
  repeat (apply andb_true_iff in H; destruct H as [H ?]).
  repeat match goal with
         | X : (_ <=? _)%nat = true |- _ => apply Nat.leb_le in X
         | X : (_ =? _)%nat = true |- _ => apply Nat.eqb_eq in X
         end.
  repeat split; try assumption.
  match goal with
  | X : (_ || _) = true |- _ =>
      apply orb_true_iff in X; destruct X as [X|X]; apply String.eqb_eq in X;
        [left|right]; exact X
  end.
Qed.

Lemma timeRe_clock (k : Clock) (rest : string) (prev : option ascii) :
  isClock k = true ->
  matchHere timeRe 3 prev (clockText k ++ rest)
  = Some (rest, [Some (hourText k); Some (minuteText k); Some (meridiem k)]).
Proof.
  intro H. destruct (isClock_spec k H) as [Hh [Lh [Hm [Lm [Hs Ha]]]]].
  destruct k as [hh mm sp ap]. cbn [hourText minuteText gapText meridiem] in *.
  unfold clockText. cbn [hourText minuteText gapText meridiem].
  rewrite !app_assoc_string.
  unfold matchHere, timeRe.
  rewrite matchAt_seq. apply matchAt_run; [exact Hh|exact Lh|reflexivity|].
  change (":" ++ mm ++ sp ++ ap ++ rest) with (String ":" (mm ++ sp ++ ap ++ rest)).
  rewrite matchAt_seq, matchAt_chr.
  rewrite matchAt_seq. apply matchAt_run; [exact Hm|lia| |].
  { apply headIs_after_spaces; [exact Hs|].
    destruct Ha as [->| ->]; reflexivity. }
  rewrite matchAt_seq. apply matchAt_rep; [exact Hs|lia| |].
  { destruct Ha as [->| ->]; reflexivity. }
  rewrite meridiem_match by exact Ha. reflexivity.
Qed.

Lemma timeTextRe_clock (k : Clock) (rest : string) (prev : option ascii) :
  isClock k = true ->
  matchHere timeTextRe 1 prev (clockText k ++ rest)
  = Some (rest, [Some (meridiem k)]).
Proof.
  intro H. destruct (isClock_spec k H) as [Hh [Lh [Hm [Lm [Hs Ha]]]]].
  destruct k as [hh mm sp ap]. cbn [hourText minuteText gapText meridiem] in *.
  unfold clockText. cbn [hourText minuteText gapText meridiem].
  rewrite !app_assoc_string.
  unfold matchHere, timeTextRe.
  rewrite matchAt_seq. apply matchAt_between; [exact Hh|exact Lh|reflexivity|].
  change (":" ++ mm ++ sp ++ ap ++ rest) with (String ":" (mm ++ sp ++ ap ++ rest)).
  rewrite matchAt_seq, matchAt_chr.
  rewrite matchAt_seq. apply matchAt_between; [exact Hm|lia| |].
  { apply headIs_after_spaces; [exact Hs|].
    destruct Ha as [->| ->]; reflexivity. }
  rewrite matchAt_seq. apply matchAt_rep; [exact Hs|lia| |].
  { destruct Ha as [->| ->]; reflexivity. }
  rewrite meridiem_match by exact Ha. reflexivity.
Qed.

Lemma exec_clock (r : Regex) (n : nat) (caps : Captures) (P : string)
    (k : Clock) (rest : string) :
  (forall (Q s : string) (prev : option ascii),
      without (Ascii.eqb ":") Q = true -> lastIs notDigit Q = true ->
      matchHere r n prev (Q ++ s) = None) ->
  (forall prev, matchHere r n prev (clockText k ++ rest) = Some (rest, caps)) ->
  without (Ascii.eqb ":") P = true -> lastIs notDigit P = true ->
  exec r n (P ++ clockText k ++ rest)
  = Some {| before := P; matched := clockText k; after := rest;
            groups := caps |}.
Proof.
  intros Hp Hc W L. unfold exec.
  rewrite search_skip
    by (apply prefix_inert; [intros Q prev; apply Hp|exact W|exact L]).
  rewrite (search_here _ _ _ _ _ _ _ (Hc _)).
  rewrite take_app. reflexivity.
Qed.

Lemma clockHours_clock (before_ matched_ after_ : string) (k : Clock) :
  meridiem k = "am" \/ meridiem k = "pm" ->
  clockHours {| before := before_; matched := matched_; after := after_;
                groups := [Some (hourText k); Some (minuteText k);
                           Some (meridiem k)] |}
  = hourOfDay k.
Proof.
  destruct k as [hh mm sp ap]. cbn [hourText minuteText gapText meridiem].
  intro Ha. unfold clockHours, hourOfDay, capture, group.
  cbn [nth groups hourText meridiem].
  destruct Ha as [-> | ->].
  - change (String.eqb (toLowerCase "am") "pm") with false.
    change (String.eqb "am" "pm") with false.
    cbn [andb negb]. reflexivity.
  - change (String.eqb (toLowerCase "pm") "pm") with true.
    change (String.eqb "pm" "pm") with true.
    cbn [andb negb].
    destruct (parseInt hh =? 12) eqn:E; cbn [negb]; [|reflexivity].
    apply Z.eqb_eq in E. exact E.
Qed.

Local Open Scope Z_scope.

Lemma without_app (p : ascii -> bool) (a b : string) :
  without p (a ++ b) = without p a && without p b.
Proof. unfold without. apply allChars_app. Qed.

Lemma tail_read (D G : string) (clock : option (Clock * string)) :
  without (Ascii.eqb ":") D = true -> headIs isSpace D = false ->
  lastIs notSpace D = true -> tailFits G clock = true ->
  let c := D ++ tailText G clock in
  hoursOf (exec timeRe 3 c) = hoursAt clock
  /\ minutesOf (exec timeRe 3 c) = minutesAt clock
  /\ dateText (exec timeRe 3 c) c = D ++ tailLeft G clock
  /\ headIs isDigit (tailLeft G clock) = false.
Proof.
  intros WD HD LD F c. unfold tailFits in F.
  apply andb_true_iff in F. destruct F as [F F3].
  apply andb_true_iff in F. destruct F as [F1 F2].
  apply negb_true_iff in F1.
  assert (ND : (1 <= String.length D)%nat)
    by (destruct D; [discriminate LD|simpl; lia]).
  destruct clock as [[k rest]|].
  - apply andb_true_iff in F3. destruct F3 as [K LG].
    assert (NG : (1 <= String.length G)%nat)
      by (destruct G; [discriminate LG|simpl; lia]).
    assert (E : c = (D ++ G) ++ clockText k ++ rest).
    { unfold c, tailText. rewrite app_assoc_string. reflexivity. }
    assert (WP : without (Ascii.eqb ":") (D ++ G) = true)
      by (rewrite without_app, WD, F2; reflexivity).
    assert (LP : lastIs notDigit (D ++ G) = true).
    { rewrite lastIs_app; [exact LG|exact NG]. }
    destruct (isClock_spec k K) as [_ [_ [_ [_ [_ Ha]]]]].
    rewrite E.
    rewrite (exec_clock timeRe 3
               [Some (hourText k); Some (minuteText k); Some (meridiem k)]);
      [|intros; apply timeRe_prefix; assumption
       |intro; apply timeRe_clock; exact K|exact WP|exact LP].
    cbn [hoursOf minutesOf dateText hoursAt minutesAt tailLeft].
    split; [apply clockHours_clock; exact Ha|].
    split; [reflexivity|]. split.
    + unfold replaceFirst.
      rewrite (exec_clock timeTextRe 1 [Some (meridiem k)]);
        [|intros; apply timeTextRe_prefix; assumption
         |intro; apply timeTextRe_clock; exact K|exact WP|exact LP].
      cbn [before after append]. rewrite app_assoc_string.
      unfold trim. rewrite trimStart_head by (rewrite headIs_app; assumption).
      apply trimEnd_last. exact LD.
    + apply headIs_trimEnd. rewrite headIs_app by exact NG. exact F1.
  - unfold c. cbn [tailText hoursAt minutesAt tailLeft].
    rewrite (exec_none (Ascii.eqb ":") timeRe 3);
      [|vm_compute; reflexivity|rewrite without_app, WD, F2; reflexivity].
    cbn [hoursOf minutesOf dateText].
    repeat split. exact F1.
Qed.

Lemma clock_bounds (G : string) (clock : option (Clock * string)) :
  tailFits G clock = true ->
  0 <= hoursAt clock <= 111 /\ 0 <= minutesAt clock <= 99.
Proof.
  intro F. unfold tailFits in F.
  apply andb_true_iff in F. destruct F as [_ F].
  destruct clock as [[k rest]|]; cbn [hoursAt minutesAt]; [|lia].
  apply andb_true_iff in F. destruct F as [K _].
  destruct (isClock_spec k K) as [Hh [Lh [Hm [Lm _]]]].
  pose proof (parseInt_range (hourText k) 2 Hh ltac:(lia)) as Rh.
  pose proof (parseInt_range (minuteText k) 2 Hm ltac:(lia)) as Rm.
  change (10 ^ Z.of_nat 2) with 100 in *.
  unfold hourOfDay, minuteOfHour.
  destruct (String.eqb (meridiem k) "pm");
    destruct (parseInt (hourText k) =? 12); lia.
Qed.

Lemma rollForward_inferred (host : Host) (now month day hours minutes tv : Z) :
  rollForward host now (getFullYear (LocalTZA host) now)
    (newDate (LocalTZA host) (getFullYear (LocalTZA host) now)
       month day hours minutes 0) = Some tv ->
  inferredInstant host now month day hours minutes tv.
Proof.
  unfold rollForward, inferredInstant.
  destruct (newDate _ _ _ _ _ _ _) as [t0|]; [|discriminate].
  destruct (t0 <? now) eqn:E; intro H; exists t0; (split; [reflexivity|]).
  - apply Z.ltb_lt in E. split; [lia|intros _; exact H].
  - apply Z.ltb_ge in E. injection H as <-. split; [reflexivity|lia].
Qed.

Lemma clock_dated (host : Host) (now month d : Z) (G : string)
    (clock : option (Clock * string)) :
  zoneBounded host -> clockInRange now ->
  0 <= month <= 11 -> 1 <= d <= 31 -> tailFits G clock = true ->
  exists tv : Z,
    rollForward host now (getFullYear (LocalTZA host) now)
      (newDate (LocalTZA host) (getFullYear (LocalTZA host) now)
         month d (hoursAt clock) (minutesAt clock) 0) = Some tv
    /\ inferredInstant host now month d (hoursAt clock) (minutesAt clock) tv.
Proof.
  intros Hz Hc Hm Hd F. destruct (clock_bounds G clock F) as [Bh Bm].
  destruct (yearOfClock_date host now month d (hoursAt clock) (minutesAt clock)
              Hz Hc) as [tv R]; try lia.
  exists tv. split; [exact R|]. apply rollForward_inferred. exact R.
Qed.

(** ** The month names and the numerals *)

Lemma numerals_spec :
  forallb (fun d =>
             forallb (fun t => allChars isDigit t
                               && (1 <=? String.length t)%nat
                               && (String.length t <=? 2)%nat
                               && (parseInt t =? d))
                     (numerals d))
          days = true.
Proof. vm_compute. reflexivity. Qed.

Lemma numeral_read (d : Z) (dtext : string) :
  1 <= d <= 31 -> In dtext (numerals d) ->
  allChars isDigit dtext = true /\ (1 <= String.length dtext <= 2)%nat
  /\ parseInt dtext = d.
Proof.
  intros Hd Ht. pose proof numerals_spec as F. rewrite forallb_forall in F.
  specialize (F d (in_days d Hd)). rewrite forallb_forall in F.
  specialize (F dtext Ht).
  apply andb_true_iff in F. destruct F as [F F4].
  apply andb_true_iff in F. destruct F as [F F3].
  apply andb_true_iff in F. destruct F as [F1 F2].
  apply Nat.leb_le in F2, F3. apply Z.eqb_eq in F4.
  repeat split; assumption.
Qed.

Lemma monthTable_names :
  forallb (fun nm : string * Z =>
             allChars isWord (fst nm) && (1 <=? String.length (fst nm))%nat
             && match monthNames (toLowerCase (fst nm)) with
                | Own mo => mo =? snd nm
                | _ => false
                end)
          monthTable = true.
Proof. vm_compute. reflexivity. Qed.

Lemma monthName_read (name : string) (month : Z) :
  In (name, month) monthTable ->
  allChars isWord name = true /\ (1 <= String.length name)%nat
  /\ monthNames (toLowerCase name) = Own month /\ 0 <= month <= 11.
Proof.
  intro H. pose proof monthTable_names as F. rewrite forallb_forall in F.
  specialize (F (name, month) H). cbn [fst snd] in F.
  apply andb_true_iff in F. destruct F as [F F3].
  apply andb_true_iff in F. destruct F as [F1 F2].
  apply Nat.leb_le in F2.
  destruct (monthTable_entry name month H) as [_ Hm].
  destruct (monthNames (toLowerCase name)) as [mo| |]; try discriminate F3.
  apply Z.eqb_eq in F3. subst mo. repeat split; try assumption; lia.
Qed.

Lemma word_no_space (name s : string) :
  allChars isWord name = true -> (1 <= String.length name)%nat ->
  headIs isSpace (name ++ s) = false.
Proof.
  intros H L. rewrite headIs_app by exact L.
  apply (headIs_class isWord); [vm_compute; reflexivity|exact H].
Qed.

Lemma digits_no_space (dtext s : string) :
  allChars isDigit dtext = true -> (1 <= String.length dtext)%nat ->
  headIs isSpace (dtext ++ s) = false.
Proof.
  intros H L. rewrite headIs_app by exact L.
  apply (headIs_class isDigit); [vm_compute; reflexivity|exact H].
Qed.

Lemma weekday_match (weekday name dtext rest : string) :
  allChars isWord weekday = true -> (1 <= String.length weekday)%nat ->
  allChars isWord name = true -> (1 <= String.length name)%nat ->
  allChars isDigit dtext = true -> (1 <= String.length dtext <= 2)%nat ->
  headIs isDigit rest = false ->
  matchHere weekdayMonthDayRe 3 None
    (weekday ++ ", " ++ name ++ " " ++ dtext ++ rest)
  = Some (rest, [Some weekday; Some name; Some dtext]).
Proof.
  intros Hw Lw Hn Ln Hd Ld Hr. unfold matchHere, weekdayMonthDayRe.
  rewrite matchAt_seq. apply matchAt_word; [exact Hw|exact Lw|reflexivity|].
  change (", " ++ name ++ " " ++ dtext ++ rest)
    with (String "," (" " ++ name ++ " " ++ dtext ++ rest)).
  rewrite matchAt_seq, matchAt_chr.
  rewrite matchAt_seq.
  apply (matchAt_rep _ isSpace 0 " ");
    [reflexivity|simpl; lia|apply word_no_space; assumption|].
  rewrite matchAt_seq. apply matchAt_word; [exact Hn|exact Ln|reflexivity|].
  rewrite matchAt_seq.
  apply (matchAt_rep _ isSpace 1 " ");
    [reflexivity|simpl; lia|apply digits_no_space; [exact Hd|lia]|].
  apply matchAt_run; [exact Hd|exact Ld|exact Hr|].
  reflexivity.
Qed.

Lemma monthDay_match (name dtext rest : string) :
  allChars isWord name = true -> (1 <= String.length name)%nat ->
  allChars isDigit dtext = true -> (1 <= String.length dtext <= 2)%nat ->
  headIs isDigit rest = false ->
  matchHere monthDayRe 2 None (name ++ " " ++ dtext ++ rest)
  = Some (rest, [Some name; Some dtext]).
Proof.
  intros Hn Ln Hd Ld Hr. unfold matchHere, monthDayRe.
  rewrite matchAt_seq. apply matchAt_word; [exact Hn|exact Ln|reflexivity|].
  rewrite matchAt_seq.
  apply (matchAt_rep _ isSpace 1 " ");
    [reflexivity|simpl; lia|apply digits_no_space; [exact Hd|lia]|].
  apply matchAt_run; [exact Hd|exact Ld|exact Hr|].
  reflexivity.
Qed.

Lemma slash_match (mtext dtext : string) :
  allChars isDigit mtext = true -> (1 <= String.length mtext <= 2)%nat ->
  allChars isDigit dtext = true -> (1 <= String.length dtext <= 2)%nat ->
  matchHere slashRe 3 None (mtext ++ "/" ++ dtext)
  = Some ("", [Some mtext; Some dtext; None]).
Proof.
  intros Hm Lm Hd Ld. unfold matchHere, slashRe.
  rewrite matchAt_seq. apply matchAt_run; [exact Hm|exact Lm|reflexivity|].
  change ("/" ++ dtext) with (String "/" dtext).
  rewrite matchAt_seq, matchAt_chr.
  rewrite matchAt_seq. rewrite <- (app_nil_r_string dtext) at 1.
  apply matchAt_run; [exact Hd|exact Ld|reflexivity|].
  reflexivity.
Qed.

Lemma exec_found (r : Regex) (n : nat) (s rest : string) (caps : Captures) :
  matchHere r n None s = Some (rest, caps) ->
  exists m : Match, exec r n s = Some m /\ groups m = caps.
Proof.
  intro H. unfold exec. rewrite (search_here _ _ _ _ _ _ _ H).
  eexists. split; reflexivity.
Qed.

Lemma cleaned_text (text : string) (x : ascii) (s : string) :
  cleanString text = String x s -> String.eqb text "" = false.
Proof.
  intro H. destruct text; [|reflexivity]. vm_compute in H. discriminate H.
Qed.

(** What the month-name branch of a format makes of a month name of the
    table and a day. *)
Lemma monthNameDate_table (host : Host) (now h mi : Z) (name dtext : string)
    (month d tv : Z) :
  monthNames (toLowerCase name) = Own month -> parseInt dtext = d ->
  rollForward host now (getFullYear (LocalTZA host) now)
    (newDate (LocalTZA host) (getFullYear (LocalTZA host) now) month d h mi 0)
  = Some tv ->
  monthNameDate host now h mi name dtext = Some tv.
Proof.
  intros Hn Hd R. unfold monthNameDate. rewrite Hn, Hd. exact R.
Qed.

Ltac charFacts :=
  repeat match goal with
         | |- without _ (_ ++ _) = true => rewrite without_app
         | |- (_ && _) = true => apply andb_true_iff; split
         | |- without _ _ = true =>
             first [ assumption | reflexivity
                   | unfold without;
                     first [ apply (allChars_weaken isWord);
                             [vm_compute; reflexivity|assumption]
                           | apply (allChars_weaken isDigit);
                             [vm_compute; reflexivity|assumption] ] ]
         end.

(** ** The shapes without a year *)

Section Shapes.

Variable host : Host.
Variable now : Z.
Hypothesis Hz : zoneBounded host.
Hypothesis Hc : clockInRange now.

Lemma weekdayShape_dated (text weekday name dtext : string) (month d : Z)
    (G : string) (clock : option (Clock * string)) :
  cleanString text
  = weekday ++ ", " ++ name ++ " " ++ dtext ++ tailText G clock ->
  includes "today" (cleanString text) = false ->
  includes "tomorrow" (cleanString text) = false ->
  allChars isWord weekday = true -> (1 <= String.length weekday)%nat ->
  In (name, month) monthTable -> 1 <= d <= 31 -> In dtext (numerals d) ->
  tailFits G clock = true ->
  exists tv : Z,
    inferredInstant host now month d (hoursAt clock) (minutesAt clock) tv
    /\ DateParser.parseDateString host now (JsString text)
       = Normal (Some (isoString tv)).
Proof.
  intros E H0 H1 Hw Lw Hn Hd Ht F.
  destruct (monthName_read name month Hn) as [Nw [Nl [Nm Nr]]].
  destruct (numeral_read d dtext Hd Ht) as [Dd [Dl Dp]].
  destruct (clock_dated host now month d G clock Hz Hc Nr Hd F) as [tv [R I]].
  exists tv. split; [exact I|].
  assert (N : String.eqb text "" = false).
  { destruct weekday as [|x w]; [simpl in Lw; lia|].
    exact (cleaned_text text x _ E). }
  rewrite lib_formats by assumption. cbv zeta.
  assert (E' : cleanString text
               = (weekday ++ ", " ++ name ++ " " ++ dtext) ++ tailText G clock)
    by (rewrite E, !app_assoc_string; reflexivity).
  rewrite E'.
  destruct (tail_read (weekday ++ ", " ++ name ++ " " ++ dtext) G clock)
    as [Th [Tm [Td Tr]]]; [| | |exact F|].
  { charFacts. }
  { rewrite headIs_app by exact Lw.
    apply (headIs_class isWord); [vm_compute; reflexivity|exact Hw]. }
  { rewrite !lastIs_app by (rewrite ?length_app; cbn [String.length]; lia).
    apply (allChars_lastIs isDigit); [vm_compute; reflexivity|exact Dd|lia]. }
  rewrite Th, Tm, Td, !app_assoc_string.
  destruct (exec_found _ _ _ _ _
              (weekday_match weekday name dtext (tailLeft G clock)
                 Hw Lw Nw Nl Dd Dl Tr)) as [m [Em Gm]].
  unfold DateParser.dateFormats. cbn [List.map app].
  unfold DateParser.tryFormat at 1.
  cbn [DateParser.pattern DateParser.groupCount]. rewrite Em.
  unfold DateParser.formatDate. cbn [DateParser.hasWord].
  unfold DateParser.truthyGroup, capture, group. rewrite Gm. cbn [nth].
  rewrite (truthy_capture name Nl), (truthy_capture dtext) by lia.
  cbn [andb].
  rewrite (monthNameDate_table host now _ _ name dtext month d tv Nm Dp R).
  reflexivity.
Qed.

Lemma monthDayShape_dated (text name dtext : string) (month d : Z)
    (G : string) (clock : option (Clock * string)) :
  cleanString text = name ++ " " ++ dtext ++ tailText G clock ->
  includes "today" (cleanString text) = false ->
  includes "tomorrow" (cleanString text) = false ->
  In (name, month) monthTable -> 1 <= d <= 31 -> In dtext (numerals d) ->
  tailFits G clock = true ->
  without (Ascii.eqb ",") (tailLeft G clock) = true ->
  exists tv : Z,
    inferredInstant host now month d (hoursAt clock) (minutesAt clock) tv
    /\ DateParser.parseDateString host now (JsString text)
       = Normal (Some (isoString tv)).
Proof.
  intros E H0 H1 Hn Hd Ht F Wc.
  destruct (monthName_read name month Hn) as [Nw [Nl [Nm Nr]]].
  destruct (numeral_read d dtext Hd Ht) as [Dd [Dl Dp]].
  destruct (clock_dated host now month d G clock Hz Hc Nr Hd F) as [tv [R I]].
  exists tv. split; [exact I|].
  assert (N : String.eqb text "" = false).
  { destruct name as [|x w]; [simpl in Nl; lia|].
    exact (cleaned_text text x _ E). }
  rewrite lib_formats by assumption. cbv zeta.
  assert (E' : cleanString text = (name ++ " " ++ dtext) ++ tailText G clock)
    by (rewrite E, !app_assoc_string; reflexivity).
  rewrite E'.
  destruct (tail_read (name ++ " " ++ dtext) G clock)
    as [Th [Tm [Td Tr]]]; [| | |exact F|].
  { charFacts. }
  { rewrite headIs_app by exact Nl.
    apply (headIs_class isWord); [vm_compute; reflexivity|exact Nw]. }
  { rewrite !lastIs_app by (rewrite ?length_app; cbn [String.length]; lia).
    apply (allChars_lastIs isDigit); [vm_compute; reflexivity|exact Dd|lia]. }
  rewrite Th, Tm, Td, !app_assoc_string.
  destruct (exec_found _ _ _ _ _
              (monthDay_match name dtext (tailLeft G clock) Nw Nl Dd Dl Tr))
    as [m [Em Gm]].
  unfold DateParser.dateFormats. cbn [List.map app firstOf].
  unfold DateParser.tryFormat at 1.
  cbn [DateParser.pattern DateParser.groupCount].
  rewrite (exec_none (Ascii.eqb ",") weekdayMonthDayRe 3);
    [|vm_compute; reflexivity|charFacts].
  cbn [bind].
  unfold DateParser.tryFormat at 1.
  cbn [DateParser.pattern DateParser.groupCount]. rewrite Em.
  unfold DateParser.formatDate. cbn [DateParser.hasWord].
  unfold DateParser.truthyGroup, capture, group. rewrite Gm. cbn [nth].
  rewrite (truthy_capture name Nl), (truthy_capture dtext) by lia.
  cbn [andb negb].
  rewrite (monthNameDate_table host now _ _ name dtext month d tv Nm Dp R).
  reflexivity.
Qed.

Lemma slashShape_dated (text mtext dtext : string) (mo d : Z)
    (G : string) (clock : option (Clock * string)) :
  cleanString text = mtext ++ "/" ++ dtext ++ tailText G clock ->
  includes "today" (cleanString text) = false ->
  includes "tomorrow" (cleanString text) = false ->
  1 <= mo <= 12 -> 1 <= d <= 31 ->
  In mtext (numerals mo) -> In dtext (numerals d) ->
  tailFits G clock = true -> tailLeft G clock = "" ->
  exists tv : Z,
    inferredInstant host now (mo - 1) d (hoursAt clock) (minutesAt clock) tv
    /\ DateParser.parseDateString host now (JsString text)
       = Normal (Some (isoString tv)).
Proof.
  intros E H0 H1 Hm Hd Hmt Ht F L.
  destruct (numeral_read mo mtext ltac:(lia) Hmt) as [Md [Ml Mp]].
  destruct (numeral_read d dtext Hd Ht) as [Dd [Dl Dp]].
  destruct (clock_dated host now (mo - 1) d G clock Hz Hc ltac:(lia) Hd F)
    as [tv [R I]].
  exists tv. split; [exact I|].
  assert (N : String.eqb text "" = false).
  { destruct mtext as [|x w]; [simpl in Ml; lia|].
    exact (cleaned_text text x _ E). }
  assert (E' : cleanString text = (mtext ++ "/" ++ dtext) ++ tailText G clock)
    by (rewrite E, !app_assoc_string; reflexivity).
  destruct (tail_read (mtext ++ "/" ++ dtext) G clock)
    as [Th [Tm [Td Tr]]]; [| | |exact F|].
  { charFacts. }
  { rewrite headIs_app by lia.
    apply (headIs_class isDigit); [vm_compute; reflexivity|exact Md]. }
  { rewrite !lastIs_app by (rewrite ?length_app; cbn [String.length]; lia).
    apply (allChars_lastIs isDigit); [vm_compute; reflexivity|exact Dd|lia]. }
  rewrite L, app_nil_r_string in Td.
  assert (Wd : forall p, implies isDigit (fun c => negb (p c)) = true ->
                         negb (p "/"%char) = true ->
                         without p (mtext ++ "/" ++ dtext) = true).
  { intros p Ip Sp. unfold without. rewrite !allChars_app.
    rewrite (allChars_weaken isDigit _ mtext Ip Md),
      (allChars_weaken isDigit _ dtext Ip Dd).
    cbn [allChars]. rewrite Sp. reflexivity. }
  rewrite lib_formats by assumption. rewrite E'.
  - cbv zeta. rewrite Th, Tm, Td.
    destruct (exec_found _ _ _ _ _ (slash_match mtext dtext Md Ml Dd Dl))
      as [m [Em Gm]].
    unfold DateParser.dateFormats. cbn [List.map app firstOf].
    unfold DateParser.tryFormat at 1.
    cbn [DateParser.pattern DateParser.groupCount].
    rewrite (exec_none (Ascii.eqb ",") weekdayMonthDayRe 3);
      [|vm_compute; reflexivity
       |apply Wd; [vm_compute; reflexivity|reflexivity]].
    cbn [bind].
    unfold DateParser.tryFormat at 1.
    cbn [DateParser.pattern DateParser.groupCount].
    rewrite (exec_none isSpace monthDayRe 2);
      [|vm_compute; reflexivity
       |apply Wd; [vm_compute; reflexivity|reflexivity]].
    cbn [bind].
    unfold DateParser.tryFormat at 1.
    cbn [DateParser.pattern DateParser.groupCount]. rewrite Em.
    unfold DateParser.formatDate.
    cbn [DateParser.hasWord DateParser.hasFourDigits].
    unfold DateParser.truthyGroup, capture, group. rewrite Gm. cbn [nth negb].
    rewrite Mp, Dp, expandYear_plain by (apply yearOfClock_plain; assumption).
    rewrite R. reflexivity.
Qed.

End Shapes.

Local Open Scope string_scope.

(** ** The shapes with a year *)

Local Open Scope string_scope.
Local Open Scope Z_scope.

Section Written.

Variable host : Host.
Variable now : Z.
Hypothesis Hz : zoneBounded host.

Lemma digits_without (p : ascii -> bool) (sep : ascii) (a b c : string) :
  implies isDigit (fun x => negb (p x)) = true -> negb (p sep) = true ->
  allChars isDigit a = true -> allChars isDigit b = true ->
  allChars isDigit c = true ->
  without p (a ++ String sep b ++ String sep c) = true.
Proof.
  intros I S Ha Hb Hc'. unfold without. rewrite !allChars_app.
  cbn [allChars].
  rewrite (allChars_weaken isDigit _ a I Ha), (allChars_weaken isDigit _ b I Hb),
    (allChars_weaken isDigit _ c I Hc'), S.
  reflexivity.
Qed.

Lemma slashYearShape_dated (text m d y : string) (G : string)
    (clock : option (Clock * string)) :
  cleanString text = m ++ "/" ++ d ++ "/" ++ y ++ tailText G clock ->
  includes "today" (cleanString text) = false ->
  includes "tomorrow" (cleanString text) = false ->
  allChars isDigit m = true -> allChars isDigit d = true ->
  allChars isDigit y = true ->
  (1 <= String.length m <= 2)%nat -> (1 <= String.length d <= 2)%nat ->
  (2 <= String.length y <= 4)%nat ->
  tailFits G clock = true -> tailLeft G clock = "" ->
  exists tv : Z,
    newDate (LocalTZA host) (expandYear (parseInt y)) (parseInt m - 1)
      (parseInt d) (hoursAt clock) (minutesAt clock) 0 = Some tv
    /\ DateParser.parseDateString host now (JsString text)
       = Normal (Some (isoString tv)).
Proof.
  intros E H0 H1 Hm Hd Hy Lm Ld Ly F L.
  pose proof (parseInt_range m 2 Hm ltac:(lia)) as Rm.
  pose proof (parseInt_range d 2 Hd ltac:(lia)) as Rd.
  pose proof (parseInt_range y 4 Hy ltac:(lia)) as Ry.
  change (10 ^ Z.of_nat 2)%Z with 100%Z in *.
  change (10 ^ Z.of_nat 4)%Z with 10000%Z in *.
  pose proof (expandYear_range (parseInt y) ltac:(lia)) as Re.
  destruct (clock_bounds G clock F) as [Bh Bm].
  destruct (written_date host (expandYear (parseInt y)) (parseInt m - 1)
              (parseInt d) (hoursAt clock) (minutesAt clock) Hz)
    as [tv Ev]; try lia.
  exists tv. split; [exact Ev|].
  assert (N : String.eqb text "" = false).
  { destruct m as [|x w]; [simpl in Lm; lia|].
    exact (cleaned_text text x _ E). }
  assert (E' : cleanString text
               = (m ++ "/" ++ d ++ "/" ++ y) ++ tailText G clock)
    by (rewrite E, !app_assoc_string; reflexivity).
  assert (W : forall p, implies isDigit (fun x => negb (p x)) = true ->
                        negb (p "/"%char) = true ->
                        without p (m ++ "/" ++ d ++ "/" ++ y) = true).
  { intros p I S. apply (digits_without p "/" m d y); assumption. }
  destruct (tail_read (m ++ "/" ++ d ++ "/" ++ y) G clock)
    as [Th [Tm [Td Tr]]]; [| | |exact F|].
  { apply W; [vm_compute; reflexivity|reflexivity]. }
  { rewrite headIs_app by lia.
    apply (headIs_class isDigit); [vm_compute; reflexivity|exact Hm]. }
  { rewrite !lastIs_app by (rewrite ?length_app; cbn [String.length]; lia).
    apply (allChars_lastIs isDigit); [vm_compute; reflexivity|exact Hy|lia]. }
  rewrite L, app_nil_r_string in Td.
  rewrite lib_formats by assumption. rewrite E'.
  cbv zeta. rewrite Th, Tm, Td.
  unfold DateParser.dateFormats. cbn [List.map app firstOf].
  unfold DateParser.tryFormat at 1.
  cbn [DateParser.pattern DateParser.groupCount].
  rewrite (exec_none (Ascii.eqb ",") weekdayMonthDayRe 3);
    [|vm_compute; reflexivity|apply W; [vm_compute; reflexivity|reflexivity]].
  cbn [bind].
  unfold DateParser.tryFormat at 1.
  cbn [DateParser.pattern DateParser.groupCount].
  rewrite (exec_none isSpace monthDayRe 2);
    [|vm_compute; reflexivity|apply W; [vm_compute; reflexivity|reflexivity]].
  cbn [bind].
  unfold DateParser.tryFormat at 1.
  cbn [DateParser.pattern DateParser.groupCount].
  rewrite (exec_here _ _ _ _ (matchHere_slash m d y Hm Hd Hy Lm Ld Ly)).
  rewrite slash_year_date
    by (unfold DateParser.truthyGroup; cbn [group nth groups];
        apply truthy_capture; lia).
  unfold capture. cbn [group nth groups]. rewrite Ev. reflexivity.
Qed.

Lemma isoShape_dated (text y m d : string) (G : string)
    (clock : option (Clock * string)) :
  cleanString text = y ++ "-" ++ m ++ "-" ++ d ++ tailText G clock ->
  includes "today" (cleanString text) = false ->
  includes "tomorrow" (cleanString text) = false ->
  allChars isDigit y = true -> allChars isDigit m = true ->
  allChars isDigit d = true ->
  String.length y = 4%nat ->
  (1 <= String.length m <= 2)%nat -> (1 <= String.length d <= 2)%nat ->
  tailFits G clock = true -> tailLeft G clock = "" ->
  exists tv : Z,
    newDate (LocalTZA host) (parseInt y) (parseInt m - 1) (parseInt d)
      (hoursAt clock) (minutesAt clock) 0 = Some tv
    /\ DateParser.parseDateString host now (JsString text)
       = Normal (Some (isoString tv)).
Proof.
  intros E H0 H1 Hy Hm Hd Ly Lm Ld F L.
  pose proof (parseInt_range m 2 Hm ltac:(lia)) as Rm.
  pose proof (parseInt_range d 2 Hd ltac:(lia)) as Rd.
  pose proof (parseInt_range y 4 Hy ltac:(lia)) as Ry.
  change (10 ^ Z.of_nat 2)%Z with 100%Z in *.
  change (10 ^ Z.of_nat 4)%Z with 10000%Z in *.
  destruct (clock_bounds G clock F) as [Bh Bm].
  destruct (written_date host (parseInt y) (parseInt m - 1) (parseInt d)
              (hoursAt clock) (minutesAt clock) Hz) as [tv Ev]; try lia.
  exists tv. split; [exact Ev|].
  assert (N : String.eqb text "" = false).
  { destruct y as [|x w]; [simpl in Ly; lia|].
    exact (cleaned_text text x _ E). }
  assert (E' : cleanString text
               = (y ++ "-" ++ m ++ "-" ++ d) ++ tailText G clock)
    by (rewrite E, !app_assoc_string; reflexivity).
  assert (W : forall p, implies isDigit (fun x => negb (p x)) = true ->
                        negb (p "-"%char) = true ->
                        without p (y ++ "-" ++ m ++ "-" ++ d) = true).
  { intros p I S. apply (digits_without p "-" y m d); assumption. }
  destruct (tail_read (y ++ "-" ++ m ++ "-" ++ d) G clock)
    as [Th [Tm [Td Tr]]]; [| | |exact F|].
  { apply W; [vm_compute; reflexivity|reflexivity]. }
  { rewrite headIs_app by lia.
    apply (headIs_class isDigit); [vm_compute; reflexivity|exact Hy]. }
  { rewrite !lastIs_app by (rewrite ?length_app; cbn [String.length]; lia).
    apply (allChars_lastIs isDigit); [vm_compute; reflexivity|exact Hd|lia]. }
  rewrite L, app_nil_r_string in Td.
  rewrite lib_formats by assumption. rewrite E'.
  cbv zeta. rewrite Th, Tm, Td.
  unfold DateParser.dateFormats. cbn [List.map app firstOf].
  unfold DateParser.tryFormat at 1.
  cbn [DateParser.pattern DateParser.groupCount].
  rewrite (exec_none (Ascii.eqb ",") weekdayMonthDayRe 3);
    [|vm_compute; reflexivity|apply W; [vm_compute; reflexivity|reflexivity]].
  cbn [bind].
  unfold DateParser.tryFormat at 1.
  cbn [DateParser.pattern DateParser.groupCount].
  rewrite (exec_none isSpace monthDayRe 2);
    [|vm_compute; reflexivity|apply W; [vm_compute; reflexivity|reflexivity]].
  cbn [bind].
  unfold DateParser.tryFormat at 1.
  cbn [DateParser.pattern DateParser.groupCount].
  rewrite dashes_no_slash
    by (apply W; [vm_compute; reflexivity|reflexivity]).
  cbn [bind]. unfold DateParser.tryFormat at 1.
  cbn [DateParser.pattern DateParser.groupCount].
  rewrite (exec_here _ _ _ _ (matchHere_iso y m d Hy Hm Hd Ly Lm Ld)).
  rewrite iso_date.
  unfold capture. cbn [group nth groups]. rewrite Ev. reflexivity.
Qed.

End Written.

(** ** The first instant from the clock on *)

Local Open Scope Z_scope.

Lemma reads_instant (host : Host) (offset t year month d h mi : Z) :
  (forall u b, LocalTZA host u b = offset) ->
  readsLocally host t year month d h mi ->
  t + offset = MakeDate (MakeDay year month d) (MakeTime h mi 0 0).
Proof.
  intros Ho [Ry [Rm [Rd [Rh [Rmi [Rs Rms]]]]]].
  unfold LocalTime in *. rewrite Ho in *.
  rewrite (time_of_fields (t + offset)), Ry, Rm, Rd, Rh, Rmi, Rs, Rms.
  reflexivity.
Qed.

Lemma instant_reads (host : Host) (offset t year month d h mi : Z) :
  (forall u b, LocalTZA host u b = offset) ->
  0 <= month <= 11 -> 1 <= d <= commonDays month ->
  0 <= h <= 23 -> 0 <= mi <= 59 ->
  t + offset = MakeDate (MakeDay year month d) (MakeTime h mi 0 0) ->
  readsLocally host t year month d h mi.
Proof.
  intros Ho Hm Hd Hh Hmi E. unfold readsLocally, LocalTime. rewrite Ho, E.
  assert (T : 0 <= MakeTime h mi 0 0 < msPerDay)
    by (unfold MakeTime, msPerDay, msPerHour, msPerMinute, msPerSecond; lia).
  destruct (calendar_of_MakeDate year month d _ Hm Hd T) as [A [B [C _]]].
  destruct (clock_of_MakeTime (MakeDay year month d) h mi Hh Hmi)
    as [P [Q [R S]]].
  repeat split; assumption.
Qed.

Lemma TimeClip_value (x t : Z) : TimeClip x = Some t -> t = x.
Proof.
  unfold TimeClip. destruct (_ <=? _); [|discriminate].
  intro H. injection H as <-. reflexivity.
Qed.

Lemma UTC_fixed (host : Host) (offset x : Z) :
  (forall u b, LocalTZA host u b = offset) ->
  UTC (LocalTZA host) x = x - offset.
Proof. intro Ho. unfold UTC. rewrite Ho. reflexivity. Qed.

Lemma setFullYear_fixed (host : Host) (offset year tv : Z) :
  (forall u b, LocalTZA host u b = offset) ->
  setFullYear (LocalTZA host) year tv
  = TimeClip (MakeDate (MakeDay year (MonthFromTime (tv + offset))
                                     (DateFromTime (tv + offset)))
                       (TimeWithinDay (tv + offset)) - offset).
Proof.
  intro Ho. unfold setFullYear, LocalTime. rewrite (UTC_fixed host offset _ Ho).
  rewrite Ho. reflexivity.
Qed.

Lemma inferred_is_first (host : Host) (now offset month d h mi tv : Z) :
  zoneBounded host -> clockInRange now ->
  (forall u b, LocalTZA host u b = offset) ->
  0 <= month <= 11 -> 1 <= d <= commonDays month ->
  0 <= h <= 23 -> 0 <= mi <= 59 ->
  inferredInstant host now month d h mi tv ->
  now <= tv
  /\ (exists year : Z,
        (year = getFullYear (LocalTZA host) now
         \/ year = getFullYear (LocalTZA host) now + 1)
        /\ readsLocally host tv year month d h mi)
  /\ (forall t year : Z,
        now <= t -> readsLocally host t year month d h mi -> tv <= t).
Proof.
  intros Hz Hc Ho Hm Hd Hh Hmi [t0 [N [A B]]].
  pose proof (yearOfClock_plain host now Hz Hc) as Y100.
  assert (Yn : YearFromTime (now + offset) = getFullYear (LocalTZA host) now).
  { unfold getFullYear, LocalTime. rewrite Ho. reflexivity. }
  remember (getFullYear (LocalTZA host) now) as Y eqn:EY. clear EY Hz Hc.
  assert (T : 0 <= MakeTime h mi 0 0 < msPerDay)
    by (unfold MakeTime, msPerDay, msPerHour, msPerMinute, msPerSecond; lia).
  rewrite newDate_plain_year in N by lia.
  apply TimeClip_value in N. rewrite (UTC_fixed host offset _ Ho) in N.
  destruct (calendar_of_MakeDate Y month d _ Hm Hd T) as [Cy [Cm [Cd Ct]]].
  destruct (calendar_of_MakeDate (Y + 1) month d _ Hm Hd T) as [Cy1 _].
  pose proof (MakeDay_year_lt Y (Y + 1) month d Hm ltac:(lia)) as Next.
  assert (Reads : forall t year,
             now <= t -> readsLocally host t year month d h mi ->
             t + offset = MakeDate (MakeDay year month d) (MakeTime h mi 0 0)
             /\ Y <= year).
  { intros t year Hn R.
    split; [exact (reads_instant host offset t year month d h mi Ho R)|].
    destruct R as [Ry _]. unfold LocalTime in Ry. rewrite Ho in Ry.
    pose proof (YearFromTime_mono (now + offset) (t + offset) ltac:(lia)) as Mo.
    rewrite Yn, Ry in Mo. exact Mo. }
  assert (Later : forall year, Y + 1 < year ->
             MakeDay (Y + 1) month d + 364 <= MakeDay year month d).
  { intros year Hy. apply MakeDay_year_lt; [exact Hm|exact Hy]. }
  destruct (Z_le_gt_dec now t0) as [Le|Gt].
  - rewrite (A Le). split; [exact Le|]. split.
    + exists Y. split; [left; reflexivity|].
      apply (instant_reads host offset); try assumption. lia.
    + intros t year Hn R. destruct (Reads t year Hn R) as [E Hy].
      destruct (Z.eq_dec year Y) as [->|NY]; [lia|].
      destruct (Z.eq_dec year (Y + 1)) as [->|N1].
      * revert E N Next T. unfold MakeDate, msPerDay.
        generalize (MakeDay Y month d) (MakeDay (Y + 1) month d)
          (MakeTime h mi 0 0). intros. lia.
      * specialize (Later year ltac:(lia)).
        revert E N Next Later T. unfold MakeDate, msPerDay.
        generalize (MakeDay Y month d) (MakeDay (Y + 1) month d)
          (MakeDay year month d) (MakeTime h mi 0 0). intros. lia.
  - specialize (B ltac:(lia)).
    rewrite (setFullYear_fixed host offset _ _ Ho) in B.
    apply TimeClip_value in B.
    replace (t0 + offset)
      with (MakeDate (MakeDay Y month d) (MakeTime h mi 0 0)) in B by lia.
    rewrite Cm, Cd, Ct in B.
    assert (Late : now + offset
                   < MakeDate (MakeDay (Y + 1) month d) (MakeTime h mi 0 0)).
    { pose proof (YearFromTime_mono
                    (MakeDate (MakeDay (Y + 1) month d) (MakeTime h mi 0 0))
                    (now + offset)) as Mo.
      rewrite Cy1, Yn in Mo. lia. }
    split; [lia|]. split.
    + exists (Y + 1). split; [right; reflexivity|].
      apply (instant_reads host offset); try assumption. lia.
    + intros t year Hn R. destruct (Reads t year Hn R) as [E Hy].
      destruct (Z.eq_dec year Y) as [->|NY]; [lia|].
      destruct (Z.eq_dec year (Y + 1)) as [->|N1]; [lia|].
      specialize (Later year ltac:(lia)).
      revert E B Later T. unfold MakeDate, msPerDay.
      generalize (MakeDay (Y + 1) month d)
        (MakeDay year month d) (MakeTime h mi 0 0). intros. lia.
Qed.

Local Open Scope string_scope.

Example weekday_with_clock_time :
  DateParser.parseDateString utc june2025 (JsString "Sunday, Dec 25 at 11:59 PM")
  = Normal (Some "2025-12-25T23:59:00.000Z").
Proof. vm_compute. reflexivity. Qed.

Example month_day_with_clock_time :
  DateParser.parseDateString utc june2025 (JsString "Due Jan 1 @ 9:00 AM")
  = Normal (Some "2026-01-01T09:00:00.000Z").
Proof. vm_compute. reflexivity. Qed.

Example slash_with_clock_time :
  DateParser.parseDateString centralStandard june2025 (JsString "3/4 12:30 am")
  = Normal (Some "2026-03-04T06:30:00.000Z").
Proof. vm_compute. reflexivity. Qed.

Example iso_with_clock_time :
  DateParser.parseDateString utc june2025 (JsString "2025-03-04 5:00 pm")
  = Normal (Some "2025-03-04T17:00:00.000Z").
Proof. vm_compute. reflexivity. Qed.



End NormaliserFacts.

(** * More properties of the stored document *)

Module StoreFacts.
Import Background BackgroundFacts Worker.

Local Open Scope string_scope.
Local Open Scope Z_scope.

(** ** What a reconciliation stores *)

Lemma storage_eq (a b : Storage) :
  items a = items b -> settings a = settings b -> a = b.
Proof. destruct a, b; simpl; intros -> ->; reflexivity. Qed.

Lemma keys_addExisting (l : list Item) (m : ItemMap) (i : string) :
  In i (List.map fst (fold_left addExisting l m))
  <-> In i (List.map fst m) \/ In i (List.map id l).
Proof.
  revert m. induction l as [|x l IH]; intro m; simpl; [tauto|].
  rewrite IH. unfold addExisting. rewrite map_set_keys_in.
  split; intros [H|H]; auto.
  - destruct H as [->|H]; auto.
  - destruct H as [<-|H]; auto.
Qed.

Lemma keys_addNew (l : list Item) (m : ItemMap) (i : string) :
  In i (List.map fst (fold_left addNew l m))
  <-> In i (List.map fst m) \/ In i (List.map id l).
Proof.
  revert m. induction l as [|x l IH]; intro m; simpl; [tauto|].
  rewrite IH. unfold addNew. rewrite map_set_keys_in.
  split; intros [H|H]; auto.
  - destruct H as [->|H]; auto.
  - destruct H as [<-|H]; auto.
Qed.

Lemma reconcile_ids (existing incoming : list Item) :
  Permutation (List.map id (reconcile existing incoming))
              (List.map fst (mergeItems existing incoming)).
Proof.
  unfold reconcile.
  destruct (mergeItems_invariant existing incoming) as [_ Hk].
  rewrite <- (map_values_ids _ Hk).
  apply Permutation_map, Permutation_sym, sortByDueDate_perm.
Qed.

(** X1.  Whatever the two collections hold, duplicates included, the stored
    result names every id once and is in ascending order of due date; its
    ids are the ids of the store and of the batch, none dropped and none
    invented. *)
Theorem reconcile_unique_sorted_complete :
  forall existing incoming : list Item,
    NoDup (List.map id (reconcile existing incoming))
    /\ Sorted byDueDate (reconcile existing incoming)
    /\ (forall i : string,
          In i (List.map id (reconcile existing incoming))
          <-> In i (List.map id existing) \/ In i (List.map id incoming))
    /\ (List.length (reconcile existing incoming)
        <= List.length existing + List.length incoming)%nat.
Proof.
  intros existing incoming.
  assert (Ids : forall i : string,
             In i (List.map id (reconcile existing incoming))
             <-> In i (List.map id existing) \/ In i (List.map id incoming)).
  { intro i. split.
    - intro H. apply (Permutation_in _ (reconcile_ids existing incoming)) in H.
      unfold mergeItems in H. apply keys_addNew in H.
      rewrite keys_addExisting in H. simpl in H. tauto.
    - intro H.
      apply (Permutation_in _ (Permutation_sym (reconcile_ids existing incoming))).
      unfold mergeItems. apply keys_addNew. rewrite keys_addExisting. simpl. tauto. }
  split; [apply wellFormed_reconcile|].
  split; [apply sortByDueDate_sorted|].
  split; [exact Ids|].
  rewrite <- (length_map id (reconcile existing incoming)).
  rewrite <- (length_map id existing), <- (length_map id incoming), <- length_app.
  apply NoDup_incl_length; [apply wellFormed_reconcile|].
  intros i Hi. apply in_or_app. apply Ids. exact Hi.
Qed.


(** ** Scraping the same page again *)

Lemma preserveFlags_flagged (o : option Item) (n : Item) :
  preserveFlags o n = applyFlags (flagged notificationSent o) (flagged done o) n.
Proof.
  unfold preserveFlags, applyFlags, flagged. destruct o as [e|]; [|reflexivity].
  destruct (notificationSent e) as [[|]|], (done e) as [[|]|]; reflexivity.
Qed.

Lemma applyFlags_own (b d : bool) (n : Item) :
  applyFlags (b || truthy (notificationSent n)) (d || truthy (done n)) n
  = applyFlags b d n.
Proof.
  unfold applyFlags. destruct n as [i t du c l s p [[|]|] [[|]|]], b, d; reflexivity.
Qed.

Lemma flagged_applyFlags (b d : bool) (n : Item) :
  flagged notificationSent (Some (applyFlags b d n)) = b || truthy (notificationSent n)
  /\ flagged done (Some (applyFlags b d n)) = d || truthy (done n).
Proof.
  unfold applyFlags, flagged. destruct b, d; simpl; split; reflexivity.
Qed.

Lemma flagged_merged (i : string) (l : list Item) (acc : option Item) :
  flagged notificationSent (fold_left (mergedWithId i) l acc)
  = flagged notificationSent acc
    || existsb (fun x => hasId i x && truthy (notificationSent x)) l
  /\ flagged done (fold_left (mergedWithId i) l acc)
     = flagged done acc || existsb (fun x => hasId i x && truthy (done x)) l.
Proof.
  revert acc. induction l as [|x l IH]; intro acc; cbn [fold_left existsb].
  - rewrite !orb_false_r. split; reflexivity.
  - destruct (IH (mergedWithId i acc x)) as [A B]. rewrite A, B.
    unfold mergedWithId. destruct (hasId i x); cbn [andb orb];
      [|split; reflexivity].
    rewrite preserveFlags_flagged.
    destruct (flagged_applyFlags (flagged notificationSent acc) (flagged done acc) x)
      as [C D].
    rewrite C, D, !orb_assoc. split; reflexivity.
Qed.

(** Merging the records of a batch under an id a second time changes
    nothing. *)
Lemma merged_twice (i : string) (l : list Item) (acc : option Item) :
  fold_left (mergedWithId i) l (fold_left (mergedWithId i) l acc)
  = fold_left (mergedWithId i) l acc.
Proof.
  induction l as [|n l IH] using rev_ind; [reflexivity|].
  rewrite !fold_left_app. cbn [fold_left].
  set (a := fold_left (mergedWithId i) l acc) in *.
  unfold mergedWithId at 1 3 4. destruct (hasId i n) eqn:E; [|exact IH].
  f_equal. rewrite (preserveFlags_flagged a n).
  set (b := flagged notificationSent a). set (d := flagged done a).
  rewrite preserveFlags_flagged.
  destruct (flagged_merged i l (Some (applyFlags b d n))) as [C D].
  rewrite C, D.
  destruct (flagged_applyFlags b d n) as [F G]. rewrite F, G.
  destruct (flagged_merged i l acc) as [A B]. fold a in A, B. fold b in A. fold d in B.
  set (eb := existsb (fun x => hasId i x && truthy (notificationSent x)) l) in *.
  set (ed := existsb (fun x => hasId i x && truthy (done x)) l) in *.
  replace (b || truthy (notificationSent n) || eb)
    with (b || truthy (notificationSent n))
    by (rewrite A; destruct (flagged notificationSent acc), eb,
          (truthy (notificationSent n)); reflexivity).
  replace (d || truthy (done n) || ed)
    with (d || truthy (done n))
    by (rewrite B; destruct (flagged done acc), ed, (truthy (done n));
        reflexivity).
  apply applyFlags_own.
Qed.

Lemma map_set_keys_present (k : string) (v : Item) (m : ItemMap) :
  In k (List.map fst m) -> List.map fst (map_set k v m) = List.map fst m.
Proof.
  induction m as [|[k0 v0] m IH]; simpl; intro H; [tauto|].
  destruct (String.eqb k0 k) eqn:E; simpl.
  - apply String.eqb_eq in E. subst k0. reflexivity.
  - f_equal. apply IH. destruct H as [H|H]; [|exact H].
    subst k0. rewrite String.eqb_refl in E. discriminate.
Qed.

Lemma addNew_keys_present (l : list Item) (m : ItemMap) :
  (forall x, In x l -> In (id x) (List.map fst m)) ->
  List.map fst (fold_left addNew l m) = List.map fst m.
Proof.
  revert m. induction l as [|x l IH]; intros m H; simpl; [reflexivity|].
  assert (K : List.map fst (addNew m x) = List.map fst m).
  { unfold addNew. apply map_set_keys_present. apply H. left. reflexivity. }
  rewrite IH; [exact K|].
  intros y Hy. rewrite K. apply H. right. exact Hy.
Qed.

(** Two maps with the same distinct keys, in the same order, and the
    same entry under every key are one map. *)
Lemma map_eq_by_get (m m' : ItemMap) :
  NoDup (List.map fst m) -> List.map fst m = List.map fst m' ->
  (forall k, map_get k m = map_get k m') -> m = m'.
Proof.
  revert m'. induction m as [|[k v] m IH]; intros [|[k' v'] m'] Hn Hk Hg;
    simpl in *; try discriminate; [reflexivity|].
  injection Hk as -> Hk. inversion Hn as [|? ? Hnotin Hn']; subst.
  pose proof (Hg k') as G. rewrite String.eqb_refl in G. injection G as ->.
  f_equal. apply IH; [exact Hn'|exact Hk|].
  intro k. specialize (Hg k). destruct (String.eqb k' k) eqn:E; [|exact Hg].
  apply String.eqb_eq in E. subst k.
  destruct (map_get k' m) eqn:G1.
  - exfalso. apply Hnotin. eapply map_get_Some_in. exact G1.
  - destruct (map_get k' m') eqn:G2; [|reflexivity].
    exfalso. apply Hnotin. rewrite Hk. eapply map_get_Some_in. exact G2.
Qed.

Lemma keyed_entries (l : list Item) : keyed (List.map entry l).
Proof. unfold keyed. induction l; simpl; constructor; auto. Qed.

Lemma keys_entries (l : list Item) : List.map fst (List.map entry l) = List.map id l.
Proof. rewrite map_map. reflexivity. Qed.

(** Sorting does not change the record found under an id. *)
Lemma map_get_sorted_values (m : ItemMap) (k : string) :
  NoDup (List.map fst m) -> keyed m ->
  map_get k (List.map entry (sortByDueDate (map_values m))) = map_get k m.
Proof.
  intros Hn Hk.
  set (R := sortByDueDate (map_values m)).
  assert (P : Permutation (map_values m) R) by apply sortByDueDate_perm.
  assert (WR : wellFormed R).
  { unfold wellFormed. eapply Permutation_NoDup.
    - apply Permutation_map. exact P.
    - rewrite map_values_ids by exact Hk. exact Hn. }
  assert (V1 := withId_values k m Hn Hk).
  assert (V2 := withId_values k (List.map entry R)).
  rewrite keys_entries, map_values_entries in V2.
  specialize (V2 WR (keyed_entries R)).
  assert (Q : Permutation (withId k (map_values m)) (withId k R)).
  { unfold withId. clear -P. induction P; simpl.
    - constructor.
    - destruct (hasId k x); [constructor|]; assumption.
    - destruct (hasId k x), (hasId k y); try apply Permutation_refl.
      apply perm_swap.
    - eapply perm_trans; eassumption. }
  rewrite V1, V2 in Q.
  destruct (map_get k m) as [a|], (map_get k (List.map entry R)) as [b|].
  - apply Permutation_length_1 in Q. congruence.
  - apply Permutation_length in Q. discriminate.
  - apply Permutation_length in Q. discriminate.
  - reflexivity.
Qed.

(** X2.  Handling the same scrape result a second time stores what the first
    time stored: the same records, flags included, in the same order. *)
Theorem reconcile_again :
  forall existing incoming : list Item,
    reconcile (reconcile existing incoming) incoming = reconcile existing incoming.
Proof.
  intros existing incoming.
  set (R := reconcile existing incoming).
  assert (WR : wellFormed R) by apply wellFormed_reconcile.
  destruct (mergeItems_invariant existing incoming) as [Hn Hk].
  assert (M : mergeItems R incoming = List.map entry R).
  { unfold mergeItems.
    rewrite (addExisting_wellFormed R []) by exact WR. simpl.
    apply map_eq_by_get.
    - rewrite addNew_keys_present; rewrite keys_entries; [exact WR|].
      intros x Hx.
      apply (Permutation_in _ (Permutation_sym (reconcile_ids existing incoming))).
      unfold mergeItems. apply keys_addNew. right. apply in_map. exact Hx.
    - apply addNew_keys_present. rewrite keys_entries. intros x Hx.
      apply (Permutation_in _ (Permutation_sym (reconcile_ids existing incoming))).
      unfold mergeItems. apply keys_addNew. right. apply in_map. exact Hx.
    - intro k. rewrite map_get_addNew.
      unfold R, reconcile. rewrite (map_get_sorted_values _ k Hn Hk).
      unfold mergeItems. rewrite map_get_addNew. apply merged_twice. }
  unfold reconcile at 1. rewrite M, map_values_entries.
  apply sortByDueDate_sorted_id. apply sortByDueDate_sorted.
Qed.

(** ** The first scrape and the empty scrape *)

Lemma addNew_fresh (l : list Item) (m : ItemMap) :
  NoDup (List.map fst m ++ List.map id l) ->
  fold_left addNew l m = (m ++ List.map entry l)%list.
Proof.
  revert m. induction l as [|x l IH]; intros m H; simpl.
  - rewrite app_nil_r. reflexivity.
  - assert (Hx : ~ In (id x) (List.map fst m)).
    { simpl in H. apply NoDup_remove_2 in H. intro Hin. apply H.
      apply in_or_app. left. exact Hin. }
    unfold addNew at 2.
    destruct (map_get (id x) m) eqn:G;
      [exfalso; apply Hx; eapply map_get_Some_in; exact G|].
    simpl. rewrite map_set_fresh by exact Hx. rewrite IH.
    + rewrite <- app_assoc. reflexivity.
    + rewrite map_app, <- app_assoc. exact H.
Qed.

(** X3.  Into an empty store, as after clear-all, a batch with distinct ids is
    stored as scraped, in order of due date, whatever the store held
    before; and a scrape that found nothing leaves the records of a store
    with distinct ids as they are, in order of due date. *)
Theorem reconcile_empty_sides :
  (forall (incoming : list Item) (data : Storage),
      wellFormed incoming ->
      handleScrapeResult incoming (clearAllData data)
      = {| items := sortByDueDate incoming; settings := DEFAULT_SETTINGS |})
  /\ (forall existing : list Item,
        wellFormed existing ->
        reconcile existing [] = sortByDueDate existing).
Proof.
  split.
  - intros incoming data H. unfold handleScrapeResult, clearAllData, set_items.
    simpl. f_equal. unfold reconcile, mergeItems. simpl.
    rewrite (addNew_fresh incoming []) by exact H. simpl.
    rewrite map_values_entries. reflexivity.
  - intros existing H. unfold reconcile, mergeItems. simpl.
    rewrite (addExisting_wellFormed existing []) by exact H. simpl.
    rewrite map_values_entries. reflexivity.
Qed.

Lemma reconcile_empty_sides_witness :
  wellFormed [storedHW1; otherHW]
  /\ reconcile [storedHW1; otherHW] [] = [otherHW; storedHW1].
Proof.
  split; [exact wellFormed_example|].
  exact (proj2 reconcile_empty_sides [storedHW1; otherHW] wellFormed_example).
Defined.

(** ** Toggling again *)

Lemma toggle_items (i : string) (b : bool) (data : Storage) :
  items (toggleItemDone i b data)
  = List.map (fun it => if String.eqb (id it) i then set_done (Some b) it else it)
             (items data).
Proof. reflexivity. Qed.

Lemma toggle_twice (i : string) (b c : bool) (data : Storage) :
  toggleItemDone i c (toggleItemDone i b data) = toggleItemDone i c data.
Proof.
  apply storage_eq; [|reflexivity]. rewrite !toggle_items, map_map.
  apply map_ext. intro x.
  destruct (String.eqb (id x) i) eqn:E; simpl; rewrite E; reflexivity.
Qed.

(** X4.  Toggling an id that the store does not hold changes nothing; of two
    toggles of one id the second decides; toggles of different ids can be
    swapped. *)
Theorem toggleItemDone_composes :
  forall (data : Storage) (i j : string) (b c : bool),
    (~ In i (List.map id (items data)) -> toggleItemDone i b data = data)
    /\ toggleItemDone i c (toggleItemDone i b data) = toggleItemDone i c data
    /\ (i <> j ->
        toggleItemDone i b (toggleItemDone j c data)
        = toggleItemDone j c (toggleItemDone i b data)).
Proof.
  intros data i j b c. split; [|split].
  - intro H. apply storage_eq; [|reflexivity]. rewrite toggle_items.
    apply map_unchanged. intros x Hx.
    destruct (String.eqb (id x) i) eqn:E; [|reflexivity].
    exfalso. apply H. apply String.eqb_eq in E. rewrite <- E. apply in_map. exact Hx.
  - apply storage_eq; [|reflexivity]. rewrite !toggle_items, map_map.
    apply map_ext. intro x.
    destruct (String.eqb (id x) i) eqn:E; simpl; rewrite E; reflexivity.
  - intro N. apply storage_eq; [|reflexivity]. rewrite !toggle_items, !map_map.
    apply map_ext. intro x.
    destruct (String.eqb (id x) i) eqn:E, (String.eqb (id x) j) eqn:F; simpl;
      rewrite ?E, ?F; try reflexivity.
    apply String.eqb_eq in E, F. congruence.
Qed.

Lemma toggleItemDone_composes_witness :
  ~ In "zz"%string (List.map id (items notifiedStore))
  /\ toggleItemDone "zz" true notifiedStore = notifiedStore.
Proof.
  assert (H : ~ In "zz"%string (List.map id (items notifiedStore))).
  { simpl. intros [E|[E|[]]]; discriminate E. }
  split; [exact H|].
  exact (proj1 (toggleItemDone_composes notifiedStore "zz" "zz" true true) H).
Defined.

(** ** What a tick leaves alone *)

(** X5.  A tick stores the settings as they were and every record with every
    field but notificationSent as it was, the done flag included; the
    flag is only ever set, and only on a record that the tick selected and
    whose notification was created.  No two notifications of a tick carry
    the same id.  With notifications disabled the tick stores nothing and
    creates no notification. *)
Theorem tick_changes_flags_only :
  forall (create : Notification -> bool) (now : Z) (data : Storage),
    wellFormed (items data) ->
    let result := checkAndSendNotifications create now data in
    settings (fst result) = settings data
    /\ Forall2
         (fun old new : Item =>
            id new = id old /\ title new = title old
            /\ dueDate new = dueDate old /\ course new = course old
            /\ link new = link old /\ source new = source old
            /\ pastDue new = pastDue old /\ done new = done old
            /\ (new = old
                \/ (notificationSent new = Some true
                    /\ In old (itemsToNotify now data)
                    /\ create (composeNotification now old) = true)))
         (items data) (items (fst result))
    /\ NoDup (notifiedIds (snd result))
    /\ (notificationsEnabled (settings data) = false -> result = (data, [])).
Proof.
  intros create now data H result. unfold result.
  destruct (notificationsEnabled (settings data)) eqn:En.
  - destruct (checkAndSendNotifications_spec create now data H En) as [Hi [Hs Hl]].
    split; [exact Hs|]. split; [|split; [|discriminate]];
      [|rewrite Hl; unfold notifiedIds; rewrite map_map; cbn [fst notificationId];
        apply (wellFormed_filter _ _ H)].
    rewrite Hi. clear Hi Hs H.
    assert (G : forall x, In x (items data) -> In x (items data)) by auto.
    revert G. generalize (items data) at 1 3 4 as l.
    induction l as [|x l IH]; intro G; simpl; constructor.
    + unfold afterTick.
      destruct (dueForNotification now _ x) eqn:S; simpl;
        [destruct (create (composeNotification now x)) eqn:C|]; simpl;
        repeat split; try reflexivity; try (left; reflexivity).
      right. repeat split; try reflexivity.
      unfold itemsToNotify. apply filter_In. split; [|exact S].
      apply G. left. reflexivity.
    + apply IH. intros y Hy. apply G. right. exact Hy.
  - rewrite checkAndSendNotifications_disabled by exact En. simpl.
    split; [reflexivity|]. split; [|split; [constructor|reflexivity]].
    clear. induction (items data); constructor; auto.
    repeat split; try reflexivity. left. reflexivity.
Qed.

Lemma tick_changes_flags_only_witness :
  wellFormed (items twoDue)
  /\ settings (fst (checkAndSendNotifications failsForA 0 twoDue)) = settings twoDue.
Proof.
  split; [exact wellFormed_twoDue|].
  exact (proj1 (tick_changes_flags_only failsForA 0 twoDue wellFormed_twoDue)).
Defined.

(** ** A second tick *)

Lemma tick_calls (create : Notification -> bool) (now : Z) (data : Storage) :
  snd (checkAndSendNotifications create now data)
  = if notificationsEnabled (settings data)
    then List.map (fun it => (composeNotification now it,
                              create (composeNotification now it)))
                  (itemsToNotify now data)
    else [].
Proof.
  unfold checkAndSendNotifications.
  destruct (notificationsEnabled (settings data)); simpl; [|reflexivity].
  rewrite notifyItem_fold. reflexivity.
Qed.

Lemma filter_map_swap {A B : Type} (f : A -> B) (p : B -> bool) (l : list A) :
  filter p (List.map f l) = List.map f (filter (fun x => p (f x)) l).
Proof.
  induction l as [|x l IH]; simpl; [reflexivity|].
  destruct (p (f x)); simpl; rewrite IH; reflexivity.
Qed.

Lemma filter_twice {A : Type} (p q : A -> bool) (l : list A) :
  filter p (filter q l) = filter (fun x => q x && p x) l.
Proof.
  induction l as [|x l IH]; simpl; [reflexivity|].
  destruct (q x); simpl; [destruct (p x)|]; rewrite IH; reflexivity.
Qed.

Lemma composeNotification_flag (now : Z) (v : option bool) (x : Item) :
  composeNotification now (set_notificationSent v x) = composeNotification now x.
Proof. reflexivity. Qed.

(** X6.  A tick that follows a tick at the same instant, with the same
    notification capability, calls it again for exactly the records whose
    notification the first tick failed to create, in the same order: a
    record that was notified is not notified again, a delivery that
    failed is tried again. *)
Theorem second_tick_retries_failures :
  forall (create : Notification -> bool) (now : Z) (data : Storage),
    wellFormed (items data) ->
    let first := checkAndSendNotifications create now data in
    let second := checkAndSendNotifications create now (fst first) in
    snd second = filter (fun call => negb (snd call)) (snd first)
    /\ ((forall n : Notification, create n = true) -> snd second = []).
Proof.
  intros create now data H first second.
  assert (E : snd second = filter (fun call => negb (snd call)) (snd first)).
  { unfold second, first. rewrite !tick_calls.
    destruct (notificationsEnabled (settings data)) eqn:En.
    - destruct (checkAndSendNotifications_spec create now data H En) as [Hi [Hs _]].
      rewrite Hs, En. rewrite filter_map_swap. simpl.
      unfold itemsToNotify at 1. rewrite Hs, Hi.
      rewrite filter_map_swap, map_map.
      unfold itemsToNotify. rewrite filter_twice.
      set (cut := now + notificationHours (settings data) * msPerHour).
      assert (F : forall x,
                 dueForNotification now cut (afterTick create now data x)
                 = dueForNotification now cut x
                   && negb (create (composeNotification now x))).
      { intro x. unfold afterTick. fold cut.
        destruct (dueForNotification now cut x) eqn:S; simpl.
        - destruct (create (composeNotification now x)); simpl; [|exact S].
          unfold dueForNotification. simpl. apply andb_false_r.
        - exact S. }
      rewrite (filter_ext _ _ F).
      apply map_ext_in. intros x Hx. apply filter_In in Hx.
      destruct Hx as [_ Hx]. apply andb_true_iff in Hx. destruct Hx as [_ Hc].
      apply negb_true_iff in Hc.
      unfold afterTick. fold cut. rewrite Hc, andb_false_r, Hc. reflexivity.
    - rewrite checkAndSendNotifications_disabled by exact En. simpl.
      rewrite En. reflexivity. }
  split; [exact E|].
  intro All. rewrite E. unfold first. rewrite tick_calls.
  destruct (notificationsEnabled (settings data)); [|reflexivity].
  rewrite filter_map_swap. simpl.
  rewrite (filter_ext _ (fun _ => false)); [|intro x; rewrite All; reflexivity].
  clear. induction (itemsToNotify now data); [reflexivity|assumption].
Qed.

Lemma second_tick_retries_failures_witness :
  wellFormed (items twoDue)
  /\ snd (checkAndSendNotifications failsForA 0
            (fst (checkAndSendNotifications failsForA 0 twoDue)))
     = [(composeNotification 0 (hw "a" 3600000), false)].
Proof.
  split; [exact wellFormed_twoDue|].
  exact (proj1 (second_tick_retries_failures failsForA 0 twoDue wellFormed_twoDue)).
Defined.

(** ** Done records *)

(** X7.  Marking a record done or not done changes no notification: a tick
    over the store after the toggle makes the calls it would have made
    before it. *)
Theorem done_records_are_still_notified :
  forall (create : Notification -> bool) (now : Z) (data : Storage)
         (i : string) (b : bool),
    snd (checkAndSendNotifications create now (toggleItemDone i b data))
    = snd (checkAndSendNotifications create now data)
    /\ List.map id (itemsToNotify now (toggleItemDone i b data))
       = List.map id (itemsToNotify now data).
Proof.
  intros create now data i b.
  set (tg := fun it => if String.eqb (id it) i then set_done (Some b) it else it).
  assert (S : forall cut x, dueForNotification now cut (tg x)
                            = dueForNotification now cut x).
  { intros cut x. unfold tg. destruct (String.eqb (id x) i); reflexivity. }
  assert (C : forall x, composeNotification now (tg x) = composeNotification now x).
  { intro x. unfold tg. destruct (String.eqb (id x) i); reflexivity. }
  assert (I : itemsToNotify now (toggleItemDone i b data)
              = List.map tg (itemsToNotify now data)).
  { unfold itemsToNotify. simpl. fold tg. rewrite filter_map_swap.
    f_equal. apply filter_ext. intro x. apply S. }
  split.
  - rewrite !tick_calls. simpl.
    destruct (notificationsEnabled (settings data)); [|reflexivity].
    rewrite I, map_map. apply map_ext. intro x. rewrite C. reflexivity.
  - rewrite I, map_map. apply map_ext. intro x. unfold tg.
    destruct (String.eqb (id x) i); reflexivity.
Qed.

(** ** The wording of a notification *)

Lemma roundDiv_hours (t : Z) : roundDiv t msPerHour = (t + 1800000) / 3600000.
Proof.
  unfold roundDiv, msPerHour.
  replace (2 * t + 60 * 60 * 1000) with ((t + 1800000) * 2) by lia.
  replace (2 * (60 * 60 * 1000)) with (3600000 * 2) by lia.
  apply Z.div_mul_cancel_r; lia.
Qed.

Lemma roundDiv_days (t : Z) : roundDiv t msPerDay = (t + 43200000) / 86400000.
Proof.
  unfold roundDiv, msPerDay.
  replace (2 * t + 24 * 60 * 60 * 1000) with ((t + 43200000) * 2) by lia.
  replace (2 * (24 * 60 * 60 * 1000)) with (86400000 * 2) by lia.
  apply Z.div_mul_cancel_r; lia.
Qed.

(** X8.  The last line of the notification of a record due [t] milliseconds
    from now, [t] from 0 to some thirty years: "Due soon!" under half an
    hour; the hours rounded to the nearest, a half up, from half an hour
    to under twelve hours; the days rounded to the nearest, a half up,
    from twelve hours on, so that "Due in 1 day" is said from twelve hours
    to under thirty-six. *)
Theorem timeMessage_thresholds :
  forall (now : Z) (item : Item),
    let t := dueDate item - now in
    0 <= t <= 1000000000000 ->
    (t < 1800000 -> timeMessage now item = "Due soon!")
    /\ (1800000 <= t < 5400000 -> timeMessage now item = "Due in 1 hour")
    /\ (5400000 <= t < 43200000 ->
        timeMessage now item
        = "Due in " ++ decimal ((t + 1800000) / 3600000) ++ " hours"
        /\ 2 <= (t + 1800000) / 3600000 <= 12)
    /\ (43200000 <= t < 129600000 -> timeMessage now item = "Due in 1 day")
    /\ (129600000 <= t ->
        timeMessage now item
        = "Due in " ++ decimal ((t + 43200000) / 86400000) ++ " days"
        /\ 2 <= (t + 43200000) / 86400000).
Proof.
  intros now item t Ht. unfold timeMessage. fold t.
  rewrite roundDiv_hours, roundDiv_days.
  set (h := (t + 1800000) / 3600000). set (d := (t + 43200000) / 86400000).
  assert (Hh : 3600000 * h <= t + 1800000 < 3600000 * h + 3600000).
  { unfold h. pose proof (Z.mul_div_le (t + 1800000) 3600000).
    pose proof (Z.mul_succ_div_gt (t + 1800000) 3600000). lia. }
  assert (Hd : 86400000 * d <= t + 43200000 < 86400000 * d + 86400000).
  { unfold d. pose proof (Z.mul_div_le (t + 43200000) 86400000).
    pose proof (Z.mul_succ_div_gt (t + 43200000) 86400000). lia. }
  split; [|split; [|split; [|split]]]; intro B.
  - assert (D : d = 0) by lia. assert (E : h = 0) by lia. rewrite D, E.
    reflexivity.
  - assert (D : d = 0) by lia. assert (E : h = 1) by lia. rewrite D, E. reflexivity.
  - assert (D : d = 0) by lia. assert (E : 2 <= h <= 12) by lia.
    split; [|exact E]. rewrite D. cbn [Z.leb Z.compare].
    destruct (1 <=? h) eqn:L; [|lia].
    destruct (h =? 1) eqn:Q; [lia|]. reflexivity.
  - assert (D : d = 1) by lia. rewrite D. reflexivity.
  - assert (D : 2 <= d) by lia. split; [|exact D].
    destruct (1 <=? d) eqn:L; [|lia].
    destruct (d =? 1) eqn:Q; [lia|]. reflexivity.
Qed.

Lemma timeMessage_thresholds_witness :
  0 <= dueDate (hw "b" 7200000) - 0 <= 1000000000000
  /\ timeMessage 0 (hw "b" 7200000) = "Due in 2 hours".
Proof.
  assert (R : 0 <= dueDate (hw "b" 7200000) - 0 <= 1000000000000)
    by (simpl; lia).
  split; [exact R|].
  destruct (timeMessage_thresholds 0 (hw "b" 7200000) R) as (_ & _ & H & _).
  apply H. simpl. lia.
Defined.

(** ** The scheduler and the badge *)



(** ** What the sweep leaves alone *)

Lemma cleanupOldItems_eq (now : Z) (data : Storage) :
  cleanupOldItems now data
  = set_items (filter (notOlderThan30Days now) (items data)) data.
Proof.
  apply storage_eq.
  - apply cleanupOldItems_items.
  - unfold cleanupOldItems. destruct (Nat.eqb _ _); reflexivity.
Qed.

(** X10.  A sweep after a sweep is the later sweep alone, and a sweep repeated
    removes nothing more; a sweep removes no record that the badge counts
    or that a tick at the same instant would notify; a sweep and a toggle
    can be swapped. *)
Theorem cleanupOldItems_composes :
  forall (earlier now : Z) (data : Storage) (i : string) (b : bool),
    (earlier <= now ->
     cleanupOldItems now (cleanupOldItems earlier data) = cleanupOldItems now data)
    /\ upcomingItems now (cleanupOldItems now data) = upcomingItems now data
    /\ itemsToNotify now (cleanupOldItems now data) = itemsToNotify now data
    /\ cleanupOldItems now (toggleItemDone i b data)
       = toggleItemDone i b (cleanupOldItems now data).
Proof.
  intros earlier now data i b. rewrite !cleanupOldItems_eq.
  split; [|split; [|split]].
  - intro L. unfold set_items. simpl. f_equal.
    rewrite filter_twice. apply filter_ext. intro x.
    unfold notOlderThan30Days.
    destruct (now - thirtyDays <=? dueDate x) eqn:A;
      destruct (earlier - thirtyDays <=? dueDate x) eqn:B; try reflexivity; lia.
  - unfold upcomingItems. simpl. rewrite filter_twice. apply filter_ext.
    intro x. unfold notOlderThan30Days, dueWithin24h, thirtyDays.
    destruct (now <=? dueDate x) eqn:A;
      destruct (now - 30 * 24 * 60 * 60 * 1000 <=? dueDate x) eqn:B;
      try reflexivity; lia.
  - unfold itemsToNotify. simpl. rewrite filter_twice. apply filter_ext.
    intro x. unfold notOlderThan30Days, dueForNotification, thirtyDays.
    destruct (now <=? dueDate x) eqn:A;
      destruct (now - 30 * 24 * 60 * 60 * 1000 <=? dueDate x) eqn:B;
      try reflexivity; lia.
  - unfold toggleItemDone, set_items. simpl. f_equal.
    rewrite filter_map_swap. f_equal. apply filter_ext. intro x.
    unfold notOlderThan30Days. destruct (String.eqb (id x) i); reflexivity.
Qed.

Lemma cleanupOldItems_composes_witness :
  0 <= 100000000
  /\ cleanupOldItems 100000000 (cleanupOldItems 0 notifiedStore)
     = cleanupOldItems 100000000 notifiedStore.
Proof.
  split; [lia|].
  apply (proj1 (cleanupOldItems_composes 0 100000000 notifiedStore "a" true)).
  lia.
Defined.

(** ** The order of the store *)

Lemma byDueDate_trans : Relations_1.Transitive byDueDate.
Proof. intros a b c. unfold byDueDate. lia. Qed.

Lemma sorted_filter (f : Item -> bool) (l : list Item) :
  Sorted byDueDate l -> Sorted byDueDate (filter f l).
Proof.
  intro H. apply StronglySorted_Sorted.
  apply (Sorted_StronglySorted byDueDate_trans) in H.
  induction H as [|x l Hs IH Hf]; simpl; [constructor|].
  destruct (f x); [|exact IH].
  constructor; [exact IH|].
  apply Forall_forall. intros y Hy. apply filter_In in Hy.
  rewrite Forall_forall in Hf. apply Hf. apply Hy.
Qed.

Lemma sorted_map (f : Item -> Item) (l : list Item) :
  (forall x, dueDate (f x) = dueDate x) ->
  Sorted byDueDate l -> Sorted byDueDate (List.map f l).
Proof.
  intros Hf H. induction H as [|x l Hs IH Hh]; simpl; constructor.
  - exact IH.
  - destruct Hh as [|y l Hxy]; simpl; constructor.
    unfold byDueDate in *. rewrite !Hf. exact Hxy.
Qed.

Lemma handle_sorted (ev : Event) (data : Storage) :
  wellFormed (items data) -> Sorted byDueDate (items data) ->
  Sorted byDueDate (items (fst (handle ev data))).
Proof.
  intros W H. destruct ev as [newItems|msgId msgDone|p| |now create|now]; simpl.
  - apply sortByDueDate_sorted.
  - apply sorted_map; [|exact H]. intro x.
    destruct (String.eqb (id x) msgId); reflexivity.
  - exact H.
  - constructor.
  - destruct (notificationsEnabled (settings data)) eqn:En.
    + destruct (checkAndSendNotifications_spec create now data W En) as [Hi _].
      rewrite Hi. apply sorted_map; [|exact H]. intro x.
      unfold afterTick. destruct (_ && _); reflexivity.
    + rewrite checkAndSendNotifications_disabled by exact En. exact H.
  - rewrite cleanupOldItems_items. apply sorted_filter. exact H.
Qed.

(** X11.  Whatever events the service worker handles, in whatever order, a
    store whose records have distinct ids and stand in ascending order of
    due date stays such a store; the store of a fresh installation is
    one. *)
Theorem store_stays_sorted_and_unique :
  forall (evs : list Event) (data : Storage),
    wellFormed (items data) -> Sorted byDueDate (items data) ->
    wellFormed (items (fst (run evs data)))
    /\ Sorted byDueDate (items (fst (run evs data))).
Proof.
  induction evs as [|ev evs IH]; intros data W H; simpl; [split; assumption|].
  apply IH; [apply handle_wellFormed|apply handle_sorted]; assumption.
Qed.

Lemma store_stays_sorted_and_unique_witness :
  wellFormed (items DEFAULT_STORAGE)
  /\ Sorted byDueDate (items DEFAULT_STORAGE)
  /\ Sorted byDueDate (items (fst (run laterEvents DEFAULT_STORAGE))).
Proof.
  assert (W : wellFormed (items DEFAULT_STORAGE)) by constructor.
  assert (S : Sorted byDueDate (items DEFAULT_STORAGE)) by constructor.
  split; [exact W|]. split; [exact S|].
  exact (proj2 (store_stays_sorted_and_unique laterEvents DEFAULT_STORAGE W S)).
Defined.

(** ** What the badge does not look at *)

Lemma upcoming_map (g : Item -> Item) (now : Z) (l : list Item) :
  (forall y, dueDate (g y) = dueDate y) ->
  filter (dueWithin24h now) (List.map g l)
  = List.map g (filter (dueWithin24h now) l).
Proof.
  intro H. rewrite filter_map_swap. f_equal. apply filter_ext. intro x.
  unfold dueWithin24h. rewrite H. reflexivity.
Qed.

(** X27.  The badge counts a record whether it is done or not and whether it
    was notified or not: neither a toggle nor a tick changes the count.  The
    text of the badge is empty exactly when no record is due within the
    coming 24 hours. *)
Theorem badge_ignores_the_flags :
  forall (now : Z) (data : Storage),
    (forall (i : string) (b : bool),
        badgeCount now (toggleItemDone i b data) = badgeCount now data)
    /\ (forall (create : Notification -> bool) (tick : Z),
          wellFormed (items data) ->
          badgeCount now (fst (checkAndSendNotifications create tick data))
          = badgeCount now data)
    /\ (badgeText now data = "" <-> Background.upcomingItems now data = []).
Proof.
  intros now data. split; [|split].
  - intros i b. unfold badgeCount, Background.upcomingItems.
    rewrite toggle_items, upcoming_map, length_map; [reflexivity|].
    intro y. destruct (String.eqb (id y) i); reflexivity.
  - intros create tick W. unfold badgeCount, Background.upcomingItems.
    destruct (notificationsEnabled (settings data)) eqn:En.
    + destruct (checkAndSendNotifications_spec create tick data W En) as [Hi _].
      rewrite Hi, upcoming_map, length_map; [reflexivity|].
      intro y. unfold afterTick. destruct (_ && _); reflexivity.
    + rewrite checkAndSendNotifications_disabled by exact En. reflexivity.
  - unfold badgeText, badgeCount.
    destruct (Background.upcomingItems now data) as [|x l]; simpl.
    + tauto.
    + split; [|discriminate]. intro H. exfalso.
      assert (N : forall n : nat,
                 DecimalString.NilZero.string_of_uint (Nat.to_uint n) <> "").
      { intro n. destruct (Nat.to_uint n) as [|u|u|u|u|u|u|u|u|u|u];
          discriminate. }
      exact (N _ H).
Qed.

Lemma badge_ignores_the_flags_witness :
  wellFormed (items twoDue)
  /\ badgeCount 0 (fst (checkAndSendNotifications (fun _ => true) 0 twoDue)) = 2%nat.
Proof.
  split; [exact wellFormed_twoDue|].
  exact (proj1 (proj2 (badge_ignores_the_flags 0 twoDue)) (fun _ => true) 0
               wellFormed_twoDue).
Defined.

End StoreFacts.

(** * Properties of the rest of the service worker *)

Module WorkerFacts.
Import Background BackgroundFacts Worker StoreFacts.

Local Open Scope string_scope.
Local Open Scope Z_scope.

(** ** A click on a notification *)

Lemma findItem_wellFormed (item : Item) (data : Storage) :
  wellFormed (items data) -> In item (items data) ->
  findItem (id item) data = Some item.
Proof.
  unfold findItem, wellFormed. induction (items data) as [|x l IH]; simpl;
    intros W H; [tauto|].
  inversion W as [|? ? Hn Hd]; subst.
  destruct H as [->|H].
  - rewrite String.eqb_refl. reflexivity.
  - destruct (String.eqb (id x) (id item)) eqn:E; [|apply IH; assumption].
    exfalso. apply Hn. apply String.eqb_eq in E. rewrite E. apply in_map. exact H.
Qed.

Lemma findItem_missing (i : string) (data : Storage) :
  ~ In i (List.map id (items data)) -> findItem i data = None.
Proof.
  unfold findItem. induction (items data) as [|x l IH]; simpl; intro H;
    [reflexivity|].
  destruct (String.eqb (id x) i) eqn:E.
  - exfalso. apply H. left. apply String.eqb_eq. exact E.
  - apply IH. tauto.
Qed.

(** X12.  A click on the notification of a stored record opens the link of
    that record, if it has one, and then clears the notification; the
    notification stays when the tab could not be opened.  A click on a
    notification whose record is no longer stored only clears it.  Every
    notification that a tick creates carries the id of a stored record,
    and a click on it, over the store that the tick leaves, is a click on
    that record. *)
Theorem click_opens_the_link_of_the_record :
  forall (tabsCreate : string -> bool) (data : Storage),
    wellFormed (items data) ->
    (forall item : Item,
        In item (items data) ->
        onNotificationClicked tabsCreate (id item) data
        = if String.eqb (link item) "" then [NotificationsClear (id item)]
          else if tabsCreate (link item)
               then [TabsCreate (link item); NotificationsClear (id item)]
               else [TabsCreate (link item)])
    /\ (forall i : string,
          ~ In i (List.map id (items data)) ->
          onNotificationClicked tabsCreate i data = [NotificationsClear i])
    /\ (forall (create : Notification -> bool) (now : Z) (n : Notification)
               (ok : bool),
          In (n, ok) (snd (checkAndSendNotifications create now data)) ->
          exists item : Item,
            In item (items data)
            /\ notificationId n = id item
            /\ onNotificationClicked tabsCreate (notificationId n)
                 (fst (checkAndSendNotifications create now data))
               = onNotificationClicked tabsCreate (id item) data).
Proof.
  intros tabsCreate data W.
  assert (Click : forall d item, wellFormed (items d) -> In item (items d) ->
            onNotificationClicked tabsCreate (id item) d
            = if String.eqb (link item) "" then [NotificationsClear (id item)]
              else if tabsCreate (link item)
                   then [TabsCreate (link item); NotificationsClear (id item)]
                   else [TabsCreate (link item)]).
  { intros d item Wd H. unfold onNotificationClicked.
    rewrite (findItem_wellFormed item d Wd H).
    destruct (String.eqb (link item) ""); reflexivity. }
  split; [intros item H; apply Click; assumption|].
  split.
  - intros i H. unfold onNotificationClicked. rewrite findItem_missing by exact H.
    reflexivity.
  - intros create now n ok H. rewrite tick_calls in H.
    destruct (notificationsEnabled (settings data)) eqn:En; [|destruct H].
    apply in_map_iff in H. destruct H as [item [E H]].
    injection E as <- _. exists item.
    unfold itemsToNotify in H. apply filter_In in H. destruct H as [H _].
    split; [exact H|]. split; [reflexivity|].
    destruct (checkAndSendNotifications_spec create now data W En) as [Hi _].
    simpl.
    assert (W' : wellFormed (items (fst (checkAndSendNotifications create now data)))).
    { rewrite Hi. unfold wellFormed. rewrite map_map.
      erewrite map_ext; [exact W|]. intro x. apply afterTick_id. }
    assert (H' : In (afterTick create now data item)
                    (items (fst (checkAndSendNotifications create now data)))).
    { rewrite Hi. apply in_map. exact H. }
    pose proof (Click _ _ W' H') as C1. rewrite afterTick_id in C1.
    rewrite C1, (Click data item W H).
    assert (L : link (afterTick create now data item) = link item).
    { unfold afterTick. destruct (_ && _); reflexivity. }
    rewrite L. reflexivity.
Qed.

Lemma click_opens_the_link_of_the_record_witness :
  wellFormed (items twoDue)
  /\ onNotificationClicked (fun _ => true) "a" twoDue
     = [TabsCreate "https://example.org/a"; NotificationsClear "a"].
Proof.
  split; [exact wellFormed_twoDue|].
  exact (proj1 (click_opens_the_link_of_the_record (fun _ => true) twoDue
                  wellFormed_twoDue)
               (hw "a" 3600000) (or_introl eq_refl)).
Defined.

(** ** The tabs that a scrape result closes *)

Lemma setHas_In (t : Z) (s : TabSet) : setHas t s = true <-> In t s.
Proof.
  unfold setHas. rewrite existsb_exists. split.
  - intros [x [H E]]. apply Z.eqb_eq in E. subst x. exact H.
  - intro H. exists t. split; [exact H|apply Z.eqb_refl].
Qed.

Lemma setDelete_In (t u : Z) (s : TabSet) :
  In u (setDelete t s) <-> In u s /\ u <> t.
Proof.
  unfold setDelete. rewrite filter_In, negb_true_iff, Z.eqb_neq. tauto.
Qed.

Lemma NoDup_app_filter (p : Z -> bool) (s rest : list Z) :
  NoDup (s ++ rest) -> NoDup (filter p s ++ rest).
Proof.
  induction s as [|x s IH]; simpl; intro H; [exact H|].
  inversion H as [|? ? Hn Hd]; subst.
  destruct (p x); [|apply IH; exact Hd].
  simpl. constructor; [|apply IH; exact Hd].
  intro Hin. apply Hn. apply in_app_or in Hin. apply in_or_app.
  destruct Hin as [Hin|Hin]; [left|right; exact Hin].
  apply filter_In in Hin. apply Hin.
Qed.

Lemma removedTabs_app (a b : list Call) :
  removedTabs (a ++ b) = (removedTabs a ++ removedTabs b)%list.
Proof. unfold removedTabs. apply flat_map_app. Qed.

Lemma tabRun_removed (evs : list TabEvent) (st : WorkerState) :
  incl (removedTabs (snd (tabRun evs st)))
       (tabsToCloseAfterScrape st ++ openedTabs evs)
  /\ (NoDup (tabsToCloseAfterScrape st ++ openedTabs evs) ->
      NoDup (removedTabs (snd (tabRun evs st)))).
Proof.
  revert st. induction evs as [|ev evs IH]; intro st.
  - simpl. split; [intros x []|constructor].
  - cbn [tabRun snd fst]. rewrite removedTabs_app.
    destruct ev as [t|message senderTab].
    + cbn [tabStep fst snd app]. change (removedTabs []) with (@nil Z).
      cbn [app openedTabs flat_map]. fold (openedTabs evs).
      set (st' := {| stored := stored st;
                     tabsToCloseAfterScrape :=
                       setAdd t (tabsToCloseAfterScrape st) |}).
      destruct (IH st') as [I N]. cbn [tabsToCloseAfterScrape st'] in I, N.
      assert (A : forall u, In u (setAdd t (tabsToCloseAfterScrape st) ++ openedTabs evs)
                  -> In u (tabsToCloseAfterScrape st ++ t :: openedTabs evs)).
      { intros u Hu. apply in_app_or in Hu. apply in_or_app.
        destruct Hu as [Hu|Hu]; [|right; right; exact Hu].
        unfold setAdd in Hu. destruct (setHas t (tabsToCloseAfterScrape st)).
        - left. exact Hu.
        - apply in_app_or in Hu. destruct Hu as [Hu|[<-|[]]];
            [left; exact Hu|right; left; reflexivity]. }
      split.
      * intros u Hu. apply A, I, Hu.
      * intro Nd. apply N. unfold setAdd.
        destruct (setHas t (tabsToCloseAfterScrape st)) eqn:Hs.
        -- exfalso. apply setHas_In in Hs. apply NoDup_remove_2 in Nd.
           apply Nd. apply in_or_app. left. exact Hs.
        -- rewrite <- app_assoc. exact Nd.
    + cbn [tabStep openedTabs flat_map]. fold (openedTabs evs).
      rewrite app_nil_l. unfold onScrapeResult.
      set (data := handleScrapeResult _ (stored st)).
      destruct senderTab as [t|].
      * destruct (scrapeComplete message && setHas t (tabsToCloseAfterScrape st)) eqn:C.
        -- apply andb_true_iff in C. destruct C as [_ Hs]. apply setHas_In in Hs.
           cbn [fst snd].
           change (removedTabs [TabsRemove t]) with [t]. cbn [app].
           set (st' := {| stored := data;
                          tabsToCloseAfterScrape :=
                            setDelete t (tabsToCloseAfterScrape st) |}).
           destruct (IH st') as [I N]. cbn [tabsToCloseAfterScrape st'] in I, N.
           split.
           ++ intros u [<-|Hu]; [apply in_or_app; left; exact Hs|].
              apply I in Hu. apply in_app_or in Hu. apply in_or_app.
              destruct Hu as [Hu|Hu]; [left|right; exact Hu].
              apply setDelete_In in Hu. apply Hu.
           ++ intro Nd. constructor.
              ** intro Hu. apply I in Hu. apply in_app_or in Hu.
                 destruct Hu as [Hu|Hu].
                 --- apply setDelete_In in Hu. destruct Hu as [_ Hu]. apply Hu.
                     reflexivity.
                 --- apply in_split in Hs. destruct Hs as [l1 [l2 Hs]].
                     rewrite Hs, <- app_assoc in Nd. simpl in Nd.
                     apply NoDup_remove_2 in Nd. apply Nd.
                     apply in_or_app. right. apply in_or_app. right. exact Hu.
              ** apply N. apply NoDup_app_filter. exact Nd.
        -- cbn [fst snd]. change (removedTabs []) with (@nil Z). cbn [app].
           set (st' := {| stored := data;
                          tabsToCloseAfterScrape := tabsToCloseAfterScrape st |}).
           destruct (IH st') as [I N]. cbn [tabsToCloseAfterScrape st'] in I, N.
           split; assumption.
      * cbn [fst snd]. change (removedTabs []) with (@nil Z). cbn [app].
        set (st' := {| stored := data;
                       tabsToCloseAfterScrape := tabsToCloseAfterScrape st |}).
        destruct (IH st') as [I N]. cbn [tabsToCloseAfterScrape st'] in I, N.
        split; assumption.
Qed.

(** X13.  The scrape results close no tab but the tabs opened for scraping,
    and, tab ids being given once, close none of them twice; a scrape
    result that does not report completion, or that comes from another
    tab, closes nothing, and its records are reconciled all the same. *)
Theorem only_scraping_tabs_are_closed :
  forall (evs : list TabEvent) (st : WorkerState),
    incl (removedTabs (snd (tabRun evs st)))
         (tabsToCloseAfterScrape st ++ openedTabs evs)
    /\ (NoDup (tabsToCloseAfterScrape st ++ openedTabs evs) ->
        NoDup (removedTabs (snd (tabRun evs st))))
    /\ (forall (message : ScrapeMessage) (senderTab : option Z),
          scrapeComplete message = false
          \/ senderTab = None
          \/ (exists t, senderTab = Some t /\ ~ In t (tabsToCloseAfterScrape st)) ->
          onScrapeResult message senderTab st
          = ({| stored :=
                  handleScrapeResult
                    (match messageItems message with Some l => l | None => [] end)
                    (stored st);
                tabsToCloseAfterScrape := tabsToCloseAfterScrape st |}, [])).
Proof.
  intros evs st. destruct (tabRun_removed evs st) as [I N].
  split; [exact I|]. split; [exact N|].
  intros message senderTab H. unfold onScrapeResult.
  destruct senderTab as [t|]; [|reflexivity].
  destruct H as [H|[H|[u [E H]]]].
  - rewrite H. reflexivity.
  - discriminate H.
  - injection E as <-.
    destruct (setHas t (tabsToCloseAfterScrape st)) eqn:S.
    + exfalso. apply H. apply setHas_In. exact S.
    + rewrite andb_false_r. reflexivity.
Qed.

Lemma only_scraping_tabs_are_closed_witness :
  NoDup (tabsToCloseAfterScrape freshWorker ++ openedTabs scrapeSession)
  /\ NoDup (removedTabs (snd (tabRun scrapeSession freshWorker))).
Proof.
  assert (H : NoDup (tabsToCloseAfterScrape freshWorker ++ openedTabs scrapeSession))
    by (constructor; [intros []|constructor]).
  split; [exact H|].
  exact (proj1 (proj2 (only_scraping_tabs_are_closed scrapeSession freshWorker)) H).
Defined.

Example scrape_results_close_once :
  tabRun scrapeSession freshWorker
  = ({| stored := {| items := [otherHW]; settings := DEFAULT_SETTINGS |};
        tabsToCloseAfterScrape := [] |},
     [TabsRemove 7]).
Proof. reflexivity. Qed.

(** ** Waiting for a tab *)

(** A wait that is over: the variable is set, the listeners are removed,
    the timer is off and the promise is settled. *)
Lemma tabWait_over (tabId : Z) (evs : list WaitEvent) (w : TabWait) :
  onUpdatedListening w = false -> onRemovedListening w = false ->
  timerArmed w = false ->
  fold_left (fun w ev => tabWaitStep tabId ev w) evs w = w.
Proof.
  intros U R T. induction evs as [|ev evs IH]; simpl; [reflexivity|].
  assert (S : tabWaitStep tabId ev w = w).
  { destruct ev; simpl; rewrite ?U, ?R, ?T; reflexivity. }
  rewrite S. exact IH.
Qed.

Lemma tabWait_decision (tabId : Z) (evs : list WaitEvent) :
  let w := tabWaitRun tabId evs in
  promise w = firstDecision (decides tabId) evs
  /\ (promise w = Pending /\ settled w = false /\ onUpdatedListening w = true
      /\ onRemovedListening w = true /\ timerArmed w = true
      \/ promise w <> Pending /\ settled w = true /\ onUpdatedListening w = false
         /\ onRemovedListening w = false /\ timerArmed w = false).
Proof.
  unfold tabWaitRun. induction evs as [|ev evs IH]; cbn [fold_left firstDecision].
  - split; [reflexivity|]. left. repeat split.
  - destruct ev as [upId status|removedTabId|].
    + cbn [tabWaitStep waitForTabComplete onUpdatedListening decides].
      destruct (upId =? tabId) eqn:E; cbn [negb andb]; [|exact IH].
      destruct (isComplete status); [|exact IH].
      rewrite tabWait_over by reflexivity. simpl. split; [reflexivity|].
      right. repeat split. discriminate.
    + cbn [tabWaitStep waitForTabComplete onRemovedListening settled decides].
      destruct (removedTabId =? tabId) eqn:E; cbn [negb andb]; [|exact IH].
      rewrite tabWait_over by reflexivity. simpl. split; [reflexivity|].
      right. repeat split. discriminate.
    + cbn [tabWaitStep waitForTabComplete timerArmed settled negb decides].
      rewrite tabWait_over by reflexivity. simpl. split; [reflexivity|].
      right. repeat split. discriminate.
Qed.

(** X14.  The wait for a tab is settled by the first of three events: the tab
    completes loading (resolved), the tab is removed (rejected), the timer
    runs out (resolved); events of other tabs and other updates of the tab
    are ignored.  Once it is settled, both listeners are removed and the
    timer is off, and a wait whose timer has run out is settled. *)
Theorem waitForTabComplete_first_event_decides :
  forall (tabId : Z) (evs : list WaitEvent),
    let w := tabWaitRun tabId evs in
    promise w = firstDecision (decides tabId) evs
    /\ (promise w <> Pending ->
        onUpdatedListening w = false /\ onRemovedListening w = false
        /\ timerArmed w = false)
    /\ (In TimerFired evs -> promise w <> Pending)
    /\ (promise w = Rejected -> In (TabRemoved tabId) evs).
Proof.
  intros tabId evs w. destruct (tabWait_decision tabId evs) as [D I].
  fold w in D, I. split; [exact D|]. split; [|split].
  - intro N. destruct I as [[P _]|[_ [_ [U [R T]]]]]; [contradiction|].
    repeat split; assumption.
  - rewrite D. clear. induction evs as [|ev evs IH]; simpl; [tauto|].
    intros [->|H]; [simpl; discriminate|].
    destruct (decides tabId ev) as [s|] eqn:E; [|apply IH; exact H].
    destruct ev as [upId status|removedTabId|]; simpl in E.
    + destruct (_ && _); inversion E. discriminate.
    + destruct (_ =? _); inversion E. discriminate.
    + inversion E. discriminate.
  - rewrite D. clear. induction evs as [|ev evs IH]; simpl; [discriminate|].
    destruct (decides tabId ev) as [s|] eqn:E; [|intro H; right; apply IH; exact H].
    intro H. subst s. left.
    destruct ev as [upId status|removedTabId|]; simpl in E.
    + destruct (_ && _); inversion E.
    + destruct (removedTabId =? tabId) eqn:Q; inversion E.
      apply Z.eqb_eq in Q. subst. reflexivity.
    + inversion E.
Qed.

Lemma waitForTabComplete_first_event_decides_witness :
  In TimerFired [TabUpdated 7 (Some "loading"); TabUpdated 8 (Some "complete");
                 TimerFired; TabRemoved 7]
  /\ promise (tabWaitRun 7 [TabUpdated 7 (Some "loading");
                            TabUpdated 8 (Some "complete");
                            TimerFired; TabRemoved 7]) <> Pending.
Proof.
  assert (H : In TimerFired [TabUpdated 7 (Some "loading");
                              TabUpdated 8 (Some "complete");
                              TimerFired; TabRemoved 7])
    by (right; right; left; reflexivity).
  split; [exact H|].
  exact (proj1 (proj2 (proj2 (waitForTabComplete_first_event_decides 7 _))) H).
Defined.

(** ** Waiting for a scrape result *)

Lemma resultWait_over (tabId : Z) (evs : list ResultEvent) (w : ResultWait) :
  onMessageListening w = false -> resultTimerArmed w = false ->
  fold_left (fun w ev => resultWaitStep tabId ev w) evs w = w.
Proof.
  intros M T. induction evs as [|ev evs IH]; simpl; [reflexivity|].
  assert (S : resultWaitStep tabId ev w = w).
  { destruct ev; simpl; rewrite ?M, ?T; reflexivity. }
  rewrite S. exact IH.
Qed.

Lemma resultWait_decision (tabId : Z) (evs : list ResultEvent) :
  let w := resultWaitRun tabId evs in
  resultPromise w = firstDecision (decidesResult tabId) evs
  /\ (resultPromise w = Pending /\ onMessageListening w = true
      /\ resultTimerArmed w = true
      \/ resultPromise w <> Pending /\ onMessageListening w = false
         /\ resultTimerArmed w = false).
Proof.
  unfold resultWaitRun. induction evs as [|ev evs IH]; cbn [fold_left firstDecision].
  - split; [reflexivity|]. left. repeat split.
  - destruct ev as [message|].
    + cbn [resultWaitStep waitForScrapeResultFromTab onMessageListening
           decidesResult].
      destruct (messageSenderTab message) as [senderTab|]; [|exact IH].
      destruct (senderTab =? tabId) eqn:E; cbn [negb andb]; [|exact IH].
      destruct (String.eqb (messageType message) "SCRAPE_RESULT"); [|exact IH].
      rewrite resultWait_over by reflexivity. simpl. split; [reflexivity|].
      right. repeat split. discriminate.
    + cbn [resultWaitStep waitForScrapeResultFromTab resultTimerArmed
           resultSettled negb decidesResult].
      rewrite resultWait_over by reflexivity. simpl. split; [reflexivity|].
      right. repeat split. discriminate.
Qed.

(** X15.  The wait for a scrape result is settled by the first of two events:
    a SCRAPE_RESULT message whose sender is the tab (resolved with that
    message), the timer (rejected); messages of other types, from other
    tabs or without a sender tab are ignored.  Once it is settled the
    listener is removed and the timer is off; the message it resolves with
    is a SCRAPE_RESULT message from the tab. *)
Theorem waitForScrapeResultFromTab_first_event_decides :
  forall (tabId : Z) (evs : list ResultEvent),
    let w := resultWaitRun tabId evs in
    resultPromise w = firstDecision (decidesResult tabId) evs
    /\ (resultPromise w <> Pending ->
        onMessageListening w = false /\ resultTimerArmed w = false)
    /\ (In ResultTimerFired evs -> resultPromise w <> Pending)
    /\ (forall message : RuntimeMessage,
          resultPromise w = Resolved message ->
          In (MessageReceived message) evs
          /\ messageSenderTab message = Some tabId
          /\ messageType message = "SCRAPE_RESULT").
Proof.
  intros tabId evs w. destruct (resultWait_decision tabId evs) as [D I].
  fold w in D, I. split; [exact D|]. split; [|split].
  - intro N. destruct I as [[P _]|[_ [M T]]]; [contradiction|].
    split; assumption.
  - rewrite D. clear. induction evs as [|ev evs IH]; simpl; [tauto|].
    intros [->|H]; [simpl; discriminate|].
    destruct (decidesResult tabId ev) as [s|] eqn:E; [|apply IH; exact H].
    destruct ev as [message|]; simpl in E.
    + destruct (messageSenderTab message); [|discriminate].
      destruct (_ && _); inversion E. discriminate.
    + inversion E. discriminate.
  - intro message. rewrite D. clear. induction evs as [|ev evs IH]; simpl;
      [discriminate|].
    destruct (decidesResult tabId ev) as [s|] eqn:E.
    + intro H. subst s. destruct ev as [m|]; simpl in E; [|discriminate].
      destruct (messageSenderTab m) as [t|] eqn:T; [|discriminate].
      destruct (t =? tabId) eqn:Q; simpl in E; [|discriminate].
      destruct (String.eqb (messageType m) "SCRAPE_RESULT") eqn:Y; [|discriminate].
      injection E as ->. apply Z.eqb_eq in Q. apply String.eqb_eq in Y.
      subst t. repeat split; auto.
    + intro H. destruct (IH H) as [A B]. split; [right; exact A|exact B].
Qed.

Lemma waitForScrapeResultFromTab_first_event_decides_witness :
  In ResultTimerFired
     [MessageReceived {| messageType := "DATA_UPDATED";
                         messageSenderTab := Some 7; messageScrapedCount := 0 |};
      ResultTimerFired]
  /\ resultPromise
       (resultWaitRun 7
          [MessageReceived {| messageType := "DATA_UPDATED";
                              messageSenderTab := Some 7;
                              messageScrapedCount := 0 |};
           ResultTimerFired]) <> Pending.
Proof.
  assert (H : In ResultTimerFired
     [MessageReceived {| messageType := "DATA_UPDATED";
                         messageSenderTab := Some 7; messageScrapedCount := 0 |};
      ResultTimerFired]) by (right; left; reflexivity).
  split; [exact H|].
  exact (proj1 (proj2 (proj2
           (waitForScrapeResultFromTab_first_event_decides 7 _))) H).
Defined.

(** ** Injecting with a retry *)

Lemma safeExecuteLoop_spec (tries : nat -> Attempt) (maxRetries : nat) :
  forall fuel attempt : nat,
    (attempt <= maxRetries)%nat -> (maxRetries - attempt < fuel)%nat ->
    let r := safeExecuteLoop tries maxRetries fuel attempt in
    fst r <> Returned false
    /\ (fst r = Returned true <->
        exists k : nat,
          (attempt <= k <= maxRetries)%nat /\ tries k = Injected
          /\ forall j : nat, (attempt <= j < k)%nat -> tries j = Failed)
    /\ (List.length (snd r) <= maxRetries - attempt)%nat
    /\ snd r = List.map (fun k => 300 * Z.of_nat k)
                        (seq (S attempt) (List.length (snd r))).
Proof.
  induction fuel as [|fuel IH]; intros attempt Ha Hf; [lia|].
  cbn [safeExecuteLoop].
  destruct (attempt <=? maxRetries)%nat eqn:L; [|apply Nat.leb_gt in L; lia].
  destruct (tries attempt) eqn:T.
  - simpl. split; [discriminate|]. split; [|split; [lia|reflexivity]].
    split; [|reflexivity]. intros _. exists attempt.
    split; [lia|]. split; [exact T|]. intros j Hj. lia.
  - simpl. split; [discriminate|]. split; [|split; [lia|reflexivity]].
    split; [discriminate|]. intros [k [Hk [Ti Hj]]].
    destruct (Nat.eq_dec k attempt) as [->|N]; [congruence|].
    specialize (Hj attempt). rewrite T in Hj. discriminate Hj. lia.
  - destruct (maxRetries <? S attempt)%nat eqn:M.
    + apply Nat.ltb_lt in M. simpl. split; [discriminate|].
      split; [|split; [lia|reflexivity]].
      split; [discriminate|]. intros [k [Hk [Ti Hj]]].
      assert (k = attempt) by lia. subst k. congruence.
    + apply Nat.ltb_ge in M.
      destruct (IH (S attempt)) as [A [B [C D]]]; [lia|lia|].
      cbn [fst snd List.length]. split; [exact A|]. split; [|split].
      * rewrite B. split; intros [k [Hk [Ti Hj]]]; exists k.
        -- split; [lia|]. split; [exact Ti|].
           intros j Hjk. destruct (Nat.eq_dec j attempt) as [->|N]; [exact T|].
           apply Hj. lia.
        -- destruct (Nat.eq_dec k attempt) as [->|N]; [congruence|].
           split; [lia|]. split; [exact Ti|]. intros j Hjk. apply Hj. lia.
      * lia.
      * cbn [seq List.map]. f_equal. exact D.
Qed.

(** X16.  The injection is tried at most [maxRetries + 1] times: it returns
    true as soon as a try succeeds, throws at once when the tab is gone, and
    throws after the last try failed; it never returns false.  Between two
    tries it pauses 300 ms times the number of tries made.  With one
    retry, as every caller asks, that is two tries and one pause of 300 ms
    at most. *)
Theorem safeExecuteScript_retries :
  forall (tries : nat -> Attempt) (maxRetries : nat),
    let r := safeExecuteScript tries maxRetries in
    fst r <> Returned false
    /\ (fst r = Returned true <->
        exists k : nat,
          (k <= maxRetries)%nat /\ tries k = Injected
          /\ forall j : nat, (j < k)%nat -> tries j = Failed)
    /\ (List.length (snd r) <= maxRetries)%nat
    /\ snd r = List.map (fun k => 300 * Z.of_nat k) (seq 1 (List.length (snd r)))
    /\ (tries 0%nat = NoSuchTab -> r = (Threw, [])).
Proof.
  intros tries maxRetries r. unfold r, safeExecuteScript.
  destruct (safeExecuteLoop_spec tries maxRetries (S (S maxRetries)) 0)
    as [A [B [C D]]]; [lia|lia|].
  split; [exact A|]. split; [|split; [lia|split; [exact D|]]].
  - rewrite B. split; intros [k [Hk [Ti Hj]]]; exists k;
      (split; [lia|]; split; [exact Ti|]; intros j Hjk; apply Hj; lia).
  - intro T. cbn [safeExecuteLoop Nat.leb]. rewrite T. reflexivity.
Qed.

Lemma safeExecuteScript_retries_witness :
  (fun k : nat => match k with O => NoSuchTab | _ => Injected end) 0%nat = NoSuchTab
  /\ safeExecuteScript
       (fun k : nat => match k with O => NoSuchTab | _ => Injected end) 1
     = (Threw, []).
Proof.
  split; [reflexivity|].
  exact (proj2 (proj2 (proj2 (proj2
           (safeExecuteScript_retries
              (fun k : nat => match k with O => NoSuchTab | _ => Injected end) 1))))
         eq_refl).
Defined.

(** ** Batches *)

Lemma launched_app (a b : list Step) :
  launched (a ++ b) = (launched a ++ launched b)%list.
Proof. unfold launched. apply flat_map_app. Qed.

Lemma pauses_app (a b : list Step) : pauses (a ++ b) = (pauses a + pauses b)%nat.
Proof. unfold pauses. rewrite filter_app, length_app. reflexivity. Qed.

Lemma batchLoop_spec (links : list string) :
  forall fuel i : nat,
    (List.length links - i <= fuel)%nat ->
    let steps := batchLoop fuel i links in
    List.concat (launched steps) = skipn i links
    /\ Forall (fun b => (1 <= List.length b <= 3)%nat) (launched steps)
    /\ (3 * List.length (launched steps) < List.length links - i + 3)%nat
    /\ (List.length links - i <= 3 * List.length (launched steps))%nat
    /\ pauses steps = (List.length (launched steps) - 1)%nat.
Proof.
  induction fuel as [|fuel IH]; intros i Hf.
  - simpl. rewrite skipn_all2 by lia. repeat split; try lia. constructor.
  - cbn [batchLoop]. destruct (i <? List.length links)%nat eqn:L.
    + apply Nat.ltb_lt in L.
      destruct (IH (i + concurrency)%nat) as [A [B [C [D E]]]];
        [unfold concurrency; lia|].
      set (rest := batchLoop fuel (i + concurrency) links) in *.
      rewrite launched_app, pauses_app.
      assert (S : slice i (i + concurrency) links = firstn 3 (skipn i links)).
      { unfold slice, concurrency. f_equal. lia. }
      assert (Ls : List.length (firstn 3 (skipn i links))
                   = Nat.min 3 (List.length links - i)).
      { rewrite length_firstn, length_skipn. reflexivity. }
      assert (La : launched
                     (Launch (slice i (i + concurrency) links)
                      :: (if (i + concurrency <? List.length links)%nat
                          then [Pause batchDelayMs] else []))
                   = [firstn 3 (skipn i links)]).
      { rewrite S. destruct (_ <? _)%nat; reflexivity. }
      rewrite La. cbn [app List.concat List.length]. rewrite A.
      split; [|split; [|split; [|split]]].
      * unfold concurrency. rewrite Nat.add_comm, <- skipn_skipn.
        apply firstn_skipn.
      * constructor; [rewrite Ls; lia|exact B].
      * unfold concurrency in *. lia.
      * unfold concurrency in *. lia.
      * rewrite E. unfold concurrency in *.
        destruct (i + 3 <? List.length links)%nat eqn:M.
        -- apply Nat.ltb_lt in M. rewrite S. unfold pauses at 1. simpl. lia.
        -- apply Nat.ltb_ge in M. rewrite S. unfold pauses at 1. simpl.
           assert (List.length (launched rest) = 0)%nat by lia. lia.
    + apply Nat.ltb_ge in L. simpl. rewrite skipn_all2 by lia.
      repeat split; try lia. constructor.
Qed.

Lemma launched_launch (b : list string) (steps : list Step) :
  launched (Launch b :: steps) = b :: launched steps.
Proof. reflexivity. Qed.

Lemma launched_pause (ms : Z) (steps : list Step) :
  launched (Pause ms :: steps) = launched steps.
Proof. reflexivity. Qed.

Lemma batchLoop_steps (links : list string) :
  forall fuel i : nat,
    (List.length links - i <= fuel)%nat ->
    let steps := batchLoop fuel i links in
    steps = separatedBy (Pause 250) (List.map Launch (launched steps))
    /\ (forall k : nat,
          (k < List.length (launched steps))%nat ->
          nth k (launched steps) [] = firstn 3 (skipn (i + 3 * k) links)).
Proof.
  induction fuel as [|fuel IH]; intros i Hf.
  - simpl. split; [reflexivity|]. intros k Hk. lia.
  - cbv zeta. cbn [batchLoop]. destruct (i <? List.length links)%nat eqn:L.
    + apply Nat.ltb_lt in L.
      destruct (IH (i + concurrency)%nat) as [A B]; [unfold concurrency; lia|].
      destruct (batchLoop_spec links fuel (i + concurrency)%nat)
        as [_ [_ [C [D _]]]]; [unfold concurrency; lia|].
      set (rest := batchLoop fuel (i + concurrency) links) in *.
      assert (S : slice i (i + concurrency) links = firstn 3 (skipn i links)).
      { unfold slice, concurrency. f_equal. lia. }
      rewrite S. unfold concurrency in *.
      destruct (i + 3 <? List.length links)%nat eqn:M.
      * apply Nat.ltb_lt in M.
        cbn [app]. rewrite launched_launch, launched_pause.
        cbn [List.map]. split.
        -- destruct (launched rest) as [|b bs] eqn:Lr;
             [cbn [List.length] in D; lia|].
           rewrite A at 1. reflexivity.
        -- intros [|k] Hk; cbn [nth].
           ++ rewrite Nat.mul_0_r, Nat.add_0_r. reflexivity.
           ++ cbn [List.length] in Hk. rewrite B by lia. do 2 f_equal. lia.
      * apply Nat.ltb_ge in M.
        assert (E : launched rest = []).
        { destruct (launched rest); [reflexivity|cbn [List.length] in C; lia]. }
        assert (E' : rest = []).
        { rewrite A, E. reflexivity. }
        rewrite E'. cbn [app]. rewrite launched_launch.
        change (launched []) with (@nil (list string)).
        cbn [List.map separatedBy].
        split; [reflexivity|].
        intros [|k] Hk; cbn [nth List.length] in *; [|lia].
        rewrite Nat.mul_0_r, Nat.add_0_r. reflexivity.
    + simpl. split; [reflexivity|]. intros k Hk. lia.
Qed.

(** X17.  The course tabs are opened in batches of three: every link is
    launched once, in order; every batch holds one to three links, and
    batch [k] holds the three links from position [3 * k] on, or those
    that are left; there are as many batches as the links need.  The
    loop starts with a batch and ends with one, and between two batches
    that follow each other, and nowhere else, it pauses for 250 ms. *)
Theorem openInBatches_covers_links :
  forall links : list string,
    let steps := openInBatches links in
    List.concat (launched steps) = links
    /\ Forall (fun b => (1 <= List.length b <= 3)%nat) (launched steps)
    /\ List.length (launched steps) = ((List.length links + 2) / 3)%nat
    /\ pauses steps = (List.length (launched steps) - 1)%nat
    /\ (forall k : nat,
          (k < List.length (launched steps))%nat ->
          nth k (launched steps) [] = firstn 3 (skipn (3 * k) links))
    /\ steps = separatedBy (Pause 250) (List.map Launch (launched steps)).
Proof.
  intros links steps. unfold steps, openInBatches.
  destruct (batchLoop_spec links (List.length links) 0) as [A [B [C [D E]]]];
    [lia|].
  destruct (batchLoop_steps links (List.length links) 0) as [F G]; [lia|].
  rewrite Nat.sub_0_r in C, D.
  split; [exact A|]. split; [exact B|].
  split; [|split; [exact E|split; [exact G|exact F]]].
  set (n := List.length (launched (batchLoop (List.length links) 0 links))) in *.
  apply Nat.div_unique with (r := (List.length links + 2 - 3 * n)%nat); lia.
Qed.

(** ** The course links of the PrairieLearn flow *)

Lemma uniqueFrom_spec (links seen : list string) :
  NoDup (uniqueFrom seen links)
  /\ (forall x, In x (uniqueFrom seen links) <-> In x links /\ ~ In x seen).
Proof.
  revert seen. induction links as [|h rest IH]; intro seen; simpl.
  - split; [constructor|]. intro x. tauto.
  - destruct (existsb (String.eqb h) seen) eqn:E.
    + destruct (IH seen) as [N I]. split; [exact N|].
      intro x. rewrite I. split; [tauto|].
      intros [[<-|H] S]; [|tauto].
      exfalso. apply S. apply existsb_exists in E. destruct E as [y [Hy Ey]].
      apply String.eqb_eq in Ey. subst y. exact Hy.
    + destruct (IH (h :: seen)) as [N I]. split.
      * constructor; [|exact N]. rewrite I. simpl. tauto.
      * intro x. simpl. rewrite I. simpl.
        assert (Hn : ~ In h seen).
        { intro Hin. assert (X : existsb (String.eqb h) seen = true).
          { apply existsb_exists. exists h. split; [exact Hin|apply String.eqb_refl]. }
          congruence. }
        destruct (string_dec h x) as [->|D]; [tauto|]. tauto.
Qed.

Lemma firstn_subset {A : Type} (n : nat) (l : list A) (x : A) :
  In x (firstn n l) -> In x l.
Proof.
  revert n. induction l as [|y l IH]; intros [|n]; simpl; try tauto.
  intros [H|H]; [left; exact H|right; eapply IH; exact H].
Qed.

Lemma NoDup_firstn {A : Type} (n : nat) (l : list A) :
  NoDup l -> NoDup (firstn n l).
Proof.
  revert n. induction l as [|x l IH]; intros [|n] H; simpl; try constructor.
  - inversion H as [|? ? Hn Hd]; subst. intro Hin. apply Hn.
    eapply firstn_subset. exact Hin.
  - inversion H; subst. apply IH. assumption.
Qed.

(** X18.  The PrairieLearn flow opens at most twenty course tabs, no link
    twice, every link one that the page script returned, normalised; it
    opens them in seven batches at most. *)
Theorem prairieLearnLinks_bounded :
  forall (normalise : string -> string) (results : list string),
    let links := prairieLearnLinks normalise results in
    NoDup links
    /\ (List.length links <= 20)%nat
    /\ incl links (List.map normalise results)
    /\ ((List.length results <= 20)%nat -> NoDup (List.map normalise results) ->
        links = List.map normalise results)
    /\ (List.length (launched (openInBatches links)) <= 7)%nat.
Proof.
  intros normalise results links. unfold links, prairieLearnLinks, unique.
  destruct (uniqueFrom_spec (List.map normalise results) []) as [N I].
  assert (Len : (List.length (firstn 20 (uniqueFrom [] (List.map normalise results)))
                 <= 20)%nat) by (rewrite length_firstn; lia).
  split; [apply NoDup_firstn; exact N|]. split; [exact Len|]. split; [|split].
  - intros x Hx. apply firstn_subset in Hx. apply I in Hx. apply Hx.
  - intros L Nd.
    assert (U : forall l seen, NoDup l -> (forall x, In x l -> ~ In x seen) ->
                uniqueFrom seen l = l).
    { clear. induction l as [|h rest IH]; intros seen Nd Hs; simpl; [reflexivity|].
      inversion Nd as [|? ? Hn Hd]; subst.
      destruct (existsb (String.eqb h) seen) eqn:E.
      - exfalso. apply existsb_exists in E. destruct E as [y [Hy Ey]].
        apply String.eqb_eq in Ey. subst y. apply (Hs h); [left; reflexivity|exact Hy].
      - f_equal. apply IH; [exact Hd|].
        intros x Hx [<-|Hin]; [contradiction|].
        apply (Hs x); [right; exact Hx|exact Hin]. }
    rewrite U; [|exact Nd|intros x _ []].
    apply firstn_all2. rewrite length_map. exact L.
  - destruct (batchLoop_spec
                (firstn 20 (uniqueFrom [] (List.map normalise results)))
                (List.length (firstn 20 (uniqueFrom [] (List.map normalise results))))
                0) as [_ [_ [C _]]]; [lia|].
    unfold openInBatches. lia.
Qed.

Lemma prairieLearnLinks_bounded_witness :
  (List.length ["https://pl/1"; "https://pl/2"] <= 20)%nat
  /\ NoDup (List.map (fun h => h ++ "/assessments") ["https://pl/1"; "https://pl/2"])
  /\ prairieLearnLinks (fun h => h ++ "/assessments") ["https://pl/1"; "https://pl/2"]
     = ["https://pl/1/assessments"; "https://pl/2/assessments"].
Proof.
  assert (L : (List.length ["https://pl/1"; "https://pl/2"] <= 20)%nat)
    by (simpl; lia).
  assert (N : NoDup (List.map (fun h => h ++ "/assessments")
                              ["https://pl/1"; "https://pl/2"])).
  { simpl. constructor.
    - intros [E|[]]. discriminate E.
    - constructor; [intros []|constructor]. }
  split; [exact L|]. split; [exact N|].
  exact (proj1 (proj2 (proj2 (proj2
           (prairieLearnLinks_bounded (fun h => h ++ "/assessments")
              ["https://pl/1"; "https://pl/2"])))) L N).
Defined.

Example batches_of_seven :
  openInBatches ["a"; "b"; "c"; "d"; "e"; "f"; "g"]
  = [Launch ["a"; "b"; "c"]; Pause 250; Launch ["d"; "e"; "f"]; Pause 250;
     Launch ["g"]].
Proof. reflexivity. Qed.

End WorkerFacts.

(** * Properties of the scraped records *)

Module ScraperFacts.
Import JsString Background BackgroundFacts Fragments Scrapers.

Local Open Scope string_scope.
Local Open Scope Z_scope.

(** ** Replacing the characters of a class *)


Lemma replaceFrom_class (p : ascii -> bool) (n : nat) (by_ : string)
    (prev : option ascii) (s : string) :
  replaceFrom (Cls p) n by_ O prev s = replaceEach p by_ s.
Proof.
  revert prev. induction s as [|c s IH]; intro prev; [reflexivity|].
  cbn [replaceFrom replaceEach]. unfold matchHere. cbn [matchAt].
  destruct (p c).
  - replace (String.length (String c s) - String.length s)%nat with 1%nat
      by (cbn [String.length]; lia).
    rewrite IH. reflexivity.
  - rewrite IH. reflexivity.
Qed.

Lemma replaceAll_class (p : ascii -> bool) (n : nat) (by_ : string) (s : string) :
  replaceAll (Cls p) n by_ s = replaceEach p by_ s.
Proof. apply replaceFrom_class. Qed.

Lemma replaceEach_length (p : ascii -> bool) (c : ascii) (s : string) :
  String.length (replaceEach p (String c "") s) = String.length s.
Proof. induction s as [|x s IH]; simpl; [reflexivity|]. destruct (p x); simpl; rewrite IH; reflexivity. Qed.

Lemma replaceEach_allChars (p q : ascii -> bool) (c : ascii) (s : string) :
  q c = true -> (forall x, p x = false -> q x = true) ->
  allChars q (replaceEach p (String c "") s) = true.
Proof.
  intros Hc Hq. induction s as [|x s IH]; simpl; [reflexivity|].
  destruct (p x) eqn:E; simpl; rewrite IH.
  - rewrite Hc. reflexivity.
  - rewrite (Hq x E). reflexivity.
Qed.

Lemma replaceEach_app (p : ascii -> bool) (by_ a b : string) :
  replaceEach p by_ (a ++ b) = replaceEach p by_ a ++ replaceEach p by_ b.
Proof.
  induction a as [|x a IH]; simpl; [reflexivity|].
  destruct (p x); rewrite IH; [|reflexivity].
  symmetry. apply NormaliserFacts.app_assoc_string.
Qed.

Lemma replaceEach_fixed (p : ascii -> bool) (by_ s : string) :
  without p s = true -> replaceEach p by_ s = s.
Proof.
  unfold without. induction s as [|x s IH]; simpl; [reflexivity|].
  intro H. apply andb_true_iff in H. destruct H as [H1 H2].
  apply negb_true_iff in H1. rewrite H1, IH by exact H2. reflexivity.
Qed.

(** X21.  The id of a scraped record is made of letters, digits and dashes
    only and is as long as the name of the site, a dash and the link; it
    starts with the name of the site, so that no record of one site is
    filed under the id of a record of the other; and it is the same for two
    links that differ only in characters that are replaced. *)
Theorem scraped_ids :
  forall link href : string,
    allChars isIdChar (prairieLearnId link) = true
    /\ allChars isIdChar (gradescopeId href) = true
    /\ String.length (prairieLearnId link) = (13 + String.length link)%nat
    /\ String.length (gradescopeId href) = (11 + String.length href)%nat
    /\ prairieLearnId link = "prairielearn-" ++ replaceEach (fun c => negb (isIdChar c)) "-" link
    /\ gradescopeId href = "gradescope-" ++ replaceEach (fun c => negb (isIdChar c)) "-" href
    /\ prairieLearnId link <> gradescopeId href.
Proof.
  intros link href. unfold prairieLearnId, gradescopeId, nonIdRe.
  rewrite !replaceAll_class.
  assert (P : replaceEach (fun c => negb (isIdChar c)) "-" ("prairielearn-" ++ link)
              = "prairielearn-" ++ replaceEach (fun c => negb (isIdChar c)) "-" link).
  { rewrite replaceEach_app. reflexivity. }
  assert (G : replaceEach (fun c => negb (isIdChar c)) "-" ("gradescope-" ++ href)
              = "gradescope-" ++ replaceEach (fun c => negb (isIdChar c)) "-" href).
  { rewrite replaceEach_app. reflexivity. }
  split; [|split; [|split; [|split; [|split; [|split]]]]].
  - apply replaceEach_allChars; [reflexivity|].
    intros x H. apply negb_false_iff in H. exact H.
  - apply replaceEach_allChars; [reflexivity|].
    intros x H. apply negb_false_iff in H. exact H.
  - rewrite replaceEach_length. reflexivity.
  - rewrite replaceEach_length. reflexivity.
  - exact P.
  - exact G.
  - rewrite P, G. discriminate.
Qed.

End ScraperFacts.

(** * Properties of the popup *)

Module PopupFacts.
Import JsString Background BackgroundFacts Fragments Scrapers ScraperFacts.
Import StoreFacts Popup.

Local Open Scope string_scope.
Local Open Scope Z_scope.

(** ** The list of the popup *)


Lemma partition_filters (now : Z) (l : list Item) (p : Partition) :
  overdueItems (fold_left (classify now) l p)
  = (overdueItems p ++ filter (isOverdue now) l)%list
  /\ Popup.upcomingItems (fold_left (classify now) l p)
     = (Popup.upcomingItems p ++ filter (isUpcoming now) l)%list
  /\ doneItems (fold_left (classify now) l p)
     = (doneItems p ++ filter (fun it => truthy (done it)) l)%list.
Proof.
  revert p. induction l as [|x l IH]; intro p; cbn [fold_left filter].
  - rewrite !app_nil_r. repeat split.
  - destruct (IH (classify now p x)) as [A [B C]]. rewrite A, B, C.
    unfold classify, isOverdue, isUpcoming.
    destruct (truthy (done x)); cbn [negb andb overdueItems Popup.upcomingItems doneItems].
    + rewrite <- app_assoc. repeat split.
    + destruct (dueDate x <? now);
        cbn [negb overdueItems Popup.upcomingItems doneItems];
        rewrite <- app_assoc; repeat split.
Qed.

Lemma insert_before (x : Item) (l1 l2 : list Item) :
  (forall y, In y l2 -> dueDate x <= dueDate y) ->
  insertByDueDate x (l1 ++ l2) = (insertByDueDate x l1 ++ l2)%list.
Proof.
  intro H. induction l1 as [|z l1 IH]; simpl.
  - destruct l2 as [|y l2]; [reflexivity|]. simpl.
    destruct (dueDate x <=? dueDate y) eqn:E; [reflexivity|].
    specialize (H y (or_introl eq_refl)). lia.
  - destruct (dueDate x <=? dueDate z); [reflexivity|]. simpl. rewrite IH.
    reflexivity.
Qed.

Lemma sort_app (l1 l2 : list Item) :
  (forall x y, In x l1 -> In y l2 -> dueDate x <= dueDate y) ->
  sortByDueDate (l1 ++ l2) = (sortByDueDate l1 ++ sortByDueDate l2)%list.
Proof.
  intro H. induction l1 as [|x l1 IH]; simpl; [reflexivity|].
  rewrite IH by (intros a b Ha Hb; apply H; [right; exact Ha|exact Hb]).
  apply insert_before. intros y Hy. apply (H x y); [left; reflexivity|].
  eapply Permutation_in; [apply Permutation_sym, sortByDueDate_perm|exact Hy].
Qed.


(** X19.  The two views of the popup share the records out: a record is listed
    under Done when its done flag is set and under Upcoming when it is not,
    never under both and never under neither.  Each view is in ascending
    order of due date, and the Upcoming view lists the overdue records
    first, then the records still to come, each group in order of due
    date. *)
Theorem popup_views_partition :
  forall (now : Z) (allItems : list Item),
    Permutation (filteredItems now FilterUpcoming allItems
                 ++ filteredItems now FilterDone allItems) allItems
    /\ (forall currentFilter : Filter,
          Sorted byDueDate (filteredItems now currentFilter allItems))
    /\ (forall item : Item,
          In item (filteredItems now FilterDone allItems)
          <-> In item allItems /\ done item = Some true)
    /\ (forall item : Item,
          In item (filteredItems now FilterUpcoming allItems)
          <-> In item allItems /\ done item <> Some true)
    /\ filteredItems now FilterUpcoming allItems
       = (sortByDueDate (filter (isOverdue now) allItems)
          ++ sortByDueDate (filter (isUpcoming now) allItems))%list.
Proof.
  intros now allItems.
  destruct (partition_filters now allItems
              {| overdueItems := []; Popup.upcomingItems := []; doneItems := [] |})
    as [A [B C]].
  cbn [overdueItems Popup.upcomingItems doneItems app] in A, B, C.
  assert (U : filteredItems now FilterUpcoming allItems
              = sortByDueDate (filter (isOverdue now) allItems
                               ++ filter (isUpcoming now) allItems)).
  { unfold filteredItems, partitionItems. rewrite A, B. reflexivity. }
  assert (D : filteredItems now FilterDone allItems
              = sortByDueDate (filter (fun it => truthy (done it)) allItems)).
  { unfold filteredItems, partitionItems. rewrite C. reflexivity. }
  assert (InU : forall item, In item (filteredItems now FilterUpcoming allItems)
                  <-> In item allItems /\ done item <> Some true).
  { intro item. rewrite U. split.
    - intro H.
      apply (Permutation_in _ (Permutation_sym (sortByDueDate_perm _))) in H.
      apply in_app_or in H. destruct H as [H|H]; apply filter_In in H;
        destruct H as [H1 H2]; (split; [exact H1|]);
        apply andb_true_iff in H2; destruct H2 as [H2 _];
        apply negb_true_iff in H2; apply truthy_false_iff; exact H2.
    - intros [H1 H2]. apply (Permutation_in _ (sortByDueDate_perm _)).
      apply truthy_false_iff in H2. apply in_or_app.
      destruct (dueDate item <? now) eqn:E; [left|right]; apply filter_In;
        (split; [exact H1|]); unfold isOverdue, isUpcoming; rewrite H2, E;
        reflexivity. }
  assert (InD : forall item, In item (filteredItems now FilterDone allItems)
                  <-> In item allItems /\ done item = Some true).
  { intro item. rewrite D. split.
    - intro H.
      apply (Permutation_in _ (Permutation_sym (sortByDueDate_perm _))) in H.
      apply filter_In in H. destruct H as [H1 H2]. split; [exact H1|].
      apply truthy_true. exact H2.
    - intros [H1 H2]. apply (Permutation_in _ (sortByDueDate_perm _)).
      apply filter_In. split; [exact H1|]. apply truthy_true. exact H2. }
  split; [|split; [|split; [exact InD|split; [exact InU|]]]].
  - rewrite U, D.
    eapply perm_trans.
    { apply Permutation_app; apply Permutation_sym, sortByDueDate_perm. }
    clear. induction allItems as [|x l IH]; simpl; [constructor|].
    unfold isOverdue, isUpcoming.
    destruct (truthy (done x)); cbn [negb andb].
    + eapply perm_trans; [apply Permutation_sym, Permutation_middle|].
      apply perm_skip. exact IH.
    + destruct (dueDate x <? now); cbn [negb].
      * simpl. apply perm_skip. exact IH.
      * eapply perm_trans.
        { apply Permutation_app_tail. apply Permutation_sym, Permutation_middle. }
        simpl. apply perm_skip. exact IH.
  - intro currentFilter. unfold filteredItems. apply sortByDueDate_sorted.
  - rewrite U. apply sort_app. intros x y Hx Hy.
    apply filter_In in Hx. apply filter_In in Hy.
    destruct Hx as [_ Hx]. destruct Hy as [_ Hy].
    unfold isOverdue in Hx. unfold isUpcoming in Hy.
    apply andb_true_iff in Hx. apply andb_true_iff in Hy.
    destruct Hx as [_ Hx]. destruct Hy as [_ Hy].
    apply negb_true_iff in Hy. lia.
Qed.

(** X20.  [now] is the clock that [createListItem] reads.  The chip of a
    record that is due now or overdue is urgent, the chip of a record due
    within three days, to the millisecond, is a warning, and the chip of a
    record due later is normal: a record due in one hour is a warning, not
    urgent.  The chip of a record that is not done reads "Overdue" exactly
    when its due date has passed.  [renderList] has read the clock before,
    at [renderNow]: a record that it filed among the overdue records is
    shown "Overdue", and a record shown "Overdue" was filed among the
    overdue records unless it fell due between the two readings, in which
    case it was filed among the records to come. *)
Theorem timeClass_thresholds :
  forall (now : Z) (item : Item),
    let t := dueDate item - now in
    (t <= 0 -> timeClass now item = "urgent")
    /\ (0 < t <= 3 * 24 * 60 * 60 * 1000 -> timeClass now item = "warning")
    /\ (3 * 24 * 60 * 60 * 1000 < t -> timeClass now item = "normal")
    /\ (timeText now item = Overdue <-> done item <> Some true /\ t < 0)
    /\ (forall renderNow : Z,
          renderNow <= now ->
          (isOverdue renderNow item = true -> timeText now item = Overdue)
          /\ (timeText now item = Overdue ->
              isOverdue renderNow item = true
              \/ (isUpcoming renderNow item = true
                  /\ renderNow <= dueDate item < now))).
Proof.
  intros now item t. unfold timeClass, timeText. fold t.
  unfold ceilDiv, msPerDay.
  set (q := - t / (24 * 60 * 60 * 1000)).
  assert (Q : (24 * 60 * 60 * 1000) * q <= - t < (24 * 60 * 60 * 1000) * q + 24 * 60 * 60 * 1000).
  { unfold q. pose proof (Z.mul_div_le (- t) (24 * 60 * 60 * 1000)).
    pose proof (Z.mul_succ_div_gt (- t) (24 * 60 * 60 * 1000)). lia. }
  split; [|split; [|split; [|split]]].
  - intro H. destruct (t <? 0) eqn:E; [reflexivity|].
    assert (t = 0) by lia. assert (q = 0) by lia.
    replace (- q =? 0) with true by (symmetry; apply Z.eqb_eq; lia). reflexivity.
  - intro H. destruct (t <? 0) eqn:E; [lia|].
    destruct (- q =? 0) eqn:E0; [lia|].
    destruct (- q =? 1) eqn:E1; [reflexivity|].
    destruct (- q <=? 3) eqn:E3; [reflexivity|lia].
  - intro H. destruct (t <? 0) eqn:E; [lia|].
    destruct (- q =? 0) eqn:E0; [lia|].
    destruct (- q =? 1) eqn:E1; [lia|].
    destruct (- q <=? 3) eqn:E3; [lia|reflexivity].
  - destruct (truthy (done item)) eqn:D.
    + apply truthy_true in D. split; [discriminate|]. intros [N _]. contradiction.
    + apply truthy_false_iff in D. destruct (t <? 0) eqn:E.
      * split; [intros _; split; [exact D|lia]|reflexivity].
      * split; [discriminate|]. intros [_ L]. lia.
  - intros renderNow Hr. unfold isOverdue, isUpcoming.
    destruct (truthy (done item)); cbn [negb andb];
      [split; discriminate|].
    destruct (dueDate item <? renderNow) eqn:F; cbn [negb].
    + apply Z.ltb_lt in F. split; [|intros _; left; reflexivity].
      intros _. replace (t <? 0) with true by (symmetry; apply Z.ltb_lt; lia).
      reflexivity.
    + apply Z.ltb_ge in F. split; [discriminate|].
      destruct (t <? 0) eqn:E; [|discriminate].
      apply Z.ltb_lt in E. intros _. right. split; [reflexivity|lia].
Qed.

(** The two readings of the clock do differ in what they show: a record
    due between them is filed among the records to come and shown
    "Overdue". *)
Example due_between_the_readings :
  isUpcoming 0 (hw "a" 5) = true /\ timeText 10 (hw "a" 5) = Overdue.
Proof. split; reflexivity. Qed.

Lemma timeClass_thresholds_witness :
  0 < dueDate (hw "a" 3600000) - 0 <= 3 * 24 * 60 * 60 * 1000
  /\ timeClass 0 (hw "a" 3600000) = "warning".
Proof.
  assert (H : 0 < dueDate (hw "a" 3600000) - 0 <= 3 * 24 * 60 * 60 * 1000)
    by (simpl; lia).
  split; [exact H|].
  exact (proj1 (proj2 (timeClass_thresholds 0 (hw "a" 3600000))) H).
Defined.

(** ** The class name of a source *)


Lemma lowerChar_alphanumeric (c : ascii) :
  isAlphanumeric c = true -> (isLower (lowerChar c) || isDigit (lowerChar c)) = true.
Proof.
  revert c.
  assert (H : forallb (fun c => implb (isAlphanumeric c)
                                  (isLower (lowerChar c) || isDigit (lowerChar c)))
                      allAscii = true) by (vm_compute; reflexivity).
  intros c Hc. rewrite forallb_forall in H.
  specialize (H c (NormaliserFacts.in_allAscii c)). rewrite Hc in H. exact H.
Qed.

(** X22.  The class name made of the source of a record holds lower-case
    letters and digits only, whatever the source; of a source made of
    letters and digits it is the source in lower case. *)
Theorem sourceClass_alphanumeric :
  forall item : Item,
    allChars (fun c => isLower c || isDigit c) (sourceClass item) = true
    /\ (allChars isAlphanumeric (source item) = true ->
        sourceClass item = toLowerCase (source item)).
Proof.
  intro item. unfold sourceClass, nonAlphanumericRe. rewrite replaceAll_class.
  split.
  - induction (source item) as [|x s IH]; simpl; [reflexivity|].
    destruct (isAlphanumeric x) eqn:E; simpl; [|exact IH].
    rewrite IH, andb_true_r. apply lowerChar_alphanumeric. exact E.
  - intro H. rewrite replaceEach_fixed; [reflexivity|].
    unfold without. induction (source item) as [|x s IH]; simpl in *; [reflexivity|].
    apply andb_true_iff in H. destruct H as [H1 H2]. rewrite H1, IH by exact H2.
    reflexivity.
Qed.

Lemma sourceClass_alphanumeric_witness :
  allChars isAlphanumeric (source otherHW) = true
  /\ sourceClass otherHW = "prairielearn".
Proof.
  split; [reflexivity|].
  exact (proj2 (sourceClass_alphanumeric otherHW) eq_refl).
Defined.

(** ** The checkbox and its undo *)

Lemma insert_map (g : Item -> Item) (x : Item) (l : list Item) :
  (forall y, dueDate (g y) = dueDate y) ->
  insertByDueDate (g x) (List.map g l) = List.map g (insertByDueDate x l).
Proof.
  intro H. induction l as [|y l IH]; simpl; [reflexivity|].
  rewrite !H. destruct (dueDate x <=? dueDate y); simpl; [reflexivity|].
  rewrite IH. reflexivity.
Qed.

Lemma sort_map (g : Item -> Item) (l : list Item) :
  (forall y, dueDate (g y) = dueDate y) ->
  sortByDueDate (List.map g l) = List.map g (sortByDueDate l).
Proof.
  intro H. induction l as [|x l IH]; simpl; [reflexivity|].
  rewrite IH. apply insert_map. exact H.
Qed.

Lemma filteredItems_filters (now : Z) (currentFilter : Filter) (l : list Item) :
  filteredItems now currentFilter l
  = sortByDueDate
      (match currentFilter with
       | FilterDone => filter (fun it => truthy (done it)) l
       | FilterUpcoming =>
           (filter (isOverdue now) l ++ filter (isUpcoming now) l)%list
       end).
Proof.
  destruct (partition_filters now l
              {| overdueItems := []; Popup.upcomingItems := []; doneItems := [] |})
    as [A [B C]].
  cbn [overdueItems Popup.upcomingItems doneItems app] in A, B, C.
  unfold filteredItems, partitionItems. rewrite A, B, C.
  destruct currentFilter; reflexivity.
Qed.

Lemma filteredItems_map (g : Item -> Item) (now : Z) (currentFilter : Filter)
    (l : list Item) :
  (forall y, dueDate (g y) = dueDate y) ->
  (forall y, truthy (done (g y)) = truthy (done y)) ->
  filteredItems now currentFilter (List.map g l)
  = List.map g (filteredItems now currentFilter l).
Proof.
  intros Hd Ht. rewrite !filteredItems_filters.
  rewrite <- sort_map by exact Hd. f_equal.
  destruct currentFilter.
  - rewrite map_app, !filter_map_swap. f_equal; f_equal; apply filter_ext;
      intro x; unfold isOverdue, isUpcoming; rewrite Hd, Ht; reflexivity.
  - rewrite filter_map_swap. f_equal. apply filter_ext. intro x. apply Ht.
Qed.

Lemma in_done_view (now : Z) (l : list Item) (i : string) :
  In i (List.map id (filteredItems now FilterDone l))
  <-> exists y, In y l /\ id y = i /\ truthy (done y) = true.
Proof.
  rewrite filteredItems_filters, in_map_iff. split.
  - intros [y [E H]]. exists y.
    apply (Permutation_in _ (Permutation_sym (sortByDueDate_perm _))) in H.
    apply filter_In in H. tauto.
  - intros [y [H [E T]]]. exists y. split; [exact E|].
    apply (Permutation_in _ (sortByDueDate_perm _)). apply filter_In. tauto.
Qed.

(** X26.  A change of the checkbox of a listed record moves the record, and no
    other, to the other view; the Undo of the snackbar brings both views
    back to what they were, and the stored document too when the done flag
    of the record had been written before. *)
Theorem undo_restores_the_views :
  forall (data : Storage) (item : Item),
    wellFormed (items data) -> In item (items data) ->
    let changed := fst (handle (checkboxChange item) data) in
    let undone := fst (handle (undo item) changed) in
    (forall (now : Z) (currentFilter : Filter),
        List.map id (filteredItems now currentFilter (items undone))
        = List.map id (filteredItems now currentFilter (items data)))
    /\ (forall (now : Z) (other : string),
          In other (List.map id (filteredItems now FilterDone (items changed)))
          <-> (other = id item /\ truthy (done item) = false)
              \/ (other <> id item
                  /\ In other (List.map id
                                 (filteredItems now FilterDone (items data)))))
    /\ (done item <> None -> undone = data).
Proof.
  intros data item W Hin changed undone.
  assert (U : forall y, In y (items data) -> id y = id item -> y = item).
  { intros y Hy E. apply (wellFormed_unique (items data)); assumption. }
  assert (Eu : undone = toggleItemDone (id item) (truthy (done item)) data).
  { unfold undone, changed. cbn [handle fst undo checkboxChange].
    apply toggle_twice. }
  split; [|split].
  - intros now currentFilter. rewrite Eu, toggle_items.
    set (g := fun y : Item =>
                if String.eqb (id y) (id item)
                then set_done (Some (truthy (done y))) y else y).
    rewrite (map_ext_in _ g).
    + rewrite filteredItems_map, map_map.
      * apply map_ext. intro y. unfold g.
        destruct (String.eqb (id y) (id item)); reflexivity.
      * intro y. unfold g. destruct (String.eqb (id y) (id item)); reflexivity.
      * intro y. unfold g. destruct (String.eqb (id y) (id item)); [|reflexivity].
        simpl. destruct (done y) as [[|]|]; reflexivity.
    + intros y Hy. unfold g.
      destruct (String.eqb (id y) (id item)) eqn:E; [|reflexivity].
      apply String.eqb_eq in E. rewrite (U y Hy E). reflexivity.
  - intros now other. rewrite !in_done_view.
    unfold changed. cbn [handle fst checkboxChange]. rewrite toggle_items.
    split.
    + intros [y' [H [E T]]]. apply in_map_iff in H. destruct H as [y [Ey Hy]].
      destruct (String.eqb (id y) (id item)) eqn:Q; subst y'.
      * apply String.eqb_eq in Q. left. simpl in E, T. split; [congruence|].
        destruct (truthy (done item)); [discriminate T|reflexivity].
      * apply String.eqb_neq in Q. right. split; [congruence|].
        exists y. tauto.
    + intros [[E T]|[N [y [Hy [E T]]]]].
      * exists (set_done (Some (negb (truthy (done item)))) item).
        split; [|split; [simpl; congruence|simpl; rewrite T; reflexivity]].
        apply in_map_iff. exists item. rewrite String.eqb_refl. tauto.
      * exists y. split; [|tauto]. apply in_map_iff. exists y.
        destruct (String.eqb (id y) (id item)) eqn:Q; [|tauto].
        apply String.eqb_eq in Q. congruence.
  - intro D. rewrite Eu. apply storage_eq; [|reflexivity]. rewrite toggle_items.
    apply map_unchanged. intros y Hy.
    destruct (String.eqb (id y) (id item)) eqn:E; [|reflexivity].
    apply String.eqb_eq in E. rewrite (U y Hy E).
    destruct item as [i t du c l s p [[|]|] n]; try reflexivity.
    contradiction.
Qed.

Lemma undo_restores_the_views_witness :
  wellFormed (items notifiedStore) /\ In storedHW1 (items notifiedStore)
  /\ fst (handle (undo storedHW1)
            (fst (handle (checkboxChange storedHW1) notifiedStore)))
     = notifiedStore.
Proof.
  assert (I : In storedHW1 (items notifiedStore)) by (left; reflexivity).
  split; [exact wellFormed_example|]. split; [exact I|].
  apply (proj2 (proj2 (undo_restores_the_views notifiedStore storedHW1
                         wellFormed_example I))).
  discriminate.
Defined.

(** ** The refresh button *)

Lemma includes_shorter (a b s : string) :
  includes (a ++ b) s = true -> includes a s = true.
Proof.
  intro H. apply NormaliserFacts.includes_split in H. destruct H as [x [y ->]].
  rewrite NormaliserFacts.app_assoc_string. apply NormaliserFacts.includes_app.
Qed.

(** X29.  On every page where the service worker injects the Gradescope
    scraper by itself, the refresh button injects the Gradescope scraper
    too; the button starts the scrape of both sites exactly when the
    address of the active tab names neither. *)
Theorem refresh_follows_auto_injection :
  forall (status : option string) (url : string),
    (Worker.autoInjects status (Some url) = true ->
     refreshAction url = InjectScript "../content-scripts/scrape-gradescope.js")
    /\ (refreshAction url = ScrapeAllSites
        <-> includes "gradescope.com" url = false
            /\ includes "prairielearn.com" url = false)
    /\ (refreshAction url = InjectScript "../content-scripts/scrape-prairielearn.js"
        -> Worker.autoInjects status (Some url) = false).
Proof.
  intros status url.
  assert (A : Worker.autoInjects status (Some url) = true ->
              includes "gradescope.com" url = true).
  { unfold Worker.autoInjects. intro H.
    apply andb_true_iff in H. destruct H as [_ H].
    apply andb_true_iff in H. destruct H as [_ H].
    apply (includes_shorter "gradescope.com" "/courses/"). exact H. }
  unfold refreshAction. split; [|split].
  - intro H. rewrite (A H). reflexivity.
  - destruct (includes "gradescope.com" url);
      [split; [discriminate|intros [H _]; discriminate H]|].
    destruct (includes "prairielearn.com" url);
      [split; [discriminate|intros [_ H]; discriminate H]|].
    split; [split; reflexivity|reflexivity].
  - destruct (includes "gradescope.com" url) eqn:G;
      [intro Q; injection Q as Q; discriminate Q|].
    intros _. destruct (Worker.autoInjects status (Some url)) eqn:E; [|reflexivity].
    discriminate (A eq_refl).
Qed.

Lemma refresh_follows_auto_injection_witness :
  Worker.autoInjects (Some "complete")
    (Some "https://www.gradescope.com/courses/123") = true
  /\ refreshAction "https://www.gradescope.com/courses/123"
     = InjectScript "../content-scripts/scrape-gradescope.js".
Proof.
  split; [reflexivity|].
  exact (proj1 (refresh_follows_auto_injection (Some "complete")
                  "https://www.gradescope.com/courses/123") eq_refl).
Defined.

End PopupFacts.

(** * Properties of the options page *)

Module OptionsFacts.
Import JsString Background BackgroundFacts Options.

Local Open Scope string_scope.
Local Open Scope Z_scope.

(** ** The options page *)


Lemma parseRadix_acc (u : Decimal.uint) (p : positive) :
  parseRadix 10 (Some (Z.pos p)) (NilEmpty.string_of_uint u)
  = Some (Z.pos (Pos.of_uint_acc u p)).
Proof.
  revert p. induction u; intro p; cbn [NilEmpty.string_of_uint parseRadix Pos.of_uint_acc];
    [reflexivity| | | | | | | | | |];
    match goal with
    | |- context [digitOf 10 ?c] =>
        let v := eval vm_compute in (digitOf 10 c) in
        change (digitOf 10 c) with v
    end; cbv iota beta; rewrite <- IHu; f_equal; f_equal; lia.
Qed.

Lemma parseRadix_zero (u : Decimal.uint) :
  parseRadix 10 (Some 0) (NilEmpty.string_of_uint u)
  = Some (Z.of_N (Pos.of_uint u)).
Proof.
  induction u; cbn [NilEmpty.string_of_uint parseRadix Pos.of_uint];
    [reflexivity| | | | | | | | | |];
    match goal with
    | |- context [digitOf 10 ?c] =>
        let v := eval vm_compute in (digitOf 10 c) in
        change (digitOf 10 c) with v
    end; cbv iota beta;
    first [ exact IHu | apply (parseRadix_acc u) ].
Qed.

Lemma parseRadix_none (u : Decimal.uint) :
  u <> Decimal.Nil ->
  parseRadix 10 None (NilEmpty.string_of_uint u) = Some (Z.of_N (Pos.of_uint u)).
Proof.
  destruct u; intro H; [contradiction| | | | | | | | | |];
    cbn [NilEmpty.string_of_uint parseRadix Pos.of_uint];
    match goal with
    | |- context [digitOf 10 ?c] =>
        let v := eval vm_compute in (digitOf 10 c) in
        change (digitOf 10 c) with v
    end; cbv iota beta;
    first [ apply parseRadix_zero | apply (parseRadix_acc u) ].
Qed.

(** The text of a number of at least one digit is read back as the
    number. *)
Lemma parseInt_digits_head (c : ascii) (s : string) :
  isDigit c = true ->
  (c = "0"%char -> match s with
                   | String x _ => isDigit x = true
                   | EmptyString => True
                   end) ->
  parseInt (String c s)
  = match parseRadix 10 None (String c s) with
    | Some v => Some (1 * v)
    | None => None
    end
  /\ parseInt (String "-" (String c s))
     = match parseRadix 10 None (String c s) with
       | Some v => Some (-1 * v)
       | None => None
       end.
Proof.
  intros D Z0.
  assert (Sp : isSpace c = false).
  { revert D. clear. destruct c as [[] [] [] [] [] [] [] []]; vm_compute; congruence. }
  assert (Ns : c <> "-"%char /\ c <> "+"%char).
  { split; intro E; subst c; vm_compute in D; discriminate D. }
  destruct Ns as [N1 N2].
  assert (Body : match String c s with
                 | String "0" (String "x" s') => parseRadix 16 None s'
                 | String "0" (String "X" s') => parseRadix 16 None s'
                 | _ => parseRadix 10 None (String c s)
                 end = parseRadix 10 None (String c s)).
  { destruct (Ascii.eqb c "0") eqn:E0.
    - apply Ascii.eqb_eq in E0. specialize (Z0 E0). subst c.
      destruct s as [|x s']; [reflexivity|].
      destruct (Ascii.eqb x "x") eqn:Ex;
        [apply Ascii.eqb_eq in Ex; subst x; vm_compute in Z0; discriminate Z0|].
      destruct (Ascii.eqb x "X") eqn:EX;
        [apply Ascii.eqb_eq in EX; subst x; vm_compute in Z0; discriminate Z0|].
      apply Ascii.eqb_neq in Ex, EX.
      destruct x as [[] [] [] [] [] [] [] []]; try reflexivity; congruence.
    - apply Ascii.eqb_neq in E0.
      destruct c as [[] [] [] [] [] [] [] []]; try reflexivity; congruence. }
  split.
  - unfold parseInt. cbn [trimStart]. rewrite Sp.
    replace (match String c s with String "-" _ => -1 | _ => 1 end) with 1
      by (destruct c as [[] [] [] [] [] [] [] []]; try reflexivity; congruence).
    replace (match String c s with
             | String "-" s' => s'
             | String "+" s' => s'
             | _ => String c s
             end) with (String c s)
      by (destruct c as [[] [] [] [] [] [] [] []]; try reflexivity; congruence).
    rewrite Body. reflexivity.
  - unfold parseInt. cbn [trimStart]. change (isSpace "-") with false.
    cbv iota beta. rewrite Body. reflexivity.
Qed.

Lemma string_of_uint_head (u : Decimal.uint) :
  u <> Decimal.Nil ->
  exists (c : ascii) (s : string),
    NilEmpty.string_of_uint u = String c s /\ isDigit c = true
    /\ match s with
       | String x _ => isDigit x = true
       | EmptyString => True
       end.
Proof.
  intro H. destruct u as [|l|l|l|l|l|l|l|l|l|l]; [contradiction| | | | | | | | | |];
    cbn [NilEmpty.string_of_uint]; eexists; eexists;
    (split; [reflexivity|]); (split; [reflexivity|]);
    destruct l; cbn [NilEmpty.string_of_uint]; try exact I; reflexivity.
Qed.

Lemma parseInt_unsigned (u : Decimal.uint) :
  u <> Decimal.Nil ->
  parseInt (NilEmpty.string_of_uint u) = Some (Z.of_N (Pos.of_uint u))
  /\ parseInt (String "-" (NilEmpty.string_of_uint u))
     = Some (- Z.of_N (Pos.of_uint u)).
Proof.
  intro H. pose proof (parseRadix_none u H) as P.
  destruct (string_of_uint_head u H) as [c [s [E [D X]]]].
  rewrite E in *.
  destruct (parseInt_digits_head c s D (fun _ => X)) as [A B].
  rewrite A, B, P. split; f_equal; lia.
Qed.

Lemma parseInt_toString (n : Z) : parseInt (toString n) = Some n.
Proof.
  unfold toString, decimal. destruct n as [|p|p]; [reflexivity| |].
  - cbn [Z.to_int NilZero.string_of_int].
    assert (N := DecimalPos.Unsigned.to_uint_nonnil p).
    assert (E : NilZero.string_of_uint (Pos.to_uint p)
                = NilEmpty.string_of_uint (Pos.to_uint p)).
    { destruct (Pos.to_uint p); [contradiction|reflexivity..]. }
    rewrite E. destruct (parseInt_unsigned _ N) as [A _]. rewrite A.
    rewrite DecimalPos.Unsigned.of_to. reflexivity.
  - cbn [Z.to_int NilZero.string_of_int].
    assert (N := DecimalPos.Unsigned.to_uint_nonnil p).
    assert (E : NilZero.string_of_uint (Pos.to_uint p)
                = NilEmpty.string_of_uint (Pos.to_uint p)).
    { destruct (Pos.to_uint p); [contradiction|reflexivity..]. }
    rewrite E. destruct (parseInt_unsigned _ N) as [_ A]. rewrite A.
    rewrite DecimalPos.Unsigned.of_to. reflexivity.
Qed.

(** X23.  Saving the form as the page populated it stores the settings that
    were stored: the hours, a safe integer, survive the way through their
    text.  Whatever the form holds in at most fifteen characters, a save
    that succeeds decides both settings and leaves the records alone, and
    the form loaded back shows the switch as it was and the hours in their
    plain decimal writing.  A reset stores the default settings, which are
    what the reset form shows. *)
Theorem options_round_trip :
  forall data : Storage,
    (Z.abs (notificationHours (settings data)) <= 9007199254740991 ->
     exists p : SettingsPatch,
       saveSettings (loadSettings data) = Some p /\ updateSettings p data = data)
    /\ (forall (form : Form) (p : SettingsPatch),
          (String.length (value form) <= 15)%nat ->
          saveSettings form = Some p ->
          items (updateSettings p data) = items data
          /\ exists hours : Z,
               parseInt (value form) = Some hours
               /\ settings (updateSettings p data)
                  = {| notificationsEnabled := checked form;
                       notificationHours := hours |}
               /\ loadSettings (updateSettings p data)
                  = {| checked := checked form; value := toString hours |})
    /\ settings (updateSettings (snd handleReset) data) = DEFAULT_SETTINGS
    /\ loadSettings (updateSettings (snd handleReset) data) = fst handleReset.
Proof.
  intro data. split; [|split; [|split]].
  - intros _. unfold saveSettings, loadSettings. cbn [value checked].
    rewrite parseInt_toString. eexists. split; [reflexivity|].
    destruct data as [l [e h]]. reflexivity.
  - intros form p _ H. unfold saveSettings in H.
    destruct (parseInt (value form)) as [hours|] eqn:E; [|discriminate].
    injection H as <-. split; [reflexivity|]. exists hours.
    split; [reflexivity|]. split; reflexivity.
  - reflexivity.
  - reflexivity.
Qed.

Lemma options_round_trip_witness :
  (String.length (value {| checked := false; value := " 048 hours" |}) <= 15)%nat
  /\ saveSettings {| checked := false; value := " 048 hours" |}
     = Some {| patchEnabled := Some false; patchHours := Some 48 |}
  /\ loadSettings
       (updateSettings {| patchEnabled := Some false; patchHours := Some 48 |}
                       notifiedStore)
     = {| checked := false; value := "48" |}.
Proof.
  assert (L : (String.length (value {| checked := false; value := " 048 hours" |})
               <= 15)%nat) by (simpl; lia).
  split; [exact L|]. split; [reflexivity|].
  destruct (proj1 (proj2 (options_round_trip notifiedStore))
              {| checked := false; value := " 048 hours" |}
              {| patchEnabled := Some false; patchHours := Some 48 |} L eq_refl)
    as [_ [hours [E [_ R]]]].
  injection E as <-. exact R.
Defined.

End OptionsFacts.

(** * More properties of the date normaliser *)

Module CopyFacts.
Import JsString JsDate Normaliser Fragments CopyFragments JsDateFacts NormaliserFacts.
Import Scrapers ScraperFacts.

Local Open Scope string_scope.
Local Open Scope Z_scope.

(** ** The cleaned text *)

(** A global replacement writes nothing but characters of the text and
    of the replacement. *)
Lemma replaceFrom_chars (q : ascii -> bool) (r : Regex) (n : nat) (by_ : string) :
  allChars q by_ = true ->
  forall (s : string) (skip : nat) (prev : option ascii),
    allChars q s = true ->
    allChars q (replaceFrom r n by_ skip prev s) = true.
Proof.
  intro Hb. induction s as [|c s IH]; intros skip prev Hs.
  - destruct skip; cbn [replaceFrom]; [|reflexivity].
    destruct (matchHere r n prev ""); [exact Hb|reflexivity].
  - cbn [allChars] in Hs. apply andb_true_iff in Hs. destruct Hs as [Hc Hs].
    destruct skip as [|skip]; cbn [replaceFrom]; [|apply IH; exact Hs].
    destruct (matchHere r n prev (String c s)) as [[rest caps]|].
    + destruct (String.length (String c s) - String.length rest)%nat;
        rewrite allChars_app, Hb; cbn [andb allChars];
        rewrite ?Hc; cbn [andb]; apply IH; exact Hs.
    + cbn [allChars]. rewrite Hc. apply IH. exact Hs.
Qed.

Lemma replaceAll_chars (q : ascii -> bool) (r : Regex) (n : nat) (by_ s : string) :
  allChars q by_ = true -> allChars q s = true ->
  allChars q (replaceAll r n by_ s) = true.
Proof. intros Hb Hs. apply replaceFrom_chars; assumption. Qed.

Lemma trimStart_chars (q : ascii -> bool) (s : string) :
  allChars q s = true -> allChars q (trimStart s) = true.
Proof.
  induction s as [|c s IH]; intro H; [reflexivity|]. cbn [trimStart].
  destruct (isSpace c); [|exact H].
  cbn [allChars] in H. apply andb_true_iff in H. apply IH, H.
Qed.

Lemma trimEnd_chars (q : ascii -> bool) (s : string) :
  allChars q s = true -> allChars q (trimEnd s) = true.
Proof.
  induction s as [|c s IH]; intro H; [reflexivity|].
  cbn [allChars] in H. apply andb_true_iff in H. destruct H as [Hc Hs].
  specialize (IH Hs). cbn [trimEnd].
  destruct (trimEnd s) as [|x t].
  - destruct (isSpace c); [reflexivity|]. cbn [allChars]. rewrite Hc. reflexivity.
  - cbn [allChars] in IH |- *. rewrite Hc. exact IH.
Qed.

Lemma trim_chars (q : ascii -> bool) (s : string) :
  allChars q s = true -> allChars q (trim s) = true.
Proof. intro H. apply trimEnd_chars, trimStart_chars, H. Qed.

Lemma cleanString_chars (q : ascii -> bool) (text : string) :
  q " "%char = true -> allChars q (toLowerCase text) = true ->
  allChars q (cleanString text) = true.
Proof.
  intros Hq H. unfold cleanString.
  apply trim_chars.
  apply replaceAll_chars; [cbn [allChars]; rewrite Hq; reflexivity|].
  apply replaceAll_chars; [cbn [allChars]; rewrite Hq; reflexivity|].
  apply replaceAll_chars; [reflexivity|].
  apply replaceAll_chars; [reflexivity|]. exact H.
Qed.

Lemma lowerChar_lowered (c : ascii) : isLowered (lowerChar c) = true.
Proof.
  assert (H : forallb (fun c => isLowered (lowerChar c)) allAscii = true)
    by (vm_compute; reflexivity).
  rewrite forallb_forall in H. apply H, in_allAscii.
Qed.

Lemma toLowerCase_lowered (s : string) : allChars isLowered (toLowerCase s) = true.
Proof.
  induction s as [|c s IH]; [reflexivity|]. cbn [toLowerCase allChars].
  rewrite lowerChar_lowered, IH. reflexivity.
Qed.

Lemma lowered_fixed (s : string) : allChars isLowered s = true -> toLowerCase s = s.
Proof.
  induction s as [|c s IH]; intro H; [reflexivity|].
  cbn [allChars] in H. apply andb_true_iff in H. destruct H as [Hc Hs].
  cbn [toLowerCase]. rewrite (IH Hs). f_equal. apply Ascii.eqb_eq. exact Hc.
Qed.

(** White space collapsed. *)
Lemma matchHere_spaces (n : nat) (prev : option ascii) (s : string) :
  matchHere spacesRe n prev s
  = if (span isSpace None s <? 1)%nat then None
    else Some (drop (span isSpace None s) s, repeat None n).
Proof.
  unfold matchHere, spacesRe, atLeast. cbn [matchAt].
  destruct (span isSpace None s <? 1)%nat; [reflexivity|].
  apply backoff_first.
Qed.

Lemma replaceFrom_spaces (n : nat) (s : string) :
  forall prev : option ascii,
    replaceFrom spacesRe n " " O prev s = collapseFrom false s
    /\ replaceFrom spacesRe n " " (span isSpace None s) prev s = collapseFrom true s.
Proof.
  induction s as [|c s IH]; intro prev.
  - cbn [span replaceFrom collapseFrom]. rewrite matchHere_spaces. split; reflexivity.
  - assert (Z : replaceFrom spacesRe n " " O prev (String c s)
                = collapseFrom false (String c s)).
    { cbn [replaceFrom collapseFrom]. rewrite matchHere_spaces.
      cbn [span]. destruct (isSpace c) eqn:E.
      - cbn [Nat.ltb Nat.leb]. rewrite length_drop.
        replace (String.length (String c s)
                 - (String.length (String c s) - S (span isSpace None s)))%nat
          with (S (span isSpace None s)).
        + cbn [append]. f_equal. apply (IH (Some c)).
        + assert (L : (span isSpace None s <= String.length s)%nat).
          { clear. induction s as [|x s IH]; simpl; [lia|].
            destruct (isSpace x); simpl; lia. }
          cbn [String.length]. lia.
      - cbn [Nat.ltb Nat.leb]. f_equal. apply (IH (Some c)). }
    split; [exact Z|].
    cbn [span]. destruct (isSpace c) eqn:E.
    + cbn [replaceFrom collapseFrom]. rewrite E. apply (IH (Some c)).
    + rewrite Z. cbn [collapseFrom]. rewrite E. reflexivity.
Qed.

Lemma collapse_loose (s : string) (b : bool) :
  looseFrom b (collapseFrom b s) = true.
Proof.
  revert b. induction s as [|c s IH]; intro b; [reflexivity|].
  cbn [collapseFrom]. destruct (isSpace c) eqn:E.
  - destruct b; [apply IH|]. cbn [looseFrom].
    change (isSpace " ") with true. cbn [negb andb]. apply IH.
  - cbn [looseFrom]. rewrite E. apply IH.
Qed.

Lemma looseFrom_weaken (s : string) (b : bool) :
  looseFrom b s = true -> looseFrom false s = true.
Proof.
  destruct s as [|c s]; [reflexivity|]. cbn [looseFrom].
  destruct (isSpace c); [|tauto]. destruct b; [discriminate|tauto].
Qed.

Lemma trimStart_loose (s : string) (b : bool) :
  looseFrom b s = true -> looseFrom true (trimStart s) = true.
Proof.
  revert b. induction s as [|c s IH]; intros b H; [reflexivity|].
  cbn [trimStart]. cbn [looseFrom] in H. destruct (isSpace c) eqn:E.
  - apply andb_true_iff in H. destruct H as [_ H]. apply (IH true H).
  - cbn [looseFrom]. rewrite E. exact H.
Qed.

Lemma trimEnd_spaced (s : string) (b : bool) :
  looseFrom b s = true -> spacedFrom b (trimEnd s) = true.
Proof.
  revert b. induction s as [|c s IH]; intros b H; [reflexivity|].
  cbn [looseFrom] in H. cbn [trimEnd].
  destruct (isSpace c) eqn:E.
  - apply andb_true_iff in H. destruct H as [H Hs].
    specialize (IH true Hs).
    destruct (trimEnd s) as [|x t]; [reflexivity|].
    cbn [spacedFrom]. rewrite E, H. cbn [andb String.eqb negb]. exact IH.
  - specialize (IH false H).
    destruct (trimEnd s) as [|x t].
    + cbn [spacedFrom]. rewrite E. reflexivity.
    + cbn [spacedFrom]. rewrite E. exact IH.
Qed.

Lemma spaced_trimStart (c : string) :
  spacedFrom true c = true -> trimStart c = c.
Proof.
  destruct c as [|x c]; [reflexivity|]. cbn [trimStart spacedFrom].
  destruct (isSpace x); [discriminate|reflexivity].
Qed.

Lemma spaced_trimEnd (c : string) (b : bool) :
  spacedFrom b c = true -> trimEnd c = c.
Proof.
  revert b. induction c as [|x c IH]; intros b S; [reflexivity|].
  cbn [spacedFrom] in S. destruct (isSpace x) eqn:E.
  - apply andb_true_iff in S. destruct S as [S1 S2].
    apply andb_true_iff in S1. destruct S1 as [_ Ne].
    rewrite trimEnd_cons; [rewrite (IH true S2); reflexivity|].
    right. rewrite (IH true S2). intro Q. rewrite Q in Ne. discriminate Ne.
  - rewrite trimEnd_cons by (left; exact E). rewrite (IH false S). reflexivity.
Qed.

(** X28.  The text that the three copies of the normaliser work on, whatever
    the text they are given: it is in lower case, holds no "@", and its
    white space is single spaces between two characters that are none,
    none at its start and none at its end. *)
Theorem cleanString_normal_form :
  forall text : string,
    toLowerCase (cleanString text) = cleanString text
    /\ without (Ascii.eqb "@") (cleanString text) = true
    /\ singleSpaced (cleanString text) = true
    /\ trim (cleanString text) = cleanString text.
Proof.
  intro text.
  assert (S : singleSpaced (cleanString text) = true).
  { unfold singleSpaced, cleanString, trim.
    apply trimEnd_spaced with (b := true). apply trimStart_loose with (b := false).
    unfold replaceAll at 1.
    rewrite (proj1 (replaceFrom_spaces 0 _ None)). apply collapse_loose. }
  split; [|split; [|split; [exact S|]]].
  - apply lowered_fixed. apply cleanString_chars; [reflexivity|].
    apply toLowerCase_lowered.
  - unfold cleanString, without. apply trim_chars.
    apply replaceAll_chars; [reflexivity|].
    unfold atRe, chr. rewrite replaceAll_class.
    generalize (replaceAll untilRe 0 "" (replaceAll dueRe 0 "" (toLowerCase text))).
    intro s. induction s as [|c s IH]; [reflexivity|]. cbn [replaceEach].
    destruct (Ascii.eqb "@" c) eqn:E; cbn [append allChars]; rewrite ?E; exact IH.
  - unfold trim. rewrite (spaced_trimStart _ S). apply (spaced_trimEnd _ true S).
Qed.

Example cleaning_a_prairielearn_date :
  cleanString "  Due:  Sunday,   Dec 25 @ 11:59 PM CST " = ": sunday, dec 25 11:59 pm cst".
Proof. vm_compute. reflexivity. Qed.

(** ** The steps of the inlined copies *)

Lemma prairielearn_formats (host : Host) (now : Z) (text : string) :
  String.eqb text "" = false ->
  includes "today" (cleanString text) = false ->
  includes "tomorrow" (cleanString text) = false ->
  PrairieLearn.parseDateString host now (JsString text)
  = let timeMatch := exec timeRe 3 (cleanString text) in
    let cleanStr :=
      trim (replaceAll zoneRe 1 "" (dateText timeMatch (cleanString text))) in
    firstOf
      [ PrairieLearn.weekdayMonthDay host now (hoursOf timeMatch)
          (minutesOf timeMatch) cleanStr;
        PrairieLearn.monthDay host now (hoursOf timeMatch) (minutesOf timeMatch)
          cleanStr;
        PrairieLearn.slashYear host (hoursOf timeMatch) (minutesOf timeMatch)
          cleanStr;
        nativeDate host timeMatch cleanStr ].
Proof.
  intros N H0 H1. unfold PrairieLearn.parseDateString.
  cbn [toBoolean isString negb orb]. rewrite N. cbn [negb orb].
  rewrite H0, H1. reflexivity.
Qed.

Lemma gradescope_formats (host : Host) (now : Z) (text : string) :
  String.eqb text "" = false ->
  includes "today" (cleanString text) = false ->
  includes "tomorrow" (cleanString text) = false ->
  Gradescope.parseDateString host now (JsString text)
  = let timeMatch := exec timeRe 3 (cleanString text) in
    let cleanStr := dateText timeMatch (cleanString text) in
    firstOf
      [ PrairieLearn.monthDay host now (hoursOf timeMatch) (minutesOf timeMatch)
          cleanStr;
        PrairieLearn.slashYear host (hoursOf timeMatch) (minutesOf timeMatch)
          cleanStr;
        nativeDate host timeMatch cleanStr ].
Proof.
  intros N H0 H1. unfold Gradescope.parseDateString.
  cbn [toBoolean isString negb orb]. rewrite N. cbn [negb orb].
  rewrite H0, H1. reflexivity.
Qed.

Lemma monthDay_found (host : Host) (now : Z) (cleanStr : string)
    (month day tv : Z) :
  findsMonthDay cleanStr month day = true ->
  rollForward host now (getFullYear (LocalTZA host) now)
    (newDate (LocalTZA host) (getFullYear (LocalTZA host) now) month day 23 59 0)
  = Some tv ->
  PrairieLearn.monthDay host now 23 59 cleanStr = Normal (Some (isoString tv)).
Proof.
  unfold findsMonthDay, PrairieLearn.monthDay. intros F R.
  destruct (exec monthDayRe 2 cleanStr) as [m|]; [|discriminate F].
  apply andb_true_iff in F. destruct F as [Fm Fd].
  destruct (monthNames (toLowerCase (capture 1 m))) as [mo| |] eqn:Lk;
    try discriminate Fm.
  apply Z.eqb_eq in Fm, Fd. subst mo.
  unfold monthNameDate. rewrite Lk, Fd, R. reflexivity.
Qed.

Ltac splitShape S H :=
  apply andb_true_iff in S; destruct S as [S H].

Lemma prairieLearnShape_sound (host : Host) (now : Z) (text : string)
    (month day tv : Z) :
  prairieLearnShape text month day = true ->
  rollForward host now (getFullYear (LocalTZA host) now)
    (newDate (LocalTZA host) (getFullYear (LocalTZA host) now) month day 23 59 0)
  = Some tv ->
  PrairieLearn.parseDateString host now (JsString text)
  = Normal (Some (isoString tv)).
Proof.
  unfold prairieLearnShape. intros S R.
  splitShape S Sf. splitShape S Sw. splitShape S St. splitShape S S1.
  splitShape S S0.
  apply isNone_true in Sw, St. apply negb_true_iff in S, S0, S1.
  rewrite prairielearn_formats by assumption.
  rewrite St. cbn [dateText hoursOf minutesOf firstOf].
  unfold PrairieLearn.weekdayMonthDay. rewrite Sw. cbn [bind].
  rewrite (monthDay_found host now _ month day tv Sf R). reflexivity.
Qed.

Lemma gradescopeShape_sound (host : Host) (now : Z) (text : string)
    (month day tv : Z) :
  gradescopeShape text month day = true ->
  rollForward host now (getFullYear (LocalTZA host) now)
    (newDate (LocalTZA host) (getFullYear (LocalTZA host) now) month day 23 59 0)
  = Some tv ->
  Gradescope.parseDateString host now (JsString text)
  = Normal (Some (isoString tv)).
Proof.
  unfold gradescopeShape. intros S R.
  splitShape S Sf. splitShape S St. splitShape S S1. splitShape S S0.
  apply isNone_true in St. apply negb_true_iff in S, S0, S1.
  rewrite gradescope_formats by assumption.
  rewrite St. cbn [dateText hoursOf minutesOf firstOf].
  rewrite (monthDay_found host now _ month day tv Sf R). reflexivity.
Qed.

Lemma hostShape_sound (host : Host) (now : Z) (text : string) :
  hostShape text = true ->
  PrairieLearn.parseDateString host now (JsString text) = nativeDate host None text
  /\ Gradescope.parseDateString host now (JsString text) = nativeDate host None text.
Proof.
  unfold hostShape. intro S.
  splitShape S Ss. splitShape S Sm. splitShape S Sw. splitShape S Sz.
  splitShape S St. splitShape S S1. splitShape S S0. splitShape S Sc.
  apply isNone_true in Ss, Sm, Sw, St. apply negb_true_iff in S, S0, S1.
  apply String.eqb_eq in Sz, Sc.
  split.
  - rewrite prairielearn_formats by assumption.
    rewrite St. cbn [dateText hoursOf minutesOf]. rewrite Sz.
    cbn [firstOf].
    unfold PrairieLearn.weekdayMonthDay, PrairieLearn.monthDay,
      PrairieLearn.slashYear.
    rewrite Sw, Sm, Ss. cbn [bind]. rewrite Sc.
    destruct (nativeDate host None text) as [[iso|]|e]; reflexivity.
  - rewrite gradescope_formats by assumption.
    rewrite St. cbn [dateText hoursOf minutesOf firstOf].
    unfold PrairieLearn.monthDay, PrairieLearn.slashYear.
    rewrite Sm, Ss. cbn [bind]. rewrite Sc.
    destruct (nativeDate host None text) as [[iso|]|e]; reflexivity.
Qed.

(** ** The fragments, one by one *)

Lemma zonedFragments_lib :
  forallb (fun f => monthDayShape (fst (fst f)) (snd (fst f)) (snd f))
          zonedFragments = true.
Proof. vm_cast_no_check (eq_refl true). Qed.

Lemma zonedFragments_prairielearn :
  forallb (fun f => prairieLearnShape (fst (fst f)) (snd (fst f)) (snd f))
          zonedFragments = true.
Proof. vm_cast_no_check (eq_refl true). Qed.

Lemma zonedFragments_gradescope :
  forallb (fun f => gradescopeShape (fst (fst f)) (snd (fst f)) (snd f))
          zonedFragments = true.
Proof. vm_cast_no_check (eq_refl true). Qed.

Lemma slashFragments_host :
  forallb (fun f => hostShape (fst (fst f))) slashFragments = true.
Proof. vm_cast_no_check (eq_refl true). Qed.

Lemma in_zonedFragments (name : string) (month d : Z) (z : string) :
  In (name, month) monthTable -> (1 <= d <= 31)%Z -> In z zoneSuffixes ->
  In (name ++ " " ++ digits d ++ z, month, d) zonedFragments.
Proof.
  intros Hn Hd Hz. unfold zonedFragments. apply in_flat_map. exists (name, month).
  split; [exact Hn|]. apply in_flat_map. exists d.
  split; [apply in_days; exact Hd|].
  apply in_map_iff. exists z. split; [reflexivity|exact Hz].
Qed.

Lemma copies_lowercase (host : Host) (now : Z) (text1 text2 : string) :
  toLowerCase text1 = toLowerCase text2 ->
  PrairieLearn.parseDateString host now (JsString text1)
  = PrairieLearn.parseDateString host now (JsString text2)
  /\ Gradescope.parseDateString host now (JsString text1)
     = Gradescope.parseDateString host now (JsString text2).
Proof.
  intro H.
  assert (C : cleanString text1 = cleanString text2)
    by (unfold cleanString; rewrite H; reflexivity).
  assert (E : String.eqb text1 "" = String.eqb text2 "").
  { destruct text1, text2; try reflexivity; discriminate H. }
  unfold PrairieLearn.parseDateString, Gradescope.parseDateString.
  cbn [toBoolean isString]. rewrite C, E. split; reflexivity.
Qed.

(** X24.  The library and its two inlined copies read a month name and a day
    alike, in any spelling of upper and lower case, and a zone
    abbreviation after them changes nothing: the three return the same
    instant, which is the given day of the year of the clock at 23:59
    local time when that instant is not before the clock, and that
    instant with its year set one forward when it is.  The zone is not
    applied. *)
Theorem copies_agree_on_month_and_day :
  forall (host : Host) (now : Z) (text name zone : string) (month d : Z),
    zoneBounded host -> clockInRange now ->
    In (name, month) monthTable -> (1 <= d <= 31)%Z -> In zone zoneSuffixes ->
    toLowerCase text = name ++ " " ++ digits d ++ zone ->
    exists tv : Z,
      inferredInstant host now month d 23 59 tv
      /\ DateParser.parseDateString host now (JsString text)
         = Normal (Some (isoString tv))
      /\ PrairieLearn.parseDateString host now (JsString text)
         = Normal (Some (isoString tv))
      /\ Gradescope.parseDateString host now (JsString text)
         = Normal (Some (isoString tv)).
Proof.
  intros host now text name zone month d Hz Hc Hn Hd Hzone Ht.
  destruct (monthTable_entry name month Hn) as [Hl Hm].
  destruct (yearOfClock_date host now month d 23 59 Hz Hc) as [tv R]; try lia.
  exists tv. split; [apply rollForward_inferred; exact R|].
  pose proof (in_zonedFragments name month d zone Hn Hd Hzone) as F.
  assert (L : toLowerCase text = toLowerCase (name ++ " " ++ digits d ++ zone)).
  { rewrite Ht. symmetry.
    assert (Fix : forallb (fun f => String.eqb (toLowerCase (fst (fst f)))
                                               (fst (fst f)))
                          zonedFragments = true)
      by (vm_cast_no_check (eq_refl true)).
    rewrite forallb_forall in Fix. specialize (Fix _ F). cbn [fst] in Fix.
    apply String.eqb_eq. exact Fix. }
  destruct (copies_lowercase host now _ _ L) as [P G].
  rewrite (lib_lowercase host now _ _ L), P, G.
  pose proof zonedFragments_lib as A. pose proof zonedFragments_prairielearn as B.
  pose proof zonedFragments_gradescope as C.
  rewrite forallb_forall in A, B, C.
  specialize (A _ F). specialize (B _ F). specialize (C _ F). cbn [fst snd] in A, B, C.
  split; [|split].
  - apply (monthDayShape_sound host now _ month d tv A R).
  - apply (prairieLearnShape_sound host now _ month d tv B R).
  - apply (gradescopeShape_sound host now _ month d tv C R).
Qed.

Lemma copies_agree_on_month_and_day_witness :
  exists tv : Z,
    PrairieLearn.parseDateString centralStandard newYear2025
      (JsString "Dec 25 CST") = Normal (Some (isoString tv))
    /\ Gradescope.parseDateString centralStandard newYear2025
         (JsString "Dec 25 CST") = Normal (Some (isoString tv)).
Proof.
  destruct (copies_agree_on_month_and_day centralStandard newYear2025
              "Dec 25 CST" "dec" " cst" 11 25
              centralStandard_zoneBounded newYear2025_inRange)
    as [tv [_ [_ [P G]]]].
  - do 21 right. left. reflexivity.
  - lia.
  - right. left. reflexivity.
  - reflexivity.
  - exists tv. split; assumption.
Defined.

(** X25.  The inlined copies have no pattern for a month and a day written
    with a slash and no year: they hand such a text to the host's
    [Date.parse] and return the end of the local day of whatever it reads,
    or null when it reads nothing, where the library returns the day of the
    year of the clock, rolled forward. *)
Theorem inlined_copies_leave_month_slash_day_to_the_host :
  forall (host : Host) (now : Z) (mtext dtext : string) (mo d : Z),
    (1 <= mo <= 12)%Z -> (1 <= d <= 31)%Z ->
    In mtext (numerals mo) -> In dtext (numerals d) ->
    let text := mtext ++ "/" ++ dtext in
    PrairieLearn.parseDateString host now (JsString text) = nativeDate host None text
    /\ Gradescope.parseDateString host now (JsString text)
       = nativeDate host None text
    /\ (dateParse host text = None ->
        PrairieLearn.parseDateString host now (JsString text) = Normal None
        /\ Gradescope.parseDateString host now (JsString text) = Normal None)
    /\ (zoneBounded host -> clockInRange now ->
        exists tv : Z,
          DateParser.parseDateString host now (JsString text)
          = Normal (Some (isoString tv))).
Proof.
  intros host now mtext dtext mo d Hm Hd Hmt Hdt text.
  assert (S : hostShape text = true).
  { pose proof slashFragments_host as F. rewrite forallb_forall in F.
    apply (F (text, (mo - 1)%Z, d)).
    unfold slashFragments. apply in_flat_map. exists mo.
    split; [apply in_months; exact Hm|]. apply in_flat_map. exists d.
    split; [apply in_days; exact Hd|]. apply in_flat_map. exists mtext.
    split; [exact Hmt|].
    apply in_map_iff. exists dtext. split; [reflexivity|exact Hdt]. }
  destruct (hostShape_sound host now text S) as [P G].
  split; [exact P|]. split; [exact G|]. split.
  - intro N. rewrite P, G. unfold nativeDate, newDateFromString. rewrite N.
    split; reflexivity.
  - intros Hz Hc.
    destruct (slash_rolls host now mtext dtext mo d Hz Hc Hm Hd Hmt Hdt)
      as [tv [_ L]].
    exists tv. exact L.
Qed.

Lemma inlined_copies_leave_month_slash_day_to_the_host_witness :
  dateParse utc "12/25" = None
  /\ PrairieLearn.parseDateString utc june2025 (JsString "12/25") = Normal None
  /\ Gradescope.parseDateString utc june2025 (JsString "12/25") = Normal None.
Proof.
  split; [reflexivity|].
  refine (proj1 (proj2 (proj2
            (inlined_copies_leave_month_slash_day_to_the_host utc june2025
               "12" "25" 12 25 _ _ _ _))) eq_refl).
  - lia.
  - lia.
  - left. reflexivity.
  - left. reflexivity.
Defined.

End CopyFacts.
